(* ===== verification/_CoqProject ===== *)
-Q . S2P
Prelude.v
Go.v
GoTime.v
Config.v
CLayout.v
LayoutFacts.v
Vmlinux.v
Kernel.v
Probes.v
KernelAbi.v
ProbeFacts.v
GatherFacts.v
Loader.v
LoaderFacts.v
LoaderMaps.v
LoaderTheorems.v
Wire.v
ProbeSpec.v
KernelTheorems.v
Breaker.v
BreakerTheorems.v
GoStrings.v
Encodings.v
EncodingFacts.v
Json.v
JsonFacts.v
Model.v
Store.v
Tagger.v
Egress.v
EgressTheorems.v
Regex.v
Taint.v
TaintTheorems.v
Overlap.v
OverlapTheorems.v
Container.v
Match.v
Carried.v
Engine.v
EngineFacts.v
Demo.v
EngineRuns.v
EngineInvariants.v
EngineTheorems.v
VaultTheorems.v
Exfil.v
ExfilKernel.v
NetIP.v
Sensor.v
SensorTheorems.v
FailClosedTheorems.v
Attribution.v
Proc.v
ProcTheorems.v
Watcher.v
WatcherTheorems.v
Deploy.v
DeployTheorems.v
Evidence.v
EvidenceTheorems.v
Sqlite.v
SqliteTheorems.v
Siem.v
AsyncSink.v
AsyncSinkTheorems.v
Framer.v
Rpc.v
Bridge.v
BridgeTheorems.v
Proxy.v
ProxyTheorems.v
Sessions.v
SessionsTheorems.v
Validate.v
Url.v
Http.v
HttpTheorems.v
SettingsTheorems.v
Findings.v
