(* ===== verification/Prelude.v ===== *)
(** * Interlock: a verification development (root file)

    Interlock is a runtime firewall for AI agents. It registers the secrets that tool results
    and sensitive files bring into a session, and asks of everything that leaves whether their
    bytes are in it. This library translates the program into Rocq and proves what its parts
    promise. It follows the sources under src/: C (internal/ebpf/bpf) and Go (the rest).

    ** The program and how its parts interact

    - The _proxy_ (internal/proxy) stands between an agent and its MCP servers. It reads frames,
      asks the engine about every tools/call, answers, refuses or forwards it, and hands every
      result to the engine before the agent sees it. Its _session manager_ starts the servers of a
      session and reports their processes to the _PID registry_.
    - The _engine_ (internal/engine) keeps the sessions: tainted values, legs of the trifecta,
      reassembly buffers, the token vault. It decides calls and kernel events, and writes evidence
      records through the _evidence chain_ and the _asynchronous sink_.
    - The _kernel plane_ (internal/ebpf): the BPF programs of connect.c write records into two
      ring buffers, the _loader_ decodes them and writes the BPF maps, the _sensor_ turns records
      into events for the engine, kills and quarantines; an LSM hook refuses connects of what is
      quarantined.
    - The _breaker_ (internal/failclosed) watches drops, sink failures and panics, and has the
      sensor quarantine everything it watches while it is engaged.
    - The _pod watcher_ (internal/k8s) keeps the registry that attributes events to pods, and
      reads files of containers for the engine.
    - The _bridge_ (internal/bridge) carries taint between the proxy and the sensor.

    ** Which file models what

    Prelude to CLayout: generic. [Prelude] bytes, automation and list lemmas; [Go] values, errors
    and panics, slices; [GoTime] float64, durations; [GoStrings] package strings; [CLayout],
    [LayoutFacts] C object layout; [Config] the sections of internal/config/config.go.

    Kernel plane. [Vmlinux], [Kernel], [Probes], [KernelAbi] are vmlinux.h and connect.c: one
    definition per BPF program and helper, over the record [kmaps] of the maps. [ProbeFacts],
    [GatherFacts] their lemmas; [ProbeSpec] the abstract specification and the refinement;
    [Loader], [LoaderMaps] loader.go, [LoaderFacts], [LoaderTheorems] what its calls mean to the
    programs; [Wire] the record format between both; [KernelTheorems] the properties. [NetIP],
    [Sensor], [SensorTheorems] are sensor.go; [Breaker], [BreakerTheorems] breaker.go;
    [FailClosedTheorems] the two together.

    Engine. [Encodings], [EncodingFacts] encoding.go; [Json], [JsonFacts] what encoding/json
    does; [Model] internal/model/model.go; [Store] session_store.go; [Tagger] tagger.go; [Egress], [EgressTheorems] the buffers of engine.go;
    [Regex] package regexp; [Taint], [TaintTheorems] taint.go, chunk.go, entropy.go;
    [Overlap], [OverlapTheorems] decode.go, bind.go and part of overlap.go; [Container]
    container.go; [Match] the rest of overlap.go, vault.go, path_taint.go; [Carried] the
    specification of an overlap hit;
    [Engine] engine.go: each exported method is a function of a [World] (store, clock readings,
    outputs). [EngineFacts], [EngineRuns], [EngineInvariants] the program logic and the session
    invariants; [Demo] a deployment for the witnesses; [EngineTheorems], [VaultTheorems],
    [Exfil], [ExfilKernel] the properties.

    Evidence. [Evidence], [EvidenceTheorems] evidence_chain.go, evidence_sink.go; [AsyncSink],
    [AsyncSinkTheorems] evidence_async.go, as interleaved steps; [Sqlite], [SqliteTheorems]
    evidence_sqlite.go, over the statements of the database; [Siem] cef.go.

    Proxy. [Framer] framer.go; [Rpc] the JSON-RPC part of model.go and the texts of dispatch.go;
    [Proxy], [ProxyTheorems] dispatch.go and proxy.go as steps over a session, its calls in
    flight and what the readers of the servers' frames are at: a frame is delivered in several steps, from
    one lock to the next; [Attribution] pid_registry.go (and internal/k8s/attribution.go); [Sessions],
    [SessionsTheorems] session_manager.go as interleaved threads; [Bridge], [BridgeTheorems] the
    messages, checks and handlers of internal/bridge, from the engine of a proxy to that of the
    sensor. [Url] net/url.Parse; [Http], [HttpTheorems] headers.go, ratelimit.go, response.go and
    transport.go of internal/proxy/http over the session manager and the proxy.

    Settings. [Validate], [SettingsTheorems] config.go, config_validate_sections.go and spawn.go:
    the checks of a configuration, and what a server process is started with.

    Nodes. [Proc], [ProcTheorems] proc.go, cgroup.go, cgroup_id.go, proc_root.go, over a tree of
    files in which paths are followed, symbolic links included; [Watcher],
    [WatcherTheorems] watcher.go as interleaved steps, a call of a hook being one of its own; [Deploy], [DeployTheorems] the handlers of
    cmd/interlock/main.go that wire sensor, engine, breaker and registry. [Findings] small
    inputs on which the code does not do what is said of it.

    ** What the theorems show

    - End to end: a secret that leaves through a tool call, in the arguments as they came or with the tokens of
      the vault replaced, is refused before it reaches a server ([exfil_blocked], [exfil_frame_refused], [only_allowed_calls_forwarded]); one that
      leaves by a write, whole or in pieces, gets its process killed and quarantined
      ([split_exfil_contained], [exfil_write_contained]), also when another process, the proxy,
      registered it ([bridge_delivers], [bridged_secret_contained]); and whatever is blocked or
      killed as EXFIL is proof, that is, bytes of a registered value in the payload
      ([exfil_request_is_proof], [kernel_exfil_is_proof], [force_is_proof]; the notion is
      [carries] of [Carried]). From reading to sending in one statement: a Stripe key that a
      sensitive source shows is taken up and refused at every sink ([read_key_refused]).
    - What is registered: results of the calls in flight are ingested before the agent sees them, those that
      come before their call excepted ([answers_are_ingested]), a key that stands alone in a text is found wherever it stands
      ([stripe_extracted]), taint stays ([taint_persists]), sessions do not touch each other
      ([sessions_isolated]), memory is bounded ([session_memory_bounded]).
    - Kernel plane: the programs implement [spec] ([run_refines_spec]); the records they write are laid out as
      the loader reads them ([record_layouts_agree], [kernel_abi_agrees]); the hook denies exactly what is quarantined; no input makes a
      decoder panic.
    - Fail-closed: when the breaker clears, what clearing lifts, and that a latched panic is never cleared ([clear_is_earned],
      [fail_closed_clears_exactly], [panic_never_clears]).
    - Evidence: an untouched chain of clean records (UTF-8 texts, raw messages as Marshal spells them) verifies
      if its lines are shorter than the MiB the readers take, and cannot be read if one is longer
      ([sink_chain_verifies]), a touched one does not unless
      SHA-256 collides ([chain_tamper_evident]), and the queue accounts for every record
      in every interleaving ([async_accounts_for_records]); what the SQLite sink retains is an end
      of the chain ([retained_chain_verifies]); no text of a record forges a field of the line it
      is exported as ([cef_unforgeable]).
    - HTTP: in every interleaving, what is written to a server is the body of a request that passed
      all checks and showed the MCP session ID that was given out for that very session and to no other
      request, 16 random bytes never being drawn twice ([http_calls_authorised]); the origins that are accepted are exactly the allowed hosts
      ([origin_exact]); a refused request changes nothing ([http_refusal_harmless]); a reply
      sent as an event is read back as it was ([sse_roundtrip]).
    - Settings: validation fills in the defaults, and is a normal form with a declarative description ([validate_settles]);
      a server is started from the executable that was pinned ([spawn_pinned]).
    - Nodes: attribution follows the pods through the interleavings of the watcher in which no PID leaves the
      registry before its OnWatch call, resp. no pod is removed under a rescan
      ([watched_is_attributed], [removed_pod_forgotten]; the others break it, see their Examples); files of a container are read under its
      root where no symbolic link leads out of it ([container_reads_confined], [link_leaves_container]).
    - Sessions: in every interleaving of creations, clean-ups and sweeps, the servers of a listed
      session are registered for it ([live_servers_attributed]), an MCP session keeps to its own
      ([mcp_sessions_private]), and what is left of a cleaned-up session is nothing
      ([gone_sessions_leave_nothing]).

    ** Fuel and bounds

    Every recursion that is not structural runs on fuel that is computed from its input, and is
    enough: scanning loops over a string get its length, and consume a byte each round
    ([runes], [escape], [read_frame], [aligned], [duration_groups]); the JSON parser gets the
    length and the nesting limit of the scanner, 10000, which is Go's; the decoder of
    [Overlap] gets the configured depth, as the code does; the archive walk gets its depth
    limit plus one, its reads one round per byte of the budget ([read_loop_fuel]); a path is
    followed over 40 symbolic links, as the kernel does ([max_links]);
    [gather_loop] is the unrolled loop of IOV_MAX rounds; the walk over JSON text stops at the
    depth the code stops at. [parse_v6] reads at most eight groups. Machine integers are Z with
    their wrap-around written out ([u32], [u64], [i64]).

    ** Parameters

    Code that is not in the repository is a class, with what is relied on as its laws: the BPF
    helpers and the map system calls ([Helpers], [HelpersOk], [BpfMap], [BpfMapOk]); the
    compressors and archive readers ([Compressors], [Archives], [ArchivesOk]); the order of Go's
    map iteration, a permutation ([MapOrder], [KeyOrder]); clocks ([Clock], [SensorClock]);
    platform-dependent floats ([MathLog2], [FloatToInt]); the decimal text of floats ([Floats],
    [FloatFormat], [Fixed2]), error texts of encoding/json ([JsonErrors]) and case mapping beyond
    ASCII ([UnicodeLower], [UnicodeUpper]); the node's processes and files ([Node], [files], [filesystem]); the bytes
    crypto/rand draws; the statements of the evidence database ([SQLite], [SQLiteOk]). Where a property needs one, its
    witness runs on a concrete instance. SHA-256, base64, hex, JSON and the regular expressions
    are computed.

    ** Not modelled

    Log lines; start-up, flags and wiring of cmd/; YAML decoding; the schema of the database; what
    net/http does around the handlers; OCSF and metrics output; system calls that start, sandbox or stop processes; generated bindings; test
    corpora and demo servers. Two threads of the program interleave at the granularity of locked
    sections and channel operations; data races on unlocked fields are not modelled. Of vmlinux.h,
    what the objects behind connect.c contain by value. *)

From Stdlib Require Import ZArith Lia.
From Stdlib Require Export Strings.Byte.
From stdpp Require Export base list gmap strings.

Open Scope Z_scope.

(** ** Bytes

    A Go string, a Go [[]byte] and a C memory region are lists of bytes. *)

Abbreviation byte := Byte.byte.
Abbreviation bytes := (list Byte.byte).

#[global] Instance byte_eq_dec : EqDecision byte := Byte.byte_eq_dec.

#[global] Program Instance byte_countable : Countable byte := {|
  encode b := encode (Byte.to_N b);
  decode p := decode p ≫= Byte.of_N
|}.
Next Obligation.
  intros b. cbn beta. rewrite decode_encode. cbn. apply Byte.of_to_N.
Qed.

(** A string literal as the bytes of the Go string it denotes. *)
Definition gostr (s : string) : bytes := String.list_byte_of_string s.
Arguments gostr s%_string.

Definition byte_Z (b : byte) : Z := Z.of_N (Byte.to_N b).

Definition Z_byte (z : Z) : byte :=
  match Byte.of_N (Z.to_N (z mod 256)) with Some b => b | None => x00 end.

Lemma byte_Z_bound b : 0 <= byte_Z b < 256.
Proof.
  unfold byte_Z. split; [lia|].
  pose proof (Byte.to_N_bounded b). lia.
Qed.

Lemma byte_Z_byte z : byte_Z (Z_byte z) = z mod 256.
Proof.
  unfold byte_Z, Z_byte.
  pose proof (Z.mod_pos_bound z 256 ltac:(lia)) as Hb.
  destruct (Byte.of_N (Z.to_N (z mod 256))) as [b|] eqn:E.
  - apply Byte.to_of_N in E. rewrite E. lia.
  - apply Byte.of_N_None_iff in E. lia.
Qed.

Lemma Z_byte_Z b : Z_byte (byte_Z b) = b.
Proof.
  unfold Z_byte. pose proof (byte_Z_bound b).
  rewrite Z.mod_small by lia. unfold byte_Z.
  rewrite N2Z.id, Byte.of_to_N. done.
Qed.

(** ** Machine-width integers *)

Definition u8 (z : Z) : Z := z mod 2 ^ 8.
Definition u16 (z : Z) : Z := z mod 2 ^ 16.
Definition u32 (z : Z) : Z := z mod 2 ^ 32.
Definition u64 (z : Z) : Z := z mod 2 ^ 64.

Lemma lor_shiftl_add a b k : 0 <= k -> 0 <= b < 2 ^ k -> Z.lor (Z.shiftl a k) b = a * 2 ^ k + b.
Proof.
  intros Hk Hb. rewrite <- Z.shiftl_mul_pow2 by done.
  enough (Z.land (Z.shiftl a k) b = 0) as H0 by (pose proof (Z.add_lor_land (Z.shiftl a k) b); lia).
  rewrite <- (Z.mod_small b (2 ^ k)), <- Z.land_ones by lia.
  rewrite (Z.land_comm b), Z.land_assoc, Z.land_ones, Z.shiftl_mul_pow2 by lia.
  by rewrite Z.mod_mul by lia.
Qed.

(** ** Little-endian encodings *)

Fixpoint le_bytes (n : nat) (z : Z) : bytes :=
  match n with
  | O => []
  | S n => Z_byte z :: le_bytes n (z / 256)
  end.

Fixpoint le_Z (bs : bytes) : Z :=
  match bs with
  | [] => 0
  | b :: bs => byte_Z b + 256 * le_Z bs
  end.

Lemma length_le_bytes n z : length (le_bytes n z) = n.
Proof. revert z; induction n as [|n IH]; intros z; cbn; [done|]. by rewrite IH. Qed.

Lemma le_Z_le_bytes n z : le_Z (le_bytes n z) = z mod 256 ^ Z.of_nat n.
Proof.
  revert z; induction n as [|n IH]; intros z; cbn [le_bytes le_Z].
  { by rewrite Z.pow_0_r, Z.mod_1_r. }
  rewrite IH, byte_Z_byte, Nat2Z.inj_succ, Z.pow_succ_r by lia.
  rewrite Z.rem_mul_r by lia. done.
Qed.

Lemma le_Z_bound bs : 0 <= le_Z bs < 256 ^ Z.of_nat (length bs).
Proof.
  induction bs as [|b bs IH]; cbn [le_Z length]; [cbn; lia|].
  pose proof (byte_Z_bound b). rewrite Nat2Z.inj_succ, Z.pow_succ_r by lia. lia.
Qed.

Lemma le_bytes_le_Z bs : le_bytes (length bs) (le_Z bs) = bs.
Proof.
  induction bs as [|b bs IH]; cbn [le_bytes le_Z length]; [done|].
  pose proof (byte_Z_bound b).
  replace ((byte_Z b + 256 * le_Z bs) / 256) with (le_Z bs).
  2: { rewrite Z.mul_comm, Z.div_add, Z.div_small by lia. lia. }
  rewrite IH. f_equal. rewrite <- (Z_byte_Z b) at 2. unfold Z_byte.
  by rewrite Z.mul_comm, Z.mod_add by lia.
Qed.

(** ** Slices and in-place writes of a memory region *)

(** Go's [raw[lo:hi]] and C's read of [hi - lo] bytes at offset [lo]. *)
Definition slice (lo hi : nat) (bs : bytes) : bytes := take (hi - lo) (drop lo bs).

(** A write of [new] at offset [off], inside the region. *)
Definition splice (off : nat) (new mem : bytes) : bytes :=
  take off mem ++ new ++ drop (off + length new) mem.

Lemma length_slice lo hi bs :
  (hi <= length bs)%nat -> length (slice lo hi bs) = (hi - lo)%nat.
Proof. intros. unfold slice. rewrite length_take, length_drop. lia. Qed.

Lemma length_splice off new mem :
  (off + length new <= length mem)%nat -> length (splice off new mem) = length mem.
Proof.
  intros. unfold splice. rewrite !length_app, length_take, length_drop. lia.
Qed.

Lemma slice_splice_same off hi new mem :
  (off + length new <= length mem)%nat -> hi = (off + length new)%nat ->
  slice off hi (splice off new mem) = new.
Proof.
  intros H ->. unfold slice, splice.
  rewrite drop_app_length' by (rewrite length_take; lia).
  by rewrite take_app_length' by lia.
Qed.

Lemma slice_splice_before lo hi off new mem :
  (off + length new <= length mem)%nat -> (hi <= off)%nat ->
  slice lo hi (splice off new mem) = slice lo hi mem.
Proof.
  intros H Hle. unfold slice, splice.
  destruct (decide (lo <= hi)%nat); [|by replace (hi - lo)%nat with 0%nat by lia].
  rewrite drop_app_le by (rewrite length_take; lia).
  rewrite take_app_le by (rewrite length_drop, length_take; lia).
  rewrite skipn_firstn_comm. rewrite take_take. f_equal. lia.
Qed.

Lemma slice_splice_after lo hi off new mem :
  (off + length new <= length mem)%nat -> (off + length new <= lo)%nat ->
  slice lo hi (splice off new mem) = slice lo hi mem.
Proof.
  intros H Hle. unfold slice, splice. f_equal.
  rewrite app_assoc, drop_app_ge.
  2: { rewrite length_app, length_take. lia. }
  rewrite drop_drop, length_app, length_take. f_equal. lia.
Qed.

Lemma slice_splice_prefix off k new mem :
  (off + length new <= length mem)%nat -> (k <= length new)%nat ->
  slice off (off + k) (splice off new mem) = take k new.
Proof.
  intros H Hk. unfold slice, splice.
  rewrite drop_app_length' by (rewrite length_take; lia).
  rewrite take_app_le by lia. f_equal. lia.
Qed.

Lemma slice_all n bs : n = length bs -> slice 0 n bs = bs.
Proof. intros ->. unfold slice. rewrite drop_0, Nat.sub_0_r. apply take_ge. lia. Qed.

Lemma slice_slice_sub lo hi n bs :
  slice lo (lo + n) (slice 0 hi bs) = slice lo (Nat.min hi (lo + n)) bs.
Proof.
  unfold slice. rewrite drop_0, Nat.sub_0_r, skipn_firstn_comm, take_take. f_equal. lia.
Qed.

(** Evaluate the [Z.to_nat] of literals. *)
Ltac nat_literals :=
  repeat match goal with
  | |- context [Z.to_nat (Zpos ?p)] =>
      let v := eval vm_compute in (Z.to_nat (Zpos p)) in
      change (Z.to_nat (Zpos p)) with v
  end.

Create Rewrite HintDb layout.
#[export] Hint Rewrite length_le_bytes : layout.
