(* ===== verification/Go.v ===== *)
(** * The Go constructs the models share

    Computations that return a value, a non-nil error or panic; checked slicing;
    the little-endian readers of encoding/binary; the functions of package
    strings the sources call. *)

From S2P Require Import Prelude.

#[local] Set Warnings "-register-all".

(** ** Results *)

(** [fmt.Errorf(format, args...)] kept unformatted, the same with a [%w] operand, and
    [errors.Join] of the errors that are not nil. *)
Inductive error :=
  | Errorf (format : string) (args : list Z)
  | Wrapf (format : string) (args : list Z) (inner : error)
  | Joined (errs : list error).
Arguments Errorf format%_string args.
Arguments Wrapf format%_string args inner.

Inductive go (A : Type) : Type :=
  | Ret (a : A)
  | Err (e : error)
  | Panic.
Arguments Ret {A} a.
Arguments Err {A} e.
Arguments Panic {A}.

#[export] Instance go_ret : MRet go := λ A a, Ret a.
#[export] Instance go_bind : MBind go := λ A B f m,
  match m with Ret a => f a | Err e => Err e | Panic => Panic end.
#[export] Instance go_fmap : FMap go := λ A B f m,
  match m with Ret a => Ret (f a) | Err e => Err e | Panic => Panic end.

(** The computation does not panic. *)
Definition no_panic {A} (m : go A) : Prop :=
  match m with Panic => False | _ => True end.

Lemma no_panic_bind {A B} (f : A -> go B) (m : go A) :
  no_panic m -> (forall a, m = Ret a -> no_panic (f a)) -> no_panic (m ≫= f).
Proof. destruct m; cbn; auto. Qed.

(** ** Slices *)

(** [raw[lo:hi]]; out of range it panics. *)
Definition go_slice (raw : bytes) (lo hi : Z) : go bytes :=
  if (0 <=? lo) && (lo <=? hi) && (hi <=? Z.of_nat (length raw))
  then Ret (slice (Z.to_nat lo) (Z.to_nat hi) raw) else Panic.

(** [raw[i]] *)
Definition go_index (raw : bytes) (i : Z) : go Z :=
  if 0 <=? i then
    match raw !! Z.to_nat i with Some b => Ret (byte_Z b) | None => Panic end
  else Panic.

Definition uint_le (raw : bytes) (lo hi : Z) : go Z := le_Z <$> go_slice raw lo hi.

Lemma go_slice_in raw lo hi :
  0 <= lo <= hi -> hi <= Z.of_nat (length raw) ->
  go_slice raw lo hi = Ret (slice (Z.to_nat lo) (Z.to_nat hi) raw).
Proof.
  intros. unfold go_slice.
  rewrite (proj2 (Z.leb_le 0 lo)), (proj2 (Z.leb_le lo hi)), (proj2 (Z.leb_le hi _)) by lia.
  done.
Qed.

Lemma uint_le_in raw lo hi :
  0 <= lo <= hi -> hi <= Z.of_nat (length raw) ->
  uint_le raw lo hi = Ret (le_Z (slice (Z.to_nat lo) (Z.to_nat hi) raw)).
Proof. intros. unfold uint_le. by rewrite go_slice_in. Qed.

Lemma go_index_in raw i :
  0 <= i < Z.of_nat (length raw) ->
  go_index raw i = Ret (le_Z (slice (Z.to_nat i) (Z.to_nat (i + 1)) raw)).
Proof.
  intros Hi. unfold go_index. rewrite (proj2 (Z.leb_le 0 i)) by lia.
  destruct (lookup_lt_is_Some_2 raw (Z.to_nat i)) as [b Hb]; [lia|].
  rewrite Hb. unfold slice. rewrite Z2Nat.inj_add by lia.
  replace (Z.to_nat i + Z.to_nat 1 - Z.to_nat i)%nat with 1%nat by lia.
  apply drop_S in Hb. rewrite Hb. change (take 1 (b :: drop (S (Z.to_nat i)) raw)) with [b].
  cbn [le_Z]. f_equal. lia.
Qed.

(** [string(b[:i])] for the first NUL byte [i] of [b], all of [b] without one. *)
Fixpoint nullTerm (b : bytes) : bytes :=
  match b with
  | [] => []
  | c :: b => if decide (c = x00) then [] else c :: nullTerm b
  end.

Lemma nullTerm_app (s t : bytes) : Forall (λ b, b ≠ x00) s -> nullTerm (s ++ x00 :: t) = s.
Proof.
  induction 1 as [|b s Hb Hs IH]; cbn; [done|]. rewrite decide_False by done. by rewrite IH.
Qed.

(** A NUL-terminated string cut right after its terminator. *)
Lemma nullTerm_take (k : nat) (b : bytes) :
  b !! k = Some x00 -> Forall (λ c, c ≠ x00) (take k b) ->
  nullTerm (take (S k) b) = take k b.
Proof.
  intros Hk Hf. rewrite (take_S_r _ _ _ Hk). by apply (nullTerm_app _ []).
Qed.
