(* ===== verification/GoTime.v ===== *)
(** * Go's float64, time.Duration and time.ParseDuration

    float64 is the binary64 format of [SpecFloat]; a Duration is an int64 number of
    nanoseconds; an instant is its number of nanoseconds since the epoch, the zero
    [time.Time] being [None]. *)

From Stdlib Require Import SpecFloat.
From S2P Require Import Prelude Go.

(** ** float64 *)

Definition float64 : Type := spec_float.

Definition fmul : float64 -> float64 -> float64 := SFmul 53 1024.
Definition fdiv : float64 -> float64 -> float64 := SFdiv 53 1024.
Definition fadd : float64 -> float64 -> float64 := SFadd 53 1024.
Definition flt : float64 -> float64 -> bool := SFltb.
Definition fle : float64 -> float64 -> bool := SFleb.

(** [float64(z)] *)
Definition f64 (z : Z) : float64 := binary_normalize 53 1024 z 0 false.

(** The integer part of a finite float; [None] for an infinity or NaN. *)
Definition ftrunc (x : float64) : option Z :=
  match x with
  | S754_zero _ => Some 0
  | S754_finite s m e =>
      let a := if 0 <=? e then Z.pos m * 2 ^ e else Z.pos m / 2 ^ (- e) in
      Some (if s then - a else a)
  | _ => None
  end.

Definition min_int64 : Z := - 2 ^ 63.
Definition max_int64 : Z := 2 ^ 63 - 1.

Definition in_int64 (z : Z) : bool := (min_int64 <=? z) && (z <=? max_int64).

(** Two's complement wrap-around. *)
Definition i64 (z : Z) : Z := (z + 2 ^ 63) mod 2 ^ 64 - 2 ^ 63.

Lemma i64_small z : min_int64 <= z <= max_int64 -> i64 z = z.
Proof. unfold i64, min_int64, max_int64. intros. rewrite Z.mod_small by lia. lia. Qed.

(** The machine's answer for a float that no int64 represents: the language leaves
    [int64(x)] implementation-dependent there. *)
Class FloatToInt := float_overflow : float64 -> Z.

(** cvttsd2si on amd64: the "integer indefinite" value. *)
Definition amd64_float_to_int : FloatToInt := fun _ => min_int64.

(** [int64(x)] *)
Definition to_int64 `{FloatToInt} (x : float64) : Z :=
  match ftrunc x with
  | Some z => if in_int64 z then z else float_overflow x
  | None => float_overflow x
  end.

(** ** Durations and instants *)

Definition Second : Z := 1000000000.
Definition Minute : Z := 60 * Second.

(** [t.Sub(u)], saturating. *)
Definition time_sub (t u : Z) : Z := Z.max min_int64 (Z.min max_int64 (t - u)).

(** [d.Seconds()] *)
Definition seconds (d : Z) : float64 :=
  fadd (f64 (Z.quot d Second)) (fdiv (f64 (Z.rem d Second)) (f64 1000000000)).

Lemma time_sub_ge t u x : min_int64 < x -> x <= time_sub t u -> x <= t - u.
Proof. unfold time_sub, min_int64, max_int64. lia. Qed.

Lemma time_sub_lt t u x : x <= max_int64 -> time_sub t u < x -> t - u < x.
Proof. unfold time_sub, min_int64, max_int64. lia. Qed.

(** ** time.ParseDuration *)

Definition is_digit (c : byte) : bool := (48 <=? byte_Z c) && (byte_Z c <=? 57).

(** [leadingInt]: [None] on overflow. *)
Fixpoint leadingInt (x : Z) (s : bytes) : option (Z * bytes) :=
  match s with
  | c :: s' =>
      if is_digit c then
        if 2 ^ 63 / 10 <? x then None else
        let x := x * 10 + (byte_Z c - 48) in
        if 2 ^ 63 <? x then None else leadingInt x s'
      else Some (x, s)
  | [] => Some (x, s)
  end.

(** [leadingFraction]: digits past the precision of uint64 are dropped. *)
Fixpoint leadingFraction (x : Z) (scale : float64) (overflow : bool) (s : bytes)
    : Z * float64 * bytes :=
  match s with
  | c :: s' =>
      if is_digit c then
        if overflow then leadingFraction x scale true s' else
        if (2 ^ 63 - 1) / 10 <? x then leadingFraction x scale true s' else
        let y := x * 10 + (byte_Z c - 48) in
        if 2 ^ 63 <? y then leadingFraction x scale true s'
        else leadingFraction y (fmul scale (f64 10)) false s'
      else (x, scale, s)
  | [] => (x, scale, s)
  end.

Fixpoint span_unit (s : bytes) : bytes * bytes :=
  match s with
  | c :: s' =>
      if bool_decide (c = x2e) || is_digit c then ([], s)
      else let '(u, r) := span_unit s' in (c :: u, r)
  | [] => ([], [])
  end.

Definition unit_of (u : bytes) : option Z :=
  if decide (u = gostr "ns") then Some 1
  else if decide (u = gostr "us") then Some 1000
  else if decide (u = [xc2; xb5; x73]) then Some 1000      (* U+00B5, micro symbol *)
  else if decide (u = [xce; xbc; x73]) then Some 1000      (* U+03BC, Greek letter mu *)
  else if decide (u = gostr "ms") then Some 1000000
  else if decide (u = gostr "s") then Some Second
  else if decide (u = gostr "m") then Some Minute
  else if decide (u = gostr "h") then Some (60 * Minute)
  else None.

(** One [number unit] group: its value and the rest. *)
Definition duration_group (s : bytes) : option (Z * bytes) :=
  match s with
  | [] => None
  | c :: _ =>
      if negb (bool_decide (c = x2e) || is_digit c) then None else
      match leadingInt 0 s with
      | None => None
      | Some (v, s1) =>
          let pre := negb (Nat.eqb (length s1) (length s)) in
          let '(f, scale, s2, post) :=
            match s1 with
            | x2e :: s1' =>
                let '(f, scale, s2) := leadingFraction 0 (f64 1) false s1' in
                (f, scale, s2, negb (Nat.eqb (length s2) (length s1')))
            | _ => (0, f64 1, s1, false)
            end in
          if negb pre && negb post then None else
          let '(u, s3) := span_unit s2 in
          match u with
          | [] => None
          | _ =>
              match unit_of u with
              | None => None
              | Some unit =>
                  if 2 ^ 63 / unit <? v then None else
                  let v := v * unit in
                  let v := if 0 <? f
                           then v + default 0 (ftrunc (fmul (f64 f) (fdiv (f64 unit) scale)))
                           else v in
                  if (0 <? f) && (2 ^ 63 <? v) then None else Some (v, s3)
              end
          end
      end
  end.

(** The groups of [s], added up; each takes at least one byte, so [length s] is
    fuel enough. *)
Fixpoint duration_groups (fuel : nat) (d : Z) (s : bytes) : option Z :=
  match s, fuel with
  | [], _ => Some d
  | _, O => None
  | _, S fuel =>
      match duration_group s with
      | None => None
      | Some (v, s) => if 2 ^ 63 <? d + v then None else duration_groups fuel (d + v) s
      end
  end.

Definition ParseDuration (s : bytes) : option Z :=
  let '(neg, s) :=
    match s with
    | x2d :: s => (true, s)
    | x2b :: s => (false, s)
    | _ => (false, s)
    end in
  if decide (s = gostr "0") then Some 0 else
  match s with
  | [] => None
  | _ =>
      match duration_groups (length s) 0 s with
      | None => None
      | Some d => if neg then Some (- d) else if 2 ^ 63 - 1 <? d then None else Some d
      end
  end.

Example parse_30s : ParseDuration (gostr "30s") = Some (30 * Second).
Proof. reflexivity. Qed.
Example parse_1h30m : ParseDuration (gostr "1h30m") = Some (90 * Minute).
Proof. reflexivity. Qed.
Example parse_fraction : ParseDuration (gostr "1.5s") = Some 1500000000.
Proof. reflexivity. Qed.
Example parse_no_unit : ParseDuration (gostr "30") = None.
Proof. reflexivity. Qed.
