(* ===== verification/Config.v ===== *)
(** * internal/config: the settings the modelled components read

    The records hold the fields as yaml decodes them; the [OrDefault] methods
    replace what is missing or out of range. *)

From S2P Require Import Prelude Go GoTime.

(** ** fail_closed *)

Record FailClosedConfig := {
  fc_Enabled : bool;
  fc_RingbufDropRateThreshold : float64;
  fc_RingbufRecoveryRateThreshold : float64;
  fc_SinkFailureThreshold : Z;
  fc_PanicThreshold : Z;
  fc_MinTripDuration : bytes;
  fc_RecoveryWindow : bytes;
  fc_BackoffMultiplier : float64;
  fc_MaxTripDuration : bytes
}.

Definition RingbufDropRateThresholdOrDefault (f : FailClosedConfig) : float64 :=
  if fle (fc_RingbufDropRateThreshold f) (f64 0) then f64 50 else fc_RingbufDropRateThreshold f.

Definition RingbufRecoveryRateThresholdOrDefault (f : FailClosedConfig) : float64 :=
  if fle (fc_RingbufRecoveryRateThreshold f) (f64 0) then f64 10
  else fc_RingbufRecoveryRateThreshold f.

Definition SinkFailureThresholdOrDefault (f : FailClosedConfig) : Z :=
  if fc_SinkFailureThreshold f <=? 0 then 3 else fc_SinkFailureThreshold f.

Definition PanicThresholdOrDefault (f : FailClosedConfig) : Z :=
  if fc_PanicThreshold f <=? 0 then 1 else fc_PanicThreshold f.

Definition parsePositiveDuration (s : bytes) (def : Z) : Z :=
  match s with
  | [] => def
  | _ =>
      match ParseDuration s with
      | Some d => if d <=? 0 then def else d
      | None => def
      end
  end.

Definition MinTripDurationOrDefault (f : FailClosedConfig) : Z :=
  parsePositiveDuration (fc_MinTripDuration f) (30 * Second).

Definition RecoveryWindowOrDefault (f : FailClosedConfig) : Z :=
  parsePositiveDuration (fc_RecoveryWindow f) (30 * Second).

Definition BackoffMultiplierOrDefault (f : FailClosedConfig) : float64 :=
  if fle (fc_BackoffMultiplier f) (f64 1) then f64 2 else fc_BackoffMultiplier f.

Definition MaxTripDurationOrDefault (f : FailClosedConfig) : Z :=
  parsePositiveDuration (fc_MaxTripDuration f) (10 * Minute).

(** fail_closed: {enabled: true}, everything else defaulted. *)
Definition default_fail_closed : FailClosedConfig := {|
  fc_Enabled := true; fc_RingbufDropRateThreshold := f64 0;
  fc_RingbufRecoveryRateThreshold := f64 0; fc_SinkFailureThreshold := 0;
  fc_PanicThreshold := 0; fc_MinTripDuration := []; fc_RecoveryWindow := [];
  fc_BackoffMultiplier := f64 0; fc_MaxTripDuration := [] |}.

(** ** trifecta

    An [*bool] that the YAML leaves out is [None]. *)

Record TrifectaConfig := {
  tc_LegTTL : bytes;
  tc_DecayAfterCalls : Z; tc_ContentBindMinLen : Z;
  tc_FragmentMaxChunks : Z; tc_FragmentMaxBytes : Z;
  tc_ChunkMatchBytes : Z; tc_ChunkMatchMinLen : Z;
  tc_MaxDecodeDepth : Z;
  tc_EgressReassemblyEnabled : option bool;
  tc_EgressFragmentMaxChunks : Z; tc_EgressFragmentMaxBytes : Z;
  tc_EgressFragmentMaxAge : bytes; tc_EgressMaxDestinationsPerSession : Z;
  tc_ContainerInspectEnabled : option bool;
  tc_ContainerMaxDecompressedBytes : Z; tc_ContainerMaxDescentDepth : Z;
  tc_ContainerMaxParts : Z; tc_ContainerMaxInspectMs : Z
}.

Definition LegTTLDuration (t : TrifectaConfig) : Z :=
  match tc_LegTTL t with
  | [] => 30 * Minute
  | s => match ParseDuration s with
         | Some d => if d <=? 0 then 30 * Minute else d
         | None => 30 * Minute
         end
  end.

Definition DecayAfterCallsOrDefault (t : TrifectaConfig) : Z :=
  if tc_DecayAfterCalls t <=? 0 then 32 else tc_DecayAfterCalls t.

Definition ContentBindMinLenOrDefault (t : TrifectaConfig) : Z :=
  if tc_ContentBindMinLen t <=? 0 then 16 else tc_ContentBindMinLen t.

Definition FragmentMaxChunksOrDefault (t : TrifectaConfig) : Z :=
  if tc_FragmentMaxChunks t <=? 0 then 16 else tc_FragmentMaxChunks t.

Definition FragmentMaxBytesOrDefault (t : TrifectaConfig) : Z :=
  if tc_FragmentMaxBytes t <=? 0 then 64 * 1024 else tc_FragmentMaxBytes t.

Definition ChunkMatchBytesOrDefault (t : TrifectaConfig) : Z :=
  if tc_ChunkMatchBytes t <=? 0 then 32 else tc_ChunkMatchBytes t.

Definition ChunkMatchMinLenOrDefault (t : TrifectaConfig) : Z :=
  if tc_ChunkMatchMinLen t <=? 0 then 64 else tc_ChunkMatchMinLen t.

Definition EgressFragmentMaxChunksOrDefault (t : TrifectaConfig) : Z :=
  if tc_EgressFragmentMaxChunks t <=? 0 then 16 else tc_EgressFragmentMaxChunks t.

Definition EgressFragmentMaxBytesOrDefault (t : TrifectaConfig) : Z :=
  if tc_EgressFragmentMaxBytes t <=? 0 then 4 * 1024 else tc_EgressFragmentMaxBytes t.

Definition EgressMaxDestinationsOrDefault (t : TrifectaConfig) : Z :=
  if tc_EgressMaxDestinationsPerSession t <=? 0 then 32 else tc_EgressMaxDestinationsPerSession t.

Definition ContainerMaxDecompressedBytesOrDefault (t : TrifectaConfig) : Z :=
  if tc_ContainerMaxDecompressedBytes t <=? 0 then 10 * 1024 * 1024 else tc_ContainerMaxDecompressedBytes t.

Definition ContainerMaxDescentDepthOrDefault (t : TrifectaConfig) : Z :=
  if tc_ContainerMaxDescentDepth t <=? 0 then 2 else tc_ContainerMaxDescentDepth t.

Definition ContainerMaxPartsOrDefault (t : TrifectaConfig) : Z :=
  if tc_ContainerMaxParts t <=? 0 then 100 else tc_ContainerMaxParts t.

Definition ContainerMaxInspectMsOrDefault (t : TrifectaConfig) : Z :=
  if tc_ContainerMaxInspectMs t <=? 0 then 50 else tc_ContainerMaxInspectMs t.

Definition DefaultMaxDecodeDepth : Z := 5.
Definition minMaxDecodeDepth : Z := 3.

Definition ClampMaxDecodeDepth (n : Z) : Z :=
  if n <=? 0 then DefaultMaxDecodeDepth
  else if n <? minMaxDecodeDepth then minMaxDecodeDepth
  else if 5 <? n then 5 else n.

Definition MaxDecodeDepthOrDefault (t : TrifectaConfig) : Z :=
  ClampMaxDecodeDepth (tc_MaxDecodeDepth t).

Definition EgressReassemblyEnabledOrDefault (t : TrifectaConfig) : bool :=
  default true (tc_EgressReassemblyEnabled t).

Definition EgressFragmentMaxAgeOrDefault (t : TrifectaConfig) : Z :=
  parsePositiveDuration (tc_EgressFragmentMaxAge t) (10 * Second).

Definition ContainerInspectEnabledOrDefault (t : TrifectaConfig) : bool :=
  default true (tc_ContainerInspectEnabled t).

(** trifecta: {}, everything defaulted. *)
Definition default_trifecta : TrifectaConfig := {|
  tc_LegTTL := []; tc_DecayAfterCalls := 0; tc_ContentBindMinLen := 0;
  tc_FragmentMaxChunks := 0; tc_FragmentMaxBytes := 0; tc_ChunkMatchBytes := 0;
  tc_ChunkMatchMinLen := 0; tc_MaxDecodeDepth := 0; tc_EgressReassemblyEnabled := None;
  tc_EgressFragmentMaxChunks := 0; tc_EgressFragmentMaxBytes := 0;
  tc_EgressFragmentMaxAge := []; tc_EgressMaxDestinationsPerSession := 0;
  tc_ContainerInspectEnabled := None; tc_ContainerMaxDecompressedBytes := 0;
  tc_ContainerMaxDescentDepth := 0; tc_ContainerMaxParts := 0; tc_ContainerMaxInspectMs := 0 |}.

(** ** The sections the engine and its tagger read *)

Record VaultAuthorizeEntry := { va_Tool : bytes; va_SecretClasses : list bytes }.
Record VaultConfig := { vc_Enabled : bool; vc_Authorize : list VaultAuthorizeEntry }.

Record ServerConfig := { sc_ID : bytes; sc_Command : bytes; sc_Args : list bytes; sc_ProvidesTags : list bytes }.
Record ServerDefaultsConfig := {
  sd_InheritSinkSuspicion : bool; sd_SinkSuspicionAllowlist : list bytes
}.

(** Of the top-level configuration, the sections the engine reads. *)
Record Config := {
  c_Trifecta : TrifectaConfig;
  c_Vault : VaultConfig;
  c_ServerDefaults : ServerDefaultsConfig;
  c_SensitivePaths : list bytes;
  c_Servers : list ServerConfig;
  c_ToolTags : gmap bytes (list bytes);
  c_ToolResults : bool
}.

(** ** Every default is positive *)

Lemma parsePositiveDuration_pos s def : 0 < def -> 0 < parsePositiveDuration s def.
Proof.
  intros Hdef. unfold parsePositiveDuration. destruct s as [|c s]; [done|].
  destruct (ParseDuration (c :: s)) as [d|]; [|done]. by destruct (Z.leb_spec d 0).
Qed.

Lemma MinTripDuration_pos f : 0 < MinTripDurationOrDefault f.
Proof. by apply parsePositiveDuration_pos. Qed.

Lemma RecoveryWindow_pos f : 0 < RecoveryWindowOrDefault f.
Proof. by apply parsePositiveDuration_pos. Qed.

Lemma LegTTLDuration_pos t : 0 < LegTTLDuration t.
Proof.
  unfold LegTTLDuration. destruct (tc_LegTTL t) as [|c s]; [done|].
  destruct (ParseDuration (c :: s)) as [d|]; [|done]. by destruct (Z.leb_spec d 0).
Qed.

Lemma EgressFragmentMaxAge_pos t : 0 < EgressFragmentMaxAgeOrDefault t.
Proof. by apply parsePositiveDuration_pos. Qed.

Lemma ClampMaxDecodeDepth_range n : 3 <= ClampMaxDecodeDepth n <= 5.
Proof.
  unfold ClampMaxDecodeDepth, DefaultMaxDecodeDepth, minMaxDecodeDepth.
  destruct (Z.leb_spec n 0), (Z.ltb_spec n 3), (Z.ltb_spec 5 n); lia.
Qed.
