(* ===== verification/CLayout.v ===== *)
(** * C object layout

    The System V x86-64 layout of the C types that the BPF object is compiled
    against: sizes, alignments, bit-field packing and member offsets are computed
    from the declarations, those of internal/ebpf/bpf/connect.c (the ring-buffer
    records, below) and those of internal/ebpf/bpf/vmlinux.h ([Vmlinux]).  Field
    stores and loads of the probes and the offsets that loader.go hard-codes
    both go through the functions of this file. *)

From S2P Require Import Prelude.

#[local] Set Warnings "-register-all".
#[local] Open Scope N_scope.

(** ** Types, sizes and offsets *)

(** [CBits size width] is a bit-field member of declared size [size] (bytes). *)
Inductive ctype :=
  | CInt (size : N)
  | CPtr
  | CArr (elem : ctype) (n : N)
  | CStruct (fields : list (string * ctype))
  | CUnion (fields : list (string * ctype))
  | CBits (size width : N).

Definition align_up (off a : N) : N := (off + (a - 1)) / a * a.

(** Bytes; an unnamed bit-field does not align the aggregate it pads. *)
Fixpoint alignof (t : ctype) : N :=
  let fix go (fs : list (string * ctype)) : N :=
    match fs with
    | [] => 1
    | (f, u) :: fs =>
        match u with
        | CBits _ _ => if String.eqb f "" then go fs else N.max (alignof u) (go fs)
        | _ => N.max (alignof u) (go fs)
        end
    end in
  match t with
  | CInt size => N.max 1 size
  | CPtr => 8
  | CArr elem _ => alignof elem
  | CStruct fs | CUnion fs => go fs
  | CBits size _ => N.max 1 size
  end.

(** Where a member goes when [off] bits are taken: a bit-field follows directly
    unless it would straddle a storage unit of its type. *)
Definition place_at (off align : N) (t : ctype) : N :=
  match t with
  | CBits _ width =>
      let unit := 8 * align in
      if (0 <? width) && (off mod unit + width <=? unit) then off
      else align_up off unit
  | _ => align_up off (8 * align)
  end.

(** Bits. *)
Fixpoint bitsize (t : ctype) : N :=
  let fix members (off : N) (fs : list (string * ctype)) : N :=
    match fs with
    | [] => off
    | (_, u) :: fs => members (place_at off (alignof u) u + bitsize u) fs
    end in
  let fix largest (fs : list (string * ctype)) : N :=
    match fs with
    | [] => 0
    | (_, u) :: fs => N.max (bitsize u) (largest fs)
    end in
  match t with
  | CInt size => 8 * size
  | CPtr => 64
  | CArr elem n => n * bitsize elem
  | CStruct fs => align_up (members 0 fs) (8 * alignof t)
  | CUnion fs => align_up (largest fs) (8 * alignof t)
  | CBits _ width => width
  end.

Definition sizeof (t : ctype) : nat := N.to_nat (bitsize t / 8).

(** The placement of each member of a struct or union: name, bit offset, type. *)
Fixpoint place (off : N) (fs : list (string * ctype)) : list (string * N * ctype) :=
  match fs with
  | [] => []
  | (f, t) :: fs =>
      let o := place_at off (alignof t) t in
      (f, o, t) :: place (o + bitsize t) fs
  end.

Definition placement (t : ctype) : list (string * N * ctype) :=
  match t with
  | CStruct fs => place 0 fs
  | CUnion fs => (fun '(f, u) => (f, 0, u)) <$> fs
  | _ => []
  end.

(** The first member of a struct, resp. union, at bit [base] that [pick] accepts. *)
Section pick.
Context (pick : N -> string -> ctype -> option (N * ctype)) (base : N).

Fixpoint in_struct (off : N) (fs : list (string * ctype)) : option (N * ctype) :=
  match fs with
  | [] => None
  | (g, u) :: fs =>
      let o := place_at off (alignof u) u in
      match pick (base + o) g u with
      | Some r => Some r
      | None => in_struct (o + bitsize u) fs
      end
  end.

Fixpoint in_union (fs : list (string * ctype)) : option (N * ctype) :=
  match fs with
  | [] => None
  | (g, u) :: fs => match pick base g u with Some r => Some r | None => in_union fs end
  end.
End pick.

(** [t.f], looking through the anonymous structs and unions of [t], at bit [base]. *)
Fixpoint member (f : string) (base : N) (t : ctype) : option (N * ctype) :=
  let pick (o : N) (g : string) (u : ctype) : option (N * ctype) :=
    if String.eqb g f then Some (o, u)
    else if String.eqb g "" then member f o u else None in
  match t with
  | CStruct fs => in_struct pick base 0 fs
  | CUnion fs => in_union pick base fs
  | _ => None
  end.

(** [offsetof(struct S, f)] *)
Definition offsetof (s : ctype) (f : string) : nat :=
  match member f 0 s with Some (o, _) => N.to_nat (o / 8) | None => 0%nat end.

Definition fieldsize (s : ctype) (f : string) : nat :=
  match member f 0 s with Some (_, t) => sizeof t | None => 0%nat end.

#[local] Close Scope N_scope.

(** [ev->f = z] and [memcpy(ev->f, bs, sizeof ev->f)] on the bytes of [ev]. *)
Definition store (s : ctype) (f : string) (z : Z) (mem : bytes) : bytes :=
  splice (offsetof s f) (le_bytes (fieldsize s f) z) mem.

Definition store_bytes (s : ctype) (f : string) (bs mem : bytes) : bytes :=
  splice (offsetof s f) bs mem.

(** [v.f], read from the bytes of [v]. *)
Definition load (s : ctype) (f : string) (mem : bytes) : Z :=
  le_Z (slice (offsetof s f) (offsetof s f + fieldsize s f) mem).

(** [memset(ev, 0, n)] *)
Definition memset0 (n : nat) (mem : bytes) : bytes := splice 0 (replicate n x00) mem.

Abbreviation cu8 := (CInt 1).
Abbreviation cu16 := (CInt 2).
Abbreviation cu32 := (CInt 4).
Abbreviation cu64 := (CInt 8).
Abbreviation cchars n := (CArr (CInt 1) n).

(** ** The records of connect.c *)

Definition PAYLOAD_MAX : Z := 1024.
Definition PATH_MAX_CAP : Z := 128.

Definition connect_event : ctype := CStruct [
  ("type", cu32); ("_pad", cu32); ("ts_ns", cu64); ("pid", cu32); ("tid", cu32);
  ("family", cu8); ("dest_addr", CArr cu8 16); ("_pad2", cu8); ("dest_port", cu16);
  ("fd", cu32); ("cgroup_id", cu64); ("comm", cchars 16) ]%string.

Definition write_event : ctype := CStruct [
  ("type", cu32); ("len", cu32); ("ts_ns", cu64); ("pid", cu32); ("tid", cu32);
  ("fd", cu32); ("_pad", cu32); ("cgroup_id", cu64); ("comm", cchars 16);
  ("payload", cchars (Z.to_N PAYLOAD_MAX)) ]%string.

Definition sendto_event : ctype := CStruct [
  ("type", cu32); ("len", cu32); ("ts_ns", cu64); ("pid", cu32); ("tid", cu32);
  ("family", cu8); ("dest_addr", CArr cu8 16); ("_pad1", cu8); ("dest_port", cu16);
  ("_pad2", cu32); ("cgroup_id", cu64); ("comm", cchars 16);
  ("payload", cchars (Z.to_N PAYLOAD_MAX)) ]%string.

Definition openat_event : ctype := CStruct [
  ("type", cu32); ("path_len", cu32); ("ts_ns", cu64); ("pid", cu32); ("tid", cu32);
  ("cgroup_id", cu64); ("comm", cchars 16); ("path", cchars (Z.to_N PATH_MAX_CAP)) ]%string.

Definition lsm_deny_event : ctype := CStruct [
  ("type", cu32); ("_pad", cu32); ("ts_ns", cu64); ("pid", cu32); ("tid", cu32);
  ("cgroup_id", cu64); ("comm", cchars 16) ]%string.

Definition iov_scratch : ctype := CStruct [
  ("buf", cchars (8 * Z.to_N PAYLOAD_MAX)) ]%string.

