(* ===== verification/LayoutFacts.v ===== *)
(** * Facts about the C layout

    Members of a well-formed C type lie inside it, do not overlap, are aligned,
    and bit-fields never straddle a storage unit; also for the members that are
    reached through anonymous structs and unions. *)

From S2P Require Import Prelude CLayout.

#[local] Open Scope N_scope.

Create HintDb layout_facts.

(** ** Alignment *)

Lemma align_up_ge off a : 0 < a -> off <= align_up off a.
Proof.
  intros Ha. unfold align_up.
  pose proof (N.div_mod (off + (a - 1)) a ltac:(lia)).
  pose proof (N.mod_lt (off + (a - 1)) a ltac:(lia)). nia.
Qed.

Lemma align_up_divide off a : (a | align_up off a).
Proof. unfold align_up. apply N.divide_factor_r. Qed.

(** Induction on types with the hypothesis for every member of an aggregate. *)
Lemma ctype_members_ind (P : ctype -> Prop) :
  (forall size, P (CInt size)) -> P CPtr ->
  (forall elem n, P elem -> P (CArr elem n)) ->
  (forall fs, Forall (λ m, P m.2) fs -> P (CStruct fs)) ->
  (forall fs, Forall (λ m, P m.2) fs -> P (CUnion fs)) ->
  (forall size width, P (CBits size width)) -> forall t, P t.
Proof.
  intros HI HP HA HS HU HB.
  fix IH 1. intros [size| |elem n|fs|fs|size width].
  - apply HI.
  - apply HP.
  - apply HA, IH.
  - apply HS. induction fs as [|[f u] fs IHfs]; constructor; [apply IH|exact IHfs].
  - apply HU. induction fs as [|[f u] fs IHfs]; constructor; [apply IH|exact IHfs].
  - apply HB.
Qed.

(** The alignment of a list of members. *)
Fixpoint members_align (fs : list (string * ctype)) : N :=
  match fs with
  | [] => 1
  | (f, u) :: fs =>
      match u with
      | CBits _ _ => if String.eqb f "" then members_align fs else N.max (alignof u) (members_align fs)
      | _ => N.max (alignof u) (members_align fs)
      end
  end.

Lemma alignof_struct fs : alignof (CStruct fs) = members_align fs.
Proof. reflexivity. Qed.

Lemma alignof_union fs : alignof (CUnion fs) = members_align fs.
Proof. reflexivity. Qed.

Lemma members_align_pos fs : 0 < members_align fs.
Proof. induction fs as [|[f [] ] fs IH]; cbn [members_align]; try case_match; lia. Qed.

Lemma alignof_pos t : 0 < alignof t.
Proof.
  induction t using ctype_members_ind; rewrite ?alignof_struct, ?alignof_union;
    try apply members_align_pos; cbn; lia.
Qed.

#[export] Hint Resolve alignof_pos members_align_pos align_up_divide : layout_facts.

(** ** One struct *)

(** The end of the last member, before the tail padding. *)
Fixpoint place_end (off : N) (fs : list (string * ctype)) : N :=
  match fs with
  | [] => off
  | (_, u) :: fs => place_end (place_at off (alignof u) u + bitsize u) fs
  end.

Lemma bitsize_struct fs :
  bitsize (CStruct fs) = align_up (place_end 0 fs) (8 * members_align fs).
Proof. reflexivity. Qed.

Fixpoint members_largest (fs : list (string * ctype)) : N :=
  match fs with [] => 0 | (_, u) :: fs => N.max (bitsize u) (members_largest fs) end.

Lemma bitsize_union fs :
  bitsize (CUnion fs) = align_up (members_largest fs) (8 * members_align fs).
Proof. reflexivity. Qed.

Lemma place_at_ge off a u : 0 < a -> off <= place_at off a u.
Proof.
  intros. unfold place_at. destruct u; try (apply align_up_ge; lia).
  case_match; [lia|]. apply align_up_ge. lia.
Qed.

Lemma place_end_ge fs off : off <= place_end off fs.
Proof.
  revert off. induction fs as [|[f u] fs IH]; intros off; cbn [place_end]; [lia|].
  pose proof (place_at_ge off (alignof u) u (alignof_pos u)).
  specialize (IH (place_at off (alignof u) u + bitsize u)). lia.
Qed.

Lemma place_bounds fs off f o t :
  (f, o, t) ∈ place off fs -> off <= o /\ o + bitsize t <= place_end off fs.
Proof.
  revert off. induction fs as [|[g u] fs IH]; intros off; cbn [place place_end].
  { intros []%elem_of_nil. }
  pose proof (place_at_ge off (alignof u) u (alignof_pos u)).
  intros [[= -> -> ->]|Hin]%elem_of_cons.
  - split; [lia|apply place_end_ge].
  - destruct (IH _ Hin). split; lia.
Qed.

Lemma place_inside fs f o t :
  (f, o, t) ∈ place 0 fs -> o + bitsize t <= bitsize (CStruct fs).
Proof.
  intros [_ Hend]%place_bounds. rewrite bitsize_struct.
  pose proof (align_up_ge (place_end 0 fs) (8 * members_align fs)).
  pose proof (members_align_pos fs). lia.
Qed.

Lemma place_disjoint fs off i j fi oi ti fj oj tj :
  place off fs !! i = Some (fi, oi, ti) -> place off fs !! j = Some (fj, oj, tj) ->
  (i < j)%nat -> oi + bitsize ti <= oj.
Proof.
  revert off i j. induction fs as [|[g u] fs IH]; intros off i j; cbn [place]; [done|].
  destruct i as [|i], j as [|j]; cbn; intros Hi Hj Hlt; try lia.
  - injection Hi as <- <- <-.
    apply list_elem_of_lookup_2, place_bounds in Hj. lia.
  - eapply IH; eauto. lia.
Qed.

(** A member starts at a multiple of its alignment; a bit-field lies in one
    storage unit of its declared type. *)
Definition well_placed (o : N) (t : ctype) : Prop :=
  match t with
  | CBits size width =>
      width <= 8 * N.max 1 size -> o mod (8 * N.max 1 size) + width <= 8 * N.max 1 size
  | _ => (8 * alignof t | o)
  end.

Lemma place_at_placed off t : well_placed (place_at off (alignof t) t) t.
Proof.
  unfold well_placed, place_at. destruct t; auto with layout_facts.
  change (alignof (CBits size width)) with (N.max 1 size).
  set (unit := 8 * N.max 1 size). intros Hw.
  destruct (0 <? width); cbn [andb].
  - destruct (N.leb_spec (off mod unit + width) unit) as [Hfit|]; [done|].
    destruct (align_up_divide off unit) as [k ->].
    rewrite N.Div0.mod_mul. lia.
  - destruct (align_up_divide off unit) as [k ->]. rewrite N.Div0.mod_mul. lia.
Qed.

Lemma place_placed fs off f o t : (f, o, t) ∈ place off fs -> well_placed o t.
Proof.
  revert off. induction fs as [|[g u] fs IH]; intros off; cbn [place].
  { intros []%elem_of_nil. }
  intros [[= -> -> ->]|Hin]%elem_of_cons; [apply place_at_placed|by eapply IH].
Qed.

(** ** Members by name *)

Lemma members_largest_ge fs f u : (f, u) ∈ fs -> bitsize u <= members_largest fs.
Proof.
  induction fs as [|[g v] fs IH]; cbn [members_largest]; [by intros []%elem_of_nil|].
  intros [[= -> ->]|Hin%IH]%elem_of_cons; lia.
Qed.

Lemma in_struct_place pick base off fs r :
  in_struct pick base off fs = Some r ->
  exists g o u, (g, o, u) ∈ place off fs /\ pick (base + o) g u = Some r.
Proof.
  revert off. induction fs as [|[g u] fs IH]; intros off; cbn [in_struct place]; [done|].
  destruct (pick _ g u) eqn:E.
  - intros [= <-]. do 3 eexists. split; [by left|done].
  - intros (g' & o & u' & Hin & Hp)%IH. exists g', o, u'. split; [by right|done].
Qed.

Lemma in_union_member pick base fs r :
  in_union pick base fs = Some r -> exists g u, (g, u) ∈ fs /\ pick base g u = Some r.
Proof.
  induction fs as [|[g u] fs IH]; cbn [in_union]; [done|].
  destruct (pick _ g u) eqn:E.
  - intros [= <-]. do 2 eexists. split; [by left|done].
  - intros (g' & u' & Hin & Hp)%IH. exists g', u'. split; [by right|done].
Qed.

Lemma place_member fs off g o u : (g, o, u) ∈ place off fs -> (g, u) ∈ fs.
Proof.
  revert off. induction fs as [|[g' u'] fs IH]; intros off; cbn [place].
  { intros []%elem_of_nil. }
  intros [[= -> -> ->]|Hin%IH]%elem_of_cons; [left|by right].
Qed.

(** Where [pick] of [member] finds something: the member itself, or inside it. *)
Lemma pick_inside f o g u po pu :
  (forall base o' u', member f base u = Some (o', u') ->
     base <= o' /\ o' + bitsize u' <= base + bitsize u) ->
  (if String.eqb g f then Some (o, u) else if String.eqb g "" then member f o u else None)
    = Some (po, pu) ->
  o <= po /\ po + bitsize pu <= o + bitsize u.
Proof.
  intros IH. case_match; [intros [= <- <-]; lia|]. case_match; [apply IH|done].
Qed.

(** A member reached by name, also through anonymous members, lies inside the object. *)
Lemma member_inside f base t o u :
  member f base t = Some (o, u) -> base <= o /\ o + bitsize u <= base + bitsize t.
Proof.
  revert base o u. induction t as [| | |fs IH|fs IH|] using ctype_members_ind;
    intros base o u; try done; cbn [member]; intros Hm.
  - apply in_struct_place in Hm as (g & o' & v & Hin & Hp).
    pose proof (place_inside _ _ _ _ Hin).
    apply pick_inside in Hp; [lia|].
    rewrite Forall_forall in IH. by apply (IH (g, v)), (place_member _ _ _ _ _ Hin).
  - apply in_union_member in Hm as (g & v & Hin & Hp).
    apply pick_inside in Hp.
    2: { rewrite Forall_forall in IH. by apply (IH (g, v)). }
    pose proof (members_largest_ge _ _ _ Hin). rewrite bitsize_union.
    pose proof (align_up_ge (members_largest fs) (8 * members_align fs)).
    pose proof (members_align_pos fs). lia.
Qed.
