(* ===== verification/Vmlinux.v ===== *)
(** * Kernel types of internal/ebpf/bpf/vmlinux.h

    The declarations of vmlinux.h that the objects behind connect.c are made of,
    in the order of the header where no type needs a later one: the context of a sys_enter tracepoint, the user
    structures the probes copy (socket addresses, iovecs, msghdrs), the task,
    credentials and cgroup that bpf_get_current_* consult, the socket the LSM hook
    is called on, and the BPF maps, programs and bpf(2) command attributes, each
    with every type it contains by value.  A pointer is a pointer whatever it
    points to; [("", CBits 8 n)] is the padding the header writes [long: n].
    The scalar typedefs u8 to u64 and bool carry the prefix [vm_], the names
    without it being taken. *)

From S2P Require Import Prelude CLayout.

#[local] Open Scope N_scope.
#[local] Open Scope string_scope.
#[local] Open Scope list_scope.

(** An enumeration has four bytes unless a value needs eight. *)
Definition cenum (vals : list (string * Z)) : ctype :=
  if forallb (fun v => (- 2 ^ 31 <=? v.2)%Z && (v.2 <? 2 ^ 32)%Z) vals then CInt 4 else CInt 8.

(** [n] times [long: 64]. *)
Definition padding (n : nat) : list (string * ctype) := replicate n ("", CBits 8 64).

Definition socket_state : ctype := cenum [("SS_FREE", 0); ("SS_UNCONNECTED", 1); ("SS_CONNECTING", 2); ("SS_CONNECTED", 3); ("SS_DISCONNECTING", 4)]%Z.

Definition bpf_attach_type : list (string * Z) :=
  [("BPF_CGROUP_INET_INGRESS", 0); ("BPF_CGROUP_INET_EGRESS", 1);
   ("BPF_CGROUP_INET_SOCK_CREATE", 2); ("BPF_CGROUP_SOCK_OPS", 3);
   ("BPF_SK_SKB_STREAM_PARSER", 4); ("BPF_SK_SKB_STREAM_VERDICT", 5); ("BPF_CGROUP_DEVICE", 6);
   ("BPF_SK_MSG_VERDICT", 7); ("BPF_CGROUP_INET4_BIND", 8); ("BPF_CGROUP_INET6_BIND", 9);
   ("BPF_CGROUP_INET4_CONNECT", 10); ("BPF_CGROUP_INET6_CONNECT", 11);
   ("BPF_CGROUP_INET4_POST_BIND", 12); ("BPF_CGROUP_INET6_POST_BIND", 13);
   ("BPF_CGROUP_UDP4_SENDMSG", 14); ("BPF_CGROUP_UDP6_SENDMSG", 15); ("BPF_LIRC_MODE2", 16);
   ("BPF_FLOW_DISSECTOR", 17); ("BPF_CGROUP_SYSCTL", 18); ("BPF_CGROUP_UDP4_RECVMSG", 19);
   ("BPF_CGROUP_UDP6_RECVMSG", 20); ("BPF_CGROUP_GETSOCKOPT", 21); ("BPF_CGROUP_SETSOCKOPT", 22);
   ("BPF_TRACE_RAW_TP", 23); ("BPF_TRACE_FENTRY", 24); ("BPF_TRACE_FEXIT", 25);
   ("BPF_MODIFY_RETURN", 26); ("BPF_LSM_MAC", 27); ("BPF_TRACE_ITER", 28);
   ("BPF_CGROUP_INET4_GETPEERNAME", 29); ("BPF_CGROUP_INET6_GETPEERNAME", 30);
   ("BPF_CGROUP_INET4_GETSOCKNAME", 31); ("BPF_CGROUP_INET6_GETSOCKNAME", 32);
   ("BPF_XDP_DEVMAP", 33); ("BPF_CGROUP_INET_SOCK_RELEASE", 34); ("BPF_XDP_CPUMAP", 35);
   ("BPF_SK_LOOKUP", 36); ("BPF_XDP", 37); ("BPF_SK_SKB_VERDICT", 38);
   ("BPF_SK_REUSEPORT_SELECT", 39); ("BPF_SK_REUSEPORT_SELECT_OR_MIGRATE", 40);
   ("BPF_PERF_EVENT", 41); ("BPF_TRACE_KPROBE_MULTI", 42); ("BPF_LSM_CGROUP", 43);
   ("BPF_STRUCT_OPS", 44); ("BPF_NETFILTER", 45); ("BPF_TCX_INGRESS", 46);
   ("BPF_TCX_EGRESS", 47); ("BPF_TRACE_UPROBE_MULTI", 48); ("BPF_CGROUP_UNIX_CONNECT", 49);
   ("BPF_CGROUP_UNIX_SENDMSG", 50); ("BPF_CGROUP_UNIX_RECVMSG", 51);
   ("BPF_CGROUP_UNIX_GETPEERNAME", 52); ("BPF_CGROUP_UNIX_GETSOCKNAME", 53);
   ("BPF_NETKIT_PRIMARY", 54); ("BPF_NETKIT_PEER", 55); ("BPF_TRACE_KPROBE_SESSION", 56);
   ("BPF_TRACE_UPROBE_SESSION", 57); ("__MAX_BPF_ATTACH_TYPE", 58)]%Z.

Definition bpf_cmd : list (string * Z) :=
  [("BPF_MAP_CREATE", 0); ("BPF_MAP_LOOKUP_ELEM", 1); ("BPF_MAP_UPDATE_ELEM", 2);
   ("BPF_MAP_DELETE_ELEM", 3); ("BPF_MAP_GET_NEXT_KEY", 4); ("BPF_PROG_LOAD", 5);
   ("BPF_OBJ_PIN", 6); ("BPF_OBJ_GET", 7); ("BPF_PROG_ATTACH", 8); ("BPF_PROG_DETACH", 9);
   ("BPF_PROG_TEST_RUN", 10); ("BPF_PROG_RUN", 10); ("BPF_PROG_GET_NEXT_ID", 11);
   ("BPF_MAP_GET_NEXT_ID", 12); ("BPF_PROG_GET_FD_BY_ID", 13); ("BPF_MAP_GET_FD_BY_ID", 14);
   ("BPF_OBJ_GET_INFO_BY_FD", 15); ("BPF_PROG_QUERY", 16); ("BPF_RAW_TRACEPOINT_OPEN", 17);
   ("BPF_BTF_LOAD", 18); ("BPF_BTF_GET_FD_BY_ID", 19); ("BPF_TASK_FD_QUERY", 20);
   ("BPF_MAP_LOOKUP_AND_DELETE_ELEM", 21); ("BPF_MAP_FREEZE", 22); ("BPF_BTF_GET_NEXT_ID", 23);
   ("BPF_MAP_LOOKUP_BATCH", 24); ("BPF_MAP_LOOKUP_AND_DELETE_BATCH", 25);
   ("BPF_MAP_UPDATE_BATCH", 26); ("BPF_MAP_DELETE_BATCH", 27); ("BPF_LINK_CREATE", 28);
   ("BPF_LINK_UPDATE", 29); ("BPF_LINK_GET_FD_BY_ID", 30); ("BPF_LINK_GET_NEXT_ID", 31);
   ("BPF_ENABLE_STATS", 32); ("BPF_ITER_CREATE", 33); ("BPF_LINK_DETACH", 34);
   ("BPF_PROG_BIND_MAP", 35); ("BPF_TOKEN_CREATE", 36); ("BPF_PROG_STREAM_READ_BY_FD", 37);
   ("__MAX_BPF_CMD", 38)]%Z.

Definition bpf_func_id_1 : list (string * Z) :=
  [("BPF_FUNC_unspec", 0); ("BPF_FUNC_map_lookup_elem", 1); ("BPF_FUNC_map_update_elem", 2);
   ("BPF_FUNC_map_delete_elem", 3); ("BPF_FUNC_probe_read", 4); ("BPF_FUNC_ktime_get_ns", 5);
   ("BPF_FUNC_trace_printk", 6); ("BPF_FUNC_get_prandom_u32", 7);
   ("BPF_FUNC_get_smp_processor_id", 8); ("BPF_FUNC_skb_store_bytes", 9);
   ("BPF_FUNC_l3_csum_replace", 10); ("BPF_FUNC_l4_csum_replace", 11);
   ("BPF_FUNC_tail_call", 12); ("BPF_FUNC_clone_redirect", 13);
   ("BPF_FUNC_get_current_pid_tgid", 14); ("BPF_FUNC_get_current_uid_gid", 15);
   ("BPF_FUNC_get_current_comm", 16); ("BPF_FUNC_get_cgroup_classid", 17);
   ("BPF_FUNC_skb_vlan_push", 18); ("BPF_FUNC_skb_vlan_pop", 19);
   ("BPF_FUNC_skb_get_tunnel_key", 20); ("BPF_FUNC_skb_set_tunnel_key", 21);
   ("BPF_FUNC_perf_event_read", 22); ("BPF_FUNC_redirect", 23); ("BPF_FUNC_get_route_realm", 24);
   ("BPF_FUNC_perf_event_output", 25); ("BPF_FUNC_skb_load_bytes", 26);
   ("BPF_FUNC_get_stackid", 27); ("BPF_FUNC_csum_diff", 28); ("BPF_FUNC_skb_get_tunnel_opt", 29);
   ("BPF_FUNC_skb_set_tunnel_opt", 30); ("BPF_FUNC_skb_change_proto", 31);
   ("BPF_FUNC_skb_change_type", 32); ("BPF_FUNC_skb_under_cgroup", 33);
   ("BPF_FUNC_get_hash_recalc", 34); ("BPF_FUNC_get_current_task", 35);
   ("BPF_FUNC_probe_write_user", 36); ("BPF_FUNC_current_task_under_cgroup", 37);
   ("BPF_FUNC_skb_change_tail", 38); ("BPF_FUNC_skb_pull_data", 39);
   ("BPF_FUNC_csum_update", 40); ("BPF_FUNC_set_hash_invalid", 41);
   ("BPF_FUNC_get_numa_node_id", 42); ("BPF_FUNC_skb_change_head", 43);
   ("BPF_FUNC_xdp_adjust_head", 44); ("BPF_FUNC_probe_read_str", 45);
   ("BPF_FUNC_get_socket_cookie", 46); ("BPF_FUNC_get_socket_uid", 47);
   ("BPF_FUNC_set_hash", 48); ("BPF_FUNC_setsockopt", 49); ("BPF_FUNC_skb_adjust_room", 50);
   ("BPF_FUNC_redirect_map", 51); ("BPF_FUNC_sk_redirect_map", 52);
   ("BPF_FUNC_sock_map_update", 53); ("BPF_FUNC_xdp_adjust_meta", 54);
   ("BPF_FUNC_perf_event_read_value", 55); ("BPF_FUNC_perf_prog_read_value", 56);
   ("BPF_FUNC_getsockopt", 57); ("BPF_FUNC_override_return", 58);
   ("BPF_FUNC_sock_ops_cb_flags_set", 59); ("BPF_FUNC_msg_redirect_map", 60);
   ("BPF_FUNC_msg_apply_bytes", 61); ("BPF_FUNC_msg_cork_bytes", 62);
   ("BPF_FUNC_msg_pull_data", 63); ("BPF_FUNC_bind", 64); ("BPF_FUNC_xdp_adjust_tail", 65);
   ("BPF_FUNC_skb_get_xfrm_state", 66); ("BPF_FUNC_get_stack", 67);
   ("BPF_FUNC_skb_load_bytes_relative", 68); ("BPF_FUNC_fib_lookup", 69);
   ("BPF_FUNC_sock_hash_update", 70); ("BPF_FUNC_msg_redirect_hash", 71);
   ("BPF_FUNC_sk_redirect_hash", 72); ("BPF_FUNC_lwt_push_encap", 73);
   ("BPF_FUNC_lwt_seg6_store_bytes", 74); ("BPF_FUNC_lwt_seg6_adjust_srh", 75);
   ("BPF_FUNC_lwt_seg6_action", 76); ("BPF_FUNC_rc_repeat", 77); ("BPF_FUNC_rc_keydown", 78);
   ("BPF_FUNC_skb_cgroup_id", 79); ("BPF_FUNC_get_current_cgroup_id", 80);
   ("BPF_FUNC_get_local_storage", 81); ("BPF_FUNC_sk_select_reuseport", 82);
   ("BPF_FUNC_skb_ancestor_cgroup_id", 83); ("BPF_FUNC_sk_lookup_tcp", 84);
   ("BPF_FUNC_sk_lookup_udp", 85); ("BPF_FUNC_sk_release", 86); ("BPF_FUNC_map_push_elem", 87);
   ("BPF_FUNC_map_pop_elem", 88); ("BPF_FUNC_map_peek_elem", 89); ("BPF_FUNC_msg_push_data", 90);
   ("BPF_FUNC_msg_pop_data", 91); ("BPF_FUNC_rc_pointer_rel", 92); ("BPF_FUNC_spin_lock", 93);
   ("BPF_FUNC_spin_unlock", 94); ("BPF_FUNC_sk_fullsock", 95); ("BPF_FUNC_tcp_sock", 96);
   ("BPF_FUNC_skb_ecn_set_ce", 97); ("BPF_FUNC_get_listener_sock", 98);
   ("BPF_FUNC_skc_lookup_tcp", 99)]%Z.

Definition bpf_func_id_2 : list (string * Z) :=
  [("BPF_FUNC_tcp_check_syncookie", 100); ("BPF_FUNC_sysctl_get_name", 101);
   ("BPF_FUNC_sysctl_get_current_value", 102); ("BPF_FUNC_sysctl_get_new_value", 103);
   ("BPF_FUNC_sysctl_set_new_value", 104); ("BPF_FUNC_strtol", 105); ("BPF_FUNC_strtoul", 106);
   ("BPF_FUNC_sk_storage_get", 107); ("BPF_FUNC_sk_storage_delete", 108);
   ("BPF_FUNC_send_signal", 109); ("BPF_FUNC_tcp_gen_syncookie", 110);
   ("BPF_FUNC_skb_output", 111); ("BPF_FUNC_probe_read_user", 112);
   ("BPF_FUNC_probe_read_kernel", 113); ("BPF_FUNC_probe_read_user_str", 114);
   ("BPF_FUNC_probe_read_kernel_str", 115); ("BPF_FUNC_tcp_send_ack", 116);
   ("BPF_FUNC_send_signal_thread", 117); ("BPF_FUNC_jiffies64", 118);
   ("BPF_FUNC_read_branch_records", 119); ("BPF_FUNC_get_ns_current_pid_tgid", 120);
   ("BPF_FUNC_xdp_output", 121); ("BPF_FUNC_get_netns_cookie", 122);
   ("BPF_FUNC_get_current_ancestor_cgroup_id", 123); ("BPF_FUNC_sk_assign", 124);
   ("BPF_FUNC_ktime_get_boot_ns", 125); ("BPF_FUNC_seq_printf", 126);
   ("BPF_FUNC_seq_write", 127); ("BPF_FUNC_sk_cgroup_id", 128);
   ("BPF_FUNC_sk_ancestor_cgroup_id", 129); ("BPF_FUNC_ringbuf_output", 130);
   ("BPF_FUNC_ringbuf_reserve", 131); ("BPF_FUNC_ringbuf_submit", 132);
   ("BPF_FUNC_ringbuf_discard", 133); ("BPF_FUNC_ringbuf_query", 134);
   ("BPF_FUNC_csum_level", 135); ("BPF_FUNC_skc_to_tcp6_sock", 136);
   ("BPF_FUNC_skc_to_tcp_sock", 137); ("BPF_FUNC_skc_to_tcp_timewait_sock", 138);
   ("BPF_FUNC_skc_to_tcp_request_sock", 139); ("BPF_FUNC_skc_to_udp6_sock", 140);
   ("BPF_FUNC_get_task_stack", 141); ("BPF_FUNC_load_hdr_opt", 142);
   ("BPF_FUNC_store_hdr_opt", 143); ("BPF_FUNC_reserve_hdr_opt", 144);
   ("BPF_FUNC_inode_storage_get", 145); ("BPF_FUNC_inode_storage_delete", 146);
   ("BPF_FUNC_d_path", 147); ("BPF_FUNC_copy_from_user", 148); ("BPF_FUNC_snprintf_btf", 149);
   ("BPF_FUNC_seq_printf_btf", 150); ("BPF_FUNC_skb_cgroup_classid", 151);
   ("BPF_FUNC_redirect_neigh", 152); ("BPF_FUNC_per_cpu_ptr", 153);
   ("BPF_FUNC_this_cpu_ptr", 154); ("BPF_FUNC_redirect_peer", 155);
   ("BPF_FUNC_task_storage_get", 156); ("BPF_FUNC_task_storage_delete", 157);
   ("BPF_FUNC_get_current_task_btf", 158); ("BPF_FUNC_bprm_opts_set", 159);
   ("BPF_FUNC_ktime_get_coarse_ns", 160); ("BPF_FUNC_ima_inode_hash", 161);
   ("BPF_FUNC_sock_from_file", 162); ("BPF_FUNC_check_mtu", 163);
   ("BPF_FUNC_for_each_map_elem", 164); ("BPF_FUNC_snprintf", 165); ("BPF_FUNC_sys_bpf", 166);
   ("BPF_FUNC_btf_find_by_name_kind", 167); ("BPF_FUNC_sys_close", 168);
   ("BPF_FUNC_timer_init", 169); ("BPF_FUNC_timer_set_callback", 170);
   ("BPF_FUNC_timer_start", 171); ("BPF_FUNC_timer_cancel", 172); ("BPF_FUNC_get_func_ip", 173);
   ("BPF_FUNC_get_attach_cookie", 174); ("BPF_FUNC_task_pt_regs", 175);
   ("BPF_FUNC_get_branch_snapshot", 176); ("BPF_FUNC_trace_vprintk", 177);
   ("BPF_FUNC_skc_to_unix_sock", 178); ("BPF_FUNC_kallsyms_lookup_name", 179);
   ("BPF_FUNC_find_vma", 180); ("BPF_FUNC_loop", 181); ("BPF_FUNC_strncmp", 182);
   ("BPF_FUNC_get_func_arg", 183); ("BPF_FUNC_get_func_ret", 184);
   ("BPF_FUNC_get_func_arg_cnt", 185); ("BPF_FUNC_get_retval", 186);
   ("BPF_FUNC_set_retval", 187); ("BPF_FUNC_xdp_get_buff_len", 188);
   ("BPF_FUNC_xdp_load_bytes", 189); ("BPF_FUNC_xdp_store_bytes", 190);
   ("BPF_FUNC_copy_from_user_task", 191); ("BPF_FUNC_skb_set_tstamp", 192);
   ("BPF_FUNC_ima_file_hash", 193); ("BPF_FUNC_kptr_xchg", 194);
   ("BPF_FUNC_map_lookup_percpu_elem", 195); ("BPF_FUNC_skc_to_mptcp_sock", 196);
   ("BPF_FUNC_dynptr_from_mem", 197); ("BPF_FUNC_ringbuf_reserve_dynptr", 198);
   ("BPF_FUNC_ringbuf_submit_dynptr", 199)]%Z.

Definition bpf_func_id_3 : list (string * Z) :=
  [("BPF_FUNC_ringbuf_discard_dynptr", 200); ("BPF_FUNC_dynptr_read", 201);
   ("BPF_FUNC_dynptr_write", 202); ("BPF_FUNC_dynptr_data", 203);
   ("BPF_FUNC_tcp_raw_gen_syncookie_ipv4", 204); ("BPF_FUNC_tcp_raw_gen_syncookie_ipv6", 205);
   ("BPF_FUNC_tcp_raw_check_syncookie_ipv4", 206);
   ("BPF_FUNC_tcp_raw_check_syncookie_ipv6", 207); ("BPF_FUNC_ktime_get_tai_ns", 208);
   ("BPF_FUNC_user_ringbuf_drain", 209); ("BPF_FUNC_cgrp_storage_get", 210);
   ("BPF_FUNC_cgrp_storage_delete", 211); ("__BPF_FUNC_MAX_ID", 212)]%Z.

Definition bpf_func_id : list (string * Z) := bpf_func_id_1 ++ bpf_func_id_2 ++ bpf_func_id_3.

Definition bpf_map_type : list (string * Z) :=
  [("BPF_MAP_TYPE_UNSPEC", 0); ("BPF_MAP_TYPE_HASH", 1); ("BPF_MAP_TYPE_ARRAY", 2);
   ("BPF_MAP_TYPE_PROG_ARRAY", 3); ("BPF_MAP_TYPE_PERF_EVENT_ARRAY", 4);
   ("BPF_MAP_TYPE_PERCPU_HASH", 5); ("BPF_MAP_TYPE_PERCPU_ARRAY", 6);
   ("BPF_MAP_TYPE_STACK_TRACE", 7); ("BPF_MAP_TYPE_CGROUP_ARRAY", 8);
   ("BPF_MAP_TYPE_LRU_HASH", 9); ("BPF_MAP_TYPE_LRU_PERCPU_HASH", 10);
   ("BPF_MAP_TYPE_LPM_TRIE", 11); ("BPF_MAP_TYPE_ARRAY_OF_MAPS", 12);
   ("BPF_MAP_TYPE_HASH_OF_MAPS", 13); ("BPF_MAP_TYPE_DEVMAP", 14); ("BPF_MAP_TYPE_SOCKMAP", 15);
   ("BPF_MAP_TYPE_CPUMAP", 16); ("BPF_MAP_TYPE_XSKMAP", 17); ("BPF_MAP_TYPE_SOCKHASH", 18);
   ("BPF_MAP_TYPE_CGROUP_STORAGE_DEPRECATED", 19); ("BPF_MAP_TYPE_CGROUP_STORAGE", 19);
   ("BPF_MAP_TYPE_REUSEPORT_SOCKARRAY", 20);
   ("BPF_MAP_TYPE_PERCPU_CGROUP_STORAGE_DEPRECATED", 21);
   ("BPF_MAP_TYPE_PERCPU_CGROUP_STORAGE", 21); ("BPF_MAP_TYPE_QUEUE", 22);
   ("BPF_MAP_TYPE_STACK", 23); ("BPF_MAP_TYPE_SK_STORAGE", 24); ("BPF_MAP_TYPE_DEVMAP_HASH", 25);
   ("BPF_MAP_TYPE_STRUCT_OPS", 26); ("BPF_MAP_TYPE_RINGBUF", 27);
   ("BPF_MAP_TYPE_INODE_STORAGE", 28); ("BPF_MAP_TYPE_TASK_STORAGE", 29);
   ("BPF_MAP_TYPE_BLOOM_FILTER", 30); ("BPF_MAP_TYPE_USER_RINGBUF", 31);
   ("BPF_MAP_TYPE_CGRP_STORAGE", 32); ("BPF_MAP_TYPE_ARENA", 33); ("__MAX_BPF_MAP_TYPE", 34)]%Z.

Definition bpf_prog_type : list (string * Z) :=
  [("BPF_PROG_TYPE_UNSPEC", 0); ("BPF_PROG_TYPE_SOCKET_FILTER", 1); ("BPF_PROG_TYPE_KPROBE", 2);
   ("BPF_PROG_TYPE_SCHED_CLS", 3); ("BPF_PROG_TYPE_SCHED_ACT", 4);
   ("BPF_PROG_TYPE_TRACEPOINT", 5); ("BPF_PROG_TYPE_XDP", 6); ("BPF_PROG_TYPE_PERF_EVENT", 7);
   ("BPF_PROG_TYPE_CGROUP_SKB", 8); ("BPF_PROG_TYPE_CGROUP_SOCK", 9);
   ("BPF_PROG_TYPE_LWT_IN", 10); ("BPF_PROG_TYPE_LWT_OUT", 11); ("BPF_PROG_TYPE_LWT_XMIT", 12);
   ("BPF_PROG_TYPE_SOCK_OPS", 13); ("BPF_PROG_TYPE_SK_SKB", 14);
   ("BPF_PROG_TYPE_CGROUP_DEVICE", 15); ("BPF_PROG_TYPE_SK_MSG", 16);
   ("BPF_PROG_TYPE_RAW_TRACEPOINT", 17); ("BPF_PROG_TYPE_CGROUP_SOCK_ADDR", 18);
   ("BPF_PROG_TYPE_LWT_SEG6LOCAL", 19); ("BPF_PROG_TYPE_LIRC_MODE2", 20);
   ("BPF_PROG_TYPE_SK_REUSEPORT", 21); ("BPF_PROG_TYPE_FLOW_DISSECTOR", 22);
   ("BPF_PROG_TYPE_CGROUP_SYSCTL", 23); ("BPF_PROG_TYPE_RAW_TRACEPOINT_WRITABLE", 24);
   ("BPF_PROG_TYPE_CGROUP_SOCKOPT", 25); ("BPF_PROG_TYPE_TRACING", 26);
   ("BPF_PROG_TYPE_STRUCT_OPS", 27); ("BPF_PROG_TYPE_EXT", 28); ("BPF_PROG_TYPE_LSM", 29);
   ("BPF_PROG_TYPE_SK_LOOKUP", 30); ("BPF_PROG_TYPE_SYSCALL", 31);
   ("BPF_PROG_TYPE_NETFILTER", 32); ("__MAX_BPF_PROG_TYPE", 33)]%Z.

Definition timespec_type : list (string * Z) :=
  [("TT_NONE", 0); ("TT_NATIVE", 1); ("TT_COMPAT", 2)]%Z.

Definition vtime_state : list (string * Z) :=
  [("VTIME_INACTIVE", 0); ("VTIME_IDLE", 1); ("VTIME_SYS", 2); ("VTIME_USER", 3);
   ("VTIME_GUEST", 4)]%Z.

Definition vm_bool : ctype := cu8.
Definition __kernel_clockid_t : ctype := cu32.
Definition __kernel_pid_t : ctype := cu32.
Definition __s32 : ctype := cu32.
Definition clockid_t : ctype := __kernel_clockid_t.
Definition s32 : ctype := __s32.
Definition pid_t : ctype := __kernel_pid_t.
Definition __s64 : ctype := cu64.
Definition s64 : ctype := __s64.
Definition __kernel_loff_t : ctype := cu64.
Definition ktime_t : ctype := s64.
Definition loff_t : ctype := __kernel_loff_t.
Definition __u64 : ctype := cu64.
Definition vm_u64 : ctype := __u64.
Definition __addrpair : ctype := __u64.
Definition __be64 : ctype := __u64.
Definition netdev_features_t : ctype := vm_u64.
Definition __kernel_ulong_t : ctype := cu64.
Definition __kernel_size_t : ctype := __kernel_ulong_t.
Definition size_t : ctype := __kernel_size_t.
Definition vm_flags_t : ctype := cu64.
Definition __s16 : ctype := cu16.
Definition s16 : ctype := __s16.
Definition __u16 : ctype := cu16.
Definition vm_u16 : ctype := __u16.
Definition __be16 : ctype := __u16.
Definition __kernel_sa_family_t : ctype := cu16.
Definition sa_family_t : ctype := __kernel_sa_family_t.
Definition __u8 : ctype := cu8.
Definition vm_u8 : ctype := __u8.
Definition __u32 : ctype := cu32.
Definition vm_u32 : ctype := __u32.
Definition __be32 : ctype := __u32.
Definition __kernel_gid32_t : ctype := cu32.
Definition __kernel_uid32_t : ctype := cu32.
Definition __portpair : ctype := __u32.
Definition errseq_t : ctype := vm_u32.
Definition fmode_t : ctype := cu32.
Definition gfp_t : ctype := cu32.
Definition gid_t : ctype := __kernel_gid32_t.
Definition mm_id_t : ctype := cu32.
Definition uid_t : ctype := __kernel_uid32_t.
Definition atomic64_t : ctype := CStruct [("counter", s64)].
Definition atomic_long_t : ctype := atomic64_t.
Definition atomic_t : ctype := CStruct [("counter", cu32)].

Definition hlist_node : ctype := CStruct
  [("next", CPtr); ("pprev", CPtr)].

Definition timer_list : ctype := CStruct
  [("entry", hlist_node); ("expires", cu64); ("function", CPtr); ("flags", vm_u32)].

Definition qspinlock : ctype := CStruct
  [("", CUnion [("val", atomic_t); ("", CStruct [("locked", vm_u8); ("pending", vm_u8)]);
   ("", CStruct [("locked_pending", vm_u16); ("tail", vm_u16)])])].

Definition arch_spinlock_t : ctype := qspinlock.

Definition qrwlock : ctype := CStruct
  [("", CUnion [("cnts", atomic_t); ("", CStruct [("wlocked", vm_u8);
   ("__lstate", CArr vm_u8 3)])]); ("wait_lock", arch_spinlock_t)].

Definition arch_rwlock_t : ctype := qrwlock.
Definition rwlock_t : ctype := CStruct [("raw_lock", arch_rwlock_t)].
Definition file_ref_t : ctype := CStruct [("refcnt", atomic64_t)].
Definition freeptr_t : ctype := CStruct [("v", cu64)].
Definition kernel_cap_t : ctype := CStruct [("val", vm_u64)].
Definition kgid_t : ctype := CStruct [("val", gid_t)].
Definition kuid_t : ctype := CStruct [("val", uid_t)].
Definition lockdep_map_p : ctype := CStruct [].

Definition optimistic_spin_queue : ctype := CStruct
  [("tail", atomic_t)].

Definition raw_spinlock : ctype := CStruct
  [("raw_lock", arch_spinlock_t)].

Definition raw_spinlock_t : ctype := raw_spinlock.

Definition list_head : ctype := CStruct
  [("next", CPtr); ("prev", CPtr)].

Definition rw_semaphore : ctype := CStruct
  [("count", atomic_long_t); ("owner", atomic_long_t); ("osq", optimistic_spin_queue);
   ("wait_lock", raw_spinlock_t); ("wait_list", list_head)].

Definition mutex : ctype := CStruct
  [("owner", atomic_long_t); ("wait_lock", raw_spinlock_t); ("osq", optimistic_spin_queue);
   ("wait_list", list_head)].

Definition mm_context_t : ctype := CStruct [("ctx_id", vm_u64); ("tlb_gen", atomic64_t); ("next_trim_cpumask", cu64); ("ldt_usr_sem", rw_semaphore); ("ldt", CPtr); ("flags", cu64); ("lock", mutex); ("vdso", CPtr); ("vdso_image", CPtr); ("perf_rdpmc_allowed", atomic_t); ("pkey_allocation_map", vm_u16); ("execute_only_pkey", s16); ("global_asid", vm_u16); ("asid_transition", vm_bool)].
Definition netns_tracker : ctype := CStruct [].
Definition nodemask_t : ctype := CStruct [("bits", CArr cu64 16)].
Definition possible_net_t : ctype := CStruct [("net", CPtr)].

Definition seqcount : ctype := CStruct
  [("sequence", cu32)].

Definition seqcount_t : ctype := seqcount.

Definition seqcount_spinlock : ctype := CStruct
  [("seqcount", seqcount_t)].

Definition seqcount_spinlock_t : ctype := seqcount_spinlock.

Definition spinlock : ctype := CStruct
  [("", CUnion [("rlock", raw_spinlock)])].

Definition spinlock_t : ctype := spinlock.
Definition sigset_t : ctype := CStruct [("sig", CArr cu64 1)].

Definition wait_queue_head : ctype := CStruct
  [("lock", spinlock_t); ("head", list_head)].

Definition wait_queue_head_t : ctype := wait_queue_head.
Definition socket_lock_t : ctype := CStruct [("slock", spinlock_t); ("owned", cu32); ("wq", wait_queue_head_t)].

Definition in6_addr : ctype := CStruct
  [("in6_u", CUnion [("u6_addr8", CArr __u8 16); ("u6_addr16", CArr __be16 8);
   ("u6_addr32", CArr __be32 4)])].

Definition refcount_struct : ctype := CStruct
  [("refs", atomic_t)].

Definition refcount_t : ctype := refcount_struct.

Definition sk_buff_list : ctype := CStruct
  [("next", CPtr); ("prev", CPtr)].

Definition sk_buff_head : ctype := CStruct
  [("", CUnion [("", CStruct [("next", CPtr); ("prev", CPtr)]); ("list", sk_buff_list)]);
   ("qlen", __u32); ("lock", spinlock_t)].

Definition callback_head : ctype := CStruct
  [("next", CPtr); ("func", CPtr)].

Definition rb_node : ctype := CStruct
  [("__rb_parent_color", cu64); ("rb_right", CPtr); ("rb_left", CPtr)].

Definition timerqueue_node : ctype := CStruct
  [("node", rb_node); ("expires", ktime_t)].

Definition hrtimer : ctype := CStruct
  [("node", timerqueue_node); ("_softexpires", ktime_t); ("function", CPtr); ("base", CPtr);
   ("state", vm_u8); ("is_rel", vm_u8); ("is_soft", vm_u8); ("is_hard", vm_u8)].

Definition work_func_t : ctype := CPtr.

Definition work_struct : ctype := CStruct
  [("data", atomic_long_t); ("entry", list_head); ("func", work_func_t)].

Definition fred_cs : ctype := CStruct
  [("cs", CBits 8 16); ("sl", CBits 8 2); ("wfe", CBits 8 1)].

Definition fred_ss : ctype := CStruct
  [("ss", CBits 8 16); ("sti", CBits 8 1); ("swevent", CBits 8 1); ("nmi", CBits 8 1);
   ("", CBits 4 13); ("vector", CBits 8 8); ("", CBits 2 8); ("type", CBits 8 4);
   ("", CBits 1 4); ("enclave", CBits 8 1); ("lm", CBits 8 1); ("nested", CBits 8 1);
   ("", CBits 1 1); ("insnlen", CBits 8 4)].

Definition pt_regs : ctype := CStruct
  [("r15", cu64); ("r14", cu64); ("r13", cu64); ("r12", cu64); ("bp", cu64); ("bx", cu64);
   ("r11", cu64); ("r10", cu64); ("r9", cu64); ("r8", cu64); ("ax", cu64); ("cx", cu64);
   ("dx", cu64); ("si", cu64); ("di", cu64); ("orig_ax", cu64); ("ip", cu64); ("", CUnion
   [("cs", vm_u16); ("csx", vm_u64); ("fred_cs", fred_cs)]); ("flags", cu64); ("sp", cu64);
   ("", CUnion [("ss", vm_u16); ("ssx", vm_u64); ("fred_ss", fred_ss)])].

Definition llist_node : ctype := CStruct
  [("next", CPtr)].

Definition __call_single_node : ctype := CStruct
  [("llist", llist_node); ("", CUnion [("u_flags", cu32); ("a_flags", atomic_t)]);
   ("src", vm_u16); ("dst", vm_u16)].

Definition path : ctype := CStruct
  [("mnt", CPtr); ("dentry", CPtr)].

Definition rb_root : ctype := CStruct
  [("rb_node", CPtr)].

Definition xarray : ctype := CStruct
  [("xa_lock", spinlock_t); ("xa_flags", gfp_t); ("xa_head", CPtr)].

Definition rcu_work : ctype := CStruct
  [("work", work_struct); ("rcu", callback_head); ("wq", CPtr)].

Definition plist_node : ctype := CStruct
  [("prio", cu32); ("prio_list", list_head); ("node_list", list_head)].

Definition rb_root_cached : ctype := CStruct
  [("rb_root", rb_root); ("rb_leftmost", CPtr)].

Definition timerqueue_head : ctype := CStruct
  [("rb_root", rb_root_cached)].

Definition llist_head : ctype := CStruct
  [("first", CPtr)].

Definition cpumask : ctype := CStruct
  [("bits", CArr cu64 128)].

Definition arch_tlbflush_unmap_batch : ctype := CStruct
  [("cpumask", cpumask); ("unmapped_pages", vm_bool)].

Definition sockaddr : ctype := CStruct
  [("sa_family", sa_family_t); ("", CUnion [("sa_data_min", CArr cu8 14); ("", CStruct
   [("__empty_sa_data", CStruct []); ("sa_data", CArr cu8 0)])])].

Definition hlist_head : ctype := CStruct
  [("first", CPtr)].

Definition percpu_counter : ctype := CStruct
  [("lock", raw_spinlock_t); ("count", s64); ("list", list_head); ("counters", CPtr)].

Definition percpu_ref : ctype := CStruct
  [("percpu_count_ptr", cu64); ("data", CPtr)].

Definition file_ra_state : ctype := CStruct
  [("start", cu64); ("size", cu32); ("async_size", cu32); ("ra_pages", cu32); ("order", cu16);
   ("mmap_miss", cu16); ("prev_pos", loff_t)].

Definition file : ctype := CStruct
  [("f_lock", spinlock_t); ("f_mode", fmode_t); ("f_op", CPtr); ("f_mapping", CPtr);
   ("private_data", CPtr); ("f_inode", CPtr); ("f_flags", cu32); ("f_iocb_flags", cu32);
   ("f_cred", CPtr); ("f_owner", CPtr); ("f_path", path); ("", CUnion [("f_pos_lock", mutex);
   ("f_pipe", vm_u64)]); ("f_pos", loff_t); ("f_security", CPtr); ("f_wb_err", errseq_t);
   ("f_sb_err", errseq_t); ("f_ep", CPtr); ("", CUnion [("f_task_work", callback_head);
   ("f_llist", llist_node); ("f_ra", file_ra_state); ("f_freeptr", freeptr_t)]);
   ("f_ref", file_ref_t)].

Definition iovec : ctype := CStruct
  [("iov_base", CPtr); ("iov_len", __kernel_size_t)].

Definition cgroup_subsys_state : ctype := CStruct
  [("cgroup", CPtr); ("ss", CPtr); ("refcnt", percpu_ref); ("rstat_cpu", CPtr);
   ("sibling", list_head); ("children", list_head); ("id", cu32); ("flags", cu32);
   ("serial_nr", vm_u64); ("online_cnt", atomic_t); ("destroy_work", work_struct);
   ("destroy_rwork", rcu_work); ("parent", CPtr); ("nr_descendants", cu32);
   ("rstat_flush_next", CPtr)].

Definition bpf_map : ctype := CStruct
  [("ops", CPtr); ("inner_map_meta", CPtr); ("security", CPtr);
   ("map_type", cenum bpf_map_type); ("key_size", vm_u32); ("value_size", vm_u32);
   ("max_entries", vm_u32); ("map_extra", vm_u64); ("map_flags", vm_u32); ("id", vm_u32);
   ("record", CPtr); ("numa_node", cu32); ("btf_key_type_id", vm_u32);
   ("btf_value_type_id", vm_u32); ("btf_vmlinux_value_type_id", vm_u32); ("btf", CPtr);
   ("objcg", CPtr); ("name", CArr cu8 16); ("freeze_mutex", mutex); ("refcnt", atomic64_t);
   ("usercnt", atomic64_t); ("", CUnion [("work", work_struct); ("rcu", callback_head)]);
   ("writecnt", atomic64_t); ("owner_lock", spinlock_t); ("owner", CPtr);
   ("bypass_spec_v1", vm_bool); ("frozen", vm_bool); ("free_after_mult_rcu_gp", vm_bool);
   ("free_after_rcu_gp", vm_bool); ("sleepable_refcnt", atomic64_t); ("elem_count", CPtr);
   ("cookie", vm_u64)].

Definition bpf_array : ctype := CStruct
  [("map", bpf_map); ("elem_size", vm_u32); ("index_mask", vm_u32); ("aux", CPtr); ("", CUnion
   [("", CStruct [("__empty_value", CStruct []); ("value", CArr cu8 0)]); ("", CStruct
   [("__empty_ptrs", CStruct []); ("ptrs", CArr CPtr 0)]); ("", CStruct
   [("__empty_pptrs", CStruct []); ("pptrs", CArr CPtr 0)])])].

Definition bpf_attr_1 : list (string * ctype) :=
  [("", CStruct [("map_type", __u32); ("key_size", __u32); ("value_size", __u32);
   ("max_entries", __u32); ("map_flags", __u32); ("inner_map_fd", __u32); ("numa_node", __u32);
   ("map_name", CArr cu8 16); ("map_ifindex", __u32); ("btf_fd", __u32);
   ("btf_key_type_id", __u32); ("btf_value_type_id", __u32);
   ("btf_vmlinux_value_type_id", __u32); ("map_extra", __u64); ("value_type_btf_obj_fd", __s32);
   ("map_token_fd", __s32)]); ("", CStruct [("map_fd", __u32); ("key", __u64); ("", CUnion
   [("value", __u64); ("next_key", __u64)]); ("flags", __u64)]); ("batch", CStruct
   [("in_batch", __u64); ("out_batch", __u64); ("keys", __u64); ("values", __u64);
   ("count", __u32); ("map_fd", __u32); ("elem_flags", __u64); ("flags", __u64)]); ("", CStruct
   [("prog_type", __u32); ("insn_cnt", __u32); ("insns", __u64); ("license", __u64);
   ("log_level", __u32); ("log_size", __u32); ("log_buf", __u64); ("kern_version", __u32);
   ("prog_flags", __u32); ("prog_name", CArr cu8 16); ("prog_ifindex", __u32);
   ("expected_attach_type", __u32); ("prog_btf_fd", __u32); ("func_info_rec_size", __u32);
   ("func_info", __u64); ("func_info_cnt", __u32); ("line_info_rec_size", __u32);
   ("line_info", __u64); ("line_info_cnt", __u32); ("attach_btf_id", __u32); ("", CUnion
   [("attach_prog_fd", __u32); ("attach_btf_obj_fd", __u32)]); ("core_relo_cnt", __u32);
   ("fd_array", __u64); ("core_relos", __u64); ("core_relo_rec_size", __u32);
   ("log_true_size", __u32); ("prog_token_fd", __s32); ("fd_array_cnt", __u32)]); ("", CStruct
   [("pathname", __u64); ("bpf_fd", __u32); ("file_flags", __u32); ("path_fd", __s32)]);
   ("", CStruct [("", CUnion [("target_fd", __u32); ("target_ifindex", __u32)]);
   ("attach_bpf_fd", __u32); ("attach_type", __u32); ("attach_flags", __u32);
   ("replace_bpf_fd", __u32); ("", CUnion [("relative_fd", __u32); ("relative_id", __u32)]);
   ("expected_revision", __u64)])].

Definition bpf_attr_2 : list (string * ctype) :=
  [("test", CStruct [("prog_fd", __u32); ("retval", __u32); ("data_size_in", __u32);
   ("data_size_out", __u32); ("data_in", __u64); ("data_out", __u64); ("repeat", __u32);
   ("duration", __u32); ("ctx_size_in", __u32); ("ctx_size_out", __u32); ("ctx_in", __u64);
   ("ctx_out", __u64); ("flags", __u32); ("cpu", __u32); ("batch_size", __u32)]); ("", CStruct
   [("", CUnion [("start_id", __u32); ("prog_id", __u32); ("map_id", __u32); ("btf_id", __u32);
   ("link_id", __u32)]); ("next_id", __u32); ("open_flags", __u32);
   ("fd_by_id_token_fd", __s32)]); ("info", CStruct [("bpf_fd", __u32); ("info_len", __u32);
   ("info", __u64)]); ("query", CStruct [("", CUnion [("target_fd", __u32);
   ("target_ifindex", __u32)]); ("attach_type", __u32); ("query_flags", __u32);
   ("attach_flags", __u32); ("prog_ids", __u64); ("", CUnion [("prog_cnt", __u32);
   ("count", __u32)]); ("prog_attach_flags", __u64); ("link_ids", __u64);
   ("link_attach_flags", __u64); ("revision", __u64)]); ("raw_tracepoint", CStruct
   [("name", __u64); ("prog_fd", __u32); ("cookie", __u64)]); ("", CStruct [("btf", __u64);
   ("btf_log_buf", __u64); ("btf_size", __u32); ("btf_log_size", __u32);
   ("btf_log_level", __u32); ("btf_log_true_size", __u32); ("btf_flags", __u32);
   ("btf_token_fd", __s32)]); ("task_fd_query", CStruct [("pid", __u32); ("fd", __u32);
   ("flags", __u32); ("buf_len", __u32); ("buf", __u64); ("prog_id", __u32); ("fd_type", __u32);
   ("probe_offset", __u64); ("probe_addr", __u64)])].

Definition bpf_attr_3 : list (string * ctype) :=
  [("link_create", CStruct [("", CUnion [("prog_fd", __u32); ("map_fd", __u32)]); ("", CUnion
   [("target_fd", __u32); ("target_ifindex", __u32)]); ("attach_type", __u32); ("flags", __u32);
   ("", CUnion [("target_btf_id", __u32); ("", CStruct [("iter_info", __u64);
   ("iter_info_len", __u32)]); ("perf_event", CStruct [("bpf_cookie", __u64)]);
   ("kprobe_multi", CStruct [("flags", __u32); ("cnt", __u32); ("syms", __u64);
   ("addrs", __u64); ("cookies", __u64)]); ("tracing", CStruct [("target_btf_id", __u32);
   ("cookie", __u64)]); ("netfilter", CStruct [("pf", __u32); ("hooknum", __u32);
   ("priority", __s32); ("flags", __u32)]); ("tcx", CStruct [("", CUnion
   [("relative_fd", __u32); ("relative_id", __u32)]); ("expected_revision", __u64)]);
   ("uprobe_multi", CStruct [("path", __u64); ("offsets", __u64); ("ref_ctr_offsets", __u64);
   ("cookies", __u64); ("cnt", __u32); ("flags", __u32); ("pid", __u32)]); ("netkit", CStruct
   [("", CUnion [("relative_fd", __u32); ("relative_id", __u32)]);
   ("expected_revision", __u64)]); ("cgroup", CStruct [("", CUnion [("relative_fd", __u32);
   ("relative_id", __u32)]); ("expected_revision", __u64)])])]); ("link_update", CStruct
   [("link_fd", __u32); ("", CUnion [("new_prog_fd", __u32); ("new_map_fd", __u32)]);
   ("flags", __u32); ("", CUnion [("old_prog_fd", __u32); ("old_map_fd", __u32)])]);
   ("link_detach", CStruct [("link_fd", __u32)]); ("enable_stats", CStruct [("type", __u32)]);
   ("iter_create", CStruct [("link_fd", __u32); ("flags", __u32)]); ("prog_bind_map", CStruct
   [("prog_fd", __u32); ("map_fd", __u32); ("flags", __u32)]); ("token_create", CStruct
   [("flags", __u32); ("bpffs_fd", __u32)])].

Definition bpf_attr_4 : list (string * ctype) :=
  [("prog_stream_read", CStruct [("stream_buf", __u64); ("stream_buf_len", __u32);
   ("stream_id", __u32); ("prog_fd", __u32)])].

Definition bpf_attr : ctype := CUnion (bpf_attr_1 ++ bpf_attr_2 ++ bpf_attr_3 ++ bpf_attr_4).

Definition bpf_lru_list : ctype := CStruct
  ([("lists", CArr list_head 3); ("counts", CArr cu32 2); ("next_inactive_rotation", CPtr);
   ("lock", raw_spinlock_t)] ++ padding 7).

Definition bpf_common_lru : ctype := CStruct
  ([("lru_list", bpf_lru_list); ("local_list", CPtr)] ++ padding 7).

Definition cpumask_t : ctype := cpumask.

Definition hlist_nulls_node : ctype := CStruct
  [("next", CPtr); ("pprev", CPtr)].

Definition sock_common : ctype := CStruct
  [("", CUnion [("skc_addrpair", __addrpair); ("", CStruct [("skc_daddr", __be32);
   ("skc_rcv_saddr", __be32)])]); ("", CUnion [("skc_hash", cu32);
   ("skc_u16hashes", CArr __u16 2)]); ("", CUnion [("skc_portpair", __portpair); ("", CStruct
   [("skc_dport", __be16); ("skc_num", __u16)])]); ("skc_family", cu16); ("skc_state", cu8);
   ("skc_reuse", CBits 1 4); ("skc_reuseport", CBits 1 1); ("skc_ipv6only", CBits 1 1);
   ("skc_net_refcnt", CBits 1 1); ("skc_bound_dev_if", cu32); ("", CUnion
   [("skc_bind_node", hlist_node); ("skc_portaddr_node", hlist_node)]); ("skc_prot", CPtr);
   ("skc_net", possible_net_t); ("skc_v6_daddr", in6_addr); ("skc_v6_rcv_saddr", in6_addr);
   ("skc_cookie", atomic64_t); ("", CUnion [("skc_flags", cu64); ("skc_listener", CPtr);
   ("skc_tw_dr", CPtr)]); ("skc_dontcopy_begin", CArr cu32 0); ("", CUnion
   [("skc_node", hlist_node); ("skc_nulls_node", hlist_nulls_node)]);
   ("skc_tx_queue_mapping", cu16); ("skc_rx_queue_mapping", cu16); ("", CUnion
   [("skc_incoming_cpu", cu32); ("skc_rcv_wnd", vm_u32); ("skc_tw_rcv_nxt", vm_u32)]);
   ("skc_refcnt", refcount_t); ("skc_dontcopy_end", CArr cu32 0); ("", CUnion
   [("skc_rxhash", vm_u32); ("skc_window_clamp", vm_u32); ("skc_tw_snd_nxt", vm_u32)])].

Definition page_frag : ctype := CStruct
  [("page", CPtr); ("offset", __u32); ("size", __u32)].

Definition sock_cgroup_data : ctype := CStruct
  [("cgroup", CPtr); ("classid", vm_u32); ("prioidx", vm_u16)].

Definition sock_1 : list (string * ctype) :=
  [("__sk_common", sock_common); ("__cacheline_group_begin__sock_write_rx", CArr __u8 0);
   ("sk_drops", atomic_t); ("sk_peek_off", __s32); ("sk_error_queue", sk_buff_head);
   ("sk_receive_queue", sk_buff_head); ("sk_backlog", CStruct [("rmem_alloc", atomic_t);
   ("len", cu32); ("head", CPtr); ("tail", CPtr)]);
   ("__cacheline_group_end__sock_write_rx", CArr __u8 0);
   ("__cacheline_group_begin__sock_read_rx", CArr __u8 0); ("sk_rx_dst", CPtr);
   ("sk_rx_dst_ifindex", cu32); ("sk_rx_dst_cookie", vm_u32); ("sk_ll_usec", cu32);
   ("sk_napi_id", cu32); ("sk_busy_poll_budget", vm_u16); ("sk_prefer_busy_poll", vm_u8);
   ("sk_userlocks", vm_u8); ("sk_rcvbuf", cu32); ("sk_filter", CPtr); ("", CUnion
   [("sk_wq", CPtr); ("sk_wq_raw", CPtr)]); ("sk_data_ready", CPtr); ("sk_rcvtimeo", cu64);
   ("sk_rcvlowat", cu32); ("__cacheline_group_end__sock_read_rx", CArr __u8 0);
   ("__cacheline_group_begin__sock_read_rxtx", CArr __u8 0); ("sk_err", cu32);
   ("sk_socket", CPtr); ("sk_memcg", CPtr); ("sk_policy", CArr CPtr 2);
   ("__cacheline_group_end__sock_read_rxtx", CArr __u8 0);
   ("__cacheline_group_begin__sock_write_rxtx", CArr __u8 0); ("sk_lock", socket_lock_t);
   ("sk_reserved_mem", vm_u32); ("sk_forward_alloc", cu32); ("sk_tsflags", vm_u32);
   ("__cacheline_group_end__sock_write_rxtx", CArr __u8 0);
   ("__cacheline_group_begin__sock_write_tx", CArr __u8 0); ("sk_write_pending", cu32);
   ("sk_omem_alloc", atomic_t); ("sk_sndbuf", cu32); ("sk_wmem_queued", cu32);
   ("sk_wmem_alloc", refcount_t); ("sk_tsq_flags", cu64); ("", CUnion [("sk_send_head", CPtr);
   ("tcp_rtx_queue", rb_root)]); ("sk_write_queue", sk_buff_head);
   ("sk_dst_pending_confirm", vm_u32); ("sk_pacing_status", vm_u32); ("sk_frag", page_frag);
   ("sk_timer", timer_list); ("sk_pacing_rate", cu64); ("sk_zckey", atomic_t);
   ("sk_tskey", atomic_t); ("__cacheline_group_end__sock_write_tx", CArr __u8 0);
   ("__cacheline_group_begin__sock_read_tx", CArr __u8 0); ("sk_max_pacing_rate", cu64);
   ("sk_sndtimeo", cu64); ("sk_priority", vm_u32); ("sk_mark", vm_u32); ("sk_dst_cache", CPtr);
   ("sk_route_caps", netdev_features_t); ("sk_validate_xmit_skb", CPtr); ("sk_gso_type", vm_u16);
   ("sk_gso_max_segs", vm_u16); ("sk_gso_max_size", cu32); ("sk_allocation", gfp_t);
   ("sk_txhash", vm_u32); ("sk_pacing_shift", vm_u8); ("sk_use_task_frag", vm_bool);
   ("__cacheline_group_end__sock_read_tx", CArr __u8 0); ("sk_gso_disabled", CBits 1 1);
   ("sk_kern_sock", CBits 1 1); ("sk_no_check_tx", CBits 1 1); ("sk_no_check_rx", CBits 1 1);
   ("sk_shutdown", vm_u8); ("sk_type", vm_u16); ("sk_protocol", vm_u16); ("sk_lingertime", cu64);
   ("sk_prot_creator", CPtr); ("sk_callback_lock", rwlock_t); ("sk_err_soft", cu32);
   ("sk_ack_backlog", vm_u32); ("sk_max_ack_backlog", vm_u32); ("sk_uid", kuid_t);
   ("sk_ino", cu64); ("sk_peer_lock", spinlock_t); ("sk_bind_phc", cu32); ("sk_peer_pid", CPtr);
   ("sk_peer_cred", CPtr)].

Definition sock_2 : list (string * ctype) :=
  [("sk_stamp", ktime_t); ("sk_disconnects", cu32); ("", CUnion [("sk_txrehash", vm_u8);
   ("sk_scm_recv_flags", vm_u8); ("", CStruct [("sk_scm_credentials", CBits 1 1);
   ("sk_scm_security", CBits 1 1); ("sk_scm_pidfd", CBits 1 1); ("sk_scm_rights", CBits 1 1);
   ("sk_scm_unused", CBits 1 4)])]); ("sk_clockid", vm_u8);
   ("sk_txtime_deadline_mode", CBits 1 1); ("sk_txtime_report_errors", CBits 1 1);
   ("sk_txtime_unused", CBits 1 6); ("sk_bpf_cb_flags", vm_u8); ("sk_user_data", CPtr);
   ("sk_security", CPtr); ("sk_cgrp_data", sock_cgroup_data); ("sk_state_change", CPtr);
   ("sk_write_space", CPtr); ("sk_error_report", CPtr); ("sk_backlog_rcv", CPtr);
   ("sk_destruct", CPtr); ("sk_reuseport_cb", CPtr); ("sk_bpf_storage", CPtr);
   ("sk_rcu", callback_head); ("ns_tracker", netns_tracker); ("sk_user_frags", xarray)].

Definition sock : ctype := CStruct (sock_1 ++ sock_2).

Definition latch_tree_node : ctype := CStruct
  [("node", CArr rb_node 2)].

Definition bpf_ksym : ctype := CStruct
  [("start", cu64); ("end", cu64); ("name", CArr cu8 512); ("lnode", list_head);
   ("tnode", latch_tree_node); ("prog", vm_bool)].

Definition bpf_mem_alloc : ctype := CStruct
  [("caches", CPtr); ("cache", CPtr); ("objcg", CPtr); ("percpu", vm_bool);
   ("work", work_struct)].

Definition pcpu_freelist : ctype := CStruct
  [("freelist", CPtr)].

Definition del_from_htab_func : ctype := CPtr.

Definition bpf_lru : ctype := CStruct
  ([("", CUnion [("common_lru", bpf_common_lru); ("percpu_lru", CPtr)]);
   ("del_from_htab", del_from_htab_func); ("del_arg", CPtr); ("hash_offset", cu32);
   ("target_free", cu32); ("nr_scans", cu32); ("percpu", vm_bool)] ++ padding 4).

Definition bpf_htab : ctype := CStruct
  ([("map", bpf_map); ("ma", bpf_mem_alloc); ("pcpu_ma", bpf_mem_alloc); ("buckets", CPtr);
   ("elems", CPtr)] ++ padding 7 ++ [("", CUnion [("freelist", pcpu_freelist);
   ("lru", bpf_lru)]); ("extra_elems", CPtr); ("pcount", percpu_counter); ("count", atomic_t);
   ("use_percpu_counter", vm_bool); ("n_buckets", vm_u32); ("elem_size", vm_u32);
   ("hashrnd", vm_u32)] ++ padding 7).

Definition bpf_insn : ctype := CStruct
  [("code", __u8); ("dst_reg", CBits 1 4); ("src_reg", CBits 1 4); ("off", __s16);
   ("imm", __s32)].

Definition scx_dsq_list_node : ctype := CStruct
  [("node", list_head); ("flags", vm_u32); ("priv", vm_u32)].

Definition rcuwait : ctype := CStruct
  [("task", CPtr)].

Definition irq_work : ctype := CStruct
  [("node", __call_single_node); ("func", CPtr); ("irqwait", rcuwait)].

Definition sock_filter : ctype := CStruct
  [("code", __u16); ("jt", __u8); ("jf", __u8); ("k", __u32)].

Definition bpf_prog : ctype := CStruct
  [("pages", vm_u16); ("jited", CBits 2 1); ("jit_requested", CBits 2 1);
   ("gpl_compatible", CBits 2 1); ("cb_access", CBits 2 1); ("dst_needed", CBits 2 1);
   ("blinding_requested", CBits 2 1); ("blinded", CBits 2 1); ("is_func", CBits 2 1);
   ("kprobe_override", CBits 2 1); ("has_callchain_buf", CBits 2 1);
   ("enforce_expected_attach_type", CBits 2 1); ("call_get_stack", CBits 2 1);
   ("call_get_func_ip", CBits 2 1); ("tstamp_type_access", CBits 2 1); ("sleepable", CBits 2 1);
   ("type", cenum bpf_prog_type); ("expected_attach_type", cenum bpf_attach_type);
   ("len", vm_u32); ("jited_len", vm_u32); ("tag", CArr vm_u8 8); ("stats", CPtr);
   ("active", CPtr); ("bpf_func", CPtr); ("aux", CPtr); ("orig_prog", CPtr); ("", CUnion
   [("", CStruct [("__empty_insns", CStruct []); ("insns", CArr sock_filter 0)]); ("", CStruct
   [("__empty_insnsi", CStruct []); ("insnsi", CArr bpf_insn 0)])])].

Definition bpf_stream : ctype := CStruct
  [("capacity", atomic_t); ("log", llist_head); ("lock", mutex); ("backlog_head", CPtr);
   ("backlog_tail", CPtr)].

Definition bpf_prog_aux : ctype := CStruct
  [("refcnt", atomic64_t); ("used_map_cnt", vm_u32); ("used_btf_cnt", vm_u32);
   ("max_ctx_offset", vm_u32); ("max_pkt_offset", vm_u32); ("max_tp_access", vm_u32);
   ("stack_depth", vm_u32); ("id", vm_u32); ("func_cnt", vm_u32); ("real_func_cnt", vm_u32);
   ("func_idx", vm_u32); ("attach_btf_id", vm_u32); ("attach_st_ops_member_off", vm_u32);
   ("ctx_arg_info_size", vm_u32); ("max_rdonly_access", vm_u32); ("max_rdwr_access", vm_u32);
   ("attach_btf", CPtr); ("ctx_arg_info", CPtr); ("priv_stack_ptr", CPtr); ("dst_mutex", mutex);
   ("dst_prog", CPtr); ("dst_trampoline", CPtr); ("saved_dst_prog_type", cenum bpf_prog_type);
   ("saved_dst_attach_type", cenum bpf_attach_type); ("verifier_zext", vm_bool);
   ("dev_bound", vm_bool); ("offload_requested", vm_bool); ("attach_btf_trace", vm_bool);
   ("attach_tracing_prog", vm_bool); ("func_proto_unreliable", vm_bool);
   ("tail_call_reachable", vm_bool); ("xdp_has_frags", vm_bool); ("exception_cb", vm_bool);
   ("exception_boundary", vm_bool); ("is_extended", vm_bool); ("jits_use_priv_stack", vm_bool);
   ("priv_stack_requested", vm_bool); ("changes_pkt_data", vm_bool); ("might_sleep", vm_bool);
   ("prog_array_member_cnt", vm_u64); ("ext_mutex", mutex); ("arena", CPtr);
   ("recursion_detected", CPtr); ("attach_func_proto", CPtr); ("attach_func_name", CPtr);
   ("func", CPtr); ("jit_data", CPtr); ("poke_tab", CPtr); ("kfunc_tab", CPtr);
   ("kfunc_btf_tab", CPtr); ("size_poke_tab", vm_u32); ("ksym", bpf_ksym); ("ops", CPtr);
   ("st_ops", CPtr); ("used_maps", CPtr); ("used_maps_mutex", mutex); ("used_btfs", CPtr);
   ("prog", CPtr); ("user", CPtr); ("load_time", vm_u64); ("verified_insns", vm_u32);
   ("cgroup_atype", cu32); ("cgroup_storage", CArr CPtr 2); ("name", CArr cu8 16);
   ("bpf_exception_cb", CPtr); ("security", CPtr); ("token", CPtr); ("offload", CPtr);
   ("btf", CPtr); ("func_info", CPtr); ("func_info_aux", CPtr); ("linfo", CPtr);
   ("jited_linfo", CPtr); ("func_info_cnt", vm_u32); ("nr_linfo", vm_u32); ("linfo_idx", vm_u32);
   ("mod", CPtr); ("num_exentries", vm_u32); ("extable", CPtr); ("", CUnion
   [("work", work_struct); ("rcu", callback_head)]); ("stream", CArr bpf_stream 2)].

Definition rqspinlock_t : ctype := qspinlock.

Definition bpf_ringbuf : ctype := CStruct
  ([("waitq", wait_queue_head_t); ("work", irq_work); ("mask", vm_u64); ("pages", CPtr);
   ("nr_pages", cu32)] ++ padding 6 ++ [("spinlock", rqspinlock_t)] ++ padding 7 ++
   [("busy", atomic_t)] ++ padding 487 ++ [("consumer_pos", cu64)] ++ padding 511 ++
   [("producer_pos", cu64); ("pending_pos", cu64)] ++ padding 510 ++ [("data", CArr cu8 0)]).

Definition bpf_ringbuf_map : ctype := CStruct
  [("map", bpf_map); ("rb", CPtr)].

Definition trace_entry : ctype := CStruct
  [("type", cu16); ("flags", cu8); ("preempt_count", cu8); ("pid", cu32)].

Definition cacheline_padding : ctype := CStruct
  [("x", CArr cu8 0)].

Definition load_weight : ctype := CStruct
  [("weight", cu64); ("inv_weight", vm_u32)].

Definition sched_avg : ctype := CStruct
  [("last_update_time", vm_u64); ("load_sum", vm_u64); ("runnable_sum", vm_u64);
   ("util_sum", vm_u32); ("period_contrib", vm_u32); ("load_avg", cu64); ("runnable_avg", cu64);
   ("util_avg", cu64); ("util_est", cu32)].

Definition cgroup_file : ctype := CStruct
  [("kn", CPtr); ("notified_at", cu64); ("notify_timer", timer_list)].

Definition task_cputime : ctype := CStruct
  [("stime", vm_u64); ("utime", vm_u64); ("sum_exec_runtime", cu64)].

Definition cgroup_base_stat : ctype := CStruct
  [("cputime", task_cputime); ("forceidle_sum", vm_u64); ("ntime", vm_u64)].

Definition prev_cputime : ctype := CStruct
  [("utime", vm_u64); ("stime", vm_u64); ("lock", raw_spinlock_t)].

Definition cgroup_bpf : ctype := CStruct
  [("effective", CArr CPtr 38); ("progs", CArr hlist_head 38); ("flags", CArr vm_u8 38);
   ("revisions", CArr vm_u64 38); ("storages", list_head); ("inactive", CPtr);
   ("refcnt", percpu_ref); ("release_work", work_struct)].

Definition cgroup_freezer_state : ctype := CStruct
  [("freeze", vm_bool); ("e_freeze", vm_bool); ("nr_frozen_descendants", cu32);
   ("nr_frozen_tasks", cu32)].

Definition cgroup : ctype := CStruct
  [("self", cgroup_subsys_state); ("flags", cu64); ("level", cu32); ("max_depth", cu32);
   ("nr_descendants", cu32); ("nr_dying_descendants", cu32); ("max_descendants", cu32);
   ("nr_populated_csets", cu32); ("nr_populated_domain_children", cu32);
   ("nr_populated_threaded_children", cu32); ("nr_threaded_children", cu32); ("kill_seq", cu32);
   ("kn", CPtr); ("procs_file", cgroup_file); ("events_file", cgroup_file);
   ("psi_files", CArr cgroup_file 3); ("subtree_control", vm_u16); ("subtree_ss_mask", vm_u16);
   ("old_subtree_control", vm_u16); ("old_subtree_ss_mask", vm_u16); ("subsys", CArr CPtr 15);
   ("nr_dying_subsys", CArr cu32 15); ("root", CPtr); ("cset_links", list_head);
   ("e_csets", CArr list_head 15); ("dom_cgrp", CPtr); ("old_dom_cgrp", CPtr);
   ("rstat_base_cpu", CPtr); ("_pad_", cacheline_padding); ("last_bstat", cgroup_base_stat);
   ("bstat", cgroup_base_stat); ("prev_cputime", prev_cputime); ("pidlists", list_head);
   ("pidlist_mutex", mutex); ("offline_waitq", wait_queue_head_t);
   ("release_agent_work", work_struct); ("psi", CPtr); ("bpf", cgroup_bpf);
   ("freezer", cgroup_freezer_state); ("bpf_cgrp_storage", CPtr); ("ancestors", CArr CPtr 0);
   ("", CBits 8 64); ("", CBits 8 64)].

Definition in_addr : ctype := CStruct
  [("s_addr", __be32)].

Definition sockaddr_in6 : ctype := CStruct
  [("sin6_family", cu16); ("sin6_port", __be16); ("sin6_flowinfo", __be32);
   ("sin6_addr", in6_addr); ("sin6_scope_id", __u32)].

Definition cred : ctype := CStruct
  [("usage", atomic_long_t); ("uid", kuid_t); ("gid", kgid_t); ("suid", kuid_t);
   ("sgid", kgid_t); ("euid", kuid_t); ("egid", kgid_t); ("fsuid", kuid_t); ("fsgid", kgid_t);
   ("securebits", cu32); ("cap_inheritable", kernel_cap_t); ("cap_permitted", kernel_cap_t);
   ("cap_effective", kernel_cap_t); ("cap_bset", kernel_cap_t); ("cap_ambient", kernel_cap_t);
   ("jit_keyring", cu8); ("session_keyring", CPtr); ("process_keyring", CPtr);
   ("thread_keyring", CPtr); ("request_key_auth", CPtr); ("security", CPtr); ("user", CPtr);
   ("user_ns", CPtr); ("ucounts", CPtr); ("group_info", CPtr); ("", CUnion [("non_rcu", cu32);
   ("rcu", callback_head)])].

Definition css_set : ctype := CStruct
  [("subsys", CArr CPtr 15); ("refcount", refcount_t); ("dom_cset", CPtr); ("dfl_cgrp", CPtr);
   ("nr_tasks", cu32); ("tasks", list_head); ("mg_tasks", list_head); ("dying_tasks", list_head);
   ("task_iters", list_head); ("e_cset_node", CArr list_head 15); ("threaded_csets", list_head);
   ("threaded_csets_node", list_head); ("hlist", hlist_node); ("cgrp_links", list_head);
   ("mg_src_preload_node", list_head); ("mg_dst_preload_node", list_head);
   ("mg_node", list_head); ("mg_src_cgrp", CPtr); ("mg_dst_cgrp", CPtr); ("mg_dst_cset", CPtr);
   ("dead", vm_bool); ("callback_head", callback_head)].

Definition da_monitor : ctype := CStruct
  [("monitoring", vm_bool); ("curr_state", cu32)].

Definition desc_struct : ctype := CStruct
  [("limit0", vm_u16); ("base0", vm_u16); ("base1", CBits 2 8); ("type", CBits 2 4);
   ("s", CBits 2 1); ("dpl", CBits 2 2); ("p", CBits 2 1); ("limit1", CBits 2 4);
   ("avl", CBits 2 1); ("l", CBits 2 1); ("d", CBits 2 1); ("g", CBits 2 1);
   ("base2", CBits 2 8)].

Definition maple_tree : ctype := CStruct
  [("", CUnion [("ma_lock", spinlock_t); ("ma_external_lock", lockdep_map_p)]);
   ("ma_flags", cu32); ("ma_root", CPtr)].

Definition fastopen_queue : ctype := CStruct
  [("rskq_rst_head", CPtr); ("rskq_rst_tail", CPtr); ("lock", spinlock_t); ("qlen", cu32);
   ("max_qlen", cu32); ("ctx", CPtr)].

Definition flowi_tunnel : ctype := CStruct
  [("tun_id", __be64)].

Definition flowi_common : ctype := CStruct
  [("flowic_oif", cu32); ("flowic_iif", cu32); ("flowic_l3mdev", cu32); ("flowic_mark", __u32);
   ("flowic_tos", __u8); ("flowic_scope", __u8); ("flowic_proto", __u8); ("flowic_flags", __u8);
   ("flowic_secid", __u32); ("flowic_uid", kuid_t); ("flowic_multipath_hash", __u32);
   ("flowic_tun_key", flowi_tunnel)].

Definition flowi_uli : ctype := CUnion
  [("ports", CStruct [("dport", __be16); ("sport", __be16)]); ("icmpt", CStruct
   [("type", __u8); ("code", __u8)]); ("gre_key", __be32); ("mht", CStruct [("type", __u8)])].

Definition flowi4 : ctype := CStruct
  [("__fl_common", flowi_common); ("saddr", __be32); ("daddr", __be32); ("uli", flowi_uli)].

Definition flowi6 : ctype := CStruct
  [("__fl_common", flowi_common); ("daddr", in6_addr); ("saddr", in6_addr);
   ("flowlabel", __be32); ("uli", flowi_uli); ("mp_hash", __u32)].

Definition flowi : ctype := CStruct
  [("u", CUnion [("__fl_common", flowi_common); ("ip4", flowi4); ("ip6", flowi6)])].

Definition inet_cork : ctype := CStruct
  [("flags", cu32); ("addr", __be32); ("opt", CPtr); ("fragsize", cu32); ("length", cu32);
   ("dst", CPtr); ("tx_flags", vm_u8); ("ttl", __u8); ("tos", __s16); ("priority", vm_u32);
   ("gso_size", __u16); ("ts_opt_id", vm_u32); ("transmit_time", vm_u64); ("mark", vm_u32)].

Definition inet_cork_full : ctype := CStruct
  [("base", inet_cork); ("fl", flowi)].

Definition inet_sock : ctype := CStruct
  [("sk", sock); ("pinet6", CPtr); ("inet_flags", cu64); ("inet_saddr", __be32);
   ("uc_ttl", __s16); ("inet_sport", __be16); ("inet_opt", CPtr); ("inet_id", atomic_t);
   ("tos", __u8); ("min_ttl", __u8); ("mc_ttl", __u8); ("pmtudisc", __u8); ("rcv_tos", __u8);
   ("convert_csum", __u8); ("uc_index", cu32); ("mc_index", cu32); ("mc_addr", __be32);
   ("local_port_range", vm_u32); ("mc_list", CPtr); ("cork", inet_cork_full)].

Definition request_sock_queue : ctype := CStruct
  [("rskq_lock", spinlock_t); ("rskq_defer_accept", vm_u8); ("synflood_warned", vm_u32);
   ("qlen", atomic_t); ("young", atomic_t); ("rskq_accept_head", CPtr);
   ("rskq_accept_tail", CPtr); ("fastopenq", fastopen_queue)].

Definition inet_connection_sock : ctype := CStruct
  [("icsk_inet", inet_sock); ("icsk_accept_queue", request_sock_queue);
   ("icsk_bind_hash", CPtr); ("icsk_bind2_hash", CPtr); ("icsk_retransmit_timer", timer_list);
   ("icsk_delack_timer", timer_list); ("icsk_rto", __u32); ("icsk_rto_min", __u32);
   ("icsk_rto_max", vm_u32); ("icsk_delack_max", __u32); ("icsk_pmtu_cookie", __u32);
   ("icsk_ca_ops", CPtr); ("icsk_af_ops", CPtr); ("icsk_ulp_ops", CPtr); ("icsk_ulp_data", CPtr);
   ("icsk_sync_mss", CPtr); ("icsk_ca_state", CBits 1 5); ("icsk_ca_initialized", CBits 1 1);
   ("icsk_ca_setsockopt", CBits 1 1); ("icsk_ca_dst_locked", CBits 1 1);
   ("icsk_retransmits", __u8); ("icsk_pending", __u8); ("icsk_backoff", __u8);
   ("icsk_syn_retries", __u8); ("icsk_probes_out", __u8); ("icsk_ext_hdr_len", __u16);
   ("icsk_ack", CStruct [("pending", __u8); ("quick", __u8); ("pingpong", __u8);
   ("retry", __u8); ("ato", CBits 4 8); ("lrcv_flowlabel", CBits 4 20);
   ("dst_quick_ack", CBits 4 1); ("unused", CBits 4 3); ("lrcvtime", __u32);
   ("last_seg_size", __u16); ("rcv_mss", __u16)]); ("icsk_mtup", CStruct [("search_high", cu32);
   ("search_low", cu32); ("probe_size", CBits 4 31); ("enabled", CBits 4 1);
   ("probe_timestamp", vm_u32)]); ("icsk_probes_tstamp", vm_u32); ("icsk_user_timeout", vm_u32);
   ("icsk_ca_priv", CArr vm_u64 13)].

Definition kmap_ctrl : ctype := CStruct
  [].

Definition latency_record : ctype := CStruct
  [("backtrace", CArr cu64 12); ("count", cu32); ("time", cu64); ("max", cu64)].

Definition ltl_monitor : ctype := CStruct
  [].

Definition minmax_sample : ctype := CStruct
  [("t", vm_u32); ("v", vm_u32)].

Definition minmax : ctype := CStruct
  [("s", CArr minmax_sample 3)].

Definition uprobes_state : ctype := CStruct
  [("xol_area", CPtr)].

Definition mm_struct : ctype := CStruct
  [("", CStruct [("", CStruct ([("mm_count", atomic_t)] ++ padding 7)); ("mm_mt", maple_tree);
   ("mmap_base", cu64); ("mmap_legacy_base", cu64); ("mmap_compat_base", cu64);
   ("mmap_compat_legacy_base", cu64); ("task_size", cu64); ("pgd", CPtr);
   ("membarrier_state", atomic_t); ("mm_users", atomic_t); ("pcpu_cid", CPtr);
   ("mm_cid_next_scan", cu64); ("nr_cpus_allowed", cu32); ("max_nr_cid", atomic_t);
   ("cpus_allowed_lock", raw_spinlock_t); ("pgtables_bytes", atomic_long_t); ("map_count", cu32);
   ("page_table_lock", spinlock_t); ("mmap_lock", rw_semaphore); ("mmlist", list_head);
   ("vma_writer_wait", rcuwait); ("mm_lock_seq", seqcount_t); ("futex_hash_lock", mutex);
   ("futex_phash", CPtr); ("futex_phash_new", CPtr); ("futex_batches", cu64);
   ("futex_rcu", callback_head); ("futex_atomic", atomic_long_t); ("futex_ref", CPtr);
   ("hiwater_rss", cu64); ("hiwater_vm", cu64); ("total_vm", cu64); ("locked_vm", cu64);
   ("pinned_vm", atomic64_t); ("data_vm", cu64); ("exec_vm", cu64); ("stack_vm", cu64);
   ("def_flags", vm_flags_t); ("write_protect_seq", seqcount_t); ("arg_lock", spinlock_t);
   ("start_code", cu64); ("end_code", cu64); ("start_data", cu64); ("end_data", cu64);
   ("start_brk", cu64); ("brk", cu64); ("start_stack", cu64); ("arg_start", cu64);
   ("arg_end", cu64); ("env_start", cu64); ("env_end", cu64); ("saved_auxv", CArr cu64 52);
   ("rss_stat", CArr percpu_counter 4); ("binfmt", CPtr); ("context", mm_context_t);
   ("flags", cu64); ("ioctx_lock", spinlock_t); ("ioctx_table", CPtr); ("owner", CPtr);
   ("user_ns", CPtr); ("exe_file", CPtr); ("notifier_subscriptions", CPtr);
   ("numa_next_scan", cu64); ("numa_scan_offset", cu64); ("numa_scan_seq", cu32);
   ("tlb_flush_pending", atomic_t); ("tlb_flush_batched", atomic_t);
   ("uprobes_state", uprobes_state); ("hugetlb_usage", atomic_long_t);
   ("async_put_work", work_struct); ("iommu_mm", CPtr); ("ksm_merging_pages", cu64);
   ("ksm_rmap_items", cu64); ("ksm_zero_pages", atomic_long_t); ("lru_gen", CStruct
   [("list", list_head); ("bitmap", cu64); ("memcg", CPtr)]); ("mm_id", mm_id_t);
   ("", CBits 8 64); ("", CBits 8 64); ("", CBits 8 64)]); ("cpu_bitmap", CArr cu64 0)].

Definition user_msghdr : ctype := CStruct
  [("msg_name", CPtr); ("msg_namelen", cu32); ("msg_iov", CPtr);
   ("msg_iovlen", __kernel_size_t); ("msg_control", CPtr); ("msg_controllen", __kernel_size_t);
   ("msg_flags", cu32)].

Definition mmsghdr : ctype := CStruct
  [("msg_hdr", user_msghdr); ("msg_len", cu32)].

Definition sockaddr_in : ctype := CStruct
  [("sin_family", __kernel_sa_family_t); ("sin_port", __be16); ("sin_addr", in_addr);
   ("__pad", CArr cu8 8)].

Definition posix_cputimer_base : ctype := CStruct
  [("nextevt", vm_u64); ("tqhead", timerqueue_head)].

Definition posix_cputimers : ctype := CStruct
  [("bases", CArr posix_cputimer_base 3); ("timers_active", cu32); ("expiry_active", cu32)].

Definition posix_cputimers_work : ctype := CStruct
  [("work", callback_head); ("mutex", mutex); ("scheduled", cu32)].

Definition rcu_special : ctype := CUnion
  [("b", CStruct [("blocked", vm_u8); ("need_qs", vm_u8); ("exp_hint", vm_u8);
   ("need_mb", vm_u8)]); ("s", vm_u32)].

Definition restart_block : ctype := CStruct
  [("arch_data", cu64); ("fn", CPtr); ("", CUnion [("futex", CStruct [("uaddr", CPtr);
   ("val", vm_u32); ("flags", vm_u32); ("bitset", vm_u32); ("time", vm_u64); ("uaddr2", CPtr)]);
   ("nanosleep", CStruct [("clockid", clockid_t); ("type", cenum timespec_type); ("", CUnion
   [("rmtp", CPtr); ("compat_rmtp", CPtr)]); ("expires", vm_u64)]); ("poll", CStruct
   [("ufds", CPtr); ("nfds", cu32); ("has_timeout", cu32); ("tv_sec", cu64);
   ("tv_nsec", cu64)])])].

Definition dl_server_pick_f : ctype := CPtr.

Definition sched_dl_entity : ctype := CStruct
  [("rb_node", rb_node); ("dl_runtime", vm_u64); ("dl_deadline", vm_u64); ("dl_period", vm_u64);
   ("dl_bw", vm_u64); ("dl_density", vm_u64); ("runtime", s64); ("deadline", vm_u64);
   ("flags", cu32); ("dl_throttled", CBits 4 1); ("dl_yielded", CBits 4 1);
   ("dl_non_contending", CBits 4 1); ("dl_overrun", CBits 4 1); ("dl_server", CBits 4 1);
   ("dl_server_active", CBits 4 1); ("dl_defer", CBits 4 1); ("dl_defer_armed", CBits 4 1);
   ("dl_defer_running", CBits 4 1); ("dl_timer", hrtimer); ("inactive_timer", hrtimer);
   ("rq", CPtr); ("server_pick_task", dl_server_pick_f); ("pi_se", CPtr)].

Definition sched_info : ctype := CStruct
  [("pcount", cu64); ("run_delay", cu64); ("max_run_delay", cu64); ("min_run_delay", cu64);
   ("last_arrival", cu64); ("last_queued", cu64)].

Definition rv_task_monitor : ctype := CUnion
  [("da_mon", da_monitor); ("ltl_mon", ltl_monitor)].

Definition sched_entity : ctype := CStruct
  [("load", load_weight); ("run_node", rb_node); ("deadline", vm_u64); ("min_vruntime", vm_u64);
   ("min_slice", vm_u64); ("group_node", list_head); ("on_rq", cu8); ("sched_delayed", cu8);
   ("rel_deadline", cu8); ("custom_slice", cu8); ("exec_start", vm_u64);
   ("sum_exec_runtime", vm_u64); ("prev_sum_exec_runtime", vm_u64); ("vruntime", vm_u64);
   ("", CUnion [("vlag", s64); ("vprot", vm_u64)]); ("slice", vm_u64);
   ("nr_migrations", vm_u64); ("depth", cu32); ("parent", CPtr); ("cfs_rq", CPtr);
   ("my_q", CPtr); ("runnable_weight", cu64); ("", CBits 8 64); ("avg", sched_avg)].

Definition sched_statistics : ctype := CStruct
  [("wait_start", vm_u64); ("wait_max", vm_u64); ("wait_count", vm_u64); ("wait_sum", vm_u64);
   ("iowait_count", vm_u64); ("iowait_sum", vm_u64); ("sleep_start", vm_u64);
   ("sleep_max", vm_u64); ("sum_sleep_runtime", s64); ("block_start", vm_u64);
   ("block_max", vm_u64); ("sum_block_runtime", s64); ("exec_max", s64); ("slice_max", vm_u64);
   ("nr_migrations_cold", vm_u64); ("nr_failed_migrations_affine", vm_u64);
   ("nr_failed_migrations_running", vm_u64); ("nr_failed_migrations_hot", vm_u64);
   ("nr_forced_migrations", vm_u64); ("nr_wakeups", vm_u64); ("nr_wakeups_sync", vm_u64);
   ("nr_wakeups_migrate", vm_u64); ("nr_wakeups_local", vm_u64); ("nr_wakeups_remote", vm_u64);
   ("nr_wakeups_affine", vm_u64); ("nr_wakeups_affine_attempts", vm_u64);
   ("nr_wakeups_passive", vm_u64); ("nr_wakeups_idle", vm_u64); ("core_forceidle_sum", vm_u64);
   ("", CBits 8 64); ("", CBits 8 64); ("", CBits 8 64)].

Definition sched_ext_entity : ctype := CStruct
  [("dsq", CPtr); ("dsq_list", scx_dsq_list_node); ("dsq_priq", rb_node); ("dsq_seq", vm_u32);
   ("dsq_flags", vm_u32); ("flags", vm_u32); ("weight", vm_u32); ("sticky_cpu", s32);
   ("holding_cpu", s32); ("selected_cpu", s32); ("kf_mask", vm_u32); ("kf_tasks", CArr CPtr 2);
   ("ops_state", atomic_long_t); ("runnable_node", list_head); ("runnable_at", cu64);
   ("core_sched_at", vm_u64); ("ddsp_dsq_id", vm_u64); ("ddsp_enq_flags", vm_u64);
   ("slice", vm_u64); ("dsq_vtime", vm_u64); ("disallow", vm_bool); ("cgrp_moving_from", CPtr);
   ("tasks_node", list_head)].

Definition sched_rt_entity : ctype := CStruct
  [("run_list", list_head); ("timeout", cu64); ("watchdog_stamp", cu64); ("time_slice", cu32);
   ("on_rq", cu16); ("on_list", cu16); ("back", CPtr)].

Definition seccomp : ctype := CStruct
  [("mode", cu32); ("filter_count", atomic_t); ("filter", CPtr)].

Definition sigpending : ctype := CStruct
  [("list", list_head); ("signal", sigset_t)].

Definition task_io_accounting : ctype := CStruct
  [("rchar", vm_u64); ("wchar", vm_u64); ("syscr", vm_u64); ("syscw", vm_u64);
   ("read_bytes", vm_u64); ("write_bytes", vm_u64); ("cancelled_write_bytes", vm_u64)].

Definition socket_wq : ctype := CStruct
  [("wait", wait_queue_head_t); ("fasync_list", CPtr); ("flags", cu64); ("rcu", callback_head);
   ("", CBits 8 64)].

Definition socket : ctype := CStruct
  [("state", socket_state); ("type", cu16); ("flags", cu64); ("file", CPtr); ("sk", CPtr);
   ("ops", CPtr); ("", CBits 8 64); ("", CBits 8 64); ("", CBits 8 64); ("wq", socket_wq)].

Definition syscall_user_dispatch : ctype := CStruct
  [("selector", CPtr); ("offset", cu64); ("len", cu64); ("on_dispatch", vm_bool)].

Definition sysv_sem : ctype := CStruct
  [("undo_list", CPtr)].

Definition sysv_shm : ctype := CStruct
  [("shm_clist", list_head)].

Definition uclamp_se : ctype := CStruct
  [("value", CBits 4 11); ("bucket_id", CBits 4 3); ("active", CBits 4 1);
   ("user_defined", CBits 4 1)].

Definition thread_info : ctype := CStruct
  [("flags", cu64); ("syscall_work", cu64); ("status", vm_u32); ("cpu", vm_u32)].

Definition vtime : ctype := CStruct
  [("seqcount", seqcount_t); ("starttime", cu64); ("state", cenum vtime_state); ("cpu", cu32);
   ("utime", vm_u64); ("stime", vm_u64); ("gtime", vm_u64)].

Definition wake_q_node : ctype := CStruct
  [("next", CPtr)].

Definition tlbflush_unmap_batch : ctype := CStruct
  [("arch", arch_tlbflush_unmap_batch); ("flush_required", vm_bool); ("writable", vm_bool)].

Definition thread_shstk : ctype := CStruct
  [("base", vm_u64); ("size", vm_u64)].

Definition thread_struct : ctype := CStruct
  [("tls_array", CArr desc_struct 3); ("sp", cu64); ("es", cu16); ("ds", cu16);
   ("fsindex", cu16); ("gsindex", cu16); ("fsbase", cu64); ("gsbase", cu64);
   ("ptrace_bps", CArr CPtr 4); ("virtual_dr6", cu64); ("ptrace_dr7", cu64); ("cr2", cu64);
   ("trap_nr", cu64); ("error_code", cu64); ("io_bitmap", CPtr); ("iopl_emul", cu64);
   ("iopl_warn", CBits 4 1); ("pkru", vm_u32); ("features", cu64); ("features_locked", cu64);
   ("shstk", thread_shstk)].

Definition task_struct_1 : list (string * ctype) :=
  [("thread_info", thread_info); ("__state", cu32); ("saved_state", cu32); ("stack", CPtr);
   ("usage", refcount_t); ("flags", cu32); ("ptrace", cu32); ("on_cpu", cu32);
   ("wake_entry", __call_single_node); ("wakee_flips", cu32); ("wakee_flip_decay_ts", cu64);
   ("last_wakee", CPtr); ("recent_used_cpu", cu32); ("wake_cpu", cu32); ("on_rq", cu32);
   ("prio", cu32); ("static_prio", cu32); ("normal_prio", cu32); ("rt_priority", cu32);
   ("se", sched_entity); ("rt", sched_rt_entity); ("dl", sched_dl_entity); ("dl_server", CPtr);
   ("scx", sched_ext_entity); ("sched_class", CPtr); ("core_node", rb_node);
   ("core_cookie", cu64); ("core_occupation", cu32); ("sched_task_group", CPtr);
   ("uclamp_req", CArr uclamp_se 2); ("uclamp", CArr uclamp_se 2); ("stats", sched_statistics);
   ("preempt_notifiers", hlist_head); ("btrace_seq", cu32); ("policy", cu32);
   ("max_allowed_capacity", cu64); ("nr_cpus_allowed", cu32); ("cpus_ptr", CPtr);
   ("user_cpus_ptr", CPtr); ("cpus_mask", cpumask_t); ("migration_pending", CPtr);
   ("migration_disabled", cu16); ("migration_flags", cu16); ("rcu_read_lock_nesting", cu32);
   ("rcu_read_unlock_special", rcu_special); ("rcu_node_entry", list_head);
   ("rcu_blocked_node", CPtr); ("rcu_tasks_nvcsw", cu64); ("rcu_tasks_holdout", vm_u8);
   ("rcu_tasks_idx", vm_u8); ("rcu_tasks_idle_cpu", cu32); ("rcu_tasks_holdout_list", list_head);
   ("rcu_tasks_exit_cpu", cu32); ("rcu_tasks_exit_list", list_head);
   ("trc_reader_nesting", cu32); ("trc_ipi_to_cpu", cu32); ("trc_reader_special", rcu_special);
   ("trc_holdout_list", list_head); ("trc_blkd_node", list_head); ("trc_blkd_cpu", cu32);
   ("sched_info", sched_info); ("tasks", list_head); ("pushable_tasks", plist_node);
   ("pushable_dl_tasks", rb_node); ("mm", CPtr); ("active_mm", CPtr);
   ("faults_disabled_mapping", CPtr); ("exit_state", cu32); ("exit_code", cu32);
   ("exit_signal", cu32); ("pdeath_signal", cu32); ("jobctl", cu64); ("personality", cu32);
   ("sched_reset_on_fork", CBits 4 1); ("sched_contributes_to_load", CBits 4 1);
   ("sched_migrated", CBits 4 1); ("sched_task_hot", CBits 4 1); ("", CBits 8 28);
   ("sched_remote_wakeup", CBits 4 1); ("sched_rt_mutex", CBits 4 1);
   ("user_dumpable", CBits 4 1); ("in_execve", CBits 4 1); ("in_iowait", CBits 4 1);
   ("restore_sigmask", CBits 4 1); ("in_user_fault", CBits 4 1); ("in_lru_fault", CBits 4 1);
   ("no_cgroup_migration", CBits 4 1); ("frozen", CBits 4 1); ("use_memdelay", CBits 4 1);
   ("in_memstall", CBits 4 1); ("in_eventfd", CBits 4 1); ("pasid_activated", CBits 4 1);
   ("reported_split_lock", CBits 4 1); ("in_thrashing", CBits 4 1);
   ("in_nf_duplicate", CBits 4 1); ("atomic_flags", cu64); ("restart_block", restart_block);
   ("pid", pid_t); ("tgid", pid_t)].

Definition task_struct_2 : list (string * ctype) :=
  [("stack_canary", cu64); ("real_parent", CPtr); ("parent", CPtr); ("children", list_head);
   ("sibling", list_head); ("group_leader", CPtr); ("ptraced", list_head);
   ("ptrace_entry", list_head); ("thread_pid", CPtr); ("pid_links", CArr hlist_node 4);
   ("thread_node", list_head); ("vfork_done", CPtr); ("set_child_tid", CPtr);
   ("clear_child_tid", CPtr); ("worker_private", CPtr); ("utime", vm_u64); ("stime", vm_u64);
   ("gtime", vm_u64); ("prev_cputime", prev_cputime); ("vtime", vtime);
   ("tick_dep_mask", atomic_t); ("nvcsw", cu64); ("nivcsw", cu64); ("start_time", vm_u64);
   ("start_boottime", vm_u64); ("min_flt", cu64); ("maj_flt", cu64);
   ("posix_cputimers", posix_cputimers); ("posix_cputimers_work", posix_cputimers_work);
   ("ptracer_cred", CPtr); ("real_cred", CPtr); ("cred", CPtr); ("cached_requested_key", CPtr);
   ("comm", CArr cu8 16); ("nameidata", CPtr); ("sysvsem", sysv_sem); ("sysvshm", sysv_shm);
   ("last_switch_count", cu64); ("last_switch_time", cu64); ("fs", CPtr); ("files", CPtr);
   ("io_uring", CPtr); ("nsproxy", CPtr); ("signal", CPtr); ("sighand", CPtr);
   ("blocked", sigset_t); ("real_blocked", sigset_t); ("saved_sigmask", sigset_t);
   ("pending", sigpending); ("sas_ss_sp", cu64); ("sas_ss_size", size_t); ("sas_ss_flags", cu32);
   ("task_works", CPtr); ("audit_context", CPtr); ("loginuid", kuid_t); ("sessionid", cu32);
   ("seccomp", seccomp); ("syscall_dispatch", syscall_user_dispatch); ("parent_exec_id", vm_u64);
   ("self_exec_id", vm_u64); ("alloc_lock", spinlock_t); ("pi_lock", raw_spinlock_t);
   ("wake_q", wake_q_node); ("pi_waiters", rb_root_cached); ("pi_top_task", CPtr);
   ("pi_blocked_on", CPtr); ("blocked_on", CPtr); ("blocker", cu64); ("in_ubsan", cu32);
   ("journal_info", CPtr); ("bio_list", CPtr); ("plug", CPtr); ("reclaim_state", CPtr);
   ("io_context", CPtr); ("capture_control", CPtr); ("ptrace_message", cu64);
   ("last_siginfo", CPtr); ("ioac", task_io_accounting); ("psi_flags", cu32);
   ("acct_rss_mem1", vm_u64); ("acct_vm_mem1", vm_u64); ("acct_timexpd", vm_u64);
   ("mems_allowed", nodemask_t); ("mems_allowed_seq", seqcount_spinlock_t);
   ("cpuset_mem_spread_rotor", cu32); ("cgroups", CPtr); ("cg_list", list_head);
   ("closid", vm_u32); ("rmid", vm_u32); ("robust_list", CPtr); ("compat_robust_list", CPtr);
   ("pi_state_list", list_head); ("pi_state_cache", CPtr); ("futex_exit_mutex", mutex);
   ("futex_state", cu32); ("perf_recursion", CArr vm_u8 4); ("perf_event_ctxp", CPtr);
   ("perf_event_mutex", mutex); ("perf_event_list", list_head); ("perf_ctx_data", CPtr)].

Definition task_struct_3 : list (string * ctype) :=
  [("mempolicy", CPtr); ("il_prev", cu16); ("il_weight", vm_u8); ("pref_node_fork", cu16);
   ("numa_scan_seq", cu32); ("numa_scan_period", cu32); ("numa_scan_period_max", cu32);
   ("numa_preferred_nid", cu32); ("numa_migrate_retry", cu64); ("node_stamp", vm_u64);
   ("last_task_numa_placement", vm_u64); ("last_sum_exec_runtime", vm_u64);
   ("numa_work", callback_head); ("numa_group", CPtr); ("numa_faults", CPtr);
   ("total_numa_faults", cu64); ("numa_faults_locality", CArr cu64 3);
   ("numa_pages_migrated", cu64); ("rseq", CPtr); ("rseq_len", vm_u32); ("rseq_sig", vm_u32);
   ("rseq_event_mask", cu64); ("mm_cid", cu32); ("last_mm_cid", cu32);
   ("migrate_from_cpu", cu32); ("mm_cid_active", cu32); ("cid_work", callback_head);
   ("tlb_ubc", tlbflush_unmap_batch); ("splice_pipe", CPtr); ("task_frag", page_frag);
   ("delays", CPtr); ("nr_dirtied", cu32); ("nr_dirtied_pause", cu32);
   ("dirty_paused_when", cu64); ("latency_record_count", cu32);
   ("latency_record", CArr latency_record 32); ("timer_slack_ns", vm_u64);
   ("default_timer_slack_ns", vm_u64); ("curr_ret_stack", cu32); ("curr_ret_depth", cu32);
   ("ret_stack", CPtr); ("ftrace_timestamp", cu64); ("ftrace_sleeptime", cu64);
   ("trace_overrun", atomic_t); ("tracing_graph_pause", atomic_t); ("trace_recursion", cu64);
   ("memcg_in_oom", CPtr); ("memcg_nr_pages_over_high", cu32); ("active_memcg", CPtr);
   ("objcg", CPtr); ("throttle_disk", CPtr); ("utask", CPtr); ("sequential_io", cu32);
   ("sequential_io_avg", cu32); ("kmap_ctrl", kmap_ctrl); ("rcu", callback_head);
   ("rcu_users", refcount_t); ("pagefault_disabled", cu32); ("oom_reaper_list", CPtr);
   ("oom_reaper_timer", timer_list); ("stack_vm_area", CPtr); ("stack_refcount", refcount_t);
   ("patch_state", cu32); ("security", CPtr); ("bpf_storage", CPtr); ("bpf_ctx", CPtr);
   ("bpf_net_context", CPtr); ("mce_vaddr", CPtr); ("mce_kflags", __u64); ("mce_addr", vm_u64);
   ("mce_ripv", CBits 8 1); ("mce_whole_page", CBits 8 1); ("__mce_reserved", CBits 8 62);
   ("mce_kill_me", callback_head); ("mce_count", cu32); ("kretprobe_instances", llist_head);
   ("rethooks", llist_head); ("l1d_flush_kill", callback_head); ("rv", CArr rv_task_monitor 2);
   ("user_event_mm", CPtr); ("thread", thread_struct); ("", CBits 8 64)].

Definition task_struct : ctype := CStruct (task_struct_1 ++ task_struct_2 ++ task_struct_3).

Definition tcp_options_received : ctype := CStruct
  [("ts_recent_stamp", cu32); ("ts_recent", vm_u32); ("rcv_tsval", vm_u32);
   ("rcv_tsecr", vm_u32); ("saw_tstamp", CBits 2 1); ("tstamp_ok", CBits 2 1);
   ("dsack", CBits 2 1); ("wscale_ok", CBits 2 1); ("sack_ok", CBits 2 3); ("smc_ok", CBits 2 1);
   ("snd_wscale", CBits 2 4); ("rcv_wscale", CBits 2 4); ("saw_unknown", CBits 1 1);
   ("unused", CBits 1 7); ("num_sacks", vm_u8); ("user_mss", vm_u16); ("mss_clamp", vm_u16)].

Definition tcp_rack : ctype := CStruct
  [("mstamp", vm_u64); ("rtt_us", vm_u32); ("end_seq", vm_u32); ("last_delivered", vm_u32);
   ("reo_wnd_steps", vm_u8); ("reo_wnd_persist", CBits 1 5); ("dsack_seen", CBits 1 1);
   ("advanced", CBits 1 1)].

Definition tcp_sack_block : ctype := CStruct
  [("start_seq", vm_u32); ("end_seq", vm_u32)].

Definition tcp_sock_1 : list (string * ctype) :=
  ([("inet_conn", inet_connection_sock);
   ("__cacheline_group_begin__tcp_sock_read_tx", CArr __u8 0); ("max_window", vm_u32);
   ("rcv_ssthresh", vm_u32); ("reordering", vm_u32); ("notsent_lowat", vm_u32);
   ("gso_segs", vm_u16); ("retransmit_skb_hint", CPtr);
   ("__cacheline_group_end__tcp_sock_read_tx", CArr __u8 0);
   ("__cacheline_group_begin__tcp_sock_read_txrx", CArr __u8 0); ("tsoffset", vm_u32);
   ("snd_wnd", vm_u32); ("mss_cache", vm_u32); ("snd_cwnd", vm_u32); ("prr_out", vm_u32);
   ("lost_out", vm_u32); ("sacked_out", vm_u32); ("tcp_header_len", vm_u16);
   ("scaling_ratio", vm_u8); ("chrono_type", CBits 1 2); ("repair", CBits 1 1);
   ("tcp_usec_ts", CBits 1 1); ("is_sack_reneg", CBits 1 1); ("is_cwnd_limited", CBits 1 1);
   ("__cacheline_group_end__tcp_sock_read_txrx", CArr __u8 0);
   ("__cacheline_group_begin__tcp_sock_read_rx", CArr __u8 0); ("copied_seq", vm_u32);
   ("rcv_tstamp", vm_u32); ("snd_wl1", vm_u32); ("tlp_high_seq", vm_u32); ("rttvar_us", vm_u32);
   ("retrans_out", vm_u32); ("advmss", vm_u16); ("urg_data", vm_u16); ("lost", vm_u32);
   ("rtt_min", minmax); ("out_of_order_queue", rb_root); ("tcp_clean_acked", CPtr);
   ("snd_ssthresh", vm_u32); ("recvmsg_inq", CBits 1 1);
   ("__cacheline_group_end__tcp_sock_read_rx", CArr __u8 0)] ++ padding 7 ++
   [("__cacheline_group_begin__tcp_sock_write_tx", CArr __u8 0); ("segs_out", vm_u32);
   ("data_segs_out", vm_u32); ("bytes_sent", vm_u64); ("snd_sml", vm_u32);
   ("chrono_start", vm_u32); ("chrono_stat", CArr vm_u32 3); ("write_seq", vm_u32);
   ("pushed_seq", vm_u32); ("lsndtime", vm_u32); ("mdev_us", vm_u32); ("rtt_seq", vm_u32);
   ("tcp_wstamp_ns", vm_u64); ("tsorted_sent_queue", list_head); ("highest_sack", CPtr);
   ("ecn_flags", vm_u8); ("__cacheline_group_end__tcp_sock_write_tx", CArr __u8 0);
   ("__cacheline_group_begin__tcp_sock_write_txrx", CArr __u8 0); ("pred_flags", __be32);
   ("tcp_clock_cache", vm_u64); ("tcp_mstamp", vm_u64); ("rcv_nxt", vm_u32); ("snd_nxt", vm_u32);
   ("snd_una", vm_u32); ("window_clamp", vm_u32); ("srtt_us", vm_u32); ("packets_out", vm_u32);
   ("snd_up", vm_u32); ("delivered", vm_u32); ("delivered_ce", vm_u32); ("app_limited", vm_u32);
   ("rcv_wnd", vm_u32); ("rx_opt", tcp_options_received); ("nonagle", CBits 1 4);
   ("rate_app_limited", CBits 1 1); ("__cacheline_group_end__tcp_sock_write_txrx", CArr __u8 0);
   ("", CBits 8 0); ("__cacheline_group_begin__tcp_sock_write_rx", CArr __u8 0);
   ("bytes_received", vm_u64); ("segs_in", vm_u32); ("data_segs_in", vm_u32);
   ("rcv_wup", vm_u32); ("max_packets_out", vm_u32); ("cwnd_usage_seq", vm_u32);
   ("rate_delivered", vm_u32); ("rate_interval_us", vm_u32); ("rcv_rtt_last_tsecr", vm_u32);
   ("first_tx_mstamp", vm_u64); ("delivered_mstamp", vm_u64); ("bytes_acked", vm_u64)]).

Definition tcp_sock_2 : list (string * ctype) :=
  ([("rcv_rtt_est", CStruct [("rtt_us", vm_u32); ("seq", vm_u32); ("time", vm_u64)]);
   ("rcvq_space", CStruct [("space", cu32); ("seq", vm_u32); ("time", vm_u64)]);
   ("__cacheline_group_end__tcp_sock_write_rx", CArr __u8 0); ("dsack_dups", vm_u32);
   ("compressed_ack_rcv_nxt", vm_u32); ("tsq_node", list_head); ("rack", tcp_rack);
   ("compressed_ack", vm_u8); ("dup_ack_counter", CBits 1 2); ("tlp_retrans", CBits 1 1);
   ("unused", CBits 1 5); ("thin_lto", CBits 1 1); ("fastopen_connect", CBits 1 1);
   ("fastopen_no_cookie", CBits 1 1); ("fastopen_client_fail", CBits 1 2); ("frto", CBits 1 1);
   ("repair_queue", vm_u8); ("save_syn", CBits 1 2); ("syn_data", CBits 1 1);
   ("syn_fastopen", CBits 1 1); ("syn_fastopen_exp", CBits 1 1); ("syn_fastopen_ch", CBits 1 1);
   ("syn_data_acked", CBits 1 1); ("syn_fastopen_child", CBits 1 1); ("keepalive_probes", vm_u8);
   ("tcp_tx_delay", vm_u32); ("mdev_max_us", vm_u32); ("reord_seen", vm_u32);
   ("snd_cwnd_cnt", vm_u32); ("snd_cwnd_clamp", vm_u32); ("snd_cwnd_used", vm_u32);
   ("snd_cwnd_stamp", vm_u32); ("prior_cwnd", vm_u32); ("prr_delivered", vm_u32);
   ("last_oow_ack_time", vm_u32); ("pacing_timer", hrtimer); ("compressed_ack_timer", hrtimer);
   ("ooo_last_skb", CPtr); ("duplicate_sack", CArr tcp_sack_block 1);
   ("selective_acks", CArr tcp_sack_block 4); ("recv_sack_cache", CArr tcp_sack_block 4);
   ("prior_ssthresh", vm_u32); ("high_seq", vm_u32); ("retrans_stamp", vm_u32);
   ("undo_marker", vm_u32); ("undo_retrans", cu32); ("bytes_retrans", vm_u64);
   ("total_retrans", vm_u32); ("rto_stamp", vm_u32); ("total_rto", vm_u16);
   ("total_rto_recoveries", vm_u16); ("total_rto_time", vm_u32); ("urg_seq", vm_u32);
   ("keepalive_time", cu32); ("keepalive_intvl", cu32); ("linger2", cu32);
   ("bpf_sock_ops_cb_flags", vm_u8); ("bpf_chg_cc_inprogress", CBits 1 1);
   ("timeout_rehash", vm_u16); ("rcv_ooopack", vm_u32); ("mtu_probe", CStruct
   [("probe_seq_start", vm_u32); ("probe_seq_end", vm_u32)]); ("plb_rehash", vm_u32);
   ("mtu_info", vm_u32); ("is_mptcp", vm_bool); ("syn_smc", vm_bool); ("smc_hs_congested", CPtr);
   ("af_specific", CPtr); ("md5sig_info", CPtr); ("ao_info", CPtr); ("fastopen_req", CPtr);
   ("fastopen_rsk", CPtr); ("saved_syn", CPtr)] ++ padding 4).

Definition tcp_sock : ctype := CStruct (tcp_sock_1 ++ tcp_sock_2).

Definition trace_event_raw_sys_enter : ctype := CStruct
  [("ent", trace_entry); ("id", cu64); ("args", CArr cu64 6); ("__data", CArr cu8 0)].

(** Every struct and union above, in its order. *)
Definition kernel_types : list (string * ctype) :=
  [("hlist_node", hlist_node); ("timer_list", timer_list); ("qspinlock", qspinlock);
   ("qrwlock", qrwlock); ("optimistic_spin_queue", optimistic_spin_queue);
   ("raw_spinlock", raw_spinlock); ("list_head", list_head); ("rw_semaphore", rw_semaphore);
   ("mutex", mutex); ("seqcount", seqcount); ("seqcount_spinlock", seqcount_spinlock);
   ("spinlock", spinlock); ("wait_queue_head", wait_queue_head); ("in6_addr", in6_addr);
   ("refcount_struct", refcount_struct); ("sk_buff_list", sk_buff_list);
   ("sk_buff_head", sk_buff_head); ("callback_head", callback_head); ("rb_node", rb_node);
   ("timerqueue_node", timerqueue_node); ("hrtimer", hrtimer); ("work_struct", work_struct);
   ("fred_cs", fred_cs); ("fred_ss", fred_ss); ("pt_regs", pt_regs); ("llist_node", llist_node);
   ("__call_single_node", __call_single_node); ("path", path); ("rb_root", rb_root);
   ("xarray", xarray); ("rcu_work", rcu_work); ("plist_node", plist_node);
   ("rb_root_cached", rb_root_cached); ("timerqueue_head", timerqueue_head);
   ("llist_head", llist_head); ("cpumask", cpumask);
   ("arch_tlbflush_unmap_batch", arch_tlbflush_unmap_batch); ("sockaddr", sockaddr);
   ("hlist_head", hlist_head); ("percpu_counter", percpu_counter); ("percpu_ref", percpu_ref);
   ("file_ra_state", file_ra_state); ("file", file); ("iovec", iovec);
   ("cgroup_subsys_state", cgroup_subsys_state); ("bpf_map", bpf_map); ("bpf_array", bpf_array);
   ("bpf_attr", bpf_attr); ("bpf_lru_list", bpf_lru_list); ("bpf_common_lru", bpf_common_lru);
   ("hlist_nulls_node", hlist_nulls_node); ("sock_common", sock_common);
   ("page_frag", page_frag); ("sock_cgroup_data", sock_cgroup_data); ("sock", sock);
   ("latch_tree_node", latch_tree_node); ("bpf_ksym", bpf_ksym);
   ("bpf_mem_alloc", bpf_mem_alloc); ("pcpu_freelist", pcpu_freelist); ("bpf_lru", bpf_lru);
   ("bpf_htab", bpf_htab); ("bpf_insn", bpf_insn); ("scx_dsq_list_node", scx_dsq_list_node);
   ("rcuwait", rcuwait); ("irq_work", irq_work); ("sock_filter", sock_filter);
   ("bpf_prog", bpf_prog); ("bpf_stream", bpf_stream); ("bpf_prog_aux", bpf_prog_aux);
   ("bpf_ringbuf", bpf_ringbuf); ("bpf_ringbuf_map", bpf_ringbuf_map);
   ("trace_entry", trace_entry); ("cacheline_padding", cacheline_padding);
   ("load_weight", load_weight); ("sched_avg", sched_avg); ("cgroup_file", cgroup_file);
   ("task_cputime", task_cputime); ("cgroup_base_stat", cgroup_base_stat);
   ("prev_cputime", prev_cputime); ("cgroup_bpf", cgroup_bpf);
   ("cgroup_freezer_state", cgroup_freezer_state); ("cgroup", cgroup); ("in_addr", in_addr);
   ("sockaddr_in6", sockaddr_in6); ("cred", cred); ("css_set", css_set);
   ("da_monitor", da_monitor); ("desc_struct", desc_struct); ("maple_tree", maple_tree);
   ("fastopen_queue", fastopen_queue); ("flowi_tunnel", flowi_tunnel);
   ("flowi_common", flowi_common); ("flowi_uli", flowi_uli); ("flowi4", flowi4);
   ("flowi6", flowi6); ("flowi", flowi); ("inet_cork", inet_cork);
   ("inet_cork_full", inet_cork_full); ("inet_sock", inet_sock);
   ("request_sock_queue", request_sock_queue); ("inet_connection_sock", inet_connection_sock);
   ("kmap_ctrl", kmap_ctrl); ("latency_record", latency_record); ("ltl_monitor", ltl_monitor);
   ("minmax_sample", minmax_sample); ("minmax", minmax); ("uprobes_state", uprobes_state);
   ("mm_struct", mm_struct); ("user_msghdr", user_msghdr); ("mmsghdr", mmsghdr);
   ("sockaddr_in", sockaddr_in); ("posix_cputimer_base", posix_cputimer_base);
   ("posix_cputimers", posix_cputimers); ("posix_cputimers_work", posix_cputimers_work);
   ("rcu_special", rcu_special); ("restart_block", restart_block);
   ("sched_dl_entity", sched_dl_entity); ("sched_info", sched_info);
   ("rv_task_monitor", rv_task_monitor); ("sched_entity", sched_entity);
   ("sched_statistics", sched_statistics); ("sched_ext_entity", sched_ext_entity);
   ("sched_rt_entity", sched_rt_entity); ("seccomp", seccomp); ("sigpending", sigpending);
   ("task_io_accounting", task_io_accounting); ("socket_wq", socket_wq); ("socket", socket);
   ("syscall_user_dispatch", syscall_user_dispatch); ("sysv_sem", sysv_sem);
   ("sysv_shm", sysv_shm); ("uclamp_se", uclamp_se); ("thread_info", thread_info);
   ("vtime", vtime); ("wake_q_node", wake_q_node);
   ("tlbflush_unmap_batch", tlbflush_unmap_batch); ("thread_shstk", thread_shstk);
   ("thread_struct", thread_struct); ("task_struct", task_struct);
   ("tcp_options_received", tcp_options_received); ("tcp_rack", tcp_rack);
   ("tcp_sack_block", tcp_sack_block); ("tcp_sock", tcp_sock);
   ("trace_event_raw_sys_enter", trace_event_raw_sys_enter)].
