(* ===== verification/Kernel.v ===== *)
(** * The kernel side of the BPF object

    What connect.c keeps and what it calls.  [kmaps] is the state behind the
    [SEC(".maps")] declarations: hash and array maps are finite maps from the
    integer value of a key, a ring buffer is the list of the samples submitted
    to it so far.  The BPF helpers live in the kernel, not in this repository;
    they are the operations of the class [Helpers], and [HelpersOk] states what
    their documentation promises. *)

From S2P Require Import Prelude CLayout.

(** ** The invocation context of one program run *)

Record task := Task {
  pid_tgid : Z;      (* bpf_get_current_pid_tgid() *)
  cgroup_id : Z;     (* bpf_get_current_cgroup_id() *)
  task_comm : bytes; (* the 16 bytes bpf_get_current_comm() fills in *)
  ktime_ns : Z       (* bpf_ktime_get_ns() *)
}.

Record task_ok (t : task) : Prop := {
  pid_tgid_u64 : 0 <= pid_tgid t < 2 ^ 64;
  cgroup_id_u64 : 0 <= cgroup_id t < 2 ^ 64;
  comm_len : length (task_comm t) = 16%nat;
  ktime_u64 : 0 <= ktime_ns t < 2 ^ 64
}.

(** [ctx->args[i]] of a sys_enter tracepoint, an [unsigned long]. *)
Definition arg (ctx : list Z) (i : nat) : Z := u64 (nth i ctx 0).

(** ** Maps *)

Record kmaps := KMaps {
  pid_filter : gmap Z Z;
  cgroup_filter : gmap Z Z;
  lsm_blocklist_pid : gmap Z Z;
  lsm_blocklist_cgroup : gmap Z Z;
  events : list bytes;
  drop_count : gmap Z Z;
  critical_events : list bytes;
  critical_drop_count : gmap Z Z;
  payload_cap : gmap Z Z;
  iov_scratch_map : gmap Z bytes
}.

Definition with_events (r : list bytes) (st : kmaps) : kmaps :=
  KMaps (pid_filter st) (cgroup_filter st) (lsm_blocklist_pid st) (lsm_blocklist_cgroup st)
    r (drop_count st) (critical_events st) (critical_drop_count st) (payload_cap st)
    (iov_scratch_map st).

Definition with_drop_count (m : gmap Z Z) (st : kmaps) : kmaps :=
  KMaps (pid_filter st) (cgroup_filter st) (lsm_blocklist_pid st) (lsm_blocklist_cgroup st)
    (events st) m (critical_events st) (critical_drop_count st) (payload_cap st)
    (iov_scratch_map st).

Definition with_critical_events (r : list bytes) (st : kmaps) : kmaps :=
  KMaps (pid_filter st) (cgroup_filter st) (lsm_blocklist_pid st) (lsm_blocklist_cgroup st)
    (events st) (drop_count st) r (critical_drop_count st) (payload_cap st)
    (iov_scratch_map st).

Definition with_critical_drop_count (m : gmap Z Z) (st : kmaps) : kmaps :=
  KMaps (pid_filter st) (cgroup_filter st) (lsm_blocklist_pid st) (lsm_blocklist_cgroup st)
    (events st) (drop_count st) (critical_events st) m (payload_cap st)
    (iov_scratch_map st).

Definition with_scratch (m : gmap Z bytes) (st : kmaps) : kmaps :=
  KMaps (pid_filter st) (cgroup_filter st) (lsm_blocklist_pid st) (lsm_blocklist_cgroup st)
    (events st) (drop_count st) (critical_events st) (critical_drop_count st) (payload_cap st) m.

(** bpf_ringbuf_submit on a sample of the routine, resp. critical, ring. *)
Definition submit_event (s : bytes) (st : kmaps) : kmaps :=
  with_events (events st ++ [s]) st.
Definition submit_critical (s : bytes) (st : kmaps) : kmaps :=
  with_critical_events (critical_events st ++ [s]) st.

(** Two states that differ only in the per-CPU gather buffer, whose contents no
    program reads before overwriting. *)
Definition kequiv (st st' : kmaps) : Prop :=
  with_scratch ∅ st = with_scratch ∅ st'.

Lemma kequiv_fields st st' :
  kequiv st st' <->
  pid_filter st = pid_filter st' /\ cgroup_filter st = cgroup_filter st' /\
  lsm_blocklist_pid st = lsm_blocklist_pid st' /\
  lsm_blocklist_cgroup st = lsm_blocklist_cgroup st' /\
  events st = events st' /\ drop_count st = drop_count st' /\
  critical_events st = critical_events st' /\
  critical_drop_count st = critical_drop_count st' /\ payload_cap st = payload_cap st'.
Proof.
  unfold kequiv, with_scratch. split.
  - intros [= -> -> -> -> -> -> -> -> ->]. done.
  - destruct st, st'; cbn. intros; destruct_and!; by simplify_eq.
Qed.

#[export] Instance kequiv_equivalence : Equivalence kequiv.
Proof.
  unfold kequiv. split; [done|by intros ???|].
  intros ??? H1 H2. by rewrite H1.
Qed.

#[export] Instance kmaps_equiv : Equiv kmaps := kequiv.

#[export] Instance submit_event_proper s : Proper (kequiv ==> kequiv) (submit_event s).
Proof. intros st st'. rewrite !kequiv_fields. cbn. intuition congruence. Qed.

#[export] Instance submit_critical_proper s : Proper (kequiv ==> kequiv) (submit_critical s).
Proof. intros st st'. rewrite !kequiv_fields. cbn. intuition congruence. Qed.

Lemma kequiv_scratch m st : kequiv (with_scratch m st) st.
Proof. done. Qed.

(** ** Helpers

    [U] is the user memory of the monitored task.  A probe read returns the
    helper's return value and the bytes the destination holds afterwards. *)

Class Helpers (U : Type) := {
  probe_read_user : U -> Z -> nat -> Z * bytes;
  probe_read_user_str : U -> Z -> nat -> Z * bytes;
  probe_read_kernel : bytes -> nat -> Z * bytes;
  (* the reserved sample as the ring hands it out: old ring memory *)
  ringbuf_reserve : list bytes -> nat -> option bytes
}.

Class HelpersOk (U : Type) `{Helpers U} : Prop := {
  probe_read_user_len m a n : length (probe_read_user m a n).2 = n;
  probe_read_user_ret m a n : (probe_read_user m a n).1 <= 0;
  (* a readable region is readable piecewise, with the same bytes *)
  probe_read_user_prefix m a n bs k :
    probe_read_user m a n = (0, bs) -> (k <= n)%nat ->
    probe_read_user m a k = (0, take k bs);
  (* "on success, the strictly positive length of the output string, including
     the trailing NUL character" *)
  probe_read_user_str_len m a n : length (probe_read_user_str m a n).2 = n;
  probe_read_user_str_ret m a n : (probe_read_user_str m a n).1 <= Z.of_nat n;
  probe_read_user_str_nul m a n r bs :
    probe_read_user_str m a n = (r, bs) -> 0 < r ->
    bs !! Z.to_nat (r - 1) = Some x00 /\ Forall (λ b, b ≠ x00) (take (Z.to_nat (r - 1)) bs);
  probe_read_kernel_len b n : length (probe_read_kernel b n).2 = n;
  (* a map value is mapped kernel memory: reading inside it does not fault *)
  probe_read_kernel_ok b n :
    (n <= length b)%nat -> probe_read_kernel b n = (0, take n b);
  ringbuf_reserve_len r n s : ringbuf_reserve r n = Some s -> length s = n
}.

Create Rewrite HintDb kernel.
#[export] Hint Rewrite @probe_read_user_len @probe_read_user_str_len
  @probe_read_kernel_len using typeclasses eauto : kernel.

(** ** A concrete kernel

    User memory as a partial map of bytes; a read that touches an unmapped byte
    faults with -EFAULT and zero-fills the destination.  Rings never fill up to
    [capacity] samples.  It satisfies [HelpersOk], so the laws are consistent,
    and the witnesses run the probes on it. *)

Section concrete.
Context (capacity : nat).

Fixpoint mem_read (m : gmap Z byte) (a : Z) (n : nat) : option bytes :=
  match n with
  | O => Some []
  | S n => b ← m !! a; bs ← mem_read m (a + 1) n; Some (b :: bs)
  end.

(** The bytes before the first NUL, at most [n], when they are all mapped. *)
Fixpoint mem_cstr (m : gmap Z byte) (a : Z) (n : nat) : option bytes :=
  match n with
  | O => Some []
  | S n =>
      b ← m !! a;
      if decide (b = x00) then Some []
      else bs ← mem_cstr m (a + 1) n; Some (b :: bs)
  end.

Definition concrete_helpers : Helpers (gmap Z byte) := {|
  probe_read_user m a n :=
    match mem_read m a n with
    | Some bs => (0, bs)
    | None => (-14, replicate n x00)
    end;
  probe_read_user_str m a n :=
    match n with
    | O => (0, [])
    | S k =>
        match mem_cstr m a k with
        | Some bs => (Z.of_nat (S (length bs)), bs ++ replicate (n - length bs) x00)
        | None => (-14, replicate n x00)
        end
    end;
  probe_read_kernel b n :=
    if decide (n <= length b)%nat then (0, take n b) else (-14, replicate n x00);
  ringbuf_reserve r n :=
    if decide (length r < capacity)%nat then Some (replicate n xa5) else None
|}.

Lemma mem_read_len m a n bs : mem_read m a n = Some bs -> length bs = n.
Proof.
  revert a bs. induction n as [|n IH]; intros a bs; cbn; [by intros [= <-]|].
  intros (b & _ & (bs' & Hb & [= <-])%bind_Some)%bind_Some. cbn. by rewrite (IH _ _ Hb).
Qed.

Lemma mem_read_prefix m a n bs k :
  mem_read m a n = Some bs -> (k <= n)%nat -> mem_read m a k = Some (take k bs).
Proof.
  revert a bs k. induction n as [|n IH]; intros a bs k Hr Hk.
  { replace k with 0%nat by lia. done. }
  destruct k as [|k]; [done|]. revert Hr. cbn.
  intros (b & -> & (bs' & Hb & [= <-])%bind_Some)%bind_Some. cbn.
  by rewrite (IH _ _ k Hb) by lia.
Qed.

Lemma mem_cstr_spec m a n bs :
  mem_cstr m a n = Some bs -> (length bs <= n)%nat /\ Forall (λ b, b ≠ x00) bs.
Proof.
  revert a bs. induction n as [|n IH]; intros a bs; cbn.
  { intros [= <-]. cbn. auto. }
  intros (b & _ & Hb)%bind_Some. case_decide; [simplify_eq; cbn; split; [lia|done]|].
  apply bind_Some in Hb as (bs' & Hb & [= <-]). apply IH in Hb as [??].
  cbn. split; [lia|by constructor].
Qed.

Lemma concrete_helpers_ok : @HelpersOk (gmap Z byte) concrete_helpers.
Proof.
  split; cbn.
  - intros m a n. destruct (mem_read m a n) eqn:E; cbn; [by eapply mem_read_len|].
    apply length_replicate.
  - intros m a n. destruct (mem_read m a n); cbn; lia.
  - intros m a n bs k. destruct (mem_read m a n) eqn:E; intros [= ->] Hk.
    by rewrite (mem_read_prefix _ _ _ _ _ E Hk).
  - intros m a [|n]; [done|]. destruct (mem_cstr m a n) eqn:E; cbn [snd].
    + apply mem_cstr_spec in E as [? _]. rewrite length_app, length_replicate. lia.
    + apply length_replicate.
  - intros m a [|n]; [cbn; lia|]. destruct (mem_cstr m a n) eqn:E; cbn [fst]; [|lia].
    apply mem_cstr_spec in E as [? _]. lia.
  - intros m a [|n] r bs; [intros [= <- <-]; lia|].
    destruct (mem_cstr m a n) as [s|] eqn:E; intros [= <- <-] Hr; [|lia].
    apply mem_cstr_spec in E as [? ?].
    replace (Z.to_nat (Z.of_nat (S (length s)) - 1)) with (length s) by lia.
    rewrite take_app_length. split; [|done].
    rewrite lookup_app_r, Nat.sub_diag, lookup_replicate by lia. split; [done|lia].
  - intros b n. case_decide; cbn; [rewrite length_take; lia|apply length_replicate].
  - intros b n Hn. by rewrite decide_True by done.
  - intros r n s. case_decide; intros [= <-]. apply length_replicate.
Qed.
End concrete.
