(* ===== verification/Probes.v ===== *)
(** * The eBPF programs of internal/ebpf/bpf/connect.c

    One definition per function of the file: the seven syscall tracepoints, the
    LSM hook and the inline helpers they share.  A program maps the kernel maps
    to its return value and the maps it leaves; a store to a ring sample is a
    store at the offset that [CLayout] computes for the field. *)

From S2P Require Import Prelude CLayout Vmlinux Kernel.

Definition AF_INET : Z := 2.
Definition AF_INET6 : Z := 10.
Definition EVENT_CONNECT : Z := 1.
Definition EVENT_WRITE : Z := 2.
Definition EVENT_SENDTO : Z := 3.
Definition EVENT_OPENAT : Z := 4.
Definition EVENT_LSM_DENY : Z := 5.
Definition EVENT_WRITEV : Z := 6.
Definition EVENT_SENDMSG : Z := 7.
Definition DEFAULT_PAYLOAD_CAP : Z := 1024.
Definition EPERM : Z := 1.
Definition IOV_MASK : Z := 2 * PAYLOAD_MAX - 1.
Definition IOV_MAX : nat := 4.

(** [*count += 1] on slot 0 of an array map, when the slot exists. *)
Definition inc_slot0 (m : gmap Z Z) : gmap Z Z :=
  match m !! 0 with Some count => <[0 := u64 (count + 1)]> m | None => m end.

Definition inc_drop_count (st : kmaps) : kmaps :=
  with_drop_count (inc_slot0 (drop_count st)) st.

Definition inc_critical_drop_count (st : kmaps) : kmaps :=
  with_critical_drop_count (inc_slot0 (critical_drop_count st)) st.

Definition payload_limit (st : kmaps) : Z :=
  let lim :=
    match payload_cap st !! 0 with
    | Some v => if 0 <? v then v else DEFAULT_PAYLOAD_CAP
    | None => DEFAULT_PAYLOAD_CAP
    end in
  if PAYLOAD_MAX <? lim then PAYLOAD_MAX else lim.

Definition clamp_cap (st : kmaps) (count : Z) : Z :=
  let cap := payload_limit st in
  let cap := if PAYLOAD_MAX <? cap then PAYLOAD_MAX else cap in
  if count <? cap then u32 count else cap.

(** [bpf_ntohs]: swap the two bytes of a 16-bit value. *)
Definition bpf_ntohs (p : Z) : Z :=
  Z.lor (Z.shiftl (Z.land p 255) 8) (Z.shiftr p 8).

Definition iov_scratch_buf (st : kmaps) : option bytes := iov_scratch_map st !! 0.

Section programs.
Context {U : Type} `{!Helpers U} (tk : task) (umem : U).

Definition cur_pid : Z := u32 (Z.shiftr (pid_tgid tk) 32).
Definition cur_tid : Z := u32 (pid_tgid tk).

Definition monitored_task (st : kmaps) : bool :=
  match pid_filter st !! cur_pid with
  | Some _ => true
  | None =>
      match cgroup_filter st !! cgroup_id tk with
      | Some _ => true
      | None => false
      end
  end.

(** family, address and port of a user sockaddr; [None] is the return -1. *)
Definition read_dest (sa : Z) : option (Z * bytes * Z) :=
  let family := le_Z (probe_read_user umem
                        (u64 (sa + Z.of_nat (offsetof sockaddr "sa_family"))) 2).2 in
  if family =? AF_INET then
    let ip := (probe_read_user umem
                 (u64 (sa + Z.of_nat (offsetof sockaddr_in "sin_addr"))) 4).2 in
    let port := le_Z (probe_read_user umem
                        (u64 (sa + Z.of_nat (offsetof sockaddr_in "sin_port"))) 2).2 in
    Some (AF_INET, splice 0 ip (replicate 16 x00), bpf_ntohs port)
  else if family =? AF_INET6 then
    let addr := (probe_read_user umem
                   (u64 (sa + Z.of_nat (offsetof sockaddr_in6 "sin6_addr"))) 16).2 in
    let port := le_Z (probe_read_user umem
                        (u64 (sa + Z.of_nat (offsetof sockaddr_in6 "sin6_port"))) 2).2 in
    Some (AF_INET6, addr, bpf_ntohs port)
  else None.

(** The helper's return value and the bytes written at [dst]. *)
Definition read_payload (n : Z) (src : Z) : Z * bytes :=
  if PAYLOAD_MAX <=? n then probe_read_user umem src (Z.to_nat PAYLOAD_MAX)
  else probe_read_user umem src (Z.to_nat (Z.land n (PAYLOAD_MAX - 1))).

(** The unrolled loop of gather_iov; [fuel] is IOV_MAX minus [i]. *)
Fixpoint gather_loop (fuel : nat) (i iovp iovcnt limit total : Z) (out : bytes)
    : Z * bytes :=
  match fuel with
  | O => (total, out)
  | S fuel =>
      if (iovcnt <=? i) || (limit <=? total) then (total, out) else
      let '(r, iov) := probe_read_user umem
                         (u64 (iovp + i * Z.of_nat (sizeof iovec))) (sizeof iovec) in
      if r <? 0 then (total, out) else
      let iov_base := load iovec "iov_base" iov in
      let iov_len := load iovec "iov_len" iov in
      if (iov_base =? 0) || (iov_len =? 0)
      then gather_loop fuel (i + 1) iovp iovcnt limit total out
      else
      let n := u32 (limit - total) in
      let n := if iov_len <? n then u32 iov_len else n in
      if (PAYLOAD_MAX <? n) || (PAYLOAD_MAX <? total) then (total, out) else
      let n := Z.land n IOV_MASK in
      let '(r, bs) := probe_read_user umem iov_base (Z.to_nat n) in
      let out := splice (Z.to_nat (Z.land total IOV_MASK)) bs out in
      if r <? 0 then (total, out)
      else gather_loop fuel (i + 1) iovp iovcnt limit (u32 (total + n)) out
  end.

Definition gather_iov (st : kmaps) (out : bytes) (iovp iovcnt : Z) : Z * bytes :=
  let limit := clamp_cap st PAYLOAD_MAX in
  let '(total, out) := gather_loop IOV_MAX 0 iovp iovcnt limit 0 out in
  (if PAYLOAD_MAX <? total then PAYLOAD_MAX else total, out).

(** *** Filling a reserved sample *)

Definition fill_connect (family : Z) (dest_addr : bytes) (dest_port fd : Z) (ev : bytes)
    : bytes :=
  let ev := memset0 (sizeof connect_event) ev in
  let ev := store connect_event "type" EVENT_CONNECT ev in
  let ev := store connect_event "ts_ns" (ktime_ns tk) ev in
  let ev := store connect_event "pid" cur_pid ev in
  let ev := store connect_event "tid" cur_tid ev in
  let ev := store connect_event "family" family ev in
  let ev := store_bytes connect_event "dest_addr" dest_addr ev in
  let ev := store connect_event "dest_port" dest_port ev in
  let ev := store connect_event "fd" fd ev in
  let ev := store connect_event "cgroup_id" (cgroup_id tk) ev in
  store_bytes connect_event "comm" (task_comm tk) ev.

Definition fill_write (type len fd : Z) (ev : bytes) : bytes :=
  let ev := memset0 (offsetof write_event "payload") ev in
  let ev := store write_event "type" type ev in
  let ev := store write_event "len" len ev in
  let ev := store write_event "ts_ns" (ktime_ns tk) ev in
  let ev := store write_event "pid" cur_pid ev in
  let ev := store write_event "tid" cur_tid ev in
  let ev := store write_event "fd" fd ev in
  let ev := store write_event "cgroup_id" (cgroup_id tk) ev in
  store_bytes write_event "comm" (task_comm tk) ev.

Definition fill_sendto (type len family : Z) (dest_addr : bytes) (dest_port : Z)
    (ev : bytes) : bytes :=
  let ev := memset0 (offsetof sendto_event "payload") ev in
  let ev := store sendto_event "type" type ev in
  let ev := store sendto_event "len" len ev in
  let ev := store sendto_event "ts_ns" (ktime_ns tk) ev in
  let ev := store sendto_event "pid" cur_pid ev in
  let ev := store sendto_event "tid" cur_tid ev in
  let ev := store sendto_event "family" family ev in
  let ev := store_bytes sendto_event "dest_addr" dest_addr ev in
  let ev := store sendto_event "dest_port" dest_port ev in
  let ev := store sendto_event "cgroup_id" (cgroup_id tk) ev in
  store_bytes sendto_event "comm" (task_comm tk) ev.

Definition fill_openat (ev : bytes) : bytes :=
  let ev := memset0 (sizeof openat_event) ev in
  let ev := store openat_event "type" EVENT_OPENAT ev in
  let ev := store openat_event "ts_ns" (ktime_ns tk) ev in
  let ev := store openat_event "pid" cur_pid ev in
  let ev := store openat_event "tid" cur_tid ev in
  let ev := store openat_event "cgroup_id" (cgroup_id tk) ev in
  store_bytes openat_event "comm" (task_comm tk) ev.

Definition fill_lsm_deny (ev : bytes) : bytes :=
  let ev := memset0 (sizeof lsm_deny_event) ev in
  let ev := store lsm_deny_event "type" EVENT_LSM_DENY ev in
  let ev := store lsm_deny_event "ts_ns" (ktime_ns tk) ev in
  let ev := store lsm_deny_event "pid" cur_pid ev in
  let ev := store lsm_deny_event "tid" cur_tid ev in
  let ev := store lsm_deny_event "cgroup_id" (cgroup_id tk) ev in
  store_bytes lsm_deny_event "comm" (task_comm tk) ev.

(** *** The programs *)

Definition sys_enter_connect (ctx : list Z) (st : kmaps) : Z * kmaps :=
  if negb (monitored_task st) then (0, st) else
  let sa := arg ctx 1 in
  if sa =? 0 then (0, st) else
  match read_dest sa with
  | None => (0, st)
  | Some (family, dest_addr, dest_port) =>
      match ringbuf_reserve (events st) (sizeof connect_event) with
      | None => (0, inc_drop_count st)
      | Some ev =>
          (0, submit_event
                (fill_connect family dest_addr dest_port (u32 (arg ctx 0)) ev) st)
      end
  end.

Definition emit_write (fd buf count : Z) (st : kmaps) : Z * kmaps :=
  if (buf =? 0) || (count =? 0) then (0, st) else
  let cap := clamp_cap st count in
  match ringbuf_reserve (critical_events st) (sizeof write_event) with
  | None => (0, inc_critical_drop_count st)
  | Some ev =>
      let ev := fill_write EVENT_WRITE cap fd ev in
      let '(r, bs) := read_payload cap buf in
      let ev := store_bytes write_event "payload" bs ev in
      if r <? 0 then (0, st) else (0, submit_critical ev st)
  end.

Definition sys_enter_write (ctx : list Z) (st : kmaps) : Z * kmaps :=
  if negb (monitored_task st) then (0, st) else
  let fd := u32 (arg ctx 0) in
  if fd <? 3 then (0, st) else emit_write fd (arg ctx 1) (arg ctx 2) st.

(** Reserve, fill and submit a write-layout record whose payload is the first
    [total] bytes of the gather buffer (writev, and sendmsg without a name). *)
Definition emit_gathered_write (type total fd : Z) (scratch : bytes) (st : kmaps)
    : Z * kmaps :=
  match ringbuf_reserve (critical_events st) (sizeof write_event) with
  | None => (0, inc_critical_drop_count st)
  | Some ev =>
      let ev := fill_write type total fd ev in
      let '(r, bs) := probe_read_kernel scratch (Z.to_nat total) in
      let ev := store_bytes write_event "payload" bs ev in
      if r <? 0 then (0, st) else (0, submit_critical ev st)
  end.

Definition sys_enter_writev (ctx : list Z) (st : kmaps) : Z * kmaps :=
  if negb (monitored_task st) then (0, st) else
  let fd := u32 (arg ctx 0) in
  if fd <? 3 then (0, st) else
  let iovp := arg ctx 1 in
  let iovcnt := arg ctx 2 in
  if (iovp =? 0) || (iovcnt =? 0) then (0, st) else
  match iov_scratch_buf st with
  | None => (0, st)
  | Some scratch =>
      let '(total, scratch) := gather_iov st scratch iovp iovcnt in
      let st := with_scratch (<[0 := scratch]> (iov_scratch_map st)) st in
      if (total =? 0) || (PAYLOAD_MAX <? total) then (0, st)
      else emit_gathered_write EVENT_WRITEV total fd scratch st
  end.

Definition sys_enter_sendto (ctx : list Z) (st : kmaps) : Z * kmaps :=
  if negb (monitored_task st) then (0, st) else
  let buf := arg ctx 1 in
  let count := arg ctx 2 in
  let sa := arg ctx 4 in
  if (buf =? 0) || (count =? 0) then (0, st) else
  if sa =? 0 then emit_write (u32 (arg ctx 0)) buf count st else
  match read_dest sa with
  | None => (0, st)
  | Some (family, dest_addr, dest_port) =>
      let cap := clamp_cap st count in
      match ringbuf_reserve (critical_events st) (sizeof sendto_event) with
      | None => (0, inc_critical_drop_count st)
      | Some ev =>
          let ev := fill_sendto EVENT_SENDTO cap family dest_addr dest_port ev in
          let '(r, bs) := read_payload cap buf in
          let ev := store_bytes sendto_event "payload" bs ev in
          if r <? 0 then (0, st) else (0, submit_critical ev st)
      end
  end.

Definition emit_sendmsg (fd umsg : Z) (st : kmaps) : Z * kmaps :=
  if umsg =? 0 then (0, st) else
  let '(r, hdr) := probe_read_user umem umsg (sizeof user_msghdr) in
  if r <? 0 then (0, st) else
  let msg_iov := load user_msghdr "msg_iov" hdr in
  let msg_iovlen := load user_msghdr "msg_iovlen" hdr in
  if (msg_iov =? 0) || (msg_iovlen =? 0) then (0, st) else
  match iov_scratch_buf st with
  | None => (0, st)
  | Some scratch =>
      let '(total, scratch) := gather_iov st scratch msg_iov msg_iovlen in
      let st := with_scratch (<[0 := scratch]> (iov_scratch_map st)) st in
      if (total =? 0) || (PAYLOAD_MAX <? total) then (0, st) else
      let msg_name := load user_msghdr "msg_name" hdr in
      (* msg_namelen is a signed int *)
      let msg_namelen := load user_msghdr "msg_namelen" hdr in
      let named :=
        if negb (msg_name =? 0) && (0 <? msg_namelen) && (msg_namelen <? 2 ^ 31)
        then read_dest msg_name else None in
      match named with
      | Some (family, dest_addr, dest_port) =>
          match ringbuf_reserve (critical_events st) (sizeof sendto_event) with
          | None => (0, inc_critical_drop_count st)
          | Some ev =>
              let ev := fill_sendto EVENT_SENDMSG total family dest_addr dest_port ev in
              let '(r, bs) := probe_read_kernel scratch (Z.to_nat total) in
              let ev := store_bytes sendto_event "payload" bs ev in
              if r <? 0 then (0, st) else (0, submit_critical ev st)
          end
      | None => emit_gathered_write EVENT_SENDMSG total fd scratch st
      end
  end.

Definition sys_enter_sendmsg (ctx : list Z) (st : kmaps) : Z * kmaps :=
  if negb (monitored_task st) then (0, st)
  else emit_sendmsg (u32 (arg ctx 0)) (arg ctx 1) st.

Definition sys_enter_sendmmsg (ctx : list Z) (st : kmaps) : Z * kmaps :=
  if negb (monitored_task st) then (0, st) else
  if u32 (arg ctx 2) =? 0 then (0, st)
  else emit_sendmsg (u32 (arg ctx 0)) (arg ctx 1) st.

Definition sys_enter_openat (ctx : list Z) (st : kmaps) : Z * kmaps :=
  if negb (monitored_task st) then (0, st) else
  let filename := arg ctx 1 in
  if filename =? 0 then (0, st) else
  match ringbuf_reserve (events st) (sizeof openat_event) with
  | None => (0, inc_drop_count st)
  | Some ev =>
      let ev := fill_openat ev in
      let '(n, bs) := probe_read_user_str umem filename (fieldsize openat_event "path") in
      let ev := store_bytes openat_event "path" bs ev in
      if n <=? 0 then (0, st)
      else (0, submit_event (store openat_event "path_len" (u32 n) ev) st)
  end.

(** The LSM hook; [ret] is the verdict of the hooks that ran before. *)
Definition lsm_socket_connect (ret : Z) (st : kmaps) : Z * kmaps :=
  if negb (ret =? 0) then (ret, st) else
  let blocked :=
    match lsm_blocklist_pid st !! cur_pid with
    | Some b => Some b
    | None => lsm_blocklist_cgroup st !! cgroup_id tk
    end in
  match blocked with
  | None => (0, st)
  | Some b =>
      if b =? 0 then (0, st) else
      match ringbuf_reserve (critical_events st) (sizeof lsm_deny_event) with
      | None => (- EPERM, inc_critical_drop_count st)
      | Some ev => (- EPERM, submit_critical (fill_lsm_deny ev) st)
      end
  end.
End programs.
