(* ===== verification/KernelAbi.v ===== *)
(** * The kernel interfaces connect.c relies on

    The [SEC(".maps")] declarations of connect.c, and what the probes take for
    granted about the kernel types of vmlinux.h: which user structures share a
    prefix, how large the buffers of the helpers are, which map types and helpers
    the numbers of the header stand for. *)

From S2P Require Import Prelude CLayout Vmlinux Kernel Probes.

(** ** Map declarations *)

Record map_def := MapDef {
  map_type : string;
  max_entries : Z;
  map_key : option ctype;
  map_value : option ctype
}.

Definition pid_filter_def : map_def := MapDef "BPF_MAP_TYPE_HASH" 256 (Some __u32) (Some __u8).
Definition cgroup_filter_def : map_def := MapDef "BPF_MAP_TYPE_HASH" 256 (Some __u64) (Some __u8).
Definition lsm_blocklist_pid_def : map_def :=
  MapDef "BPF_MAP_TYPE_HASH" 256 (Some __u32) (Some __u8).
Definition lsm_blocklist_cgroup_def : map_def :=
  MapDef "BPF_MAP_TYPE_HASH" 256 (Some __u64) (Some __u8).
Definition events_def : map_def := MapDef "BPF_MAP_TYPE_RINGBUF" (256 * 1024) None None.
Definition drop_count_def : map_def := MapDef "BPF_MAP_TYPE_ARRAY" 1 (Some __u32) (Some __u64).
Definition critical_events_def : map_def := MapDef "BPF_MAP_TYPE_RINGBUF" (256 * 1024) None None.
Definition critical_drop_count_def : map_def :=
  MapDef "BPF_MAP_TYPE_ARRAY" 1 (Some __u32) (Some __u64).
Definition payload_cap_def : map_def := MapDef "BPF_MAP_TYPE_ARRAY" 1 (Some __u32) (Some __u32).
Definition iov_scratch_map_def : map_def :=
  MapDef "BPF_MAP_TYPE_PERCPU_ARRAY" 1 (Some __u32) (Some iov_scratch).

Definition map_defs : list map_def :=
  [pid_filter_def; cgroup_filter_def; lsm_blocklist_pid_def; lsm_blocklist_cgroup_def;
   events_def; drop_count_def; critical_events_def; critical_drop_count_def;
   payload_cap_def; iov_scratch_map_def].

(** The value of an enumerator. *)
Fixpoint enum_value (name : string) (vals : list (string * Z)) : option Z :=
  match vals with
  | [] => None
  | (n, v) :: vals => if String.eqb n name then Some v else enum_value name vals
  end.

(** ** What the probes rely on *)

Definition dest_layout : Prop :=
  (* read_dest reads the family before it knows the address type *)
  offsetof sockaddr "sa_family" = offsetof sockaddr_in "sin_family" /\
  offsetof sockaddr "sa_family" = offsetof sockaddr_in6 "sin6_family" /\
  fieldsize sockaddr "sa_family" = 2%nat /\
  offsetof sockaddr_in "sin_port" = offsetof sockaddr_in6 "sin6_port" /\
  fieldsize sockaddr_in "sin_port" = 2%nat /\ fieldsize sockaddr_in6 "sin6_port" = 2%nat /\
  (* and copies 4, resp. 16, bytes into a 16-byte array *)
  fieldsize sockaddr_in "sin_addr" = 4%nat /\
  fieldsize sockaddr_in6 "sin6_addr" = fieldsize connect_event "dest_addr" /\
  fieldsize connect_event "dest_addr" = fieldsize sendto_event "dest_addr".

Definition records : list ctype :=
  [connect_event; write_event; sendto_event; openat_event; lsm_deny_event].

(** bpf_get_current_comm copies the comm of the task into each record. *)
Definition comm_layout : bool :=
  forallb (fun record => Nat.eqb (fieldsize record "comm") (fieldsize task_struct "comm")) records.

(** The context of a sys_enter tracepoint: six 8-byte arguments at offset 16. *)
Definition context_layout : Prop :=
  offsetof trace_event_raw_sys_enter "args" = 16%nat /\
  fieldsize trace_event_raw_sys_enter "args" = 48%nat /\
  sizeof trace_event_raw_sys_enter = 64%nat.

(** The user structures of sendmsg(2), sendmmsg(2) and writev(2): the entries of an
    iovec array are 16 bytes apart, those of an mmsghdr array start with the msghdr. *)
Definition message_layout : Prop :=
  sizeof iovec = 16%nat /\ offsetof iovec "iov_len" = 8%nat /\
  sizeof user_msghdr = 56%nat /\ offsetof user_msghdr "msg_namelen" = 8%nat /\
  offsetof user_msghdr "msg_iov" = 16%nat /\ offsetof user_msghdr "msg_iovlen" = 24%nat /\
  offsetof mmsghdr "msg_hdr" = 0%nat.

(** The consumer, the producer and the data of a ring buffer live on pages of their own. *)
Definition ring_layout : Prop :=
  Z.of_nat (offsetof bpf_ringbuf "consumer_pos") = 4096 /\
  Z.of_nat (offsetof bpf_ringbuf "producer_pos") = 8192 /\
  Z.of_nat (offsetof bpf_ringbuf "data") = 12288.

(** A map declaration names a map type of the kernel and holds at least one entry; a
    ring takes any record of connect.c with its 8-byte header. *)
Definition map_def_ok (d : map_def) : bool :=
  match enum_value (map_type d) bpf_map_type with
  | None => false
  | Some _ =>
      (0 <? max_entries d) &&
      (negb (String.eqb (map_type d) "BPF_MAP_TYPE_RINGBUF") ||
       forallb (fun record => Z.of_nat (sizeof record) + 8 <=? max_entries d) records)
  end.

Definition abi_agrees : Prop :=
  dest_layout /\ comm_layout = true /\ context_layout /\ message_layout /\ ring_layout /\
  forallb map_def_ok map_defs = true.

(** The layout facts connect.c takes for granted hold of the declarations of
    vmlinux.h, and its maps have types and sizes its records fit. *)
Theorem kernel_abi_agrees : abi_agrees.
Proof.
  unfold abi_agrees, dest_layout, context_layout, message_layout, ring_layout.
  split_and!; vm_compute; reflexivity.
Qed.
