(* ===== verification/ProbeFacts.v ===== *)
(** * Facts about the probe programs

    Field reads of a filled sample, the bounds of every capture length, and the
    gather loop against its reference. *)

From S2P Require Import Prelude CLayout Vmlinux Kernel Probes.

(** ** Reading back a filled sample *)

(** Replace the layout functions of closed types by their values. *)
Ltac layout_literals :=
  repeat match goal with
  | |- context [offsetof ?s ?f] =>
      let v := eval vm_compute in (offsetof s f) in change (offsetof s f) with v
  | |- context [fieldsize ?s ?f] =>
      let v := eval vm_compute in (fieldsize s f) in change (fieldsize s f) with v
  | |- context [sizeof ?s] =>
      let v := eval vm_compute in (sizeof s) in change (sizeof s) with v
  end.

Lemma length_splice_at N off new mem :
  length mem = N -> (off + length new <= N)%nat -> length (splice off new mem) = N.
Proof. intros <- ?. by rewrite length_splice. Qed.

(** Solve [length (splice .. (splice .. mem)) = N] one store at a time. *)
Ltac solve_length :=
  lazymatch goal with
  | |- length (splice _ _ _) = _ =>
      apply length_splice_at; [solve_length|rewrite ?length_le_bytes, ?length_replicate; lia]
  | |- _ => rewrite ?length_le_bytes, ?length_replicate; (assumption || lia)
  end.

Section slices_at.
Context (N off : nat) (new mem : bytes) (HN : length mem = N)
        (Hin : (off + length new <= N)%nat).

Lemma slice_same_at hi : hi = (off + length new)%nat -> slice off hi (splice off new mem) = new.
Proof. intros. apply slice_splice_same; [lia|done]. Qed.

Lemma slice_before_at lo hi :
  (hi <= off)%nat -> slice lo hi (splice off new mem) = slice lo hi mem.
Proof. intros. apply slice_splice_before; lia. Qed.

Lemma slice_after_at lo hi :
  (off + length new <= lo)%nat -> slice lo hi (splice off new mem) = slice lo hi mem.
Proof. intros. apply slice_splice_after; lia. Qed.
End slices_at.

(** Read the bytes [lo..hi] of a sequence of stores into a region of length [N]. *)
Ltac read_back N :=
  repeat first
    [ rewrite (slice_same_at N) by first [solve_length | rewrite ?length_le_bytes; lia]
    | rewrite (slice_before_at N) by first [solve_length | rewrite ?length_le_bytes; lia]
    | rewrite (slice_after_at N) by first [solve_length | rewrite ?length_le_bytes; lia] ].

Lemma le_field n z : 0 <= z < 256 ^ Z.of_nat n -> le_Z (le_bytes n z) = z.
Proof. intros. rewrite le_Z_le_bytes. by apply Z.mod_small. Qed.

Lemma u32_bound z : 0 <= u32 z < 2 ^ 32.
Proof. apply Z.mod_pos_bound. lia. Qed.


Section fills.
Context (tk : task) (Htk : task_ok tk).

(** Unfold the stores of a fill and name the length of the sample. *)
Ltac open_fill :=
  cbv zeta; intros; destruct Htk as [_ _ Hcomm _];
  unfold fill_write, fill_sendto, fill_connect, fill_openat, fill_lsm_deny,
    store, store_bytes, memset0; layout_literals.

Ltac fill_fields N :=
  open_fill; repeat split; read_back N; done.

Lemma fill_write_length N type len fd ev :
  length ev = N -> (72 <= N)%nat -> length (fill_write tk type len fd ev) = N.
Proof. open_fill. solve_length. Qed.

Lemma fill_write_fields N type len fd ev :
  length ev = N -> (72 <= N)%nat ->
  let s := fill_write tk type len fd ev in
  slice 0 4 s = le_bytes 4 type /\ slice 4 8 s = le_bytes 4 len /\
  slice 8 16 s = le_bytes 8 (ktime_ns tk) /\ slice 16 20 s = le_bytes 4 (cur_pid tk) /\
  slice 20 24 s = le_bytes 4 (cur_tid tk) /\ slice 24 28 s = le_bytes 4 fd /\
  slice 32 40 s = le_bytes 8 (cgroup_id tk) /\ slice 40 56 s = task_comm tk.
Proof. fill_fields N. Qed.

Lemma fill_sendto_length N type len family addr port ev :
  length ev = N -> (72 <= N)%nat -> length addr = 16%nat ->
  length (fill_sendto tk type len family addr port ev) = N.
Proof. open_fill. solve_length. Qed.

Lemma fill_sendto_fields N type len family addr port ev :
  length ev = N -> (72 <= N)%nat -> length addr = 16%nat ->
  let s := fill_sendto tk type len family addr port ev in
  slice 0 4 s = le_bytes 4 type /\ slice 4 8 s = le_bytes 4 len /\
  slice 8 16 s = le_bytes 8 (ktime_ns tk) /\ slice 16 20 s = le_bytes 4 (cur_pid tk) /\
  slice 20 24 s = le_bytes 4 (cur_tid tk) /\ slice 24 25 s = le_bytes 1 family /\
  slice 25 41 s = addr /\ slice 42 44 s = le_bytes 2 port /\
  slice 48 56 s = le_bytes 8 (cgroup_id tk) /\ slice 56 72 s = task_comm tk.
Proof. fill_fields N. Qed.

Lemma fill_connect_length N family addr port fd ev :
  length ev = N -> (72 <= N)%nat -> length addr = 16%nat ->
  length (fill_connect tk family addr port fd ev) = N.
Proof. open_fill. solve_length. Qed.

Lemma fill_connect_fields N family addr port fd ev :
  length ev = N -> (72 <= N)%nat -> length addr = 16%nat ->
  let s := fill_connect tk family addr port fd ev in
  slice 0 4 s = le_bytes 4 EVENT_CONNECT /\
  slice 8 16 s = le_bytes 8 (ktime_ns tk) /\ slice 16 20 s = le_bytes 4 (cur_pid tk) /\
  slice 20 24 s = le_bytes 4 (cur_tid tk) /\ slice 24 25 s = le_bytes 1 family /\
  slice 25 41 s = addr /\ slice 42 44 s = le_bytes 2 port /\
  slice 44 48 s = le_bytes 4 fd /\
  slice 48 56 s = le_bytes 8 (cgroup_id tk) /\ slice 56 72 s = task_comm tk.
Proof. fill_fields N. Qed.

Lemma fill_openat_length N ev :
  length ev = N -> (176 <= N)%nat -> length (fill_openat tk ev) = N.
Proof. open_fill. solve_length. Qed.

Lemma fill_openat_fields N ev :
  length ev = N -> (176 <= N)%nat ->
  let s := fill_openat tk ev in
  slice 0 4 s = le_bytes 4 EVENT_OPENAT /\
  slice 8 16 s = le_bytes 8 (ktime_ns tk) /\ slice 16 20 s = le_bytes 4 (cur_pid tk) /\
  slice 20 24 s = le_bytes 4 (cur_tid tk) /\
  slice 24 32 s = le_bytes 8 (cgroup_id tk) /\ slice 32 48 s = task_comm tk.
Proof. fill_fields N. Qed.

Lemma fill_lsm_deny_length N ev :
  length ev = N -> (48 <= N)%nat -> length (fill_lsm_deny tk ev) = N.
Proof. open_fill. solve_length. Qed.

Lemma fill_lsm_deny_fields N ev :
  length ev = N -> (48 <= N)%nat ->
  let s := fill_lsm_deny tk ev in
  slice 0 4 s = le_bytes 4 EVENT_LSM_DENY /\
  slice 8 16 s = le_bytes 8 (ktime_ns tk) /\ slice 16 20 s = le_bytes 4 (cur_pid tk) /\
  slice 20 24 s = le_bytes 4 (cur_tid tk) /\
  slice 24 32 s = le_bytes 8 (cgroup_id tk) /\ slice 32 48 s = task_comm tk.
Proof. fill_fields N. Qed.

Lemma cur_pid_bound : 0 <= cur_pid tk < 2 ^ 32.
Proof. apply u32_bound. Qed.

Lemma cur_tid_bound : 0 <= cur_tid tk < 2 ^ 32.
Proof. apply u32_bound. Qed.
End fills.

(** ** Capture lengths *)

(** The values of payload_cap are 32-bit. *)
Definition payload_cap_ok (st : kmaps) : Prop :=
  forall v, payload_cap st !! 0 = Some v -> 0 <= v < 2 ^ 32.

Lemma payload_limit_bounds st : 1 <= payload_limit st <= PAYLOAD_MAX.
Proof.
  unfold payload_limit, PAYLOAD_MAX, DEFAULT_PAYLOAD_CAP.
  destruct (payload_cap st !! 0) as [v|]; [destruct (Z.ltb_spec 0 v)|];
    repeat case_match; rewrite ?Z.ltb_lt, ?Z.ltb_ge in *; lia.
Qed.

Lemma clamp_cap_min st count :
  0 <= count -> clamp_cap st count = Z.min count (payload_limit st).
Proof.
  intros Hc. pose proof (payload_limit_bounds st) as Hl. unfold clamp_cap.
  unfold PAYLOAD_MAX in *.
  destruct (Z.ltb_spec 1024 (payload_limit st)); [lia|].
  destruct (Z.ltb_spec count (payload_limit st)); [|lia].
  unfold u32. rewrite Z.mod_small by lia. lia.
Qed.

Lemma land_mask n k : 0 <= n < 2 ^ k -> 0 <= k -> Z.land n (2 ^ k - 1) = n.
Proof.
  intros. replace (2 ^ k - 1) with (Z.ones k) by (rewrite Z.ones_equiv; lia).
  rewrite Z.land_ones by lia. by apply Z.mod_small.
Qed.

Section captures.
Context {U : Type} `{!Helpers U} (umem : U).

(** The verifier-driven split of read_payload reads exactly [n] bytes. *)
Lemma read_payload_exact n src :
  0 <= n <= PAYLOAD_MAX ->
  read_payload umem n src = probe_read_user umem src (Z.to_nat n).
Proof.
  unfold PAYLOAD_MAX. intros Hn. unfold read_payload, PAYLOAD_MAX.
  destruct (Z.leb_spec 1024 n); [by replace n with 1024 by lia|].
  change (1024 - 1) with (2 ^ 10 - 1). by rewrite (land_mask n 10) by lia.
Qed.
End captures.
