(* ===== verification/GatherFacts.v ===== *)
(** * gather_iov against its reference

    The unrolled loop stays inside the scratch buffer whatever user memory
    holds, and on readable iovecs it computes the first [limit] bytes of their
    concatenation. *)

From S2P Require Import Prelude CLayout Vmlinux Kernel Probes ProbeFacts.

Lemma drop_splice off new mem k :
  (off + length new <= k)%nat -> (off + length new <= length mem)%nat ->
  drop k (splice off new mem) = drop k mem.
Proof.
  intros. unfold splice. rewrite app_assoc, drop_app_ge.
  2: { rewrite length_app, length_take. lia. }
  rewrite drop_drop, length_app, length_take. f_equal. lia.
Qed.

Lemma take_splice off new mem :
  (off + length new <= length mem)%nat ->
  take (off + length new) (splice off new mem) = take off mem ++ new.
Proof.
  intros. unfold splice. rewrite app_assoc. apply take_app_length'.
  rewrite length_app, length_take. lia.
Qed.

Section gather.
Context {U : Type} `{HelpersOk U} (umem : U).

(** One iteration's copy length. *)
Definition copy_len (limit total iov_len : Z) : Z := Z.min iov_len (limit - total).

Lemma copy_len_eq limit total iov_len :
  0 <= total < limit -> limit <= PAYLOAD_MAX -> 0 <= iov_len ->
  (let n := u32 (limit - total) in if iov_len <? n then u32 iov_len else n)
  = copy_len limit total iov_len.
Proof.
  unfold PAYLOAD_MAX. intros. unfold copy_len, u32. cbv zeta.
  rewrite (Z.mod_small (limit - total)) by lia.
  destruct (Z.ltb_spec iov_len (limit - total)); [|lia].
  rewrite Z.mod_small by lia. lia.
Qed.

Lemma load_nonneg s f mem : 0 <= load s f mem.
Proof. apply le_Z_bound. Qed.

(** The step of the loop once its guards have passed. *)
Lemma gather_loop_copy fuel i iovp iovcnt limit total out iov base len r bs :
  0 <= total < limit -> limit <= PAYLOAD_MAX -> i < iovcnt ->
  probe_read_user umem (u64 (iovp + i * Z.of_nat (sizeof iovec))) (sizeof iovec) = (0, iov) ->
  load iovec "iov_base" iov = base -> load iovec "iov_len" iov = len ->
  base <> 0 -> len <> 0 ->
  probe_read_user umem base (Z.to_nat (copy_len limit total len)) = (r, bs) ->
  gather_loop umem (S fuel) i iovp iovcnt limit total out =
  let out' := splice (Z.to_nat total) bs out in
  if r <? 0 then (total, out')
  else gather_loop umem fuel (i + 1) iovp iovcnt limit (total + copy_len limit total len) out'.
Proof.
  intros Ht Hl Hi Hiov Hb Hn Hb0 Hn0 Hread. cbn [gather_loop].
  rewrite (proj2 (Z.leb_gt iovcnt i)), (proj2 (Z.leb_gt limit total)) by lia. cbn [orb].
  rewrite Hiov. cbn -[gather_loop load u32 Z.land Z.mul PAYLOAD_MAX IOV_MASK splice].
  rewrite Hb, Hn.
  rewrite (proj2 (Z.eqb_neq base 0)), (proj2 (Z.eqb_neq len 0)) by done. cbn [orb].
  pose proof (load_nonneg iovec "iov_len" iov) as Hn'. rewrite Hn in Hn'.
  rewrite copy_len_eq by lia.
  assert (0 < copy_len limit total len <= PAYLOAD_MAX) as Hc by (unfold copy_len; lia).
  rewrite (proj2 (Z.ltb_ge PAYLOAD_MAX (copy_len _ _ _))), (proj2 (Z.ltb_ge PAYLOAD_MAX total)) by lia.
  cbn [orb].
  assert (Hmask : forall z, 0 <= z <= PAYLOAD_MAX -> Z.land z IOV_MASK = z).
  { unfold PAYLOAD_MAX, IOV_MASK. intros z Hz. apply (land_mask z 11); unfold PAYLOAD_MAX; lia. }
  rewrite !Hmask by lia. rewrite Hread.
  replace (u32 (total + copy_len limit total len)) with (total + copy_len limit total len); [done|].
  unfold u32, copy_len, PAYLOAD_MAX in *. rewrite Z.mod_small; lia.
Qed.

(** The other iterations: past the end or full, a faulting iovec, an empty one. *)
Lemma gather_loop_done fuel i iovp iovcnt limit total out :
  iovcnt <= i \/ limit <= total ->
  gather_loop umem fuel i iovp iovcnt limit total out = (total, out).
Proof.
  intros Hd. destruct fuel as [|fuel]; [done|]. cbn [gather_loop].
  replace ((iovcnt <=? i) || (limit <=? total)) with true; [done|].
  symmetry. apply orb_true_iff. rewrite !Z.leb_le. done.
Qed.

Lemma iter_guard i iovcnt limit total :
  i < iovcnt -> total < limit -> (iovcnt <=? i) || (limit <=? total) = false.
Proof. intros. rewrite (proj2 (Z.leb_gt iovcnt i)), (proj2 (Z.leb_gt limit total)) by lia. done. Qed.

Lemma gather_loop_fault fuel i iovp iovcnt limit total out r iov :
  i < iovcnt -> total < limit ->
  probe_read_user umem (u64 (iovp + i * Z.of_nat (sizeof iovec))) (sizeof iovec) = (r, iov) ->
  r < 0 -> gather_loop umem (S fuel) i iovp iovcnt limit total out = (total, out).
Proof.
  intros Hi Ht Hiov Hr. cbn [gather_loop]. rewrite iter_guard, Hiov by done.
  by rewrite (proj2 (Z.ltb_lt r 0)) by lia.
Qed.

Lemma gather_loop_skip fuel i iovp iovcnt limit total out iov :
  i < iovcnt -> total < limit ->
  probe_read_user umem (u64 (iovp + i * Z.of_nat (sizeof iovec))) (sizeof iovec) = (0, iov) ->
  load iovec "iov_base" iov = 0 \/ load iovec "iov_len" iov = 0 ->
  gather_loop umem (S fuel) i iovp iovcnt limit total out =
  gather_loop umem fuel (i + 1) iovp iovcnt limit total out.
Proof.
  intros Hi Ht Hiov Hz. cbn [gather_loop]. rewrite iter_guard, Hiov by done.
  change (0 <? 0) with false. cbv iota zeta.
  replace ((load iovec "iov_base" iov =? 0) || (load iovec "iov_len" iov =? 0)) with true; [done|].
  symmetry. apply orb_true_iff. rewrite !Z.eqb_eq. done.
Qed.

Lemma splice_in_bounds limit total len bs (out : bytes) :
  0 <= total < limit -> limit <= PAYLOAD_MAX -> PAYLOAD_MAX <= Z.of_nat (length out) ->
  0 <= len -> length bs = Z.to_nat (copy_len limit total len) ->
  length (splice (Z.to_nat total) bs out) = length out /\
  drop (Z.to_nat limit) (splice (Z.to_nat total) bs out) = drop (Z.to_nat limit) out.
Proof.
  unfold copy_len, PAYLOAD_MAX. intros. split; [apply length_splice|apply drop_splice]; lia.
Qed.

Lemma gather_loop_bounds fuel i iovp iovcnt limit total out :
  0 <= total <= limit -> limit <= PAYLOAD_MAX -> PAYLOAD_MAX <= Z.of_nat (length out) ->
  let res := gather_loop umem fuel i iovp iovcnt limit total out in
  total <= res.1 <= limit /\ length res.2 = length out /\
  drop (Z.to_nat limit) res.2 = drop (Z.to_nat limit) out.
Proof.
  revert i total out. induction fuel as [|fuel IH]; intros i total out Ht Hl Ho.
  { cbn. split_and!; try done; lia. }
  destruct (decide (iovcnt <= i \/ limit <= total)) as [Hd|Hd].
  { rewrite gather_loop_done by done. cbn. split_and!; try done; lia. }
  destruct (probe_read_user umem (u64 (iovp + i * Z.of_nat (sizeof iovec))) (sizeof iovec))
    as [r iov] eqn:Hiov.
  pose proof (probe_read_user_ret umem (u64 (iovp + i * Z.of_nat (sizeof iovec))) (sizeof iovec)) as Hr.
  rewrite Hiov in Hr. cbn [fst] in Hr.
  destruct (decide (r < 0)) as [Hr0|Hr0].
  { rewrite (gather_loop_fault _ _ _ _ _ _ _ r iov) by (done || lia).
    cbn. split_and!; try done; lia. }
  replace r with 0 in * by lia.
  pose proof (load_nonneg iovec "iov_len" iov) as Hn.
  destruct (decide (load iovec "iov_base" iov = 0 \/ load iovec "iov_len" iov = 0)) as [Hz|Hz].
  { rewrite (gather_loop_skip _ _ _ _ _ _ _ iov) by (done || lia). apply IH; lia. }
  set (len := load iovec "iov_len" iov) in *.
  destruct (probe_read_user umem (load iovec "iov_base" iov)
              (Z.to_nat (copy_len limit total len))) as [r' bs] eqn:Hread.
  pose proof (f_equal (λ p, length p.2) Hread) as Hlen.
  cbn beta in Hlen. rewrite probe_read_user_len in Hlen. cbn [snd] in Hlen.
  rewrite (gather_loop_copy fuel i iovp iovcnt limit total out iov _ len r' bs ltac:(lia) Hl ltac:(lia) Hiov eq_refl
             eq_refl ltac:(lia) ltac:(lia) Hread).
  destruct (splice_in_bounds limit total len bs out) as [Hs Hdr]; try done; try lia.
  cbv zeta. destruct (Z.ltb_spec r' 0).
  { cbn [fst snd]. split_and!; try done; lia. }
  destruct (IH (i + 1) (total + copy_len limit total len) (splice (Z.to_nat total) bs out))
    as (? & -> & ->); unfold copy_len in *; [lia..|]. split_and!; try done; lia.
Qed.

Lemma gather_iov_bounds st out iovp iovcnt :
  PAYLOAD_MAX <= Z.of_nat (length out) ->
  let res := gather_iov umem st out iovp iovcnt in
  0 <= res.1 <= payload_limit st /\ length res.2 = length out /\
  drop (Z.to_nat (payload_limit st)) res.2 = drop (Z.to_nat (payload_limit st)) out.
Proof.
  intros Ho. unfold gather_iov. pose proof (payload_limit_bounds st) as Hp.
  rewrite clamp_cap_min, Z.min_r by (unfold PAYLOAD_MAX in *; lia). cbv zeta.
  pose proof (gather_loop_bounds IOV_MAX 0 iovp iovcnt (payload_limit st) 0 out
                ltac:(lia) ltac:(lia) Ho) as Hg.
  destruct (gather_loop _ _ _ _ _ _ _ _) as [total out']. cbn [fst snd] in *.
  rewrite (proj2 (Z.ltb_ge _ _)) by lia. split_and!; try apply Hg; lia.
Qed.

(** *** The reference

    [iov_ok iovp i e]: the [i]th iovec is readable, and [e] is its base, its
    length and the bytes it names, up to PAYLOAD_MAX of them. *)

Definition empty_iov (base len : Z) : bool := (base =? 0) || (len =? 0).

Definition iov_ok (iovp i : Z) (e : Z * Z * bytes) : Prop :=
  let '(base, len, data) := e in
  exists iov,
    probe_read_user umem (u64 (iovp + i * Z.of_nat (sizeof iovec))) (sizeof iovec) = (0, iov) /\
    load iovec "iov_base" iov = base /\ load iovec "iov_len" iov = len /\
    if empty_iov base len then data = []
    else probe_read_user umem base (Z.to_nat (Z.min len PAYLOAD_MAX)) = (0, data).

(** What a gather of these iovecs captures under a payload limit. *)
Definition gathered (limit : Z) (es : list (Z * Z * bytes)) : bytes :=
  take (Z.to_nat limit) (mjoin (snd <$> es)).

Lemma take_app_copy limit total len (acc data rest : bytes) :
  length acc = Z.to_nat total -> 0 <= total < limit -> limit <= PAYLOAD_MAX -> 0 < len ->
  length data = Z.to_nat (Z.min len PAYLOAD_MAX) ->
  take (Z.to_nat limit) (acc ++ data ++ rest) =
  take (Z.to_nat limit) ((acc ++ take (Z.to_nat (copy_len limit total len)) data) ++ rest).
Proof.
  unfold copy_len, PAYLOAD_MAX. intros Ha Ht Hl Hn Hd.
  destruct (Z.le_gt_cases len (limit - total)) as [Hle|Hgt].
  - rewrite (take_ge data) by lia. by rewrite app_assoc.
  - rewrite Z.min_r by lia. rewrite <- app_assoc.
    rewrite !(take_app_ge acc) by lia. f_equal. rewrite Ha.
    rewrite take_app_le by lia.
    rewrite take_app_le by (rewrite length_take; lia).
    rewrite take_take. f_equal. lia.
Qed.

Lemma gather_loop_spec fuel i iovp iovcnt limit total out es acc :
  0 <= total <= limit -> limit <= PAYLOAD_MAX -> PAYLOAD_MAX <= Z.of_nat (length out) ->
  Z.of_nat (length es) = Z.min (Z.of_nat fuel) (iovcnt - i) ->
  (forall j e, es !! j = Some e -> iov_ok iovp (i + Z.of_nat j) e) ->
  length acc = Z.to_nat total -> take (Z.to_nat total) out = acc ->
  let res := gather_loop umem fuel i iovp iovcnt limit total out in
  take (Z.to_nat res.1) res.2 = take (Z.to_nat limit) (acc ++ mjoin (snd <$> es)) /\
  Z.to_nat res.1 = length (take (Z.to_nat limit) (acc ++ mjoin (snd <$> es))).
Proof.
  revert i total out es acc.
  induction fuel as [|fuel IH]; intros i total out es acc Ht Hl Ho Hes Hok Hacc Hout.
  { destruct es; [|cbn in Hes; lia]. cbn. rewrite app_nil_r, Hout, (take_ge acc) by lia. auto. }
  destruct (decide (iovcnt <= i \/ limit <= total)) as [Hd|Hd].
  { rewrite gather_loop_done by done. cbn [fst snd].
    destruct es as [|e es]; cbn [length] in Hes.
    - cbn. rewrite app_nil_r, Hout, (take_ge acc) by lia. auto.
    - replace (Z.to_nat limit) with (length acc) by lia. rewrite take_app_length. auto. }
  destruct es as [|[[base len] data] es]; [cbn in Hes; lia|].
  destruct (Hok 0%nat _ eq_refl) as (iov & Hiov & Hb & Hn & Hdata).
  rewrite Z.add_0_r in Hiov. cbn [fmap list_fmap snd].
  change (mjoin (data :: (snd <$> es))) with (data ++ mjoin (snd <$> es)).
  assert (forall j e, es !! j = Some e -> iov_ok iovp (i + 1 + Z.of_nat j) e) as Hok'.
  { intros j e Hj. replace (i + 1 + Z.of_nat j) with (i + Z.of_nat (S j)) by lia. by apply Hok. }
  cbn [length] in Hes. unfold empty_iov in Hdata.
  destruct ((base =? 0) || (len =? 0)) eqn:He.
  { rewrite (gather_loop_skip _ _ _ _ _ _ _ iov) by
      (try done; try lia; rewrite Hb, Hn; revert He; rewrite orb_true_iff, !Z.eqb_eq; done).
    subst data. apply IH; try done; lia. }
  apply orb_false_iff in He as [Hb0%Z.eqb_neq Hn0%Z.eqb_neq].
  pose proof (load_nonneg iovec "iov_len" iov) as Hn'. rewrite Hn in Hn'.
  pose proof (f_equal (λ p, length p.2) Hdata) as Hlen. cbn beta in Hlen.
  rewrite probe_read_user_len in Hlen. cbn [snd] in Hlen.
  pose proof (probe_read_user_prefix umem base _ data (Z.to_nat (copy_len limit total len)) Hdata
                ltac:(unfold copy_len; lia)) as Hread.
  rewrite (gather_loop_copy fuel i iovp iovcnt limit total out iov base len 0 _ ltac:(lia) Hl ltac:(lia) Hiov Hb
             Hn Hb0 Hn0 Hread). cbv zeta. change (0 <? 0) with false. cbv iota.
  rewrite (take_app_copy limit total len) by (done || lia).
  set (bs := take _ data) in *.
  assert (length bs = Z.to_nat (copy_len limit total len)) as Hbs.
  { subst bs. rewrite length_take, <- Hlen. unfold copy_len. lia. }
  unfold PAYLOAD_MAX, copy_len in *.
  apply IH; try done; rewrite ?length_app, ?length_splice by lia; try lia.
  replace (Z.to_nat (total + _)) with (Z.to_nat total + length bs)%nat by lia.
  rewrite take_splice by lia. by rewrite Hout.
Qed.

(** *** The loop as a pure function of user memory

    [gather_ref] appends to an accumulator instead of writing into the scratch
    buffer, so its result does not depend on what the buffer held. *)

Fixpoint gather_ref (fuel : nat) (i iovp iovcnt limit : Z) (acc : bytes) : bytes :=
  match fuel with
  | O => acc
  | S fuel =>
      if decide (iovcnt <= i \/ limit <= Z.of_nat (length acc)) then acc else
      let '(r, iov) := probe_read_user umem
                         (u64 (iovp + i * Z.of_nat (sizeof iovec))) (sizeof iovec) in
      let base := load iovec "iov_base" iov in
      let len := load iovec "iov_len" iov in
      if r <? 0 then acc
      else if empty_iov base len then gather_ref fuel (i + 1) iovp iovcnt limit acc
      else
        let '(r, bs) := probe_read_user umem base
                          (Z.to_nat (copy_len limit (Z.of_nat (length acc)) len)) in
        if r <? 0 then acc else gather_ref fuel (i + 1) iovp iovcnt limit (acc ++ bs)
  end.

Definition gather_bytes (st : kmaps) (iovp iovcnt : Z) : bytes :=
  gather_ref IOV_MAX 0 iovp iovcnt (payload_limit st) [].

Lemma empty_iov_spec base len : empty_iov base len = true <-> base = 0 \/ len = 0.
Proof. unfold empty_iov. by rewrite orb_true_iff, !Z.eqb_eq. Qed.

Lemma splice_tracks total (bs acc out : bytes) :
  0 <= total -> take (Z.to_nat total) out = acc -> length acc = Z.to_nat total ->
  (Z.to_nat total + length bs <= length out)%nat ->
  let total' := total + Z.of_nat (length bs) in
  let out' := splice (Z.to_nat total) bs out in
  take (Z.to_nat total') out' = acc ++ bs /\ length (acc ++ bs) = Z.to_nat total' /\
  length out' = length out.
Proof.
  intros Ht Hout Hacc Hin. cbv zeta. rewrite length_app, length_splice by lia.
  replace (Z.to_nat (total + Z.of_nat (length bs))) with (Z.to_nat total + length bs)%nat by lia.
  rewrite take_splice, Hout by lia. split_and!; (done || lia).
Qed.

Lemma gather_loop_ref fuel i iovp iovcnt limit total out acc :
  0 <= total <= limit -> limit <= PAYLOAD_MAX -> PAYLOAD_MAX <= Z.of_nat (length out) ->
  length acc = Z.to_nat total -> take (Z.to_nat total) out = acc ->
  let res := gather_loop umem fuel i iovp iovcnt limit total out in
  let bs := gather_ref fuel i iovp iovcnt limit acc in
  res.1 = Z.of_nat (length bs) /\ take (length bs) res.2 = bs.
Proof.
  revert i total out acc.
  induction fuel as [|fuel IH]; intros i total out acc Ht Hl Ho Hacc Hout.
  { cbn. rewrite Hacc, Hout. split; [lia|done]. }
  cbn [gather_ref]. replace (Z.of_nat (length acc)) with total by lia.
  case_decide as Hd.
  { rewrite gather_loop_done by done. cbn. rewrite Hacc, Hout. split; [lia|done]. }
  destruct (probe_read_user umem (u64 (iovp + i * Z.of_nat (sizeof iovec))) (sizeof iovec))
    as [r iov] eqn:Hiov.
  pose proof (probe_read_user_ret umem (u64 (iovp + i * Z.of_nat (sizeof iovec))) (sizeof iovec)) as Hr.
  rewrite Hiov in Hr. cbn [fst] in Hr. destruct (Z.ltb_spec r 0) as [Hr0|Hr0].
  { rewrite (gather_loop_fault _ _ _ _ _ _ _ r iov) by (done || lia).
    cbn. rewrite Hacc, Hout. split; [lia|done]. }
  replace r with 0 in * by lia.
  pose proof (load_nonneg iovec "iov_len" iov) as Hn.
  set (len := load iovec "iov_len" iov) in *. set (base := load iovec "iov_base" iov) in *.
  destruct (empty_iov base len) eqn:He.
  { apply empty_iov_spec in He.
    rewrite (gather_loop_skip _ _ _ _ _ _ _ iov) by (done || lia). apply IH; (done || lia). }
  assert (base <> 0 /\ len <> 0) as [Hb0 Hn0].
  { split; intros Hz; rewrite (proj2 (empty_iov_spec base len)) in He by auto; done. }
  destruct (probe_read_user umem base (Z.to_nat (copy_len limit total len))) as [r' bs] eqn:Hread.
  pose proof (f_equal (λ p, length p.2) Hread) as Hlen.
  cbn beta in Hlen. rewrite probe_read_user_len in Hlen. cbn [snd] in Hlen.
  rewrite (gather_loop_copy fuel i iovp iovcnt limit total out iov base len r' bs ltac:(lia) Hl
             ltac:(lia) Hiov eq_refl eq_refl Hb0 Hn0 Hread).
  unfold PAYLOAD_MAX, copy_len in *.
  destruct (splice_tracks total bs acc out) as (Htk & Hal & Hol); [lia|done|done|lia|].
  cbv zeta. destruct (Z.ltb_spec r' 0).
  { cbn [fst snd]. split; [lia|]. rewrite Hacc. unfold splice.
    rewrite take_app_length' by (rewrite length_take; lia). done. }
  replace (Z.of_nat (length bs)) with (Z.min len (limit - total)) in * by lia.
  apply IH; (done || lia).
Qed.

Lemma gather_iov_ref st out iovp iovcnt :
  PAYLOAD_MAX <= Z.of_nat (length out) ->
  let res := gather_iov umem st out iovp iovcnt in
  res.1 = Z.of_nat (length (gather_bytes st iovp iovcnt)) /\
  take (Z.to_nat res.1) res.2 = gather_bytes st iovp iovcnt.
Proof.
  intros Ho. unfold gather_iov, gather_bytes. pose proof (payload_limit_bounds st) as Hp.
  rewrite clamp_cap_min, Z.min_r by (unfold PAYLOAD_MAX in *; lia). cbv zeta.
  pose proof (gather_loop_bounds IOV_MAX 0 iovp iovcnt (payload_limit st) 0 out
                ltac:(lia) ltac:(lia) Ho) as (Hb & _).
  pose proof (gather_loop_ref IOV_MAX 0 iovp iovcnt (payload_limit st) 0 out []
                ltac:(lia) ltac:(lia) Ho eq_refl eq_refl) as [H1 H2].
  destruct (gather_loop _ _ _ _ _ _ _ _) as [total out']. cbn [fst snd] in *.
  rewrite (proj2 (Z.ltb_ge _ _)) by lia. subst total. rewrite Nat2Z.id. done.
Qed.

Lemma gather_bytes_bound st iovp iovcnt :
  Z.of_nat (length (gather_bytes st iovp iovcnt)) <= payload_limit st.
Proof.
  set (out := replicate (Z.to_nat PAYLOAD_MAX) x00).
  assert (PAYLOAD_MAX <= Z.of_nat (length out)) as Ho
    by (subst out; rewrite length_replicate; unfold PAYLOAD_MAX; lia).
  destruct (gather_iov_ref st out iovp iovcnt Ho) as [<- _]. by apply gather_iov_bounds.
Qed.

(** On readable iovecs the reference is the prefix of their concatenation. *)
Lemma gather_bytes_concat st iovp iovcnt es :
  Z.of_nat (length es) = Z.min (Z.of_nat IOV_MAX) iovcnt ->
  (forall j e, es !! j = Some e -> iov_ok iovp (Z.of_nat j) e) ->
  gather_bytes st iovp iovcnt = gathered (payload_limit st) es.
Proof.
  intros Hes Hok. pose proof (payload_limit_bounds st) as Hp.
  set (out := replicate (Z.to_nat PAYLOAD_MAX) x00).
  assert (PAYLOAD_MAX <= Z.of_nat (length out)) as Ho
    by (subst out; rewrite length_replicate; unfold PAYLOAD_MAX; lia).
  destruct (gather_loop_ref IOV_MAX 0 iovp iovcnt (payload_limit st) 0 out []
              ltac:(lia) ltac:(lia) Ho eq_refl eq_refl) as [H1 H2].
  destruct (gather_loop_spec IOV_MAX 0 iovp iovcnt (payload_limit st) 0 out es []
              ltac:(lia) ltac:(lia) Ho ltac:(lia) Hok eq_refl eq_refl) as [H3 H4].
  unfold gather_bytes, gathered. rewrite H1, Nat2Z.id in H3, H4. by rewrite <- H2, H3.
Qed.
End gather.
