(* ===== verification/Loader.v ===== *)
(** * internal/ebpf/loader.go: decoding ring-buffer records and the map updates

    The decoders read at the offsets the Go source hard-codes; [Wire] relates
    them to the layout [Probes] writes. *)

From S2P Require Import Prelude Go CLayout Kernel.

(** ** Decoded events *)

Definition eventTypeConnect : Z := 1.
Definition eventTypeWrite : Z := 2.
Definition eventTypeSendto : Z := 3.
Definition eventTypeOpenat : Z := 4.
Definition eventTypeLSMDeny : Z := 5.
Definition eventTypeWritev : Z := 6.
Definition eventTypeSendmsg : Z := 7.
Definition payloadMax : Z := 1024.
Definition pathMax : Z := 128.
Definition defaultPayloadCapture : Z := 1024.
Definition minPayloadCapture : Z := 64.
Definition connectHeaderLen : Z := 72.
Definition writeHeaderLen : Z := 56.
Definition sendtoHeaderLen : Z := 72.

Record ConnectEvent := {
  ce_TSNs : Z; ce_PID : Z; ce_TID : Z; ce_Family : Z; ce_DestAddr : bytes;
  ce_DestPort : Z; ce_FD : Z; ce_CgroupID : Z; ce_Comm : bytes }.

Record WriteEvent := {
  we_TSNs : Z; we_PID : Z; we_TID : Z; we_FD : Z; we_Len : Z; we_CgroupID : Z;
  we_Comm : bytes; we_Payload : bytes; we_Syscall : bytes }.

Record SendtoEvent := {
  se_TSNs : Z; se_PID : Z; se_TID : Z; se_Family : Z; se_DestAddr : bytes;
  se_DestPort : Z; se_Len : Z; se_CgroupID : Z; se_Comm : bytes; se_Payload : bytes;
  se_Syscall : bytes }.

Record OpenatEvent := {
  oe_TSNs : Z; oe_PID : Z; oe_TID : Z; oe_PathLen : Z; oe_CgroupID : Z;
  oe_Comm : bytes; oe_Path : bytes }.

Record LSMDenyEvent := {
  le_TSNs : Z; le_PID : Z; le_TID : Z; le_CgroupID : Z; le_Comm : bytes }.

(** [ev.Syscall = s] *)
Definition we_set_Syscall (s : bytes) (e : WriteEvent) : WriteEvent :=
  {| we_TSNs := we_TSNs e; we_PID := we_PID e; we_TID := we_TID e; we_FD := we_FD e;
     we_Len := we_Len e; we_CgroupID := we_CgroupID e; we_Comm := we_Comm e;
     we_Payload := we_Payload e; we_Syscall := s |}.

Definition se_set_Syscall (s : bytes) (e : SendtoEvent) : SendtoEvent :=
  {| se_TSNs := se_TSNs e; se_PID := se_PID e; se_TID := se_TID e; se_Family := se_Family e;
     se_DestAddr := se_DestAddr e; se_DestPort := se_DestPort e; se_Len := se_Len e;
     se_CgroupID := se_CgroupID e; se_Comm := se_Comm e; se_Payload := se_Payload e;
     se_Syscall := s |}.

(** RingEvent: one pointer per kind, nil ([None]) when absent. *)
Record RingEvent := {
  re_Connect : option ConnectEvent;
  re_Write : option WriteEvent;
  re_Writev : option WriteEvent;
  re_Sendto : option SendtoEvent;
  re_Sendmsg : option SendtoEvent;
  re_Openat : option OpenatEvent;
  re_LSMDeny : option LSMDenyEvent }.

Definition ring_connect e := {| re_Connect := Some e; re_Write := None; re_Writev := None;
  re_Sendto := None; re_Sendmsg := None; re_Openat := None; re_LSMDeny := None |}.
Definition ring_write e := {| re_Connect := None; re_Write := Some e; re_Writev := None;
  re_Sendto := None; re_Sendmsg := None; re_Openat := None; re_LSMDeny := None |}.
Definition ring_writev e := {| re_Connect := None; re_Write := None; re_Writev := Some e;
  re_Sendto := None; re_Sendmsg := None; re_Openat := None; re_LSMDeny := None |}.
Definition ring_sendto e := {| re_Connect := None; re_Write := None; re_Writev := None;
  re_Sendto := Some e; re_Sendmsg := None; re_Openat := None; re_LSMDeny := None |}.
Definition ring_sendmsg e := {| re_Connect := None; re_Write := None; re_Writev := None;
  re_Sendto := None; re_Sendmsg := Some e; re_Openat := None; re_LSMDeny := None |}.
Definition ring_openat e := {| re_Connect := None; re_Write := None; re_Writev := None;
  re_Sendto := None; re_Sendmsg := None; re_Openat := Some e; re_LSMDeny := None |}.
Definition ring_lsmdeny e := {| re_Connect := None; re_Write := None; re_Writev := None;
  re_Sendto := None; re_Sendmsg := None; re_Openat := None; re_LSMDeny := Some e |}.

(** ** Decoders *)

Definition raw_len (raw : bytes) : Z := Z.of_nat (length raw).

Definition decodeConnect (raw : bytes) : go RingEvent :=
  if raw_len raw <? connectHeaderLen
  then Err (Errorf "short connect record: %d bytes" [raw_len raw]) else
  ts ← uint_le raw 8 16;
  pid ← uint_le raw 16 20;
  tid ← uint_le raw 20 24;
  family ← go_index raw 24;
  port ← uint_le raw 42 44;
  fd ← uint_le raw 44 48;
  cgroup ← uint_le raw 48 56;
  addr ← go_slice raw 25 41;
  comm ← go_slice raw 56 72;
  Ret (ring_connect {|
    ce_TSNs := ts; ce_PID := pid; ce_TID := tid; ce_Family := family;
    ce_DestAddr := addr; ce_DestPort := port; ce_FD := fd; ce_CgroupID := cgroup;
    ce_Comm := comm |}).

Definition decodeWritePayload (raw : bytes) : go WriteEvent :=
  if raw_len raw <? writeHeaderLen
  then Err (Errorf "short write record: %d bytes" [raw_len raw]) else
  n ← uint_le raw 4 8;
  let n := if payloadMax <? n then payloadMax else n in
  ts ← uint_le raw 8 16;
  pid ← uint_le raw 16 20;
  tid ← uint_le raw 20 24;
  fd ← uint_le raw 24 28;
  cgroup ← uint_le raw 32 40;
  comm ← go_slice raw 40 56;
  let avail := raw_len raw - writeHeaderLen in
  let n := if avail <? n then avail else n in
  payload ← (if 0 <? n then go_slice raw writeHeaderLen (writeHeaderLen + n) else Ret []);
  Ret {| we_TSNs := ts; we_PID := pid; we_TID := tid; we_FD := fd; we_Len := n;
         we_CgroupID := cgroup; we_Comm := comm; we_Payload := payload;
         we_Syscall := [] |}.

Definition decodeSendtoPayload (raw : bytes) : go SendtoEvent :=
  if raw_len raw <? sendtoHeaderLen
  then Err (Errorf "short sendto record: %d bytes" [raw_len raw]) else
  n ← uint_le raw 4 8;
  let n := if payloadMax <? n then payloadMax else n in
  ts ← uint_le raw 8 16;
  pid ← uint_le raw 16 20;
  tid ← uint_le raw 20 24;
  family ← go_index raw 24;
  port ← uint_le raw 42 44;
  cgroup ← uint_le raw 48 56;
  addr ← go_slice raw 25 41;
  comm ← go_slice raw 56 72;
  let avail := raw_len raw - sendtoHeaderLen in
  let n := if avail <? n then avail else n in
  payload ← (if 0 <? n then go_slice raw sendtoHeaderLen (sendtoHeaderLen + n) else Ret []);
  Ret {| se_TSNs := ts; se_PID := pid; se_TID := tid; se_Family := family;
         se_DestAddr := addr; se_DestPort := port; se_Len := n; se_CgroupID := cgroup;
         se_Comm := comm; se_Payload := payload; se_Syscall := [] |}.

Definition decodeOpenat (raw : bytes) : go RingEvent :=
  let header := 48 in
  if raw_len raw <? header
  then Err (Errorf "short openat record: %d bytes" [raw_len raw]) else
  n ← uint_le raw 4 8;
  let n := if pathMax <? n then pathMax else n in
  ts ← uint_le raw 8 16;
  pid ← uint_le raw 16 20;
  tid ← uint_le raw 20 24;
  cgroup ← uint_le raw 24 32;
  comm ← go_slice raw 32 48;
  path ← (if (0 <? n) && (header + n <=? raw_len raw)
          then nullTerm <$> go_slice raw header (header + n) else Ret []);
  Ret (ring_openat {|
    oe_TSNs := ts; oe_PID := pid; oe_TID := tid; oe_PathLen := n; oe_CgroupID := cgroup;
    oe_Comm := comm; oe_Path := path |}).

Definition decodeLSMDeny (raw : bytes) : go RingEvent :=
  let minLen := 48 in
  if raw_len raw <? minLen
  then Err (Errorf "short lsm_deny record: %d bytes" [raw_len raw]) else
  ts ← uint_le raw 8 16;
  pid ← uint_le raw 16 20;
  tid ← uint_le raw 20 24;
  cgroup ← uint_le raw 24 32;
  comm ← go_slice raw 32 48;
  Ret (ring_lsmdeny {|
    le_TSNs := ts; le_PID := pid; le_TID := tid; le_CgroupID := cgroup; le_Comm := comm |}).

Definition decodeRingEvent (raw : bytes) : go RingEvent :=
  if raw_len raw <? 8
  then Err (Errorf "short record: %d bytes" [raw_len raw]) else
  typ ← uint_le raw 0 4;
  if typ =? eventTypeConnect then decodeConnect raw
  else if typ =? eventTypeWrite then
    (ev ← decodeWritePayload raw; Ret (ring_write (we_set_Syscall (gostr "write") ev)))
  else if typ =? eventTypeWritev then
    (ev ← decodeWritePayload raw; Ret (ring_writev (we_set_Syscall (gostr "writev") ev)))
  else if typ =? eventTypeSendto then
    (ev ← decodeSendtoPayload raw; Ret (ring_sendto (se_set_Syscall (gostr "sendto") ev)))
  else if typ =? eventTypeSendmsg then
    if sendtoHeaderLen + payloadMax <=? raw_len raw then
      (ev ← decodeSendtoPayload raw; Ret (ring_sendmsg (se_set_Syscall (gostr "sendmsg") ev)))
    else (ev ← decodeWritePayload raw; Ret (ring_write (we_set_Syscall (gostr "sendmsg") ev)))
  else if typ =? eventTypeOpenat then decodeOpenat raw
  else if typ =? eventTypeLSMDeny then decodeLSMDeny raw
  else Err (Errorf "unknown event type %d" [typ]).
