(* ===== verification/LoaderFacts.v ===== *)
(** * Facts about the decoders of loader.go

    Each decoder in closed form on a record of sufficient length, and the safety
    of [decodeRingEvent] on arbitrary bytes. *)

From S2P Require Import Prelude Go CLayout Kernel Loader.

(** Evaluate the checked readers of a decoder whose header-length guard holds. *)
Ltac read_fields :=
  rewrite ?uint_le_in, ?go_slice_in, ?go_index_in by lia; cbn [mbind go_bind];
  nat_literals.

Section decoders.
Context (raw : bytes).

Definition u_at (lo hi : nat) : Z := le_Z (slice lo hi raw).

(** The payload length a decoder settles on: the length word, capped by the
    compiled maximum and by the bytes that are there. *)
Definition payload_len (header : Z) : Z :=
  Z.min (raw_len raw - header) (Z.min payloadMax (u_at 4 8)).

Lemma cap_min (cap n : Z) : (if cap <? n then cap else n) = Z.min cap n.
Proof. destruct (Z.ltb_spec cap n); lia. Qed.

Lemma u_at_nonneg lo hi : 0 <= u_at lo hi.
Proof. apply le_Z_bound. Qed.

Lemma payload_read header n :
  0 <= header -> n <= raw_len raw - header ->
  (if 0 <? n then go_slice raw header (header + n) else Ret []) =
  Ret (slice (Z.to_nat header) (Z.to_nat (header + Z.max 0 n)) raw).
Proof.
  intros Hh Hn. unfold raw_len in *. destruct (Z.ltb_spec 0 n).
  - rewrite go_slice_in by lia. do 2 f_equal. lia.
  - unfold slice. do 2 f_equal.
    replace (Z.to_nat (header + Z.max 0 n) - Z.to_nat header)%nat with 0%nat by lia. done.
Qed.

Lemma decodeConnect_eq :
  connectHeaderLen <= raw_len raw ->
  decodeConnect raw = Ret (ring_connect {|
    ce_TSNs := u_at 8 16; ce_PID := u_at 16 20; ce_TID := u_at 20 24;
    ce_Family := u_at 24 25; ce_DestAddr := slice 25 41 raw;
    ce_DestPort := u_at 42 44; ce_FD := u_at 44 48; ce_CgroupID := u_at 48 56;
    ce_Comm := slice 56 72 raw |}).
Proof.
  intros H. unfold decodeConnect. rewrite (proj2 (Z.ltb_ge _ _)) by done.
  unfold raw_len, connectHeaderLen in *. read_fields. done.
Qed.

Lemma decodeWritePayload_eq :
  writeHeaderLen <= raw_len raw ->
  decodeWritePayload raw = Ret {|
    we_TSNs := u_at 8 16; we_PID := u_at 16 20; we_TID := u_at 20 24; we_FD := u_at 24 28;
    we_Len := payload_len writeHeaderLen; we_CgroupID := u_at 32 40;
    we_Comm := slice 40 56 raw;
    we_Payload := slice 56 (Z.to_nat (56 + payload_len writeHeaderLen)) raw;
    we_Syscall := [] |}.
Proof.
  intros H. unfold decodeWritePayload. rewrite (proj2 (Z.ltb_ge _ _)) by done.
  unfold payload_len. pose proof (u_at_nonneg 4 8). unfold u_at in *.
  unfold raw_len, writeHeaderLen, payloadMax in *. read_fields.
  rewrite !cap_min, payload_read by (unfold raw_len; lia). cbn [mbind go_bind].
  rewrite Z.max_r by lia. done.
Qed.

Lemma decodeSendtoPayload_eq :
  sendtoHeaderLen <= raw_len raw ->
  decodeSendtoPayload raw = Ret {|
    se_TSNs := u_at 8 16; se_PID := u_at 16 20; se_TID := u_at 20 24;
    se_Family := u_at 24 25; se_DestAddr := slice 25 41 raw; se_DestPort := u_at 42 44;
    se_Len := payload_len sendtoHeaderLen; se_CgroupID := u_at 48 56;
    se_Comm := slice 56 72 raw;
    se_Payload := slice 72 (Z.to_nat (72 + payload_len sendtoHeaderLen)) raw;
    se_Syscall := [] |}.
Proof.
  intros H. unfold decodeSendtoPayload. rewrite (proj2 (Z.ltb_ge _ _)) by done.
  unfold payload_len. pose proof (u_at_nonneg 4 8). unfold u_at in *.
  unfold raw_len, sendtoHeaderLen, payloadMax in *. read_fields.
  rewrite !cap_min, payload_read by (unfold raw_len; lia). cbn [mbind go_bind].
  rewrite Z.max_r by lia. done.
Qed.

(** The path bytes a full-size openat record carries. *)
Definition path_at : bytes :=
  let n := Z.min pathMax (u_at 4 8) in
  if (0 <? n) && (48 + n <=? raw_len raw)
  then nullTerm (slice 48 (Z.to_nat (48 + n)) raw) else [].

Lemma decodeOpenat_eq :
  48 <= raw_len raw ->
  decodeOpenat raw = Ret (ring_openat {|
    oe_TSNs := u_at 8 16; oe_PID := u_at 16 20; oe_TID := u_at 20 24;
    oe_PathLen := Z.min pathMax (u_at 4 8); oe_CgroupID := u_at 24 32;
    oe_Comm := slice 32 48 raw; oe_Path := path_at |}).
Proof.
  intros H. unfold decodeOpenat. rewrite (proj2 (Z.ltb_ge _ _)) by done.
  unfold path_at. pose proof (u_at_nonneg 4 8). unfold u_at in *.
  unfold raw_len in *. read_fields. rewrite !cap_min.
  set (n := Z.min _ _). unfold raw_len.
  destruct ((0 <? n) && _) eqn:E; cbn [mbind go_bind]; [|done].
  apply andb_prop in E as [?%Z.ltb_lt ?%Z.leb_le].
  by rewrite go_slice_in by lia.
Qed.

Lemma decodeLSMDeny_eq :
  48 <= raw_len raw ->
  decodeLSMDeny raw = Ret (ring_lsmdeny {|
    le_TSNs := u_at 8 16; le_PID := u_at 16 20; le_TID := u_at 20 24;
    le_CgroupID := u_at 24 32; le_Comm := slice 32 48 raw |}).
Proof.
  intros H. unfold decodeLSMDeny. rewrite (proj2 (Z.ltb_ge _ _)) by done.
  unfold raw_len in *. read_fields. done.
Qed.

Lemma decodeWritePayload_total : no_panic (decodeWritePayload raw).
Proof.
  destruct (Z.le_gt_cases writeHeaderLen (raw_len raw)) as [H|H].
  - by rewrite decodeWritePayload_eq.
  - unfold decodeWritePayload. by rewrite (proj2 (Z.ltb_lt _ _)).
Qed.

Lemma decodeSendtoPayload_total : no_panic (decodeSendtoPayload raw).
Proof.
  destruct (Z.le_gt_cases sendtoHeaderLen (raw_len raw)) as [H|H].
  - by rewrite decodeSendtoPayload_eq.
  - unfold decodeSendtoPayload. by rewrite (proj2 (Z.ltb_lt _ _)).
Qed.

Lemma decodeConnect_total : no_panic (decodeConnect raw).
Proof.
  destruct (Z.le_gt_cases connectHeaderLen (raw_len raw)) as [H|H].
  - by rewrite decodeConnect_eq.
  - unfold decodeConnect. by rewrite (proj2 (Z.ltb_lt _ _)).
Qed.

Lemma decodeOpenat_total : no_panic (decodeOpenat raw).
Proof.
  destruct (Z.le_gt_cases 48 (raw_len raw)) as [H|H].
  - by rewrite decodeOpenat_eq.
  - unfold decodeOpenat. by rewrite (proj2 (Z.ltb_lt _ _)).
Qed.

Lemma decodeLSMDeny_total : no_panic (decodeLSMDeny raw).
Proof.
  destruct (Z.le_gt_cases 48 (raw_len raw)) as [H|H].
  - by rewrite decodeLSMDeny_eq.
  - unfold decodeLSMDeny. by rewrite (proj2 (Z.ltb_lt _ _)).
Qed.
End decoders.
