(* ===== verification/LoaderMaps.v ===== *)
(** * internal/ebpf/loader.go: the operations on the BPF maps

    The loader shares its maps with the programs of [Probes]: the state is the
    [kmaps] they run on, plus what the loader knows of it (which map handles are
    not nil, whether the LSM hook is attached).  The map system calls behind
    cilium/ebpf are the class [BpfMap]. *)

From S2P Require Import Prelude Go CLayout Kernel Probes KernelAbi Loader.

(** ** Map handles *)

Inductive mapid :=
  | PidFilter | CgroupFilter | LsmBlocklistPid | LsmBlocklistCgroup
  | DropCountMap | CriticalDropCountMap | PayloadCap.

Definition mapid_eqb (a b : mapid) : bool :=
  match a, b with
  | PidFilter, PidFilter | CgroupFilter, CgroupFilter | LsmBlocklistPid, LsmBlocklistPid
  | LsmBlocklistCgroup, LsmBlocklistCgroup | DropCountMap, DropCountMap
  | CriticalDropCountMap, CriticalDropCountMap | PayloadCap, PayloadCap => true
  | _, _ => false
  end.

Definition def_of (id : mapid) : map_def :=
  match id with
  | PidFilter => pid_filter_def
  | CgroupFilter => cgroup_filter_def
  | LsmBlocklistPid => lsm_blocklist_pid_def
  | LsmBlocklistCgroup => lsm_blocklist_cgroup_def
  | DropCountMap => drop_count_def
  | CriticalDropCountMap => critical_drop_count_def
  | PayloadCap => payload_cap_def
  end.

Definition get_map (id : mapid) (st : kmaps) : gmap Z Z :=
  match id with
  | PidFilter => pid_filter st
  | CgroupFilter => cgroup_filter st
  | LsmBlocklistPid => lsm_blocklist_pid st
  | LsmBlocklistCgroup => lsm_blocklist_cgroup st
  | DropCountMap => drop_count st
  | CriticalDropCountMap => critical_drop_count st
  | PayloadCap => payload_cap st
  end.

Definition set_map (id : mapid) (m : gmap Z Z) (st : kmaps) : kmaps :=
  let pick (id' : mapid) (old : gmap Z Z) := if mapid_eqb id' id then m else old in
  {| pid_filter := pick PidFilter (pid_filter st);
     cgroup_filter := pick CgroupFilter (cgroup_filter st);
     lsm_blocklist_pid := pick LsmBlocklistPid (lsm_blocklist_pid st);
     lsm_blocklist_cgroup := pick LsmBlocklistCgroup (lsm_blocklist_cgroup st);
     events := events st;
     drop_count := pick DropCountMap (drop_count st);
     critical_events := critical_events st;
     critical_drop_count := pick CriticalDropCountMap (critical_drop_count st);
     payload_cap := pick PayloadCap (payload_cap st);
     iov_scratch_map := iov_scratch_map st |}.

Lemma get_set_same id m st : get_map id (set_map id m st) = m.
Proof. by destruct id. Qed.

Lemma get_set_other id id' m st : id <> id' -> get_map id (set_map id' m st) = get_map id st.
Proof. by destruct id, id'. Qed.

(** ** The map system calls

    [put_err d m k v] is the error of an update of [m], declared as [d]; without
    one the entry is written.  [iterate] lists the entries an iterator yields and
    the error it stops with. *)

Class BpfMap := {
  put_err : map_def -> gmap Z Z -> Z -> Z -> option error;
  delete_err : gmap Z Z -> Z -> option error;
  lookup_err : gmap Z Z -> Z -> option error;
  iterate : gmap Z Z -> list (Z * Z) * option error
}.

Class BpfMapOk `{BpfMap} : Prop := {
  (* "Delete removes a value; returns ErrKeyNotExist if the key does not exist" *)
  delete_err_absent m k e : delete_err m k = Some e -> m !! k = None;
  (* "Lookup returns an error if the key does not exist" *)
  lookup_err_absent m k : lookup_err m k = None <-> is_Some (m !! k);
  (* a complete iteration yields every entry once *)
  iterate_all m l : iterate m = (l, None) -> l ≡ₚ map_to_list m
}.

(** A map of bounded size whose iterator does not fail. *)
Definition bounded_maps : BpfMap := {|
  put_err d m k v :=
    match m !! k with
    | Some _ => None
    | None =>
        if Z.of_nat (size m) <? max_entries d then None
        else Some (Errorf "update: key too big for map: argument list too long" [])
    end;
  delete_err m k :=
    match m !! k with Some _ => None | None => Some (Errorf "key does not exist" []) end;
  lookup_err m k :=
    match m !! k with Some _ => None | None => Some (Errorf "key does not exist" []) end;
  iterate m := (map_to_list m, None)
|}.

Lemma bounded_maps_ok : @BpfMapOk bounded_maps.
Proof.
  split; cbn.
  - intros m k e. by destruct (m !! k).
  - intros m k. destruct (m !! k); [by split; eauto|]. split; [done|by intros []].
  - by intros m l [= <-].
Qed.

(** ** The loader *)

Record Loader := MkLoader {
  lsmLink : bool;             (* l.lsmLink != nil *)
  objs : mapid -> bool;       (* the map handle is not nil *)
  maps : kmaps
}.

Definition with_maps (st : kmaps) (l : Loader) : Loader := MkLoader (lsmLink l) (objs l) st.

(** A method of the loader: its result, and the loader it leaves; state written
    before an error is kept. *)
Definition M (A : Type) : Type := Loader -> go A * Loader.

#[export] Instance M_ret : MRet M := fun A a l => (Ret a, l).
#[export] Instance M_bind : MBind M := fun A B f m l =>
  match m l with
  | (Ret a, l) => f a l
  | (Err e, l) => (Err e, l)
  | (Panic, l) => (Panic, l)
  end.

Definition fail {A} (e : error) : M A := fun l => (Err e, l).

(** The error of [m] as a value: nil is [None]. *)
Definition attempt (m : M unit) : M (option error) := fun l =>
  match m l with
  | (Ret _, l) => (Ret None, l)
  | (Err e, l) => (Ret (Some e), l)
  | (Panic, l) => (Panic, l)
  end.

(** [errors.Join(errs...)] as a result. *)
Definition join (errs : list error) : M unit :=
  match errs with [] => mret tt | _ => fail (Joined errs) end.

Definition opt_list {A} (o : option A) : list A := match o with Some a => [a] | None => [] end.

Section ops.
Context `{BpfMap}.

(** [objs.X.Put], [.Delete], [.Lookup]; a nil handle panics. *)
Definition map_put (id : mapid) (k v : Z) : M unit := fun l =>
  if objs l id then
    match put_err (def_of id) (get_map id (maps l)) k v with
    | Some e => (Err e, l)
    | None => (Ret tt, with_maps (set_map id (<[k := v]> (get_map id (maps l))) (maps l)) l)
    end
  else (Panic, l).

Definition map_delete (id : mapid) (k : Z) : M unit := fun l =>
  if objs l id then
    match delete_err (get_map id (maps l)) k with
    | Some e => (Err e, l)
    | None => (Ret tt, with_maps (set_map id (delete k (get_map id (maps l))) (maps l)) l)
    end
  else (Panic, l).

Definition map_lookup (id : mapid) (k : Z) : M Z := fun l =>
  if objs l id then
    match lookup_err (get_map id (maps l)) k with
    | Some e => (Err e, l)
    | None => (Ret (default 0 (get_map id (maps l) !! k)), l)
    end
  else (Panic, l).

(** [iter := m.Iterate(); for iter.Next(..) { ks = append(ks, k) }] and [iter.Err()]. *)
Definition map_keys (id : mapid) : M (list Z * option error) := fun l =>
  if objs l id then
    let '(es, e) := iterate (get_map id (maps l)) in (Ret (es.*1, e), l)
  else (Panic, l).

Definition loaded (id : mapid) : M bool := fun l => (Ret (objs l id), l).

Definition LSMEnforced : M bool := fun l => (Ret (lsmLink l), l).

(** [if c { err := m.Put(k, v) }], [if c { _ = m.Delete(k) }] *)
Definition put_when (c : bool) (id : mapid) (k v : Z) : M (option error) :=
  if c then attempt (map_put id k v) else mret None.

Definition delete_when (c : bool) (id : mapid) (k : Z) : M (option error) :=
  if c then attempt (map_delete id k) else mret None.

Definition not_attached : error :=
  Errorf "lsm quarantine: hook not attached (ebpf.lsm_enforce not active or attach failed)" [].

Definition Quarantine (pid cgroupID : Z) : M unit :=
  enforced ← LSMEnforced;
  if negb enforced then fail not_attached else
  e1 ← put_when (0 <? pid) LsmBlocklistPid (u32 pid) 1;
  e2 ← put_when (negb (cgroupID =? 0)) LsmBlocklistCgroup cgroupID 1;
  join (opt_list (Wrapf "quarantine pid %d: %w" [pid] <$> e1) ++
        opt_list (Wrapf "quarantine cgroup %d: %w" [cgroupID] <$> e2)).

Definition Unquarantine (pid cgroupID : Z) : M unit :=
  enforced ← LSMEnforced;
  if negb enforced then mret tt else
  _ ← delete_when (0 <? pid) LsmBlocklistPid (u32 pid);
  _ ← delete_when (negb (cgroupID =? 0)) LsmBlocklistCgroup cgroupID;
  mret tt.

(** The keys of a map, none when its handle is nil. *)
Definition list_keys (id : mapid) : M (list Z) :=
  ok ← loaded id;
  if negb ok then mret [] else
  ke ← map_keys id;
  match ke.2 with Some e => fail e | None => mret ke.1 end.

Definition ListWatched : M (list Z * list Z) :=
  pids ← list_keys PidFilter;
  cgroups ← list_keys CgroupFilter;
  mret (pids, cgroups).

Definition ListQuarantined : M (list Z * list Z) :=
  enforced ← LSMEnforced;
  if negb enforced then fail (Errorf "lsm quarantine: hook not attached" []) else
  pids ← list_keys LsmBlocklistPid;
  cgroups ← list_keys LsmBlocklistCgroup;
  mret (pids, cgroups).

(** [for _, x := range xs { if err := f(x); err != nil { errs = append(errs, err) } }] *)
Fixpoint collect (f : Z -> M unit) (xs : list Z) : M (list error) :=
  match xs with
  | [] => mret []
  | x :: xs => e ← attempt (f x); es ← collect f xs; mret (opt_list e ++ es)
  end.

Definition QuarantineAllWatched : M unit :=
  enforced ← LSMEnforced;
  if negb enforced then fail (Errorf "lsm quarantine: hook not attached" []) else
  watched ← ListWatched;
  es1 ← collect (fun p => Quarantine p 0) watched.1;
  es2 ← collect (fun c => Quarantine 0 c) watched.2;
  join (es1 ++ es2).

(** [for _, x := range xs { _ = f(x) }] *)
Fixpoint each (f : Z -> M unit) (xs : list Z) : M unit :=
  match xs with [] => mret tt | x :: xs => _ ← attempt (f x); each f xs end.

Definition UnquarantineWatched (pids cgroups : list Z) : M unit :=
  enforced ← LSMEnforced;
  if negb enforced then mret tt else
  _ ← each (fun p => Unquarantine p 0) pids;
  each (fun c => Unquarantine 0 c) cgroups.

Definition ClampPayloadCaptureBytes (n : Z) : Z :=
  if n <? minPayloadCapture then minPayloadCapture
  else if payloadMax <? n then payloadMax else n.

Definition SetPayloadCaptureBytes (n : Z) : M unit :=
  ok ← loaded PayloadCap;
  if negb ok then fail (Errorf "payload_cap map not loaded" []) else
  map_put PayloadCap 0 (u32 (ClampPayloadCaptureBytes n)).

(** The insertion loop of UpdatePIDSet: stops at the first error. *)
Fixpoint put_pids (pids : list Z) : M unit :=
  match pids with
  | [] => mret tt
  | pid :: pids =>
      e ← attempt (map_put PidFilter (u32 pid) 1);
      match e with
      | Some e => fail (Wrapf "inserting PID %d: %w" [pid] e)
      | None => put_pids pids
      end
  end.

(** iter.Err() is not looked at. *)
Definition UpdatePIDSet (pids : list Z) : M unit :=
  ke ← map_keys PidFilter;
  _ ← each (fun k => map_delete PidFilter k) ke.1;
  put_pids pids.

Definition AddPID (pid : Z) : M unit := map_put PidFilter (u32 pid) 1.
Definition RemovePID (pid : Z) : M unit := map_delete PidFilter (u32 pid).

Definition AddCgroupID (id : Z) : M unit :=
  ok ← loaded CgroupFilter;
  if negb ok then fail (Errorf "cgroup_filter map not loaded" [])
  else map_put CgroupFilter id 1.

Definition RemoveCgroupID (id : Z) : M unit :=
  ok ← loaded CgroupFilter;
  if negb ok then mret tt else map_delete CgroupFilter id.

Definition DropCount : M Z :=
  ok ← loaded DropCountMap;
  if negb ok then fail (Errorf "drop_count map not loaded" []) else map_lookup DropCountMap 0.

Definition CriticalDropCount : M Z :=
  ok ← loaded CriticalDropCountMap;
  if negb ok then fail (Errorf "critical_drop_count map not loaded" [])
  else map_lookup CriticalDropCountMap 0.

Definition FilterCounts : M (Z * Z) :=
  pids ← list_keys PidFilter;
  cgroups ← list_keys CgroupFilter;
  mret (Z.of_nat (length pids), Z.of_nat (length cgroups)).
End ops.
