(* ===== verification/LoaderTheorems.v ===== *)
(** * Theorems about the loader's map operations

    What a successful call of the loader changes in the maps, read off through the
    programs that consult them: the LSM hook after Quarantine and Unquarantine,
    the task filter after UpdatePIDSet, the capture size after
    SetPayloadCaptureBytes. *)

From S2P Require Import Prelude Go CLayout Vmlinux Kernel Probes KernelAbi ProbeFacts Loader LoaderMaps.

(** ** The LSM verdict as a predicate on the blocklists *)

(** User space only ever writes 1 into a blocklist. *)
Definition blocklists_ok (st : kmaps) : Prop :=
  map_Forall (λ _ v, v = 1) (lsm_blocklist_pid st) /\
  map_Forall (λ _ v, v = 1) (lsm_blocklist_cgroup st).

Definition blocked (tk : task) (st : kmaps) : bool :=
  bool_decide (is_Some (lsm_blocklist_pid st !! cur_pid tk)) ||
  bool_decide (is_Some (lsm_blocklist_cgroup st !! cgroup_id tk)).

Definition verdict {U : Type} `{Helpers U} (tk : task) (st : kmaps) : Z :=
  (lsm_socket_connect tk 0 st).1.

Lemma verdict_blocked {U : Type} `{Helpers U} tk st :
  blocklists_ok st -> verdict tk st = if blocked tk st then - EPERM else 0.
Proof.
  intros [Hp Hc]. unfold verdict, lsm_socket_connect, blocked. cbn [Z.eqb negb].
  destruct (lsm_blocklist_pid st !! cur_pid tk) as [b|] eqn:E1.
  - apply Hp in E1 as ->. cbn. by case_match.
  - destruct (lsm_blocklist_cgroup st !! cgroup_id tk) as [b|] eqn:E2; [|done].
    apply Hc in E2 as ->. cbn. by case_match.
Qed.

(** ** Monadic steps *)

Section steps.
Context `{BpfMapOk}.

(** The maps after [put_when c id k v] without an error, and after [delete_when c id k]. *)
Definition put_maps (c : bool) (id : mapid) (k v : Z) (st : kmaps) : kmaps :=
  if c then set_map id (<[k := v]> (get_map id st)) st else st.

Definition delete_maps (c : bool) (id : mapid) (k : Z) (st : kmaps) : kmaps :=
  if c then set_map id (delete k (get_map id st)) st else st.

Lemma with_maps_id l : with_maps (maps l) l = l.
Proof. by destruct l. Qed.

Lemma set_get_map id st : set_map id (get_map id st) st = st.
Proof. by destruct st, id. Qed.

Lemma put_when_ret c id k v l l' :
  put_when c id k v l = (Ret None, l') -> l' = with_maps (put_maps c id k v (maps l)) l.
Proof.
  unfold put_when, put_maps. destruct c.
  - unfold attempt, map_put. destruct (objs l id); [|done]. destruct (put_err _ _ _ _); by intros [= <-].
  - intros [= <-]. by rewrite with_maps_id.
Qed.

Lemma delete_when_ret c id k l :
  objs l id = true ->
  exists e, delete_when c id k l = (Ret e, with_maps (delete_maps c id k (maps l)) l).
Proof.
  unfold delete_when, delete_maps. intros Hid.
  destruct c; [|exists None; by rewrite with_maps_id].
  unfold attempt, map_delete. rewrite Hid. destruct (delete_err _ _) eqn:E; [|eauto]. apply delete_err_absent in E.
  rewrite delete_id, set_get_map, with_maps_id by done. eauto.
Qed.

(** The maps after a quarantine of [pid] and [cg]. *)
Definition quarantine_maps (pid cg : Z) (st : kmaps) : kmaps :=
  put_maps (negb (cg =? 0)) LsmBlocklistCgroup cg 1
    (put_maps (0 <? pid) LsmBlocklistPid (u32 pid) 1 st).

Lemma Quarantine_ret pid cg l l' :
  Quarantine pid cg l = (Ret tt, l') ->
  lsmLink l = true /\ l' = with_maps (quarantine_maps pid cg (maps l)) l.
Proof.
  unfold Quarantine, mbind, M_bind, LSMEnforced.
  destruct (lsmLink l) eqn:Hl; [|done]. cbn [negb].
  destruct (put_when (0 <? pid) _ _ _ l) as [[[e1|]| |] l1] eqn:E1; try done;
    destruct (put_when (negb _) _ _ _ l1) as [[[e2|]| |] l2] eqn:E2; try done.
  apply put_when_ret in E1 as ->. apply put_when_ret in E2 as ->. by intros [= <-].
Qed.

Definition targeted (pid cg : Z) (tk : task) : bool :=
  ((0 <? pid) && (cur_pid tk =? u32 pid)) || (negb (cg =? 0) && (cgroup_id tk =? cg)).

Lemma bool_decide_insert (m : gmap Z Z) (i j v : Z) :
  bool_decide (is_Some (<[i := v]> m !! j)) = (j =? i) || bool_decide (is_Some (m !! j)).
Proof.
  destruct (Z.eqb_spec j i) as [->|Hne].
  - by rewrite lookup_insert_eq, bool_decide_eq_true_2 by eauto.
  - by rewrite lookup_insert_ne by done.
Qed.

Lemma bool_decide_delete (m : gmap Z Z) (i j : Z) :
  bool_decide (is_Some (delete i m !! j)) = negb (j =? i) && bool_decide (is_Some (m !! j)).
Proof.
  destruct (Z.eqb_spec j i) as [->|Hne]; cbn.
  - rewrite lookup_delete_eq, bool_decide_eq_false_2; [done|by intros []].
  - by rewrite lookup_delete_ne by done.
Qed.

Lemma blocked_quarantine pid cg tk st :
  blocked tk (quarantine_maps pid cg st) = targeted pid cg tk || blocked tk st.
Proof.
  unfold blocked, quarantine_maps, put_maps, targeted.
  destruct (0 <? pid), (negb (cg =? 0)); cbn; rewrite ?bool_decide_insert;
    repeat case_bool_decide; destruct (cur_pid tk =? u32 pid), (cgroup_id tk =? cg); done.
Qed.

Lemma quarantine_maps_ok pid cg st :
  blocklists_ok st -> blocklists_ok (quarantine_maps pid cg st).
Proof.
  unfold blocklists_ok, quarantine_maps, put_maps. intros [Hp Hc].
  destruct (0 <? pid), (negb (cg =? 0)); cbn; split;
    first [done|by apply map_Forall_insert_2].
Qed.

(** C13: a successful Quarantine makes the LSM hook deny every later connect of the
    PID and of the cgroup, and changes the verdict of no other task. *)
Theorem Quarantine_denies {U : Type} `{Helpers U} (pid cg : Z) (l l' : Loader) (tk : task) :
  blocklists_ok (maps l) -> Quarantine pid cg l = (Ret tt, l') ->
  blocklists_ok (maps l') /\
  verdict tk (maps l') = (if targeted pid cg tk then - EPERM else verdict tk (maps l)).
Proof.
  intros Hok [_ ->]%Quarantine_ret. cbn.
  pose proof (quarantine_maps_ok pid cg _ Hok) as Hok'. split; [done|].
  rewrite !verdict_blocked, blocked_quarantine by done. by destruct (targeted _ _ _).
Qed.

(** The maps after an unquarantine. *)
Definition unquarantine_maps (pid cg : Z) (st : kmaps) : kmaps :=
  delete_maps (negb (cg =? 0)) LsmBlocklistCgroup cg
    (delete_maps (0 <? pid) LsmBlocklistPid (u32 pid) st).

(** NewLoader succeeds only with every map handle set. *)
Definition all_loaded (l : Loader) : Prop := forall id, objs l id = true.

Lemma Unquarantine_ret pid cg l :
  all_loaded l -> lsmLink l = true ->
  Unquarantine pid cg l = (Ret tt, with_maps (unquarantine_maps pid cg (maps l)) l).
Proof.
  intros Hall Hl. unfold Unquarantine, mbind, M_bind, LSMEnforced. rewrite Hl. cbn [negb].
  destruct (delete_when_ret (0 <? pid) LsmBlocklistPid (u32 pid) l (Hall _)) as [e1 ->].
  edestruct (delete_when_ret (negb (cg =? 0)) LsmBlocklistCgroup cg) as [e2 ->]; [apply Hall|].
  done.
Qed.

(** Unquarantine undoes a successful Quarantine of a PID and cgroup that had no
    entry before: the loader is back in the state it was in. *)
Theorem Quarantine_roundtrip (pid cg : Z) (l l' : Loader) :
  all_loaded l -> (0 < pid -> lsm_blocklist_pid (maps l) !! u32 pid = None) ->
  (cg <> 0 -> lsm_blocklist_cgroup (maps l) !! cg = None) ->
  Quarantine pid cg l = (Ret tt, l') -> Unquarantine pid cg l' = (Ret tt, l).
Proof.
  intros Hall Hp Hc [Hl ->]%Quarantine_ret. rewrite Unquarantine_ret by done. f_equal.
  unfold quarantine_maps, unquarantine_maps, put_maps, delete_maps.
  destruct l as [lnk ob [pf cf bp bc ev dc ce cd pc sm]]. cbn in *.
  destruct (Z.ltb_spec 0 pid), (Z.eqb_spec cg 0); cbn; unfold with_maps, set_map; cbn;
    rewrite ?delete_insert_id by auto; done.
Qed.

(** *** Quarantining everything that is watched *)

Definition quarantine_all (ps cgs : list Z) (st : kmaps) : kmaps :=
  foldl (fun st c => quarantine_maps 0 c st) (foldl (fun st p => quarantine_maps p 0 st) st ps) cgs.

(** A loop of quarantines that collects no error has performed all of them. *)
Lemma collect_quarantine (f : Z -> M unit) (g : Z -> kmaps -> kmaps) xs l l' :
  (forall x l l', f x l = (Ret tt, l') -> l' = with_maps (g x (maps l)) l) ->
  collect f xs l = (Ret [], l') ->
  l' = with_maps (foldl (fun st x => g x st) (maps l) xs) l.
Proof.
  intros Hf. revert l. induction xs as [|x xs IH]; intros l; cbn [collect foldl].
  { intros [= <-]. by rewrite with_maps_id. }
  unfold mbind, M_bind, attempt.
  destruct (f x l) as [[[]|e|] l1] eqn:Ef; [..|done].
  - apply Hf in Ef as ->.
    destruct (collect f xs _) as [[es| |] l2] eqn:Ec; intros [= E <-]. cbn in E. subst es.
    apply IH in Ec. by rewrite Ec.
  - destruct (collect f xs l1) as [[es| |] l2]; done.
Qed.

Lemma list_keys_ret id l ks l' :
  list_keys id l = (Ret ks, l') -> objs l id = true ->
  l' = l /\ exists es, iterate (get_map id (maps l)) = (es, None) /\ ks = es.*1.
Proof.
  unfold list_keys, loaded, map_keys, mbind, M_bind. intros Hk Hid. rewrite Hid in Hk.
  cbn in Hk. rewrite Hid in Hk. destruct (iterate _) as [es [e|]]; cbn in Hk; [done|].
  injection Hk as <- <-. eauto.
Qed.

(** The keys a complete iteration lists are those of the map. *)
Lemma list_keys_elem id l ks l' k :
  list_keys id l = (Ret ks, l') -> objs l id = true ->
  is_Some (get_map id (maps l) !! k) <-> k ∈ ks.
Proof.
  intros Hk Hid. destruct (list_keys_ret _ _ _ _ Hk Hid) as [_ (es & Hes & ->)].
  apply iterate_all in Hes.
  rewrite Hes, list_elem_of_fmap. split.
  - intros [v Hv]. exists (k, v). by rewrite elem_of_map_to_list.
  - intros ([k' v] & -> & Hin). rewrite elem_of_map_to_list in Hin. by exists v.
Qed.

Lemma blocked_quarantine_all ps cgs tk st :
  blocked tk (quarantine_all ps cgs st) =
  existsb (fun p => targeted p 0 tk) ps || existsb (fun c => targeted 0 c tk) cgs || blocked tk st.
Proof.
  assert (Hfold : forall g : Z -> kmaps -> kmaps, forall t : Z -> bool, forall xs st,
    (forall x st, blocked tk (g x st) = t x || blocked tk st) ->
    blocked tk (foldl (fun st x => g x st) st xs) = existsb t xs || blocked tk st).
  { intros g t xs. induction xs as [|x xs IH]; intros st' Hg; [done|]. cbn [foldl existsb].
    rewrite IH, Hg by done. by destruct (t x), (existsb t xs). }
  unfold quarantine_all.
  rewrite (Hfold (quarantine_maps 0) (fun c => targeted 0 c tk)) by (intros; apply blocked_quarantine).
  rewrite (Hfold (fun p => quarantine_maps p 0) (fun p => targeted p 0 tk)) by
    (intros; apply blocked_quarantine).
  by destruct (existsb _ ps), (existsb _ cgs).
Qed.

Lemma foldl_ok (g : Z -> kmaps -> kmaps) xs st :
  (forall x st, blocklists_ok st -> blocklists_ok (g x st)) ->
  blocklists_ok st -> blocklists_ok (foldl (fun st x => g x st) st xs).
Proof. intros Hg. revert st. induction xs; cbn; auto. Qed.

Lemma quarantine_all_ok ps cgs st :
  blocklists_ok st -> blocklists_ok (quarantine_all ps cgs st).
Proof. intros. unfold quarantine_all. repeat apply foldl_ok; auto using quarantine_maps_ok. Qed.

Lemma ListWatched_ret l ps cgs l' :
  ListWatched l = (Ret (ps, cgs), l') -> all_loaded l ->
  l' = l /\ list_keys PidFilter l = (Ret ps, l) /\ list_keys CgroupFilter l = (Ret cgs, l).
Proof.
  unfold ListWatched, mbind, M_bind. intros Hw Hall.
  destruct (list_keys PidFilter l) as [[ps'| |] l1] eqn:E1; try done.
  destruct (list_keys_ret _ _ _ _ E1 (Hall _)) as [-> _].
  destruct (list_keys CgroupFilter l) as [[cgs'| |] l2] eqn:E2; try done.
  destruct (list_keys_ret _ _ _ _ E2 (Hall _)) as [-> _].
  by injection Hw as <- <- <-.
Qed.

Lemma QuarantineAllWatched_ret l l' :
  QuarantineAllWatched l = (Ret tt, l') -> all_loaded l ->
  exists ps cgs, list_keys PidFilter l = (Ret ps, l) /\ list_keys CgroupFilter l = (Ret cgs, l) /\
    l' = with_maps (quarantine_all ps cgs (maps l)) l.
Proof.
  intros Hq Hall. unfold QuarantineAllWatched, mbind, M_bind, LSMEnforced in Hq.
  destruct (lsmLink l) eqn:Hl; [|done]. cbn [negb] in Hq.
  destruct (ListWatched l) as [[[ps cgs]| |] l1] eqn:Ew; try done.
  apply ListWatched_ret in Ew as (-> & Ep & Ec); [|done]. cbn [fst snd] in Hq.
  destruct (collect _ ps l) as [[es1| |] l2] eqn:E1; try done.
  destruct (collect _ cgs l2) as [[es2| |] l3] eqn:E2; try done.
  destruct es1; [|done]. destruct es2; [|done]. cbn in Hq. injection Hq as <-.
  exists ps, cgs. split_and!; auto.
  apply (collect_quarantine _ (fun p => quarantine_maps p 0)) in E1;
    [|by intros x ? ? [_ ?]%Quarantine_ret].
  apply (collect_quarantine _ (quarantine_maps 0)) in E2;
    [|by intros x ? ? [_ ?]%Quarantine_ret].
  by rewrite E2, E1.
Qed.

(** After a successful QuarantineAllWatched the LSM hook denies every connect of
    a task the probes monitor (by a PID or cgroup other than 0), and still denies
    whom it denied before. *)
Theorem QuarantineAllWatched_denies {U : Type} `{Helpers U} (l l' : Loader) (tk : task) :
  all_loaded l -> blocklists_ok (maps l) -> cur_pid tk <> 0 -> cgroup_id tk <> 0 ->
  QuarantineAllWatched l = (Ret tt, l') ->
  monitored_task tk (maps l) = true \/ verdict tk (maps l) = - EPERM ->
  verdict tk (maps l') = - EPERM.
Proof.
  intros Hall Hok Hpid Hcg Hq Hm.
  destruct (QuarantineAllWatched_ret _ _ Hq Hall) as (ps & cgs & Ep & Ec & ->).
  cbn [maps with_maps]. rewrite verdict_blocked, blocked_quarantine_all by by apply quarantine_all_ok.
  rewrite verdict_blocked in Hm by done.
  assert (existsb (fun p => targeted p 0 tk) ps || existsb (fun c => targeted 0 c tk) cgs ||
          blocked tk (maps l) = true) as ->; [|done].
  destruct Hm as [Hm|Hm]; [|destruct (blocked tk (maps l)); [by rewrite orb_true_r|done]].
  unfold monitored_task in Hm. rewrite !orb_true_iff, !existsb_exists. left.
  destruct (pid_filter (maps l) !! cur_pid tk) as [v|] eqn:Ev.
  - left. exists (cur_pid tk). split.
    + apply list_elem_of_In. apply (list_keys_elem _ _ _ _ (cur_pid tk) Ep (Hall _)).
      by exists v.
    + pose proof (Z.mod_pos_bound (Z.shiftr (pid_tgid tk) 32) (2 ^ 32) ltac:(lia)) as Hb.
      unfold targeted, cur_pid, u32 in *.
      rewrite (Z.mod_small (_ mod _)), Z.eqb_refl by lia.
      rewrite (proj2 (Z.ltb_lt _ _)) by lia. done.
  - right. destruct (cgroup_filter (maps l) !! cgroup_id tk) as [v|] eqn:Ev'; [|done].
    exists (cgroup_id tk). split.
    + apply list_elem_of_In. apply (list_keys_elem _ _ _ _ (cgroup_id tk) Ec (Hall _)).
      by exists v.
    + unfold targeted. rewrite Z.eqb_refl, (proj2 (Z.eqb_neq (cgroup_id tk) 0)) by done. done.
Qed.

(** *** The PID filter *)

(** The PID filter holding 1 for each of [pids] and nothing else. *)
Definition pid_set (pids : list Z) : gmap Z Z :=
  foldl (fun m p => <[u32 p := 1]> m) ∅ pids.

Lemma put_pids_ret pids l l' :
  put_pids pids l = (Ret tt, l') ->
  l' = with_maps (set_map PidFilter
         (foldl (fun m p => <[u32 p := 1]> m) (pid_filter (maps l)) pids) (maps l)) l.
Proof.
  revert l. induction pids as [|p pids IH]; intros l; cbn [put_pids foldl].
  { intros [= <-]. change (pid_filter (maps l)) with (get_map PidFilter (maps l)).
    by rewrite set_get_map, with_maps_id. }
  unfold mbind, M_bind, attempt, map_put.
  destruct (objs l PidFilter); [|done]. destruct (put_err _ _ _ _); [done|].
  intros ->%IH. done.
Qed.

Lemma each_delete_ret ks l :
  objs l PidFilter = true ->
  each (fun k => map_delete PidFilter k) ks l =
    (Ret tt, with_maps (set_map PidFilter
               (foldl (fun m k => delete k m) (pid_filter (maps l)) ks) (maps l)) l).
Proof.
  revert l. induction ks as [|k ks IH]; intros l Hl; cbn [each foldl].
  { change (pid_filter (maps l)) with (get_map PidFilter (maps l)).
    by rewrite set_get_map, with_maps_id. }
  unfold mbind, M_bind.
  destruct (delete_when_ret true PidFilter k l Hl) as [e He]. cbn [delete_when] in He.
  rewrite He, IH by done. done.
Qed.

Lemma foldl_delete_all (ks : list Z) (m : gmap Z Z) :
  (forall k, is_Some (m !! k) -> k ∈ ks) -> foldl (fun m k => delete k m) m ks = ∅.
Proof.
  revert m. induction ks as [|k ks IH]; intros m Hm; cbn.
  - apply map_empty. intros i. destruct (m !! i) eqn:E; [|done].
    exfalso. by eapply not_elem_of_nil, Hm.
  - apply IH. intros i. rewrite lookup_delete_is_Some. intros [Hne Hi].
    apply Hm, elem_of_cons in Hi as [->|?]; [done|assumption].
Qed.

Lemma pid_set_lookup pids k :
  pid_set pids !! k = if existsb (fun p => u32 p =? k) pids then Some 1 else None.
Proof.
  unfold pid_set. rewrite <- (lookup_empty (M := gmap Z) (A := Z) k) at 1.
  generalize (∅ : gmap Z Z). induction pids as [|p pids IH]; intros m; cbn; [done|].
  rewrite IH. destruct (Z.eqb_spec (u32 p) k) as [<-|Hne]; cbn.
  - rewrite lookup_insert_eq. by case_match.
  - by rewrite lookup_insert_ne by done.
Qed.

(** A successful UpdatePIDSet makes the probes monitor exactly the given PIDs and
    the watched cgroups, provided the iterator it clears the filter with was complete. *)
Theorem UpdatePIDSet_exact (pids : list Z) (l l' : Loader) (tk : task) :
  all_loaded l -> (iterate (pid_filter (maps l))).2 = None ->
  UpdatePIDSet pids l = (Ret tt, l') ->
  maps l' = set_map PidFilter (pid_set pids) (maps l) /\
  monitored_task tk (maps l') =
    existsb (fun p => u32 p =? cur_pid tk) pids ||
    bool_decide (is_Some (cgroup_filter (maps l) !! cgroup_id tk)).
Proof.
  intros Hall Hit Hu. unfold UpdatePIDSet, mbind, M_bind, map_keys in Hu.
  rewrite (Hall PidFilter) in Hu. cbn [get_map] in Hu.
  destruct (iterate (pid_filter (maps l))) as [es e] eqn:Ei. cbn in Hit. subst e.
  cbn [fst] in Hu. rewrite each_delete_ret in Hu by apply Hall.
  rewrite foldl_delete_all in Hu.
  2: { intros k [v Hv]. apply iterate_all in Ei. rewrite Ei.
       apply list_elem_of_fmap. exists (k, v). by rewrite elem_of_map_to_list. }
  apply put_pids_ret in Hu as ->. split; [done|].
  unfold monitored_task. cbn -[pid_set].
  change (foldl _ ∅ pids) with (pid_set pids). rewrite pid_set_lookup.
  destruct (existsb _ pids); [done|]. cbn.
  destruct (cgroup_filter (maps l) !! cgroup_id tk); symmetry;
    [apply bool_decide_eq_true_2; eauto|apply bool_decide_eq_false_2; by intros []].
Qed.

(** *** The capture size *)

(** A successful SetPayloadCaptureBytes makes the probes capture at most the
    requested number of bytes, clamped to between 64 and the compiled maximum. *)
Theorem SetPayloadCaptureBytes_limit (n : Z) (l l' : Loader) :
  SetPayloadCaptureBytes n l = (Ret tt, l') ->
  payload_limit (maps l') = ClampPayloadCaptureBytes n /\
  ClampPayloadCaptureBytes n = Z.max 64 (Z.min 1024 n).
Proof.
  assert (Hc : ClampPayloadCaptureBytes n = Z.max 64 (Z.min 1024 n)).
  { unfold ClampPayloadCaptureBytes, minPayloadCapture, payloadMax.
    destruct (Z.ltb_spec n 64), (Z.ltb_spec 1024 n); lia. }
  unfold SetPayloadCaptureBytes, loaded, mbind, M_bind, map_put.
  destruct (objs l PayloadCap) eqn:Hl; [|done]. cbn -[ClampPayloadCaptureBytes]. rewrite Hl.
  destruct (put_err _ _ _ _); [done|]. intros [= <-]. split; [|done].
  unfold payload_limit, PAYLOAD_MAX, DEFAULT_PAYLOAD_CAP. cbn -[ClampPayloadCaptureBytes].
  rewrite lookup_insert_eq. unfold u32. rewrite Z.mod_small by lia.
  rewrite (proj2 (Z.ltb_lt 0 _)) by lia. by rewrite (proj2 (Z.ltb_ge 1024 _)) by lia.
Qed.
End steps.

(** ** The operations on a concrete loader *)

#[local] Existing Instance bounded_maps.
#[local] Existing Instance bounded_maps_ok.
#[local] Instance demo_helpers : Helpers (gmap Z byte) := concrete_helpers 3.

Definition demo_loader : Loader := MkLoader true (fun _ => true) {|
  pid_filter := {[ 77 := 1; 80 := 1 ]}; cgroup_filter := {[ 4242 := 1 ]};
  lsm_blocklist_pid := {[ 9 := 1 ]}; lsm_blocklist_cgroup := ∅;
  events := []; drop_count := {[ 0 := 0 ]}; critical_events := [];
  critical_drop_count := {[ 0 := 0 ]}; payload_cap := ∅; iov_scratch_map := ∅ |}.

Definition demo_tk (pid cg : Z) : task := Task (pid * 2 ^ 32 + 1) cg (replicate 16 x00) 7.

Lemma demo_blocklists_ok : blocklists_ok (maps demo_loader).
Proof. split; [by apply map_Forall_singleton|by apply map_Forall_empty]. Qed.

Lemma Quarantine_denies_witness :
  verdict (demo_tk 77 1) (maps demo_loader) = 0 /\
  verdict (demo_tk 77 1) (maps (Quarantine 77 0 demo_loader).2) = - EPERM.
Proof.
  split; [vm_compute; reflexivity|].
  exact (proj2 (Quarantine_denies 77 0 demo_loader _ (demo_tk 77 1) demo_blocklists_ok eq_refl)).
Defined.

Lemma Quarantine_roundtrip_witness :
  Unquarantine 77 4242 (Quarantine 77 4242 demo_loader).2 = (Ret tt, demo_loader).
Proof.
  exact (Quarantine_roundtrip 77 4242 demo_loader _ (fun _ => eq_refl) (fun _ => eq_refl)
           (fun _ => eq_refl) eq_refl).
Defined.

Lemma QuarantineAllWatched_denies_witness :
  verdict (demo_tk 5 4242) (maps (QuarantineAllWatched demo_loader).2) = - EPERM.
Proof.
  exact (QuarantineAllWatched_denies demo_loader _ (demo_tk 5 4242) (fun _ => eq_refl)
           demo_blocklists_ok ltac:(vm_compute; congruence) ltac:(vm_compute; congruence)
           eq_refl (or_introl eq_refl)).
Defined.

Lemma UpdatePIDSet_exact_witness :
  monitored_task (demo_tk 77 1) (maps (UpdatePIDSet [81; 82] demo_loader).2) = false.
Proof.
  exact (proj2 (UpdatePIDSet_exact [81; 82] demo_loader _ (demo_tk 77 1) (fun _ => eq_refl)
                  eq_refl eq_refl)).
Defined.

Lemma SetPayloadCaptureBytes_limit_witness :
  payload_limit (maps (SetPayloadCaptureBytes 5000 demo_loader).2) = 1024.
Proof. exact (proj1 (SetPayloadCaptureBytes_limit 5000 demo_loader _ eq_refl)). Defined.
