(* ===== verification/Wire.v ===== *)
(** * The ring-buffer wire format: probes against decoders

    Every record a probe of connect.c submits decodes, with loader.go's
    [decodeRingEvent], to the event the probe observed.  The two sides only share
    the C layout: the probe stores at computed offsets, the decoder reads at the
    constants of the Go source. *)

From S2P Require Import Prelude Go CLayout Vmlinux Kernel Probes ProbeFacts GatherFacts Loader LoaderFacts.

(** The layout that the static assertions of connect.c fix and the constants of
    loader.go assume. *)
Definition layout_agrees : Prop :=
  offsetof connect_event "dest_port" = 42%nat /\ offsetof connect_event "fd" = 44%nat /\
  offsetof connect_event "cgroup_id" = 48%nat /\ offsetof connect_event "comm" = 56%nat /\
  offsetof sendto_event "dest_port" = 42%nat /\ offsetof sendto_event "cgroup_id" = 48%nat /\
  offsetof sendto_event "payload" = 72%nat /\
  Z.of_nat (sizeof connect_event) = connectHeaderLen /\
  Z.of_nat (offsetof write_event "payload") = writeHeaderLen /\
  Z.of_nat (sizeof write_event) = writeHeaderLen + payloadMax /\
  Z.of_nat (offsetof sendto_event "payload") = sendtoHeaderLen /\
  Z.of_nat (sizeof sendto_event) = sendtoHeaderLen + payloadMax /\
  Z.of_nat (offsetof openat_event "path") = 48 /\
  Z.of_nat (sizeof openat_event) = 48 + pathMax /\
  Z.of_nat (sizeof lsm_deny_event) = 48.

Lemma layout_agrees_holds : layout_agrees.
Proof. unfold layout_agrees. split_and!; vm_compute; reflexivity. Qed.

Lemma sizeof_write_event : Z.of_nat (sizeof write_event) = 1080.
Proof. vm_compute. reflexivity. Qed.
Lemma sizeof_sendto_event : Z.of_nat (sizeof sendto_event) = 1096.
Proof. vm_compute. reflexivity. Qed.
Lemma sizeof_connect_event : Z.of_nat (sizeof connect_event) = 72.
Proof. vm_compute. reflexivity. Qed.
Lemma sizeof_openat_event : Z.of_nat (sizeof openat_event) = 176.
Proof. vm_compute. reflexivity. Qed.
Lemma sizeof_lsm_deny_event : Z.of_nat (sizeof lsm_deny_event) = 48.
Proof. vm_compute. reflexivity. Qed.
Lemma path_off_openat : offsetof openat_event "path" = 48%nat.
Proof. vm_compute. reflexivity. Qed.
Lemma path_len_openat :
  offsetof openat_event "path_len" = 4%nat /\ fieldsize openat_event "path_len" = 4%nat.
Proof. split; vm_compute; reflexivity. Qed.
Lemma payload_off_write : offsetof write_event "payload" = 56%nat.
Proof. vm_compute. reflexivity. Qed.
Lemma payload_off_sendto : offsetof sendto_event "payload" = 72%nat.
Proof. vm_compute. reflexivity. Qed.

#[local] Opaque sizeof offsetof fieldsize.

(** ** Destination addresses *)

Lemma bpf_ntohs_eq p : 0 <= p < 2 ^ 16 -> bpf_ntohs p = p mod 256 * 256 + p / 256.
Proof.
  intros Hp. unfold bpf_ntohs. rewrite Z.shiftr_div_pow2 by lia.
  assert (0 <= p / 256 < 256) by (split; [apply Z.div_pos|apply Z.div_lt_upper_bound]; lia).
  change (2 ^ 8) with 256. rewrite lor_shiftl_add by lia.
  change 255 with (Z.ones 8). by rewrite Z.land_ones by lia.
Qed.

Lemma bpf_ntohs_bound p : 0 <= p < 2 ^ 16 -> 0 <= bpf_ntohs p < 2 ^ 16.
Proof.
  intros Hp. rewrite bpf_ntohs_eq by done.
  pose proof (Z.mod_pos_bound p 256 ltac:(lia)).
  assert (0 <= p / 256 < 256) by (split; [apply Z.div_pos|apply Z.div_lt_upper_bound]; lia).
  lia.
Qed.

Section dest.
Context {U : Type} `{HelpersOk U} (umem : U).

Lemma read_dest_wf sa family addr port :
  read_dest umem sa = Some (family, addr, port) ->
  (family = AF_INET \/ family = AF_INET6) /\ length addr = 16%nat /\ 0 <= port < 2 ^ 16.
Proof.
  unfold read_dest. intros Hd.
  assert (Hport : forall a, 0 <= bpf_ntohs (le_Z (probe_read_user umem a 2).2) < 2 ^ 16).
  { intros a. apply bpf_ntohs_bound. pose proof (le_Z_bound (probe_read_user umem a 2).2) as Hb.
  rewrite probe_read_user_len in Hb. apply Hb. }
  repeat case_match; simplify_eq; split_and!; auto; try apply Hport.
  - rewrite length_splice; [apply length_replicate|].
  rewrite probe_read_user_len, length_replicate. lia.
  - apply probe_read_user_len.
Qed.
End dest.

(** ** One record kind at a time *)

Ltac le_fields :=
  rewrite ?le_field by (unfold AF_INET, AF_INET6, EVENT_CONNECT, EVENT_WRITE, EVENT_SENDTO,
    EVENT_OPENAT, EVENT_LSM_DENY, EVENT_WRITEV, EVENT_SENDMSG in *; cbn; lia).

Section samples.
Context (tk : task) (Htk : task_ok tk).

Definition expect_connect (family : Z) (addr : bytes) (port fd : Z) : ConnectEvent := {|
  ce_TSNs := ktime_ns tk; ce_PID := cur_pid tk; ce_TID := cur_tid tk; ce_Family := family;
  ce_DestAddr := addr; ce_DestPort := port; ce_FD := fd; ce_CgroupID := cgroup_id tk;
  ce_Comm := task_comm tk |}.

Definition expect_write (fd : Z) (payload syscall : bytes) : WriteEvent := {|
  we_TSNs := ktime_ns tk; we_PID := cur_pid tk; we_TID := cur_tid tk; we_FD := fd;
  we_Len := Z.of_nat (length payload); we_CgroupID := cgroup_id tk; we_Comm := task_comm tk;
  we_Payload := payload; we_Syscall := syscall |}.

Definition expect_sendto (family : Z) (addr : bytes) (port : Z) (payload syscall : bytes)
  : SendtoEvent := {|
  se_TSNs := ktime_ns tk; se_PID := cur_pid tk; se_TID := cur_tid tk; se_Family := family;
  se_DestAddr := addr; se_DestPort := port; se_Len := Z.of_nat (length payload);
  se_CgroupID := cgroup_id tk; se_Comm := task_comm tk; se_Payload := payload;
  se_Syscall := syscall |}.

Definition expect_openat (path_len : Z) (path : bytes) : OpenatEvent := {|
  oe_TSNs := ktime_ns tk; oe_PID := cur_pid tk; oe_TID := cur_tid tk; oe_PathLen := path_len;
  oe_CgroupID := cgroup_id tk; oe_Comm := task_comm tk; oe_Path := path |}.

Definition expect_lsm_deny : LSMDenyEvent := {|
  le_TSNs := ktime_ns tk; le_PID := cur_pid tk; le_TID := cur_tid tk;
  le_CgroupID := cgroup_id tk; le_Comm := task_comm tk |}.

(** The record type word selects the decoder. *)
Lemma decode_dispatch s typ :
  8 <= raw_len s -> slice 0 4 s = le_bytes 4 typ -> 0 <= typ < 2 ^ 32 ->
  decodeRingEvent s =
  if typ =? eventTypeConnect then decodeConnect s
    else if typ =? eventTypeWrite then
  (ev ← decodeWritePayload s; Ret (ring_write (we_set_Syscall (gostr "write") ev)))
    else if typ =? eventTypeWritev then
  (ev ← decodeWritePayload s; Ret (ring_writev (we_set_Syscall (gostr "writev") ev)))
    else if typ =? eventTypeSendto then
  (ev ← decodeSendtoPayload s; Ret (ring_sendto (se_set_Syscall (gostr "sendto") ev)))
    else if typ =? eventTypeSendmsg then
  if sendtoHeaderLen + payloadMax <=? raw_len s then
  (ev ← decodeSendtoPayload s; Ret (ring_sendmsg (se_set_Syscall (gostr "sendmsg") ev)))
    else (ev ← decodeWritePayload s; Ret (ring_write (we_set_Syscall (gostr "sendmsg") ev)))
    else if typ =? eventTypeOpenat then decodeOpenat s
    else if typ =? eventTypeLSMDeny then decodeLSMDeny s
    else Err (Errorf "unknown event type %d" [typ]).
Proof.
  intros Hlen Ht Hb. unfold decodeRingEvent. rewrite (proj2 (Z.ltb_ge _ _)) by done.
  unfold raw_len in *. rewrite uint_le_in by lia. nat_literals.
  change (Z.to_nat 0) with 0%nat. rewrite Ht, le_field by (cbn; lia). done.
Qed.

(** A record in the write layout: header, then [payload] at its offset. *)
Definition write_sample (type fd : Z) (payload ev : bytes) : bytes :=
  store_bytes write_event "payload" payload
    (fill_write tk type (Z.of_nat (length payload)) fd ev).

Definition sendto_sample (type family : Z) (addr : bytes) (port : Z) (payload ev : bytes)
  : bytes :=
  store_bytes sendto_event "payload" payload
    (fill_sendto tk type (Z.of_nat (length payload)) family addr port ev).

Section write.
Context (type fd : Z) (payload ev : bytes)
  (Hev : length ev = sizeof write_event) (Htype : 0 <= type < 2 ^ 32)
    (Hfd : 0 <= fd < 2 ^ 32) (Hpay : Z.of_nat (length payload) <= payloadMax).

Let s := write_sample type fd payload ev.

Lemma write_sample_length : length s = sizeof write_event.
Proof.
  pose proof sizeof_write_event. unfold payloadMax in *.
  subst s. unfold write_sample, store_bytes. rewrite payload_off_write.
  apply length_splice_at; [apply fill_write_length; (assumption || lia)|lia].
Qed.

Lemma write_sample_header lo hi :
  (hi <= 56)%nat ->
  slice lo hi s = slice lo hi (fill_write tk type (Z.of_nat (length payload)) fd ev).
Proof.
  intros. pose proof sizeof_write_event. unfold payloadMax in *.
  subst s. unfold write_sample, store_bytes. rewrite payload_off_write.
  apply (slice_before_at (sizeof write_event)); [apply fill_write_length|..]; (assumption || lia).
Qed.

Lemma decode_write_sample :
  slice 0 4 s = le_bytes 4 type /\ decodeWritePayload s = Ret (expect_write fd payload []).
Proof.
  pose proof sizeof_write_event. pose proof write_sample_length as Hlen.
  destruct Htk as [_ Hcg Hcomm Hts].
  destruct (fill_write_fields tk Htk _ type (Z.of_nat (length payload)) fd ev Hev ltac:(lia))
    as (F1 & F2 & F3 & F4 & F5 & F6 & F7 & F8).
  pose proof (cur_pid_bound tk). pose proof (cur_tid_bound tk).
  rewrite decodeWritePayload_eq by (unfold raw_len, writeHeaderLen; lia).
  unfold payload_len, u_at, expect_write, payloadMax, writeHeaderLen, raw_len in *.
  rewrite !write_sample_header, F1, F2, F3, F4, F5, F6, F7, F8, Hlen by lia.
  rewrite !le_field by (cbn; lia). split; [done|].
  replace (Z.of_nat (sizeof write_event) - 56) with 1024 by lia.
  rewrite !Z.min_r by lia. do 2 f_equal.
  subst s. unfold write_sample, store_bytes. rewrite payload_off_write.
  apply (slice_same_at (sizeof write_event)); [apply fill_write_length|..]; (assumption || lia).
Qed.

Lemma write_sample_dispatch syscall (mk : WriteEvent -> RingEvent) :
  (decodeRingEvent s =
 (ev ← decodeWritePayload s; Ret (mk (we_set_Syscall syscall ev)))) ->
  decodeRingEvent s = Ret (mk (expect_write fd payload syscall)).
Proof. intros ->. by rewrite (proj2 decode_write_sample). Qed.

Lemma write_sample_raw_len : raw_len s = 1080.
Proof. unfold raw_len. rewrite write_sample_length. apply sizeof_write_event. Qed.
End write.

Lemma decode_as_write type syscall (mk : WriteEvent -> RingEvent) fd payload ev :
  length ev = sizeof write_event -> 0 <= fd < 2 ^ 32 ->
  Z.of_nat (length payload) <= payloadMax ->
  (type = EVENT_WRITE /\ mk = ring_write /\ syscall = gostr "write") \/
  (type = EVENT_WRITEV /\ mk = ring_writev /\ syscall = gostr "writev") \/
  (type = EVENT_SENDMSG /\ mk = ring_write /\ syscall = gostr "sendmsg") ->
  decodeRingEvent (write_sample type fd payload ev) =
  Ret (mk (expect_write fd payload syscall)).
Proof.
  intros Hev Hfd Hpay Hcase.
  assert (0 <= type < 2 ^ 32) as Htype
    by (unfold EVENT_WRITE, EVENT_WRITEV, EVENT_SENDMSG in *; lia).
  apply write_sample_dispatch; try assumption.
  pose proof (write_sample_raw_len type fd payload ev Hev Hpay) as Hraw.
  rewrite (decode_dispatch _ type) by (lia || assumption || by apply decode_write_sample).
  destruct Hcase as [(-> & -> & ->)|[(-> & -> & ->)|(-> & -> & ->)]]; [done..|].
  by rewrite Hraw.
Qed.

Section sendto.
Context (type family : Z) (addr : bytes) (port : Z) (payload ev : bytes)
  (Hev : length ev = sizeof sendto_event) (Htype : 0 <= type < 2 ^ 32)
    (Hfam : family = AF_INET \/ family = AF_INET6) (Haddr : length addr = 16%nat)
    (Hport : 0 <= port < 2 ^ 16) (Hpay : Z.of_nat (length payload) <= payloadMax).

Let s := sendto_sample type family addr port payload ev.

Lemma sendto_sample_length : length s = sizeof sendto_event.
Proof.
  pose proof sizeof_sendto_event. unfold payloadMax in *.
  subst s. unfold sendto_sample, store_bytes. rewrite payload_off_sendto.
  apply length_splice_at; [apply fill_sendto_length; (assumption || lia)|lia].
Qed.

Lemma sendto_sample_header lo hi :
  (hi <= 72)%nat ->
  slice lo hi s =
  slice lo hi (fill_sendto tk type (Z.of_nat (length payload)) family addr port ev).
Proof.
  intros. pose proof sizeof_sendto_event. unfold payloadMax in *.
  subst s. unfold sendto_sample, store_bytes. rewrite payload_off_sendto.
  apply (slice_before_at (sizeof sendto_event)); [apply fill_sendto_length|..]; (assumption || lia).
Qed.

Lemma decode_sendto_sample :
  slice 0 4 s = le_bytes 4 type /\
  decodeSendtoPayload s = Ret (expect_sendto family addr port payload []).
Proof.
  pose proof sizeof_sendto_event. pose proof sendto_sample_length as Hlen.
  destruct Htk as [_ Hcg Hcomm Hts].
  destruct (fill_sendto_fields tk Htk _ type (Z.of_nat (length payload)) family addr port ev
          Hev ltac:(lia) Haddr) as (F1 & F2 & F3 & F4 & F5 & F6 & F7 & F8 & F9 & F10).
  pose proof (cur_pid_bound tk). pose proof (cur_tid_bound tk).
  rewrite decodeSendtoPayload_eq by (unfold raw_len, sendtoHeaderLen; lia).
  unfold payload_len, u_at, expect_sendto, payloadMax, sendtoHeaderLen, raw_len,
    AF_INET, AF_INET6 in *.
  rewrite !sendto_sample_header, F1, F2, F3, F4, F5, F6, F7, F8, F9, F10, Hlen by lia.
  rewrite !le_field by (cbn; lia). split; [done|].
  replace (Z.of_nat (sizeof sendto_event) - 72) with 1024 by lia.
  rewrite !Z.min_r by lia. do 2 f_equal.
  subst s. unfold sendto_sample, store_bytes. rewrite payload_off_sendto.
  apply (slice_same_at (sizeof sendto_event)); [apply fill_sendto_length|..]; (assumption || lia).
Qed.

Lemma sendto_sample_dispatch syscall (mk : SendtoEvent -> RingEvent) :
  (decodeRingEvent s =
 (ev ← decodeSendtoPayload s; Ret (mk (se_set_Syscall syscall ev)))) ->
  decodeRingEvent s = Ret (mk (expect_sendto family addr port payload syscall)).
Proof. intros ->. by rewrite (proj2 decode_sendto_sample). Qed.

Lemma sendto_sample_raw_len : raw_len s = 1096.
Proof. unfold raw_len. rewrite sendto_sample_length. apply sizeof_sendto_event. Qed.
End sendto.

Lemma decode_as_sendto type syscall (mk : SendtoEvent -> RingEvent) family addr port payload ev :
  length ev = sizeof sendto_event -> family = AF_INET \/ family = AF_INET6 ->
  length addr = 16%nat -> 0 <= port < 2 ^ 16 -> Z.of_nat (length payload) <= payloadMax ->
  (type = EVENT_SENDTO /\ mk = ring_sendto /\ syscall = gostr "sendto") \/
  (type = EVENT_SENDMSG /\ mk = ring_sendmsg /\ syscall = gostr "sendmsg") ->
  decodeRingEvent (sendto_sample type family addr port payload ev) =
  Ret (mk (expect_sendto family addr port payload syscall)).
Proof.
  intros Hev Hfam Haddr Hport Hpay Hcase.
  assert (0 <= type < 2 ^ 32) as Htype by (unfold EVENT_SENDTO, EVENT_SENDMSG in *; lia).
  apply sendto_sample_dispatch; try assumption.
  pose proof (sendto_sample_raw_len type family addr port payload ev Hev Haddr Hpay) as Hraw.
  rewrite (decode_dispatch _ type) by (lia || assumption || by apply decode_sendto_sample).
  destruct Hcase as [(-> & -> & ->)|(-> & -> & ->)]; [done|].
  by rewrite Hraw.
Qed.

Lemma decode_connect_sample family addr port fd ev :
  length ev = sizeof connect_event -> family = AF_INET \/ family = AF_INET6 ->
  length addr = 16%nat -> 0 <= port < 2 ^ 16 -> 0 <= fd < 2 ^ 32 ->
  decodeRingEvent (fill_connect tk family addr port fd ev) =
  Ret (ring_connect (expect_connect family addr port fd)).
Proof.
  intros Hev Hfam Haddr Hport Hfd. pose proof sizeof_connect_event.
  pose proof (fill_connect_length tk Htk _ family addr port fd ev Hev ltac:(lia) Haddr) as Hlen.
  destruct (fill_connect_fields tk Htk _ family addr port fd ev Hev ltac:(lia) Haddr)
    as (F1 & F2 & F3 & F4 & F5 & F6 & F7 & F8 & F9 & F10).
  destruct Htk as [_ Hcg Hcomm Hts]. pose proof (cur_pid_bound tk). pose proof (cur_tid_bound tk).
  rewrite (decode_dispatch _ EVENT_CONNECT) by
    (assumption || (unfold raw_len, EVENT_CONNECT; lia)).
  change (EVENT_CONNECT =? eventTypeConnect) with true. cbv iota.
  rewrite decodeConnect_eq by (unfold raw_len, connectHeaderLen; lia).
  unfold u_at, expect_connect, AF_INET, AF_INET6 in *.
  rewrite F2, F3, F4, F5, F6, F7, F8, F9, F10. by rewrite !le_field by (cbn; lia).
Qed.

(** An openat record after the path copy and the path_len store. *)
Definition openat_sample (n : Z) (bs ev : bytes) : bytes :=
  store openat_event "path_len" n (store_bytes openat_event "path" bs (fill_openat tk ev)).

Lemma decode_openat_sample n bs ev :
  length ev = sizeof openat_event -> length bs = Z.to_nat PATH_MAX_CAP ->
  0 < n <= PATH_MAX_CAP ->
  decodeRingEvent (openat_sample n bs ev) =
  Ret (ring_openat (expect_openat n (nullTerm (take (Z.to_nat n) bs)))).
Proof.
  intros Hev Hbs Hn. pose proof sizeof_openat_event. unfold PATH_MAX_CAP in *.
  pose proof (fill_openat_length tk Htk _ ev Hev ltac:(lia)) as Hfill.
  destruct (fill_openat_fields tk Htk _ ev Hev ltac:(lia)) as (F1 & F2 & F3 & F4 & F5 & F6).
  destruct Htk as [_ Hcg Hcomm Hts]. pose proof (cur_pid_bound tk). pose proof (cur_tid_bound tk).
  unfold openat_sample, store, store_bytes. rewrite path_off_openat.
  rewrite (proj1 path_len_openat), (proj2 path_len_openat).
  set (s := fill_openat tk ev) in *. set (N := sizeof openat_event) in *.
  assert (length (splice 48 bs s) = N) as Hs by (apply length_splice_at; [assumption|lia]).
  set (r := splice 4 (le_bytes 4 n) (splice 48 bs s)).
  assert (length r = N) as Hr by (apply length_splice_at; [assumption|rewrite length_le_bytes; lia]).
  assert (Hhdr : forall lo hi, (8 <= lo)%nat -> (hi <= 48)%nat -> slice lo hi r = slice lo hi s).
  { intros lo hi ??. subst r. rewrite (slice_after_at N) by (rewrite ?length_le_bytes; assumption || lia).
    apply (slice_before_at N); assumption || lia. }
  assert (slice 0 4 r = le_bytes 4 EVENT_OPENAT) as Ht0.
  { subst r. rewrite (slice_before_at N) by (rewrite ?length_le_bytes; assumption || lia).
    rewrite (slice_before_at N) by (assumption || lia). done. }
  assert (slice 4 8 r = le_bytes 4 n) as Hn4.
  { apply (slice_same_at N); rewrite ?length_le_bytes; assumption || lia. }
  rewrite (decode_dispatch _ EVENT_OPENAT) by (assumption || (unfold raw_len, EVENT_OPENAT; lia)).
  change (decodeOpenat r = Ret (ring_openat (expect_openat n (nullTerm (take (Z.to_nat n) bs))))).
  rewrite decodeOpenat_eq by (unfold raw_len; lia).
  unfold path_at, u_at, expect_openat, pathMax, raw_len.
  rewrite !Hn4, !Hhdr, F2, F3, F4, F5, F6 by lia. rewrite !le_field by (cbn; lia).
  rewrite Z.min_r, Hr by lia.
  rewrite (proj2 (Z.ltb_lt 0 n)), (proj2 (Z.leb_le _ _)) by lia. cbn [andb].
  do 4 f_equal. subst r.
  rewrite (slice_after_at N) by (rewrite ?length_le_bytes; assumption || lia).
  replace (Z.to_nat (48 + n)) with (48 + Z.to_nat n)%nat by lia.
  by apply slice_splice_prefix; lia.
Qed.

Lemma decode_lsm_deny_sample ev :
  length ev = sizeof lsm_deny_event ->
  decodeRingEvent (fill_lsm_deny tk ev) = Ret (ring_lsmdeny expect_lsm_deny).
Proof.
  intros Hev. pose proof sizeof_lsm_deny_event.
  pose proof (fill_lsm_deny_length tk Htk _ ev Hev ltac:(lia)) as Hlen.
  destruct (fill_lsm_deny_fields tk Htk _ ev Hev ltac:(lia)) as (F1 & F2 & F3 & F4 & F5 & F6).
  destruct Htk as [_ Hcg Hcomm Hts]. pose proof (cur_pid_bound tk). pose proof (cur_tid_bound tk).
  rewrite (decode_dispatch _ EVENT_LSM_DENY) by
    (assumption || (unfold raw_len, EVENT_LSM_DENY; lia)).
  change (decodeLSMDeny (fill_lsm_deny tk ev) = Ret (ring_lsmdeny expect_lsm_deny)).
  rewrite decodeLSMDeny_eq by (unfold raw_len; lia).
  unfold u_at, expect_lsm_deny. rewrite F2, F3, F4, F5, F6.
  by rewrite !le_field by (cbn; lia).
Qed.
End samples.
