(* ===== verification/ProbeSpec.v ===== *)
(** * What the probes promise, and that they keep it

    [spec] says, without records, offsets or scratch memory, what one program
    run makes visible: nothing, a decoded event in one of the two rings, or one
    more dropped event.  [run_refines_spec] shows that the programs of [Probes]
    implement it, and the trace theorems lift it to any sequence of runs. *)

From S2P Require Import Prelude Go CLayout Vmlinux Kernel Probes ProbeFacts GatherFacts Loader LoaderFacts Wire.

#[local] Opaque sizeof offsetof fieldsize.

Inductive ring := Routine | Critical.

Inductive outcome :=
  | Quiet
  | Captured (k : ring) (e : RingEvent)
  | Lost (k : ring).

Definition ring_of (k : ring) (st : kmaps) : list bytes :=
  match k with Routine => events st | Critical => critical_events st end.

(** The entry points of the BPF object. *)
Inductive program :=
  | PConnect (ctx : list Z)
  | PWrite (ctx : list Z)
  | PWritev (ctx : list Z)
  | PSendto (ctx : list Z)
  | PSendmsg (ctx : list Z)
  | PSendmmsg (ctx : list Z)
  | POpenat (ctx : list Z)
  | PLsmConnect (ret : Z).

(** The gather buffer has the size of [struct iov_scratch]. *)
Definition kmaps_ok (st : kmaps) : Prop :=
  forall buf, iov_scratch_map st !! 0 = Some buf -> length buf = sizeof iov_scratch.

Lemma sizeof_iov_scratch : Z.of_nat (sizeof iov_scratch) = 8192.
Proof. vm_compute. reflexivity. Qed.

Section spec.
Context {U : Type} `{!Helpers U} (tk : task) (umem : U).

Definition run (p : program) (st : kmaps) : Z * kmaps :=
  match p with
  | PConnect ctx => sys_enter_connect tk umem ctx st
  | PWrite ctx => sys_enter_write tk umem ctx st
  | PWritev ctx => sys_enter_writev tk umem ctx st
  | PSendto ctx => sys_enter_sendto tk umem ctx st
  | PSendmsg ctx => sys_enter_sendmsg tk umem ctx st
  | PSendmmsg ctx => sys_enter_sendmmsg tk umem ctx st
  | POpenat ctx => sys_enter_openat tk umem ctx st
  | PLsmConnect ret => lsm_socket_connect tk ret st
  end.

(** An event for ring [k], or a drop when the ring has no room for its record;
    nothing when the capture itself faults. *)
Definition observe (k : ring) (record : ctype) (e : option RingEvent) (st : kmaps) : outcome :=
  match ringbuf_reserve (ring_of k st) (sizeof record), e with
  | None, _ => Lost k
  | Some _, Some e => Captured k e
  | Some _, None => Quiet
  end.

(** [n] bytes of user memory, when they are readable. *)
Definition read_user (a n : Z) : option bytes :=
  let '(r, bs) := probe_read_user umem a (Z.to_nat n) in
  if r <? 0 then None else Some bs.

Definition spec_connect (ctx : list Z) (st : kmaps) : outcome :=
  if arg ctx 1 =? 0 then Quiet else
  match read_dest umem (arg ctx 1) with
  | None => Quiet
  | Some (family, addr, port) =>
      observe Routine connect_event
        (Some (ring_connect (expect_connect tk family addr port (u32 (arg ctx 0))))) st
  end.

Definition spec_emit_write (fd buf count : Z) (st : kmaps) : outcome :=
  if (buf =? 0) || (count =? 0) then Quiet else
  observe Critical write_event
    ((λ bs, ring_write (expect_write tk fd bs (gostr "write"))) <$>
       read_user buf (Z.min count (payload_limit st))) st.

Definition spec_write (ctx : list Z) (st : kmaps) : outcome :=
  if u32 (arg ctx 0) <? 3 then Quiet
  else spec_emit_write (u32 (arg ctx 0)) (arg ctx 1) (arg ctx 2) st.

(** What sendmsg and writev gather is captured when it is not empty. *)
Definition spec_gathered_write (fd : Z) (bs syscall : bytes)
    (ring_event : WriteEvent -> RingEvent) (st : kmaps) : outcome :=
  observe Critical write_event (Some (ring_event (expect_write tk fd bs syscall))) st.

Definition spec_writev (ctx : list Z) (st : kmaps) : outcome :=
  if u32 (arg ctx 0) <? 3 then Quiet else
  if (arg ctx 1 =? 0) || (arg ctx 2 =? 0) then Quiet else
  match iov_scratch_buf st, gather_bytes umem st (arg ctx 1) (arg ctx 2) with
  | None, _ | _, [] => Quiet
  | Some _, bs =>
      spec_gathered_write (u32 (arg ctx 0)) bs (gostr "writev") ring_writev st
  end.

Definition spec_sendto (ctx : list Z) (st : kmaps) : outcome :=
  let buf := arg ctx 1 in
  let count := arg ctx 2 in
  if (buf =? 0) || (count =? 0) then Quiet else
  if arg ctx 4 =? 0 then spec_emit_write (u32 (arg ctx 0)) buf count st else
  match read_dest umem (arg ctx 4) with
  | None => Quiet
  | Some (family, addr, port) =>
      observe Critical sendto_event
        ((λ bs, ring_sendto (expect_sendto tk family addr port bs (gostr "sendto"))) <$>
           read_user buf (Z.min count (payload_limit st))) st
  end.

Definition spec_emit_sendmsg (fd umsg : Z) (st : kmaps) : outcome :=
  if umsg =? 0 then Quiet else
  match read_user umsg (Z.of_nat (sizeof user_msghdr)) with
  | None => Quiet
  | Some hdr =>
      let iov := load user_msghdr "msg_iov" hdr in
      let iovlen := load user_msghdr "msg_iovlen" hdr in
      let name := load user_msghdr "msg_name" hdr in
      let namelen := load user_msghdr "msg_namelen" hdr in
      if (iov =? 0) || (iovlen =? 0) then Quiet else
      match iov_scratch_buf st, gather_bytes umem st iov iovlen with
      | None, _ | _, [] => Quiet
      | Some _, bs =>
          match (if negb (name =? 0) && (0 <? namelen) && (namelen <? 2 ^ 31)
                 then read_dest umem name else None) with
          | Some (family, addr, port) =>
              observe Critical sendto_event
                (Some (ring_sendmsg (expect_sendto tk family addr port bs (gostr "sendmsg")))) st
          | None => spec_gathered_write fd bs (gostr "sendmsg") ring_write st
          end
      end
  end.

Definition spec_sendmmsg (ctx : list Z) (st : kmaps) : outcome :=
  if u32 (arg ctx 2) =? 0 then Quiet
  else spec_emit_sendmsg (u32 (arg ctx 0)) (arg ctx 1) st.

(** The path is the string at [filename], without its terminator. *)
Definition spec_openat (ctx : list Z) (st : kmaps) : outcome :=
  if arg ctx 1 =? 0 then Quiet else
  let '(n, bs) := probe_read_user_str umem (arg ctx 1) (Z.to_nat PATH_MAX_CAP) in
  observe Routine openat_event
    (if n <=? 0 then None
     else Some (ring_openat (expect_openat tk n (take (Z.to_nat (n - 1)) bs)))) st.

Definition spec_blocked (st : kmaps) : bool :=
  match lsm_blocklist_pid st !! cur_pid tk with
  | Some b => negb (b =? 0)
  | None =>
      match lsm_blocklist_cgroup st !! cgroup_id tk with
      | Some b => negb (b =? 0)
      | None => false
      end
  end.

Definition spec_lsm (ret : Z) (st : kmaps) : Z * outcome :=
  if negb (ret =? 0) then (ret, Quiet) else
  if spec_blocked st
  then (- EPERM, observe Critical lsm_deny_event (Some (ring_lsmdeny (expect_lsm_deny tk))) st)
  else (0, Quiet).

(** A tracepoint always returns 0 and looks at monitored tasks only. *)
Definition spec (p : program) (st : kmaps) : Z * outcome :=
  let tracepoint o := (0, if monitored_task tk st then o else Quiet) in
  match p with
  | PConnect ctx => tracepoint (spec_connect ctx st)
  | PWrite ctx => tracepoint (spec_write ctx st)
  | PWritev ctx => tracepoint (spec_writev ctx st)
  | PSendto ctx => tracepoint (spec_sendto ctx st)
  | PSendmsg ctx => tracepoint (spec_emit_sendmsg (u32 (arg ctx 0)) (arg ctx 1) st)
  | PSendmmsg ctx => tracepoint (spec_sendmmsg ctx st)
  | POpenat ctx => tracepoint (spec_openat ctx st)
  | PLsmConnect ret => spec_lsm ret st
  end.
End spec.

(** [st'] is [st] after the outcome [o], up to the contents of the gather buffer. *)
Definition realises (st st' : kmaps) (o : outcome) : Prop :=
  match o with
  | Quiet => st' ≡ st
  | Lost Routine => st' ≡ inc_drop_count st
  | Lost Critical => st' ≡ inc_critical_drop_count st
  | Captured Routine e => exists s, st' ≡ submit_event s st /\ decodeRingEvent s = Ret e
  | Captured Critical e => exists s, st' ≡ submit_critical s st /\ decodeRingEvent s = Ret e
  end.

#[export] Instance inc_drop_count_proper : Proper (kequiv ==> kequiv) inc_drop_count.
Proof. intros st st'. rewrite !kequiv_fields. cbn. intuition congruence. Qed.

#[export] Instance inc_critical_drop_count_proper :
  Proper (kequiv ==> kequiv) inc_critical_drop_count.
Proof. intros st st'. rewrite !kequiv_fields. cbn. intuition congruence. Qed.

Lemma realises_quiet st : realises st st Quiet.
Proof. by unfold realises. Qed.

Create HintDb probes.
#[export] Hint Resolve realises_quiet : probes.

Section refinement.
Context {U : Type} `{HelpersOk U} (tk : task) (umem : U) (Htk : task_ok tk).

Lemma arg_bound ctx i : 0 <= arg ctx i < 2 ^ 64.
Proof. apply Z.mod_pos_bound. lia. Qed.

Lemma limit_le st : payload_limit st <= payloadMax.
Proof. apply payload_limit_bounds. Qed.

Lemma read_payload_limit st buf count :
  0 <= count -> read_payload umem (clamp_cap st count) buf =
                probe_read_user umem buf (Z.to_nat (Z.min count (payload_limit st))).
Proof.
  intros. pose proof (payload_limit_bounds st). rewrite clamp_cap_min by done.
  rewrite read_payload_exact; [done|lia].
Qed.

(** The bytes a successful user read delivers. *)
Lemma read_user_len a n r bs :
  probe_read_user umem a n = (r, bs) -> length bs = n.
Proof. intros Hr. pose proof (probe_read_user_len umem a n) as Hl. by rewrite Hr in Hl. Qed.

Ltac payload_facts st :=
  pose proof (limit_le st); pose proof (payload_limit_bounds st).

Lemma emit_write_refines fd buf count st :
  0 <= fd < 2 ^ 32 -> 0 <= count ->
  let res := emit_write tk umem fd buf count st in
  realises st res.2 (spec_emit_write tk umem fd buf count st) /\ res.1 = 0.
Proof.
  intros Hfd Hc. cbv zeta. unfold emit_write, spec_emit_write, observe, read_user, ring_of.
  destruct (_ || _); cbn [fst snd]; [auto with probes|].
  rewrite read_payload_limit, clamp_cap_min by done.
  destruct (ringbuf_reserve _ _) as [ev|] eqn:Hev; cbn [fst snd]; [|done].
  destruct (probe_read_user _ _ _) as [r bs] eqn:Hread. apply read_user_len in Hread.
  destruct (r <? 0); cbn [fmap option_fmap option_map fst snd]; [auto with probes|].
  split; [|done]. eexists. split; [done|]. payload_facts st.
  replace (Z.min count (payload_limit st)) with (Z.of_nat (length bs)) by lia.
  apply (decode_as_write tk Htk EVENT_WRITE (gostr "write") ring_write);
    [by eapply ringbuf_reserve_len|done|lia|auto].
Qed.

Lemma gathered_write_refines type syscall mk fd scratch bs st st0 :
  st ≡ st0 -> 0 <= fd < 2 ^ 32 -> Z.of_nat (length bs) <= payloadMax ->
  (length bs <= length scratch)%nat -> take (length bs) scratch = bs ->
  (type = EVENT_WRITEV /\ mk = ring_writev /\ syscall = gostr "writev") \/
  (type = EVENT_SENDMSG /\ mk = ring_write /\ syscall = gostr "sendmsg") ->
  let res := emit_gathered_write tk type (Z.of_nat (length bs)) fd scratch st in
  realises st0 res.2 (spec_gathered_write tk fd bs syscall mk st0) /\ res.1 = 0.
Proof.
  intros Heq Hfd Hmax Hin Htake Hcase. cbv zeta.
  pose proof Heq as (_ & _ & _ & _ & _ & _ & Hring & _)%kequiv_fields.
  unfold emit_gathered_write, spec_gathered_write, observe, ring_of.
  rewrite Hring, Nat2Z.id, probe_read_kernel_ok, Htake by done.
  destruct (ringbuf_reserve _ _) as [ev|] eqn:Hev; cbn [fst snd].
  2: { split; [|done]. by apply inc_critical_drop_count_proper. }
  split; [|done]. eexists. split; [by apply submit_critical_proper|].
  apply (decode_as_write tk Htk type syscall mk);
    [by eapply ringbuf_reserve_len|done|done|tauto].
Qed.

Lemma connect_refines ctx st :
  monitored_task tk st = true ->
  let res := sys_enter_connect tk umem ctx st in
  realises st res.2 (spec_connect tk umem ctx st) /\ res.1 = 0.
Proof.
  intros Hm. cbv zeta. unfold sys_enter_connect, spec_connect, observe, ring_of. rewrite Hm.
  cbn [negb]. destruct (arg ctx 1 =? 0); [auto with probes|].
  destruct (read_dest umem (arg ctx 1)) as [[[family addr] port]|] eqn:Hd; [|auto with probes].
  apply read_dest_wf in Hd as (Hfam & Haddr & Hport).
  destruct (ringbuf_reserve _ _) as [ev|] eqn:Hev; cbn [fst snd]; [|done].
  split; [|done]. eexists. split; [done|].
  apply decode_connect_sample; auto using u32_bound. by eapply ringbuf_reserve_len.
Qed.

Lemma write_refines ctx st :
  monitored_task tk st = true ->
  let res := sys_enter_write tk umem ctx st in
  realises st res.2 (spec_write tk umem ctx st) /\ res.1 = 0.
Proof.
  intros Hm. cbv zeta. unfold sys_enter_write, spec_write. rewrite Hm. cbn [negb].
  destruct (_ <? 3); [auto with probes|].
  apply emit_write_refines; [apply u32_bound|apply arg_bound].
Qed.

(** The gather step shared by writev and sendmsg: the state keeps its shape and
    the first [total] scratch bytes are the gathered ones. *)
Lemma gather_step st scratch iovp iovcnt :
  kmaps_ok st -> iov_scratch_buf st = Some scratch ->
  let bs := gather_bytes umem st iovp iovcnt in
  exists scratch',
    gather_iov umem st scratch iovp iovcnt = (Z.of_nat (length bs), scratch') /\
    length scratch' = sizeof iov_scratch /\ take (length bs) scratch' = bs /\
    Z.of_nat (length bs) <= payloadMax /\ (length bs <= length scratch')%nat.
Proof.
  intros Hok Hs. apply Hok in Hs. pose proof sizeof_iov_scratch.
  pose proof (gather_bytes_bound umem st iovp iovcnt). payload_facts st.
  unfold PAYLOAD_MAX, payloadMax in *.
  destruct (gather_iov_ref umem st scratch iovp iovcnt) as [G1 G2];
    [unfold PAYLOAD_MAX; lia|].
  destruct (gather_iov_bounds umem st scratch iovp iovcnt) as (_ & G3 & _);
    [unfold PAYLOAD_MAX; lia|].
  destruct (gather_iov _ _ _ _ _) as [total scratch']. cbn [fst snd] in *.
  subst total. rewrite Nat2Z.id in G2. eexists. split; [reflexivity|]. split_and!; assumption || lia.
Qed.

Lemma gathered_guard (bs : bytes) :
  Z.of_nat (length bs) <= payloadMax ->
  ((Z.of_nat (length bs) =? 0) || (PAYLOAD_MAX <? Z.of_nat (length bs)))
  = match bs with [] => true | _ => false end.
Proof.
  unfold payloadMax, PAYLOAD_MAX. intros. destruct bs as [|b bs]; [done|].
  rewrite (proj2 (Z.eqb_neq _ _)), (proj2 (Z.ltb_ge _ _)) by (cbn [length] in *; lia). done.
Qed.

Lemma writev_refines ctx st :
  kmaps_ok st -> monitored_task tk st = true ->
  let res := sys_enter_writev tk umem ctx st in
  realises st res.2 (spec_writev tk umem ctx st) /\ res.1 = 0.
Proof.
  intros Hok Hm. cbv zeta. unfold sys_enter_writev, spec_writev. rewrite Hm. cbn [negb].
  destruct (_ <? 3); [auto with probes|]. destruct (_ || _); [auto with probes|].
  destruct (iov_scratch_buf st) as [scratch|] eqn:Hs; [|auto with probes].
  destruct (gather_step st scratch (arg ctx 1) (arg ctx 2) Hok Hs)
    as (scratch' & -> & Hlen & Htake & Hmax & Hin).
  rewrite gathered_guard by done. set (bs := gather_bytes _ _ _ _) in *.
  pose proof (gathered_write_refines EVENT_WRITEV (gostr "writev") ring_writev
    (u32 (arg ctx 0)) scratch' bs _ st
    (kequiv_scratch (<[0:=scratch']> (iov_scratch_map st)) st)
    (u32_bound _) Hmax Hin Htake ltac:(auto)) as Hg.
  destruct bs; [|done]. split; [|done]. apply kequiv_scratch.
Qed.

Lemma sendto_refines ctx st :
  monitored_task tk st = true ->
  let res := sys_enter_sendto tk umem ctx st in
  realises st res.2 (spec_sendto tk umem ctx st) /\ res.1 = 0.
Proof.
  intros Hm. pose proof (arg_bound ctx 2).
  cbv zeta. unfold sys_enter_sendto, spec_sendto. rewrite Hm. cbn [negb].
  destruct (_ || _); [auto with probes|].
  destruct (arg ctx 4 =? 0); [apply emit_write_refines; [apply u32_bound|lia]|].
  destruct (read_dest umem (arg ctx 4)) as [[[family addr] port]|] eqn:Hd; [|auto with probes].
  apply read_dest_wf in Hd as (Hfam & Haddr & Hport).
  unfold observe, read_user, ring_of. rewrite read_payload_limit, clamp_cap_min by lia.
  destruct (ringbuf_reserve _ _) as [ev|] eqn:Hev; cbn [fst snd]; [|done].
  destruct (probe_read_user _ _ _) as [r bs] eqn:Hread. apply read_user_len in Hread.
  destruct (r <? 0); cbn [fmap option_fmap option_map fst snd]; [auto with probes|].
  split; [|done]. eexists. split; [done|]. payload_facts st.
  replace (Z.min (arg ctx 2) (payload_limit st)) with (Z.of_nat (length bs)) by lia.
  apply (decode_as_sendto tk Htk EVENT_SENDTO (gostr "sendto") ring_sendto);
    try done; [by eapply ringbuf_reserve_len|lia|auto].
Qed.

(** The named and unnamed ends of sendmsg, after a gather that left [bs]. *)
Lemma named_sendmsg_refines family addr port scratch bs st st0 :
  st ≡ st0 -> family = AF_INET \/ family = AF_INET6 -> length addr = 16%nat ->
  0 <= port < 2 ^ 16 -> Z.of_nat (length bs) <= payloadMax ->
  (length bs <= length scratch)%nat -> take (length bs) scratch = bs ->
  let res :=
    match ringbuf_reserve (critical_events st) (sizeof sendto_event) with
    | None => (0, inc_critical_drop_count st)
    | Some ev =>
        let ev := fill_sendto tk EVENT_SENDMSG (Z.of_nat (length bs)) family addr port ev in
        let '(r, bs) := probe_read_kernel scratch (Z.to_nat (Z.of_nat (length bs))) in
        let ev := store_bytes sendto_event "payload" bs ev in
        if r <? 0 then (0, st) else (0, submit_critical ev st)
    end in
  realises st0 res.2
    (observe Critical sendto_event
       (Some (ring_sendmsg (expect_sendto tk family addr port bs (gostr "sendmsg")))) st0) /\
  res.1 = 0.
Proof.
  intros Heq Hfam Haddr Hport Hmax Hin Htake. cbv zeta.
  pose proof Heq as (_ & _ & _ & _ & _ & _ & Hring & _)%kequiv_fields.
  unfold observe, ring_of. rewrite Hring, Nat2Z.id, probe_read_kernel_ok, Htake by assumption.
  destruct (ringbuf_reserve _ _) as [ev|] eqn:Hev; cbn [fst snd].
  2: { split; [|done]. by apply inc_critical_drop_count_proper. }
  split; [|done]. eexists. split; [by apply submit_critical_proper|].
  apply (decode_as_sendto tk Htk EVENT_SENDMSG (gostr "sendmsg") ring_sendmsg);
    try assumption; [by eapply ringbuf_reserve_len|tauto].
Qed.

Lemma emit_sendmsg_refines fd umsg st :
  kmaps_ok st -> 0 <= fd < 2 ^ 32 ->
  let res := emit_sendmsg tk umem fd umsg st in
  realises st res.2 (spec_emit_sendmsg tk umem fd umsg st) /\ res.1 = 0.
Proof.
  intros Hok Hfd. cbv zeta. unfold emit_sendmsg, spec_emit_sendmsg, read_user.
  rewrite Nat2Z.id.
  destruct (umsg =? 0); [auto with probes|].
  destruct (probe_read_user umem umsg (sizeof user_msghdr)) as [r hdr].
  destruct (r <? 0); [auto with probes|]. destruct (_ || _); [auto with probes|].
  destruct (iov_scratch_buf st) as [scratch|] eqn:Hs; [|auto with probes].
  set (iovp := load user_msghdr "msg_iov" hdr). set (iovcnt := load user_msghdr "msg_iovlen" hdr).
  destruct (gather_step st scratch iovp iovcnt Hok Hs)
    as (scratch' & -> & Hlen & Htake & Hmax & Hin).
  rewrite gathered_guard by assumption. set (bs := gather_bytes _ _ _ _) in *.
  pose proof (kequiv_scratch (<[0:=scratch']> (iov_scratch_map st)) st) as Hst.
  destruct (if negb _ && _ && _ then _ else _) as [[[family addr] port]|] eqn:Hname.
  - assert (read_dest umem (load user_msghdr "msg_name" hdr) = Some (family, addr, port)) as Hd
      by (destruct (_ && _); [exact Hname|discriminate]).
    apply read_dest_wf in Hd as (Hfam & Haddr & Hport).
    pose proof (named_sendmsg_refines family addr port scratch' bs _ st Hst Hfam Haddr Hport
                  Hmax Hin Htake) as Hg.
    destruct bs; [split; [exact Hst|reflexivity]|exact Hg].
  - pose proof (gathered_write_refines EVENT_SENDMSG (gostr "sendmsg") ring_write fd scratch' bs _
                  st Hst Hfd Hmax Hin Htake ltac:(auto)) as Hg.
    destruct bs; [split; [exact Hst|reflexivity]|exact Hg].
Qed.

Lemma openat_refines ctx st :
  monitored_task tk st = true ->
  let res := sys_enter_openat tk umem ctx st in
  realises st res.2 (spec_openat tk umem ctx st) /\ res.1 = 0.
Proof.
  intros Hm. cbv zeta. unfold sys_enter_openat, spec_openat, observe, ring_of. rewrite Hm.
  cbn [negb]. destruct (arg ctx 1 =? 0); [auto with probes|].
  change (fieldsize openat_event "path") with (Z.to_nat PATH_MAX_CAP).
  destruct (probe_read_user_str umem (arg ctx 1) (Z.to_nat PATH_MAX_CAP)) as [n bs] eqn:Hread.
  destruct (ringbuf_reserve _ _) as [ev|] eqn:Hev; cbn [fst snd]; [|done].
  destruct (Z.leb_spec n 0); [auto with probes|]. split; [|done]. eexists. split; [done|].
  pose proof (probe_read_user_str_nul _ _ _ _ _ Hread ltac:(lia)) as [Hnul Hstr].
  pose proof (probe_read_user_str_len umem (arg ctx 1) (Z.to_nat PATH_MAX_CAP)) as Hlen.
  pose proof (probe_read_user_str_ret umem (arg ctx 1) (Z.to_nat PATH_MAX_CAP)) as Hret.
  rewrite Hread in Hlen, Hret. cbn [fst snd] in Hlen, Hret.
  assert (0 < n <= PATH_MAX_CAP) as Hn by (unfold PATH_MAX_CAP in *; lia).
  replace (u32 n) with n by (unfold u32, PATH_MAX_CAP in *; rewrite Z.mod_small; lia).
  change (decodeRingEvent (openat_sample tk n bs ev) =
          Ret (ring_openat (expect_openat tk n (take (Z.to_nat (n - 1)) bs)))).
  rewrite (decode_openat_sample tk Htk);
    [|by eapply ringbuf_reserve_len|exact Hlen|exact Hn].
  do 3 f_equal. replace (Z.to_nat n) with (S (Z.to_nat (n - 1))) by lia.
  by apply nullTerm_take.
Qed.

Lemma lsm_refines ret st :
  let res := lsm_socket_connect tk ret st in
  realises st res.2 (spec_lsm tk ret st).2 /\ res.1 = (spec_lsm tk ret st).1.
Proof.
  cbv zeta. unfold lsm_socket_connect, spec_lsm, spec_blocked, observe, ring_of.
  destruct (ret =? 0); cbn [negb]; [|auto with probes].
  assert (Hdeny : forall b,
    let res := if b =? 0 then (0, st) else
      match ringbuf_reserve (critical_events st) (sizeof lsm_deny_event) with
      | None => (- EPERM, inc_critical_drop_count st)
      | Some ev => (- EPERM, submit_critical (fill_lsm_deny tk ev) st)
      end in
    let spec := if negb (b =? 0)
      then (- EPERM, match ringbuf_reserve (critical_events st) (sizeof lsm_deny_event) with
                     | None => Lost Critical
                     | Some _ => Captured Critical (ring_lsmdeny (expect_lsm_deny tk))
                     end)
      else (0, Quiet) in
    realises st res.2 spec.2 /\ res.1 = spec.1).
  { intros b. cbv zeta. destruct (b =? 0); cbn [negb fst snd]; [auto with probes|].
    destruct (ringbuf_reserve _ _) as [ev|] eqn:Hev; cbn [fst snd]; [|done].
    split; [|done]. eexists. split; [done|].
    apply decode_lsm_deny_sample; [exact Htk|by eapply ringbuf_reserve_len]. }
  destruct (lsm_blocklist_pid st !! cur_pid tk) as [b|]; [apply Hdeny|].
  destruct (lsm_blocklist_cgroup st !! cgroup_id tk) as [b|]; [apply Hdeny|].
  auto with probes.
Qed.
End refinement.
