(* ===== verification/KernelTheorems.v ===== *)
(** * Theorems about the BPF object

    The refinement of every program to its specification, the two rings over
    whole traces of program runs, the quarantine decision and the capture
    bounds, each with a run of the concrete kernel of [Kernel] as its witness. *)

From S2P Require Import Prelude Go CLayout LayoutFacts Vmlinux Kernel Probes ProbeFacts GatherFacts Loader LoaderFacts Wire ProbeSpec.

#[local] Opaque sizeof offsetof fieldsize.

(** ** A concrete task and user memory for the witnesses *)

Definition demo_task : task := Task (77 * 2 ^ 32 + 78) 4242 (gostr "curl" ++ replicate 12 x00) 123456789.

Fixpoint mem_at (a : Z) (bs : bytes) : gmap Z byte :=
  match bs with [] => ∅ | b :: bs => <[a := b]> (mem_at (a + 1) bs) end.

(** 4096: sockaddr_in 203.0.113.9:443; 8192: a payload; 12288: two iovecs over it;
    16384: a path; 20480: a msghdr naming the address and the iovecs. *)
Definition demo_mem : gmap Z byte :=
  mem_at 4096 (le_bytes 2 2 ++ [x01; xbb] ++ [xcb; x00; x71; x09] ++ replicate 8 x00) ∪
  mem_at 8192 (gostr "token=sk-live-0123456789") ∪
  mem_at 12288 (le_bytes 8 8192 ++ le_bytes 8 6 ++ le_bytes 8 8198 ++ le_bytes 8 18) ∪
  mem_at 16384 (gostr "/etc/shadow" ++ replicate 128 x00) ∪
  mem_at 20480 (le_bytes 8 4096 ++ le_bytes 8 16 ++ le_bytes 8 12288 ++ le_bytes 8 2 ++
                replicate 24 x00).

Definition demo_maps : kmaps := {|
  pid_filter := {[ 77 := 1 ]}; cgroup_filter := ∅;
  lsm_blocklist_pid := ∅; lsm_blocklist_cgroup := {[ 4242 := 1 ]};
  events := []; drop_count := {[ 0 := 0 ]}; critical_events := [];
  critical_drop_count := {[ 0 := 0 ]}; payload_cap := {[ 0 := 16 ]};
  iov_scratch_map := {[ 0 := replicate (Z.to_nat 8192) x00 ]} |}.

#[local] Instance demo_helpers : Helpers (gmap Z byte) := concrete_helpers 3.
#[local] Instance demo_helpers_ok : HelpersOk (gmap Z byte) := concrete_helpers_ok 3.

Lemma demo_task_ok : task_ok demo_task.
Proof. split; vm_compute; split; congruence || reflexivity. Qed.

Lemma kmaps_ok_buf st buf :
  iov_scratch_map st !! 0 = Some buf -> length buf = sizeof iov_scratch -> kmaps_ok st.
Proof. unfold kmaps_ok. congruence. Qed.

Lemma demo_maps_ok : kmaps_ok demo_maps.
Proof. apply (kmaps_ok_buf _ (replicate (Z.to_nat 8192) x00)); vm_compute; reflexivity. Qed.

(** ** One program run *)

Lemma run_realises {U : Type} `{HelpersOk U} (tk : task) (umem : U) (p : program) (st : kmaps) :
  task_ok tk -> kmaps_ok st ->
  realises st (run tk umem p st).2 (spec tk umem p st).2 /\
  (run tk umem p st).1 = (spec tk umem p st).1.
Proof.
  intros Htk Hok.
  destruct p; cbn [run spec fst snd]; [..|by apply lsm_refines].
  all: destruct (monitored_task tk st) eqn:Hm.
  - by apply connect_refines.
  - unfold sys_enter_connect. rewrite Hm. auto with probes.
  - by apply write_refines.
  - unfold sys_enter_write. rewrite Hm. auto with probes.
  - by apply writev_refines.
  - unfold sys_enter_writev. rewrite Hm. auto with probes.
  - by apply sendto_refines.
  - unfold sys_enter_sendto. rewrite Hm. auto with probes.
  - unfold sys_enter_sendmsg. rewrite Hm. apply emit_sendmsg_refines; auto using u32_bound.
  - unfold sys_enter_sendmsg. rewrite Hm. auto with probes.
  - unfold sys_enter_sendmmsg, spec_sendmmsg. rewrite Hm. cbn [negb].
    destruct (_ =? 0); [auto with probes|]. apply emit_sendmsg_refines; auto using u32_bound.
  - unfold sys_enter_sendmmsg. rewrite Hm. auto with probes.
  - by apply openat_refines.
  - unfold sys_enter_openat. rewrite Hm. auto with probes.
Qed.

(** C1: every program of connect.c implements its specification. *)
Theorem run_refines_spec {U : Type} `{HelpersOk U} (tk : task) (umem : U) (p : program)
    (st : kmaps) :
  task_ok tk -> kmaps_ok st ->
  realises st (run tk umem p st).2 (spec tk umem p st).2 /\
  (run tk umem p st).1 = (spec tk umem p st).1.
Proof. apply run_realises. Qed.

(* The capture of a sendmsg that names its destination, on the concrete kernel. *)
Lemma run_refines_spec_witness :
  (spec demo_task demo_mem (PSendmsg [5; 20480]) demo_maps).2 =
    Captured Critical (ring_sendmsg
      (expect_sendto demo_task AF_INET ([xcb; x00; x71; x09] ++ replicate 12 x00) 443
         (gostr "token=sk-live-01") (gostr "sendmsg"))) /\
  realises demo_maps (run demo_task demo_mem (PSendmsg [5; 20480]) demo_maps).2
    (spec demo_task demo_mem (PSendmsg [5; 20480]) demo_maps).2.
Proof.
  split; [vm_compute; reflexivity|].
  exact (proj1 (run_refines_spec demo_task demo_mem (PSendmsg [5; 20480]) demo_maps
                 demo_task_ok demo_maps_ok)).
Defined.

(** ** Traces *)

#[local] Instance ring_eq_dec : EqDecision ring.
Proof. solve_decision. Defined.

Definition drops_of (k : ring) (st : kmaps) : gmap Z Z :=
  match k with Routine => drop_count st | Critical => critical_drop_count st end.

Section traces.
Context {U : Type} `{HelpersOk U}.

(** One invocation: the task that runs, its memory, and the program. *)
Record invocation := Invoke { inv_task : task; inv_mem : U; inv_prog : program }.

Definition step (i : invocation) (st : kmaps) : kmaps :=
  (run (inv_task i) (inv_mem i) (inv_prog i) st).2.

Fixpoint run_trace (tr : list invocation) (st : kmaps) : kmaps :=
  match tr with [] => st | i :: tr => run_trace tr (step i st) end.

(** The outcomes the specification assigns along the trace. *)
Fixpoint outcomes (tr : list invocation) (st : kmaps) : list outcome :=
  match tr with
  | [] => []
  | i :: tr => (spec (inv_task i) (inv_mem i) (inv_prog i) st).2 :: outcomes tr (step i st)
  end.

(** The events captured for ring [k], in order, and the number of its drops. *)
Fixpoint captured (k : ring) (os : list outcome) : list RingEvent :=
  match os with
  | [] => []
  | Captured k' e :: os => if decide (k' = k) then e :: captured k os else captured k os
  | _ :: os => captured k os
  end.

Fixpoint lost (k : ring) (os : list outcome) : Z :=
  match os with
  | [] => 0
  | Lost k' :: os => if decide (k' = k) then 1 + lost k os else lost k os
  | _ :: os => lost k os
  end.

(** Ring [k] of [st'] is ring [k] of [st] followed by records of [es], and its drop
    counter has advanced by [n], modulo 2^64. *)
Definition ring_advances (k : ring) (st st' : kmaps) (es : list RingEvent) (n : Z) : Prop :=
  (exists rs, ring_of k st' = ring_of k st ++ rs /\ decodeRingEvent <$> rs = Ret <$> es) /\
  (forall c, drops_of k st !! 0 = Some c -> 0 <= c < 2 ^ 64 ->
    drops_of k st' !! 0 = Some (u64 (c + n))).

Lemma ring_advances_trans k st1 st2 st3 es1 es2 n1 n2 :
  ring_advances k st1 st2 es1 n1 -> ring_advances k st2 st3 es2 n2 ->
  ring_advances k st1 st3 (es1 ++ es2) (n1 + n2).
Proof.
  intros [(rs1 & E1 & D1) C1] [(rs2 & E2 & D2) C2]. split.
  - exists (rs1 ++ rs2). rewrite E2, E1, app_assoc, !fmap_app, D1, D2. done.
  - intros c Hc Hb. specialize (C1 c Hc Hb).
    rewrite (C2 _ C1) by (apply Z.mod_pos_bound; lia). unfold u64.
    rewrite Zplus_mod_idemp_l. do 2 f_equal. lia.
Qed.

(** The part of the state a program run leaves alone. *)
Definition config_of (st : kmaps) :=
  (pid_filter st, cgroup_filter st, lsm_blocklist_pid st, lsm_blocklist_cgroup st, payload_cap st).

Lemma realises_advances st st' o k :
  realises st st' o -> ring_advances k st st' (captured k [o]) (lost k [o]).
Proof.
  intros Hr. destruct o as [|k' e|k']; cbn in Hr.
  - apply kequiv_fields in Hr as (_ & _ & _ & _ & E1 & E2 & E3 & E4 & _).
    split; [exists []; destruct k; cbn; by rewrite app_nil_r|].
    intros c Hc Hb. unfold u64. cbn. rewrite Z.add_0_r, Z.mod_small by done.
    destruct k; cbn in *; congruence.
  - assert (exists s, ring_of k st' = ring_of k st ++ (if decide (k' = k) then [s] else []) /\
              decodeRingEvent s = Ret e /\ drops_of k st' = drops_of k st) as (s & E & D & C).
    { destruct k'; destruct Hr as (s & Hs & D); exists s;
        apply kequiv_fields in Hs as (_ & _ & _ & _ & E1 & E2 & E3 & E4 & _);
        destruct k; cbn in *; rewrite ?app_nil_r; auto. }
    split; [exists (if decide (k' = k) then [s] else [])|].
    + split; [done|]. cbn. case_decide; cbn; by rewrite ?D.
    + intros c Hc Hb. unfold u64. cbn. rewrite Z.add_0_r, Z.mod_small by done. congruence.
  - assert (ring_of k st' = ring_of k st /\
            drops_of k st' = if decide (k' = k) then inc_slot0 (drops_of k st) else drops_of k st)
      as [E C].
    { destruct k'; apply kequiv_fields in Hr as (_ & _ & _ & _ & E1 & E2 & E3 & E4 & _);
        destruct k; cbn in *; auto. }
    split; [exists []; cbn; by rewrite app_nil_r|].
    intros c Hc Hb. rewrite C. cbn. case_decide.
    + unfold inc_slot0. rewrite Hc, lookup_insert_eq. done.
    + unfold u64. rewrite Z.add_0_r, Z.mod_small by done. done.
Qed.

Lemma kmaps_ok_scratch st scratch :
  length scratch = sizeof iov_scratch ->
  kmaps_ok (with_scratch (<[0 := scratch]> (iov_scratch_map st)) st).
Proof. intros Hl. apply (kmaps_ok_buf _ scratch); [apply lookup_insert_eq|done]. Qed.

Lemma emit_gathered_write_ok tk type total fd scratch st :
  kmaps_ok st -> kmaps_ok (emit_gathered_write tk type total fd scratch st).2.
Proof. intros Hok. unfold emit_gathered_write. repeat case_match; exact Hok. Qed.

Lemma emit_write_ok tk (umem : U) fd buf count st :
  kmaps_ok st -> kmaps_ok (emit_write tk umem fd buf count st).2.
Proof. intros Hok. unfold emit_write. repeat case_match; exact Hok. Qed.

Lemma emit_sendmsg_ok tk (umem : U) fd umsg st :
  kmaps_ok st -> kmaps_ok (emit_sendmsg tk umem fd umsg st).2.
Proof.
  intros Hok. unfold emit_sendmsg.
  destruct (_ =? 0); [exact Hok|]. destruct (probe_read_user _ _ _) as [r hdr].
  destruct (r <? 0); [exact Hok|]. destruct (_ || _); [exact Hok|].
  destruct (iov_scratch_buf st) as [scratch|] eqn:Hs; [|exact Hok].
  destruct (gather_step umem st scratch (load user_msghdr "msg_iov" hdr)
              (load user_msghdr "msg_iovlen" hdr) Hok Hs) as (scratch' & -> & Hlen & _).
  pose proof (kmaps_ok_scratch st scratch' Hlen) as Hok'.
  destruct (_ || _); [exact Hok'|].
  repeat case_match; first [exact Hok' | by apply emit_gathered_write_ok].
Qed.

Lemma run_ok tk (umem : U) p st : kmaps_ok st -> kmaps_ok (run tk umem p st).2.
Proof.
  intros Hok. destruct p; cbn [run].
  - unfold sys_enter_connect. repeat case_match; exact Hok.
  - unfold sys_enter_write. destruct (negb _); [exact Hok|].
    destruct (_ <? 3); [exact Hok|]. by apply emit_write_ok.
  - unfold sys_enter_writev. destruct (negb _); [exact Hok|].
    destruct (_ <? 3); [exact Hok|]. destruct (_ || _); [exact Hok|].
    destruct (iov_scratch_buf st) as [scratch|] eqn:Hs; [|exact Hok].
    destruct (gather_step umem st scratch (arg ctx 1) (arg ctx 2) Hok Hs)
      as (scratch' & -> & Hlen & _).
    pose proof (kmaps_ok_scratch st scratch' Hlen) as Hok'.
    destruct (_ || _); [exact Hok'|by apply emit_gathered_write_ok].
  - unfold sys_enter_sendto. destruct (negb _); [exact Hok|].
    destruct (_ || _); [exact Hok|]. destruct (_ =? 0); [by apply emit_write_ok|].
    repeat case_match; exact Hok.
  - unfold sys_enter_sendmsg. destruct (negb _); [exact Hok|]. by apply emit_sendmsg_ok.
  - unfold sys_enter_sendmmsg. destruct (negb _); [exact Hok|].
    destruct (_ =? 0); [exact Hok|]. by apply emit_sendmsg_ok.
  - unfold sys_enter_openat. repeat case_match; exact Hok.
  - unfold lsm_socket_connect. repeat case_match; exact Hok.
Qed.

Lemma captured_cons k o os : captured k (o :: os) = captured k [o] ++ captured k os.
Proof. destruct o; cbn; repeat case_decide; done. Qed.

Lemma lost_cons k o os : lost k (o :: os) = lost k [o] + lost k os.
Proof. destruct o; cbn; repeat case_decide; lia. Qed.

Lemma step_refines i st :
  task_ok (inv_task i) -> kmaps_ok st ->
  realises st (step i st) (spec (inv_task i) (inv_mem i) (inv_prog i) st).2.
Proof. intros. by apply run_realises. Qed.

(** A trace of program runs appends to each ring exactly the events the
    specification captures, in order, and counts exactly the lost ones. *)
Theorem run_trace_rings (tr : list invocation) (st : kmaps) (k : ring) :
  Forall (λ i : invocation, task_ok (inv_task i)) tr -> kmaps_ok st ->
  ring_advances k st (run_trace tr st) (captured k (outcomes tr st)) (lost k (outcomes tr st)).
Proof.
  intros Htk. revert st. induction Htk as [|i tr Hi Htr IH]; intros st Hok; cbn [run_trace outcomes].
  { split; [exists []; cbn; by rewrite app_nil_r|].
    intros c Hc Hb. cbn. unfold u64. by rewrite Z.add_0_r, Z.mod_small. }
  rewrite captured_cons, lost_cons.
  eapply ring_advances_trans; [|apply IH, run_ok, Hok].
  apply realises_advances. by apply step_refines.
Qed.

(** *** Segregation of the rings *)

(** The kinds readLoopRoutine and readLoopCritical dispatch on. *)
Definition event_kind (e : RingEvent) : option ring :=
  match re_Connect e, re_Openat e, re_Write e, re_Writev e, re_Sendto e, re_Sendmsg e,
        re_LSMDeny e with
  | Some _, None, None, None, None, None, None
  | None, Some _, None, None, None, None, None => Some Routine
  | None, None, Some _, None, None, None, None
  | None, None, None, Some _, None, None, None
  | None, None, None, None, Some _, None, None
  | None, None, None, None, None, Some _, None
  | None, None, None, None, None, None, Some _ => Some Critical
  | _, _, _, _, _, _, _ => None
  end.

Definition kind_ok (o : outcome) : Prop :=
  match o with Captured k e => event_kind e = Some k | _ => True end.

Lemma observe_kind k record e st :
  (forall ev, e = Some ev -> event_kind ev = Some k) -> kind_ok (observe k record e st).
Proof. intros He. unfold observe. repeat case_match; cbn; auto. Qed.

Lemma spec_emit_write_kind tk (umem : U) fd buf count st :
  kind_ok (spec_emit_write tk umem fd buf count st).
Proof.
  unfold spec_emit_write. case_match; [done|]. apply observe_kind.
  intros ev (bs & _ & ->)%fmap_Some. done.
Qed.

Lemma spec_emit_sendmsg_kind tk (umem : U) fd umsg st :
  kind_ok (spec_emit_sendmsg tk umem fd umsg st).
Proof.
  unfold spec_emit_sendmsg, spec_gathered_write.
  repeat case_match; try done; by apply observe_kind; intros ? [= <-].
Qed.

Lemma spec_kind tk (umem : U) p st : kind_ok (spec tk umem p st).2.
Proof.
  destruct p; cbn [spec snd]; try (case_match; [|done]).
  - unfold spec_connect. repeat case_match; try done. by apply observe_kind; intros ? [= <-].
  - unfold spec_write. case_match; [done|]. apply spec_emit_write_kind.
  - unfold spec_writev, spec_gathered_write. repeat case_match; try done.
    by apply observe_kind; intros ? [= <-].
  - unfold spec_sendto. case_match; [done|]. case_match; [apply spec_emit_write_kind|].
    repeat case_match; try done. apply observe_kind. intros ev (bs & _ & ->)%fmap_Some. done.
  - apply spec_emit_sendmsg_kind.
  - unfold spec_sendmmsg. case_match; [done|]. apply spec_emit_sendmsg_kind.
  - unfold spec_openat. case_match; [done|]. destruct (probe_read_user_str _ _ _) as [n bs].
    apply observe_kind. intros ev. case_match; [done|]. by intros [= <-].
  - unfold spec_lsm. repeat case_match; try done. by apply observe_kind; intros ? [= <-].
Qed.

(** Connect and openat events go to the routine ring, payload and quarantine
    events to the critical ring, so each reader loop handles all it receives. *)
Theorem rings_segregated (tr : list invocation) (st : kmaps) (k : ring) :
  Forall (λ e, event_kind e = Some k) (captured k (outcomes tr st)).
Proof.
  revert st. induction tr as [|i tr IH]; intros st; cbn [outcomes]; [constructor|].
  rewrite captured_cons. apply Forall_app. split; [|apply IH].
  pose proof (spec_kind (inv_task i) (inv_mem i) (inv_prog i) st) as Hk.
  destruct (spec _ _ _ _).2 as [|k' e|]; cbn; try constructor.
  case_decide; subst; repeat constructor. exact Hk.
Qed.

(** No run of a BPF program writes the filters, the blocklists or the capture
    size: those maps belong to user space. *)
Theorem run_trace_config (tr : list invocation) (st : kmaps) :
  Forall (λ i : invocation, task_ok (inv_task i)) tr -> kmaps_ok st ->
  config_of (run_trace tr st) = config_of st.
Proof.
  intros Htk. revert st. induction Htk as [|i tr Hi Htr IH]; intros st Hok; [done|].
  cbn [run_trace]. rewrite IH by (apply run_ok, Hok).
  pose proof (step_refines i st Hi Hok) as Hr.
  unfold config_of. destruct (spec _ _ _ _).2 as [|[] e|[]]; cbn in Hr;
    [|destruct Hr as (s & Hr & _)..| |];
    apply kequiv_fields in Hr; cbn in Hr; destruct_and!; congruence.
Qed.

Definition is_tracepoint (p : program) : Prop :=
  match p with PLsmConnect _ => False | _ => True end.

(** A tracepoint run by a task that neither pid_filter nor cgroup_filter names
    leaves every map and both rings exactly as they were, whatever its arguments. *)
Theorem unmonitored_untouched (tr : list invocation) (st : kmaps) :
  Forall (λ i : invocation, is_tracepoint (inv_prog i) /\ monitored_task (inv_task i) st = false) tr ->
  run_trace tr st = st.
Proof.
  induction 1 as [|i tr [Hp Hm] Htr IH]; [done|]. cbn [run_trace].
  replace (step i st) with st; [done|]. unfold step.
  destruct (inv_prog i); cbn [run is_tracepoint] in *; [..|done];
    unfold sys_enter_connect, sys_enter_write, sys_enter_writev, sys_enter_sendto,
      sys_enter_sendmsg, sys_enter_sendmmsg, sys_enter_openat; by rewrite Hm.
Qed.
End traces.

Arguments invocation U : clear implicits.

(** Four writes and a connect on rings of capacity three: one write is lost. *)
Definition demo_trace : list (invocation (gmap Z byte)) :=
  replicate 4 (Invoke demo_task demo_mem (PWrite [7; 8192; 24])) ++
  [Invoke demo_task demo_mem (PConnect [7; 4096; 16])].

Lemma demo_trace_ok : Forall (λ i : invocation _, task_ok (inv_task i)) demo_trace.
Proof. repeat constructor; apply demo_task_ok. Qed.

Lemma run_trace_rings_witness :
  captured Critical (outcomes demo_trace demo_maps) =
    replicate 3 (ring_write (expect_write demo_task 7 (gostr "token=sk-live-01") (gostr "write"))) /\
  lost Critical (outcomes demo_trace demo_maps) = 1 /\
  ring_advances Critical demo_maps (run_trace demo_trace demo_maps)
    (captured Critical (outcomes demo_trace demo_maps)) (lost Critical (outcomes demo_trace demo_maps)).
Proof.
  split; [vm_compute; reflexivity|]. split; [vm_compute; reflexivity|].
  exact (run_trace_rings demo_trace demo_maps Critical demo_trace_ok demo_maps_ok).
Defined.

Lemma run_trace_config_witness :
  config_of (run_trace demo_trace demo_maps) = config_of demo_maps.
Proof. exact (run_trace_config demo_trace demo_maps demo_trace_ok demo_maps_ok). Defined.

Definition stranger : task := Task (99 * 2 ^ 32 + 99) 1 (replicate 16 x00) 5.

Lemma unmonitored_untouched_witness :
  run_trace [Invoke stranger demo_mem (PSendto [3; 8192; 24; 0; 4096])] demo_maps = demo_maps.
Proof.
  apply (unmonitored_untouched [Invoke stranger demo_mem (PSendto [3; 8192; 24; 0; 4096])]).
  repeat constructor.
Defined.

(** ** Quarantine *)

(** C12: the LSM hook keeps an earlier verdict, and otherwise denies with -EPERM
    exactly the tasks whose pid, or failing that cgroup, has a non-zero blocklist
    entry; a full ring never turns the denial into an admission. *)
Theorem lsm_denies_quarantined {U : Type} `{Helpers U} (tk : task) (ret : Z) (st : kmaps) :
  (lsm_socket_connect tk ret st).1 =
  if decide (ret <> 0) then ret
  else match lsm_blocklist_pid st !! cur_pid tk, lsm_blocklist_cgroup st !! cgroup_id tk with
       | Some b, _ | None, Some b => if decide (b = 0) then 0 else - EPERM
       | None, None => 0
       end.
Proof.
  unfold lsm_socket_connect. destruct (Z.eqb_spec ret 0) as [->|Hret]; cbn [negb].
  2: { by rewrite decide_True. }
  rewrite decide_False by congruence.
  destruct (lsm_blocklist_pid st !! _) as [b|]; [|destruct (lsm_blocklist_cgroup st !! _) as [b|]];
    [..|done]; (destruct (Z.eqb_spec b 0); [by rewrite decide_True|rewrite decide_False by done]);
    by case_match.
Qed.

Lemma lsm_denies_quarantined_example :
  (lsm_socket_connect demo_task 0 demo_maps).1 = - EPERM.
Proof. vm_compute. reflexivity. Qed.

(** ** Captures *)

(** Whatever user memory holds, gather_iov returns at most the payload limit,
    keeps the size of the scratch buffer and writes no byte at or past the limit. *)
Theorem gather_iov_safe {U : Type} `{HelpersOk U} (umem : U) (st : kmaps) (out : bytes)
    (iovp iovcnt : Z) :
  PAYLOAD_MAX <= Z.of_nat (length out) ->
  let '(total, out') := gather_iov umem st out iovp iovcnt in
  0 <= total <= payload_limit st /\ length out' = length out /\
  drop (Z.to_nat (payload_limit st)) out' = drop (Z.to_nat (payload_limit st)) out.
Proof.
  intros Ho. pose proof (gather_iov_bounds umem st out iovp iovcnt Ho) as Hb.
  by destruct (gather_iov umem st out iovp iovcnt).
Qed.

Lemma gather_iov_safe_witness :
  let '(total, out') := gather_iov demo_mem demo_maps (replicate (Z.to_nat 8192) x00) 12288 9 in
  0 <= total <= payload_limit demo_maps /\ length out' = length (replicate (Z.to_nat 8192) x00) /\
  drop (Z.to_nat (payload_limit demo_maps)) out' =
  drop (Z.to_nat (payload_limit demo_maps)) (replicate (Z.to_nat 8192) x00).
Proof.
  apply (gather_iov_safe demo_mem demo_maps (replicate (Z.to_nat 8192) x00) 12288 9).
  rewrite length_replicate. unfold PAYLOAD_MAX. lia.
Defined.

(** On readable iovecs gather_iov computes the first payload-limit bytes of the
    concatenation of the first four, empty entries contributing nothing. *)
Theorem gather_iov_concat {U : Type} `{HelpersOk U} (umem : U) (st : kmaps) (out : bytes)
    (iovp iovcnt : Z) (es : list (Z * Z * bytes)) :
  PAYLOAD_MAX <= Z.of_nat (length out) ->
  Z.of_nat (length es) = Z.min (Z.of_nat IOV_MAX) iovcnt ->
  (forall j e, es !! j = Some e -> iov_ok umem iovp (Z.of_nat j) e) ->
  let '(total, out') := gather_iov umem st out iovp iovcnt in
  let bs := take (Z.to_nat (payload_limit st)) (mjoin (snd <$> es)) in
  total = Z.of_nat (length bs) /\ take (Z.to_nat total) out' = bs.
Proof.
  intros Ho Hes Hok. destruct (gather_iov_ref umem st out iovp iovcnt Ho) as [H1 H2].
  rewrite (gather_bytes_concat umem st iovp iovcnt es Hes Hok) in H1, H2. unfold gathered in *.
  destruct (gather_iov umem st out iovp iovcnt). cbn [fst snd] in *. by split.
Qed.

Definition demo_iovs : list (Z * Z * bytes) :=
  [(8192, 6, gostr "token="); (8198, 18, gostr "sk-live-0123456789")].

Lemma gather_iov_concat_witness :
  let '(total, out') := gather_iov demo_mem demo_maps (replicate (Z.to_nat 8192) xff) 12288 2 in
  let bs := take (Z.to_nat (payload_limit demo_maps)) (mjoin (snd <$> demo_iovs)) in
  total = Z.of_nat (length bs) /\ take (Z.to_nat total) out' = bs.
Proof.
  apply (gather_iov_concat demo_mem demo_maps (replicate (Z.to_nat 8192) xff) 12288 2 demo_iovs).
  - rewrite length_replicate. unfold PAYLOAD_MAX. lia.
  - reflexivity.
  - intros [|[|j]] e He; [| |done]; apply (inj Some) in He as <-.
    + exists (le_bytes 8 8192 ++ le_bytes 8 6). vm_compute. repeat split.
    + exists (le_bytes 8 8198 ++ le_bytes 8 18). vm_compute. repeat split.
Defined.

(** ** Decoding *)

Definition safe_event (m : go RingEvent) : Prop :=
  match m with Ret e => is_Some (event_kind e) | Err _ => True | Panic => False end.

(** A decoder either rejects the record for its length or reads it in closed form. *)
Ltac decoder_cases hdr eq raw unfolding :=
  destruct (Z.le_gt_cases hdr (raw_len raw)) as [Hlen|Hlen];
  [rewrite eq by exact Hlen; cbn; eauto
  |unfolding; rewrite (proj2 (Z.ltb_lt (raw_len raw) hdr)) by exact Hlen; exact I].

Lemma decodeConnect_safe raw : safe_event (decodeConnect raw).
Proof. decoder_cases connectHeaderLen decodeConnect_eq raw ltac:(unfold decodeConnect). Qed.

Lemma decodeOpenat_safe raw : safe_event (decodeOpenat raw).
Proof. decoder_cases 48 decodeOpenat_eq raw ltac:(unfold decodeOpenat). Qed.

Lemma decodeLSMDeny_safe raw : safe_event (decodeLSMDeny raw).
Proof. decoder_cases 48 decodeLSMDeny_eq raw ltac:(unfold decodeLSMDeny). Qed.

Lemma write_branch_safe raw (mk : WriteEvent -> RingEvent) :
  (forall e, is_Some (event_kind (mk e))) ->
  safe_event (ev ← decodeWritePayload raw; Ret (mk ev)).
Proof.
  intros Hmk. pose proof (decodeWritePayload_total raw).
  destruct (decodeWritePayload raw); cbn; auto.
Qed.

Lemma sendto_branch_safe raw (mk : SendtoEvent -> RingEvent) :
  (forall e, is_Some (event_kind (mk e))) ->
  safe_event (ev ← decodeSendtoPayload raw; Ret (mk ev)).
Proof.
  intros Hmk. pose proof (decodeSendtoPayload_total raw).
  destruct (decodeSendtoPayload raw); cbn; auto.
Qed.

Lemma decode_kind raw : safe_event (decodeRingEvent raw).
Proof.
  unfold decodeRingEvent.
  destruct (Z.ltb_spec (raw_len raw) 8) as [|Hlen]; [done|].
  unfold raw_len in Hlen. rewrite uint_le_in by lia. cbn [mbind go_bind].
  destruct (_ =? eventTypeConnect); [apply decodeConnect_safe|].
  destruct (_ =? eventTypeWrite); [by apply (write_branch_safe _ (λ e, ring_write _))|].
  destruct (_ =? eventTypeWritev); [by apply (write_branch_safe _ (λ e, ring_writev _))|].
  destruct (_ =? eventTypeSendto); [by apply (sendto_branch_safe _ (λ e, ring_sendto _))|].
  destruct (_ =? eventTypeSendmsg).
  { destruct (_ <=? _); [by apply (sendto_branch_safe _ (λ e, ring_sendmsg _))|].
    by apply (write_branch_safe _ (λ e, ring_write _)). }
  destruct (_ =? eventTypeOpenat); [apply decodeOpenat_safe|].
  destruct (_ =? eventTypeLSMDeny); [apply decodeLSMDeny_safe|done].
Qed.

(** C39: decodeRingEvent never panics, whatever bytes the ring delivers, and an event
    it returns without error has exactly one of its seven kinds. *)
Theorem decodeRingEvent_safe (raw : bytes) :
  match decodeRingEvent raw with
  | Ret e => is_Some (event_kind e)
  | Err _ => True
  | Panic => False
  end.
Proof. exact (decode_kind raw). Qed.

(** ** Layout *)

(** The offsets and sizes of the C records are those the static assertions of
    connect.c state and the decoders of loader.go hard-code. *)
Theorem record_layouts_agree : layout_agrees.
Proof. exact layout_agrees_holds. Qed.

(** The members of a C struct lie inside it without overlapping, each at a
    multiple of its alignment, a bit-field inside one storage unit of its type. *)
Theorem struct_layout_sound (fs : list (string * ctype)) (i j : nat)
    (fi fj : string) (oi oj : N) (ti tj : ctype) :
  placement (CStruct fs) !! i = Some (fi, oi, ti) ->
  placement (CStruct fs) !! j = Some (fj, oj, tj) -> (i < j)%nat ->
  (oi + bitsize ti <= oj)%N /\ (oj + bitsize tj <= bitsize (CStruct fs))%N /\
  well_placed oj tj.
Proof.
  cbn [placement]. intros Hi Hj Hlt. split; [by eapply place_disjoint|].
  apply list_elem_of_lookup_2 in Hj.
  split; [by eapply place_inside|by eapply place_placed].
Qed.

(* The 4-bit type and the 1-bit s of a segment descriptor share a storage unit. *)
Lemma struct_layout_sound_witness :
  (40 + bitsize (CBits 2 4) <= 44)%N /\ (44 + bitsize (CBits 2 1) <= bitsize desc_struct)%N /\
  well_placed 44 (CBits 2 1).
Proof.
  exact (struct_layout_sound
    ltac:(let t := eval unfold desc_struct in desc_struct in
          match t with CStruct ?fs => exact fs end)
    3 4 "type" "s" 40 44 (CBits 2 4) (CBits 2 1) eq_refl eq_refl ltac:(lia)).
Defined.
