(* ===== verification/Breaker.v ===== *)
(** * internal/failclosed/breaker.go: the fail-closed breaker

    One definition per method, taking the instant [now] the clock returns.  The
    mutex makes each method atomic; the OnTransition callback runs last, with the
    mutex released, so a method returns the transitions it reports next to the
    breaker it leaves.  Counters are unbounded. *)

From S2P Require Import Prelude Go GoTime Config.

Inductive state := stateHealthy | stateTripped | stateRecovering.

(** A conjunct of an engagement reason; fmt renders them, joined by commas, and
    "unknown" for none. *)
Inductive cause :=
  | ringbuf_drop_rate (rate : float64)
  | critical_ringbuf_drop_rate (rate : float64)
  | sink_failures (n : Z)
  | panics (n : Z).

Record Breaker := {
  cfg : FailClosedConfig;
  st : state;
  reason : option (list cause);           (* None: the empty string *)
  trippedAt : Z;
  recoveringAt : Z;
  lastCleared : option Z;
  effectiveMin : Z;
  flapCount : nat;
  lastDropCount : Z;
  lastDropAt : option Z;
  dropRate : float64;
  rateBad : bool;
  lastCriticalDropCount : Z;
  lastCriticalDropAt : option Z;
  criticalDropRate : float64;
  criticalRateBad : bool;
  sinkFailures : Z;
  sinkBad : bool;
  panicCount : Z;
  panicBad : bool
}.

(** OnTransition(tripped, reason) *)
Definition transition : Type := bool * option (list cause).

(** ** Field updates *)

Definition set_trip (s : state) (r : option (list cause)) (at_ : Z) (floor : Z) (flaps : nat)
    (b : Breaker) : Breaker := {|
  cfg := cfg b; st := s; reason := r; trippedAt := at_; recoveringAt := recoveringAt b;
  lastCleared := lastCleared b; effectiveMin := floor; flapCount := flaps;
  lastDropCount := lastDropCount b; lastDropAt := lastDropAt b; dropRate := dropRate b;
  rateBad := rateBad b; lastCriticalDropCount := lastCriticalDropCount b;
  lastCriticalDropAt := lastCriticalDropAt b; criticalDropRate := criticalDropRate b;
  criticalRateBad := criticalRateBad b; sinkFailures := sinkFailures b; sinkBad := sinkBad b;
  panicCount := panicCount b; panicBad := panicBad b |}.

Definition set_recovering (at_ : Z) (b : Breaker) : Breaker := {|
  cfg := cfg b; st := stateRecovering; reason := reason b; trippedAt := trippedAt b;
  recoveringAt := at_; lastCleared := lastCleared b; effectiveMin := effectiveMin b;
  flapCount := flapCount b; lastDropCount := lastDropCount b; lastDropAt := lastDropAt b;
  dropRate := dropRate b; rateBad := rateBad b; lastCriticalDropCount := lastCriticalDropCount b;
  lastCriticalDropAt := lastCriticalDropAt b; criticalDropRate := criticalDropRate b;
  criticalRateBad := criticalRateBad b; sinkFailures := sinkFailures b; sinkBad := sinkBad b;
  panicCount := panicCount b; panicBad := panicBad b |}.

Definition set_cleared (at_ : Z) (b : Breaker) : Breaker := {|
  cfg := cfg b; st := stateHealthy; reason := None; trippedAt := trippedAt b;
  recoveringAt := recoveringAt b; lastCleared := Some at_; effectiveMin := effectiveMin b;
  flapCount := flapCount b; lastDropCount := lastDropCount b; lastDropAt := lastDropAt b;
  dropRate := dropRate b; rateBad := rateBad b; lastCriticalDropCount := lastCriticalDropCount b;
  lastCriticalDropAt := lastCriticalDropAt b; criticalDropRate := criticalDropRate b;
  criticalRateBad := criticalRateBad b; sinkFailures := 0; sinkBad := false;
  panicCount := 0; panicBad := false |}.

Definition set_rate (n now : Z) (rate : float64) (bad : bool) (b : Breaker) : Breaker := {|
  cfg := cfg b; st := st b; reason := reason b; trippedAt := trippedAt b;
  recoveringAt := recoveringAt b; lastCleared := lastCleared b; effectiveMin := effectiveMin b;
  flapCount := flapCount b; lastDropCount := n; lastDropAt := Some now; dropRate := rate;
  rateBad := bad; lastCriticalDropCount := lastCriticalDropCount b;
  lastCriticalDropAt := lastCriticalDropAt b; criticalDropRate := criticalDropRate b;
  criticalRateBad := criticalRateBad b; sinkFailures := sinkFailures b; sinkBad := sinkBad b;
  panicCount := panicCount b; panicBad := panicBad b |}.

Definition set_critical_rate (n now : Z) (rate : float64) (bad : bool) (b : Breaker) : Breaker := {|
  cfg := cfg b; st := st b; reason := reason b; trippedAt := trippedAt b;
  recoveringAt := recoveringAt b; lastCleared := lastCleared b; effectiveMin := effectiveMin b;
  flapCount := flapCount b; lastDropCount := lastDropCount b; lastDropAt := lastDropAt b;
  dropRate := dropRate b; rateBad := rateBad b; lastCriticalDropCount := n;
  lastCriticalDropAt := Some now; criticalDropRate := rate; criticalRateBad := bad;
  sinkFailures := sinkFailures b; sinkBad := sinkBad b; panicCount := panicCount b;
  panicBad := panicBad b |}.

Definition set_counts (sf : Z) (sb : bool) (pc : Z) (pb : bool) (b : Breaker) : Breaker := {|
  cfg := cfg b; st := st b; reason := reason b; trippedAt := trippedAt b;
  recoveringAt := recoveringAt b; lastCleared := lastCleared b; effectiveMin := effectiveMin b;
  flapCount := flapCount b; lastDropCount := lastDropCount b; lastDropAt := lastDropAt b;
  dropRate := dropRate b; rateBad := rateBad b; lastCriticalDropCount := lastCriticalDropCount b;
  lastCriticalDropAt := lastCriticalDropAt b; criticalDropRate := criticalDropRate b;
  criticalRateBad := criticalRateBad b; sinkFailures := sf; sinkBad := sb; panicCount := pc;
  panicBad := pb |}.

(** ** Methods *)

Definition fresh (c : FailClosedConfig) : Breaker := {|
  cfg := c; st := stateHealthy; reason := None; trippedAt := 0; recoveringAt := 0;
  lastCleared := None; effectiveMin := MinTripDurationOrDefault c; flapCount := 0;
  lastDropCount := 0; lastDropAt := None; dropRate := f64 0; rateBad := false;
  lastCriticalDropCount := 0; lastCriticalDropAt := None; criticalDropRate := f64 0;
  criticalRateBad := false; sinkFailures := 0; sinkBad := false; panicCount := 0;
  panicBad := false |}.

(** nil when fail_closed is disabled *)
Definition New (c : FailClosedConfig) : option Breaker :=
  if negb (fc_Enabled c) then None else Some (fresh c).

Definition Tripped (b : option Breaker) : bool :=
  match b with
  | None => false
  | Some b => match st b with stateTripped | stateRecovering => true | stateHealthy => false end
  end.

Definition anyBad (b : Breaker) : bool :=
  rateBad b || criticalRateBad b || sinkBad b || panicBad b.

Definition currentReason (b : Breaker) : list cause :=
  (if rateBad b then [ringbuf_drop_rate (dropRate b)] else []) ++
  (if criticalRateBad b then [critical_ringbuf_drop_rate (criticalDropRate b)] else []) ++
  (if sinkBad b then [sink_failures (sinkFailures b)] else []) ++
  (if panicBad b then [panics (panicCount b)] else []).

Section methods.
Context `{FloatToInt}.

(** [for i := 0; i < n; i++ { floor = time.Duration(float64(floor) * mult) }] *)
Fixpoint backoff (n : nat) (mult : float64) (floor : Z) : Z :=
  match n with
  | O => floor
  | S n => backoff n mult (to_int64 (fmul (f64 floor) mult))
  end.

(** The clear of [b] is less than five recovery windows old. *)
Definition flapping (now : Z) (b : Breaker) : bool :=
  match lastCleared b with
  | Some c => time_sub now c <? i64 (5 * RecoveryWindowOrDefault (cfg b))
  | None => false
  end.

Definition engageLocked (now : Z) (r : list cause) (b : Breaker) : Breaker * list transition :=
  let '(flaps, floor) :=
    if flapping now b then
      let flaps := S (flapCount b) in
      let floor := backoff flaps (BackoffMultiplierOrDefault (cfg b))
                     (MinTripDurationOrDefault (cfg b)) in
      let max := MaxTripDurationOrDefault (cfg b) in
      (flaps, if max <? floor then max else floor)
    else (flapCount b, MinTripDurationOrDefault (cfg b)) in
  (set_trip stateTripped (Some r) now floor flaps b, [(true, Some r)]).

Definition clearLocked (now : Z) (b : Breaker) : Breaker * list transition :=
  (set_cleared now b, [(false, reason b)]).

Definition evalLocked (now : Z) (b : Breaker) : Breaker * list transition :=
  match st b with
  | stateHealthy =>
      let healthy_long :=
        match lastCleared b with
        | Some c => i64 (5 * RecoveryWindowOrDefault (cfg b)) <=? time_sub now c
        | None => false
        end in
      let b := if healthy_long
               then set_trip (st b) (reason b) (trippedAt b) (MinTripDurationOrDefault (cfg b)) 0 b
               else b in
      if anyBad b then engageLocked now (currentReason b) b else (b, [])
  | stateTripped =>
      if anyBad b
      then (set_trip (st b) (Some (currentReason b)) (trippedAt b) (effectiveMin b) (flapCount b) b, [])
      else if time_sub now (trippedAt b) <? effectiveMin b then (b, [])
      else (set_recovering now b, [])
  | stateRecovering =>
      if anyBad b
      then (set_trip stateTripped (Some (currentReason b)) now (effectiveMin b) (flapCount b) b, [])
      else if RecoveryWindowOrDefault (cfg b) <=? time_sub now (recoveringAt b)
      then clearLocked now b
      else (b, [])
  end.

(** The drop rate after a sample, and the watermark it sets. *)
Definition next_rate (n now : Z) (last : option Z) (lastCount : Z) (rate : float64) : float64 :=
  match last with
  | None => rate
  | Some t =>
      let elapsed := seconds (time_sub now t) in
      if flt (f64 0) elapsed then
        let delta := if lastCount <=? n then f64 (n - lastCount) else f64 0 in
        fdiv delta elapsed
      else rate
  end.

Definition next_bad (c : FailClosedConfig) (rate : float64) (bad : bool) : bool :=
  if flt (RingbufDropRateThresholdOrDefault c) rate then true
  else if fle rate (RingbufRecoveryRateThresholdOrDefault c) then false
  else bad.

Definition RecordDropCount (n now : Z) (b : Breaker) : Breaker * list transition :=
  let rate := next_rate n now (lastDropAt b) (lastDropCount b) (dropRate b) in
  evalLocked now (set_rate n now rate (next_bad (cfg b) rate (rateBad b)) b).

Definition RecordCriticalDropCount (n now : Z) (b : Breaker) : Breaker * list transition :=
  let rate := next_rate n now (lastCriticalDropAt b) (lastCriticalDropCount b)
                (criticalDropRate b) in
  evalLocked now (set_critical_rate n now rate (next_bad (cfg b) rate (criticalRateBad b)) b).

Definition RecordSinkFailure (now : Z) (b : Breaker) : Breaker * list transition :=
  let n := sinkFailures b + 1 in
  let bad := if SinkFailureThresholdOrDefault (cfg b) <=? n then true else sinkBad b in
  evalLocked now (set_counts n bad (panicCount b) (panicBad b) b).

Definition RecordSinkSuccess (now : Z) (b : Breaker) : Breaker * list transition :=
  evalLocked now (set_counts 0 false (panicCount b) (panicBad b) b).

Definition RecordPanic (now : Z) (b : Breaker) : Breaker * list transition :=
  let n := panicCount b + 1 in
  let bad := if PanicThresholdOrDefault (cfg b) <=? n then true else panicBad b in
  evalLocked now (set_counts (sinkFailures b) (sinkBad b) n bad b).

(** ** Runs *)

(** A method call at an instant; on a nil breaker it does nothing. *)
Inductive op :=
  | DropSample (n : Z) | CriticalDropSample (n : Z) | SinkFailure | SinkSuccess | EnginePanic.

Definition call (o : op) (now : Z) (b : Breaker) : Breaker * list transition :=
  match o with
  | DropSample n => RecordDropCount n now b
  | CriticalDropSample n => RecordCriticalDropCount n now b
  | SinkFailure => RecordSinkFailure now b
  | SinkSuccess => RecordSinkSuccess now b
  | EnginePanic => RecordPanic now b
  end.

Definition method (o : op) (now : Z) (b : option Breaker) : option Breaker * list transition :=
  match b with
  | None => (None, [])
  | Some b => let '(b, ts) := call o now b in (Some b, ts)
  end.

(** One tick of WatchRingbufDrops: [None] for a counter that is nil or fails. *)
Definition poll (drop critical : option Z) (now : Z) (b : option Breaker)
    : option Breaker * list transition :=
  let '(b, ts1) := match drop with Some n => method (DropSample n) now b | None => (b, []) end in
  let '(b, ts2) := match critical with
                   | Some n => method (CriticalDropSample n) now b | None => (b, []) end in
  (b, ts1 ++ ts2).

Fixpoint run (calls : list (op * Z)) (b : option Breaker) : option Breaker * list transition :=
  match calls with
  | [] => (b, [])
  | (o, now) :: calls =>
      let '(b, ts) := method o now b in
      let '(b, ts') := run calls b in (b, ts ++ ts')
  end.
End methods.
