(* ===== verification/BreakerTheorems.v ===== *)
(** * Theorems about the fail-closed breaker

    Over any run from a new breaker: the transitions reported to OnTransition, when
    a clear may happen, the exponential backoff, and the latch a panic leaves. *)

From Stdlib Require Import SpecFloat.
From S2P Require Import Prelude Go GoTime Config Breaker.

Section facts.
Context `{FloatToInt}.

(** ** One call *)

Definition engaged (b : Breaker) : bool :=
  match st b with stateHealthy => false | _ => true end.

(** The reason is empty exactly while healthy; a recovery starts only after the trip
    has lasted its minimum. *)
Record breaker_ok (b : Breaker) : Prop := {
  reason_engaged : reason b = None <-> engaged b = false;
  recovering_floor : st b = stateRecovering ->
    effectiveMin b <= time_sub (recoveringAt b) (trippedAt b)
}.

(** What a call may report, and the state it leaves then. *)
Inductive reports (now : Z) (b : Breaker) : Breaker -> list transition -> Prop :=
  | report_nothing b' : engaged b' = engaged b -> reports now b b' []
  | report_engage b' r :
      engaged b = false -> engaged b' = true -> r <> [] ->
      reports now b b' [(true, Some r)]
  | report_clear b' r :
      st b = stateRecovering -> anyBad b = false -> engaged b' = false -> r <> None ->
      RecoveryWindowOrDefault (cfg b) <= time_sub now (recoveringAt b) ->
      reports now b b' [(false, r)].

Lemma currentReason_nonempty b : anyBad b = true -> currentReason b <> [].
Proof.
  unfold anyBad, currentReason.
  by destruct (rateBad b), (criticalRateBad b), (sinkBad b), (panicBad b).
Qed.

Lemma engage_reports now b b0 :
  engaged b0 = false -> anyBad b = true -> cfg b = cfg b0 ->
  let '(b', ts) := engageLocked now (currentReason b) b in
  breaker_ok b' /\ reports now b0 b' ts.
Proof.
  intros He Hbad _. unfold engageLocked.
  destruct (if flapping now b then _ else _) as [flaps floor].
  split; [split; cbn; [split|]; done|]. apply report_engage; [done..|].
  by apply currentReason_nonempty.
Qed.

(** Resetting the backoff keeps everything else. *)
Lemma reset_flaps_ok (c : bool) (floor : Z) b :
  breaker_ok b -> st b = stateHealthy ->
  let b1 := if c then set_trip (st b) (reason b) (trippedAt b) floor 0 b else b in
  engaged b1 = false /\ cfg b1 = cfg b /\ breaker_ok b1 /\ anyBad b1 = anyBad b.
Proof.
  intros [Hr Hf] Hst. unfold engaged in *. rewrite Hst in *.
  destruct c; cbn; rewrite ?Hst; split_and!; try done; by split; unfold engaged; cbn; rewrite ?Hst.
Qed.

Lemma eval_reports now b :
  breaker_ok b ->
  let '(b', ts) := evalLocked now b in breaker_ok b' /\ reports now b b' ts.
Proof.
  intros Hok. pose proof Hok as [Hr Hf]. unfold evalLocked.
  destruct (st b) eqn:Hst.
  - match goal with |- context [if ?c then set_trip _ _ _ _ _ b else b] =>
      pose proof (reset_flaps_ok c (MinTripDurationOrDefault (cfg b)) b Hok Hst)
        as (He1 & Hc1 & Hok1 & Hb1);
      rewrite Hst in He1, Hc1, Hok1, Hb1; set (b1 := if c then _ else b) in * end.
    assert (engaged b = false) as He by (unfold engaged; by rewrite Hst).
    destruct (anyBad b1) eqn:Hbad; [by apply engage_reports|].
    split; [done|]. apply report_nothing. congruence.
  - assert (engaged b = true) as He by (unfold engaged; by rewrite Hst).
    destruct (anyBad b) eqn:Hbad; [|destruct (time_sub now (trippedAt b) <? effectiveMin b) eqn:Hlt].
    + split; [split; cbn; unfold engaged; cbn; rewrite ?Hst; done|].
      apply report_nothing. unfold engaged. cbn. by rewrite Hst.
    + split; [done|]. by apply report_nothing.
    + split; [split; cbn; [unfold engaged in *; cbn; by rewrite Hst in *|]|].
      * intros _. by apply Z.ltb_ge in Hlt.
      * apply report_nothing. unfold engaged. cbn. by rewrite Hst.
  - assert (engaged b = true) as He by (unfold engaged; by rewrite Hst).
    destruct (anyBad b) eqn:Hbad; [|destruct (RecoveryWindowOrDefault (cfg b) <=? _) eqn:Hle].
    + split; [split; cbn; done|]. apply report_nothing. unfold engaged. cbn. by rewrite Hst.
    + unfold clearLocked. split; [split; cbn; done|].
      apply report_clear; try done; [|by apply Z.leb_le].
      intros Hnone. apply Hr in Hnone. congruence.
    + split; [done|]. by apply report_nothing.
Qed.

(** Every call is [evalLocked] after a sample that leaves the trip state alone. *)
Definition same_trip (b b' : Breaker) : Prop :=
  cfg b' = cfg b /\ st b' = st b /\ reason b' = reason b /\ trippedAt b' = trippedAt b /\
  recoveringAt b' = recoveringAt b /\ effectiveMin b' = effectiveMin b /\
  lastCleared b' = lastCleared b /\ flapCount b' = flapCount b.

Lemma call_eval o now b : exists b1, same_trip b b1 /\ call o now b = evalLocked now b1.
Proof.
  destruct o; cbn [call];
    unfold RecordDropCount, RecordCriticalDropCount, RecordSinkFailure, RecordSinkSuccess,
      RecordPanic; eexists; (split; [|reflexivity]); by unfold same_trip.
Qed.

Lemma same_trip_ok b b1 : same_trip b b1 -> breaker_ok b -> breaker_ok b1.
Proof.
  intros (Hc & Hs & Hr & Ht & Hrec & Hm & _) [H1 H2]. split; unfold engaged in *.
  - by rewrite Hs, Hr.
  - by rewrite Hs, Ht, Hrec, Hm.
Qed.

(** ** Runs *)

Fixpoint alternates (expect : bool) (ts : list transition) : Prop :=
  match ts with [] => True | (t, _) :: ts => t = expect /\ alternates (negb expect) ts end.

(** An engagement names a cause, a clear the cause that is over. *)
Definition reason_given (t : transition) : Prop :=
  match t with (true, r) => exists c cs, r = Some (c :: cs) | (false, r) => r <> None end.

Definition final (start : bool) (ts : list transition) : bool :=
  match last ts with Some (t, _) => t | None => start end.

Lemma alternates_app e ts1 ts2 :
  alternates e ts1 -> alternates (negb (final (negb e) ts1)) ts2 -> alternates e (ts1 ++ ts2).
Proof.
  revert e. induction ts1 as [|[t r] ts1 IH]; intros e; cbn; [by rewrite negb_involutive|].
  intros [-> Ha] Hb. split; [done|]. apply IH; [done|]. revert Hb. unfold final.
  rewrite last_cons. by destruct (last ts1) as [[]|]; cbn; rewrite ?negb_involutive.
Qed.

Lemma final_app s ts1 ts2 : final s (ts1 ++ ts2) = final (final s ts1) ts2.
Proof. unfold final. rewrite last_app. by destruct (last ts2) as [[]|]. Qed.

Lemma call_reports o now b :
  breaker_ok b ->
  let '(b', ts) := call o now b in
  breaker_ok b' /\ alternates (negb (engaged b)) ts /\ Forall reason_given ts /\
  engaged b' = final (engaged b) ts.
Proof.
  intros Hok. destruct (call_eval o now b) as (b1 & Hsame & ->).
  pose proof (eval_reports now b1 (same_trip_ok _ _ Hsame Hok)) as Hrep.
  assert (engaged b1 = engaged b) as He by (unfold engaged; by destruct Hsame as (_ & -> & _)).
  destruct (evalLocked now b1) as [b' ts]. destruct Hrep as [Hok' Hrep]. split; [done|].
  rewrite <- He. destruct Hrep as [b' Hn|b' r Hb Hb' Hr|b' r Hst Hbad Hb' Hr _]; cbn.
  - done.
  - rewrite Hb. split_and!; try done. repeat constructor. destruct r; [done|]. by eexists _, _.
  - assert (engaged b1 = true) as -> by (unfold engaged; by rewrite Hst).
    split_and!; try done. by repeat constructor.
Qed.

Lemma run_reports calls b :
  breaker_ok b ->
  exists b' ts, run calls (Some b) = (Some b', ts) /\ breaker_ok b' /\
    alternates (negb (engaged b)) ts /\ Forall reason_given ts /\ engaged b' = final (engaged b) ts.
Proof.
  revert b. induction calls as [|[o now] calls IH]; intros b Hok; cbn [run method].
  { by exists b, []. }
  pose proof (call_reports o now b Hok) as Hc.
  destruct (call o now b) as [b1 ts1]. destruct Hc as (Hok1 & Ha1 & Hr1 & He1).
  destruct (IH b1 Hok1) as (b2 & ts2 & -> & Hok2 & Ha2 & Hr2 & He2).
  exists b2, (ts1 ++ ts2). split_and!; auto.
  - apply alternates_app; [done|]. by rewrite negb_involutive, <- He1.
  - by apply Forall_app.
  - by rewrite final_app, <- He1.
Qed.

Lemma New_ok c b : New c = Some b -> breaker_ok b /\ engaged b = false /\ cfg b = c.
Proof. unfold New. destruct (fc_Enabled c); intros [= <-]. split; [split; cbn|]; done. Qed.

(** Whatever the samples, failures and panics and whatever the clock, the reported
    transitions alternate, starting with an engagement, each engagement naming a cause;
    and Tripped agrees with the last of them. *)
Theorem transitions_alternate (c : FailClosedConfig) (calls : list (op * Z)) :
  let '(b, ts) := run calls (New c) in
  alternates true ts /\ Forall reason_given ts /\ Tripped b = final false ts.
Proof.
  destruct (New c) as [b|] eqn:HN.
  - apply New_ok in HN as (Hok & He & _).
    destruct (run_reports calls b Hok) as (b' & ts & -> & _ & Ha & Hr & Hf).
    rewrite He in Ha, Hf. split_and!; auto.
  - assert (run calls None = (None, [])) as ->; [|by repeat constructor].
    clear. induction calls as [|[o now] calls IH]; cbn; [done|]. by rewrite IH.
Qed.

(** The signals as the call [o] finds them: what it samples is counted in. *)
Record signals_healthy (o : op) (b b' : Breaker) : Prop := {
  healthy_drops : rateBad b' = false;
  healthy_critical : criticalRateBad b' = false;
  healthy_sink : match o with
    | SinkSuccess => True
    | SinkFailure => sinkBad b = false /\ sinkFailures b + 1 < SinkFailureThresholdOrDefault (cfg b)
    | _ => sinkBad b = false
    end;
  healthy_engine : panicBad b = false /\ (o = EnginePanic -> panicCount b + 1 < PanicThresholdOrDefault (cfg b)) }.

Lemma orb_false4 b1 b2 b3 b4 : b1 || b2 || b3 || b4 = false -> b1 = false /\ b2 = false /\ b3 = false /\ b4 = false.
Proof. by destruct b1, b2, b3, b4. Qed.

(** A call that clears found every signal healthy before it reset the counters. *)
Lemma clear_healthy o now b b' r : call o now b = (b', [(false, r)]) -> st b = stateRecovering -> signals_healthy o b b'.
Proof.
  assert (forall b1, st b1 = stateRecovering -> evalLocked now b1 = (b', [(false, r)]) -> anyBad b1 = false /\ b' = set_cleared now b1) as Hev.
  { intros b1 Hst. unfold evalLocked, clearLocked. rewrite Hst. destruct (anyBad b1); [done|].
    destruct (_ <=? _); [|done]. by intros [= <- _]. }
  intros Hcall Hst.
  destruct o; cbn [call] in Hcall;
    unfold RecordDropCount, RecordCriticalDropCount, RecordSinkFailure, RecordSinkSuccess, RecordPanic in Hcall;
    apply Hev in Hcall as [Hbad ->]; try exact Hst; unfold anyBad in Hbad;
    cbn [rateBad criticalRateBad sinkBad panicBad set_rate set_critical_rate set_counts] in Hbad;
    apply orb_false4 in Hbad as (? & ? & Hsink & Hpanic); constructor; try done.
  - by destruct (Z.leb_spec (SinkFailureThresholdOrDefault (cfg b)) (sinkFailures b + 1)).
  - destruct (Z.leb_spec (PanicThresholdOrDefault (cfg b)) (panicCount b + 1)); [done|by split].
Qed.

(** C37: a clear is reported only by a call that finds the breaker recovering and every signal healthy before
    it resets them: both drop rates, the sink, unless the call is its success, and the engine, the failure or panic that the call itself reports
    included; and only at the end
    of a full recovery window that itself began after the minimum trip time. *)
Theorem clear_is_earned (c : FailClosedConfig) (calls : list (op * Z)) (o : op) (now : Z)
    (b b' : Breaker) (ts : list transition) (r : option (list cause)) :
  run calls (New c) = (Some b, ts) -> call o now b = (b', [(false, r)]) ->
  st b = stateRecovering /\ signals_healthy o b b' /\
  effectiveMin b <= time_sub (recoveringAt b) (trippedAt b) /\
  RecoveryWindowOrDefault (cfg b) <= now - recoveringAt b.
Proof.
  intros Hrun Hcall.
  destruct (New c) as [b0|] eqn:HN.
  2: { exfalso. assert (run calls None = (None, [])) as Hn; [|congruence].
       clear. induction calls as [|[o now] calls IH]; cbn; [done|]. by rewrite IH. }
  apply New_ok in HN as (Hok0 & _ & _).
  destruct (run_reports calls b0 Hok0) as (b1 & ts1 & E & Hok & _). rewrite Hrun in E.
  injection E as <- <-. pose proof (clear_healthy o now b b' r Hcall) as Hhealthy.
  destruct (call_eval o now b) as (b1 & Hsame & Hc1). rewrite Hc1 in Hcall.
  pose proof (eval_reports now b1 (same_trip_ok _ _ Hsame Hok)) as Hrep.
  rewrite Hcall in Hrep. destruct Hrep as [_ Hrep].
  inversion Hrep as [|? ? He|b2 r' Hst Hbad Hb' Hr Hw]; subst.
  destruct Hsame as (Hcfg & Hs & _ & _ & Hrec & _). rewrite Hcfg, Hrec in Hw. rewrite Hs in Hst.
  split_and!; [done|by apply Hhealthy|by apply Hok|].
  apply time_sub_ge in Hw; [done|].
  pose proof (RecoveryWindow_pos (cfg b)). unfold min_int64. lia.
Qed.

(** ** The panic latch *)

Lemma latched_call o now b :
  st b = stateTripped -> panicBad b = true ->
  let '(b', ts) := call o now b in st b' = stateTripped /\ panicBad b' = true /\ ts = [].
Proof.
  intros Hst Hp.
  assert (Hev : forall b1, st b1 = stateTripped -> panicBad b1 = true ->
    let '(b', ts) := evalLocked now b1 in st b' = stateTripped /\ panicBad b' = true /\ ts = []).
  { intros b1 Hst1 Hp1. unfold evalLocked, anyBad. rewrite Hst1, Hp1, !orb_true_r. cbn. auto. }
  destruct o; cbn [call];
    unfold RecordDropCount, RecordCriticalDropCount, RecordSinkFailure, RecordSinkSuccess,
      RecordPanic; apply Hev; cbn; rewrite ?Hp; auto. by destruct (_ <=? _).
Qed.

Lemma latched_run calls b :
  st b = stateTripped -> panicBad b = true ->
  exists b', run calls (Some b) = (Some b', []) /\ st b' = stateTripped.
Proof.
  revert b. induction calls as [|[o now] calls IH]; intros b Hst Hp; cbn [run method]; [eauto|].
  pose proof (latched_call o now b Hst Hp) as Hc.
  destruct (call o now b) as [b1 ts1]. destruct Hc as (Hst1 & Hp1 & ->).
  destruct (IH b1 Hst1 Hp1) as (b2 & -> & Hst2). eauto.
Qed.

(** A panic that reaches the threshold latches a breaker in any state. *)
Lemma latching_panic b t :
  PanicThresholdOrDefault (cfg b) <= panicCount b + 1 ->
  let '(b', ts) := RecordPanic t b in
  st b' = stateTripped /\ panicBad b' = true /\
  if engaged b then ts = [] else exists cs, ts = [(true, Some cs)] /\ panics (panicCount b + 1) ∈ cs.
Proof.
  intros Hthr. unfold RecordPanic. rewrite (proj2 (Z.leb_le _ _) Hthr).
  set (b1 := set_counts _ _ _ _ _).
  assert (anyBad b1 = true) as Hbad by (unfold anyBad; cbn; by rewrite orb_true_r).
  assert (forall c0 floor, let b2 := if (c0 : bool) then set_trip (st b1) (reason b1) (trippedAt b1) floor 0 b1 else b1 in
    anyBad b2 = true /\ panicBad b2 = true /\ panics (panicCount b + 1) ∈ currentReason b2) as Hb2.
  { intros [] floor; cbn zeta; (split_and!; [exact Hbad|done|]); unfold currentReason; cbn; rewrite !elem_of_app; do 3 right; by left. }
  unfold evalLocked. change (st b1) with (st b). unfold engaged. destruct (st b) eqn:Hst; [|rewrite Hbad..].
  - match goal with |- context [if ?c0 then set_trip _ _ _ ?f _ _ else _] => pose proof (Hb2 c0 f) as (Hany & Hp & Hin) end.
    change (st b1) with (st b) in *. rewrite Hst in *. set (b2 := if _ : bool then _ else b1) in *. rewrite Hany.
    unfold engageLocked. destruct (if flapping t b2 then _ else _) as [flaps floor].
    split_and!; [done|exact Hp|]. by eexists.
  - by split_and!.
  - by split_and!.
Qed.

(** C38: an engine panic that reaches the panic threshold, by default any engine panic, engages the breaker for
    good, whatever state it finds the breaker in: it is engaged then, and no later sequence of samples, successes
    and failures, over any length of time, clears it; the only transition reported is the engagement, naming the panics, if the breaker was healthy. *)
Theorem panic_never_clears (b0 : Breaker) (t : Z) (calls : list (op * Z)) :
  PanicThresholdOrDefault (cfg b0) <= panicCount b0 + 1 ->
  let '(b, ts) := run ((EnginePanic, t) :: calls) (Some b0) in
  Tripped b = true /\
  if Tripped (Some b0) then ts = [] else exists cs, ts = [(true, Some cs)] /\ panics (panicCount b0 + 1) ∈ cs.
Proof.
  intros Hthr. cbn [run method call]. pose proof (latching_panic b0 t Hthr) as Hl.
  destruct (RecordPanic t b0) as [b ts]. destruct Hl as (Hst & Hp & Hts).
  destruct (latched_run calls b Hst Hp) as (b' & -> & Hst'). rewrite app_nil_r. split; [cbn; by rewrite Hst'|].
  unfold engaged in Hts. cbn. by destruct (st b0).
Qed.
End facts.

(** ** Backoff *)

#[local] Existing Instance amd64_float_to_int.

(** The floor of the [n]-th consecutive flap under the default settings. *)
Definition default_floor (n : nat) : Z :=
  let floor := backoff n (f64 2) (30 * Second) in
  if 10 * Minute <? floor then 10 * Minute else floor.

(** A default breaker, healthy since a clear at instant 0, after [n] flaps. *)
Definition flapped (n : nat) : Breaker :=
  set_trip stateHealthy None 0 (30 * Second) n (set_cleared 0 (fresh default_fail_closed)).

Lemma flapped_flapping n now : 0 <= now < 150 * Second -> flapping now (flapped n) = true.
Proof.
  intros Hnow. unfold flapping. cbn [flapped lastCleared set_trip set_cleared].
  change (i64 (5 * RecoveryWindowOrDefault (cfg (flapped n)))) with (150 * Second).
  apply Z.ltb_lt. unfold time_sub, min_int64, max_int64, Second in *. lia.
Qed.

Lemma flapped_floor n now r :
  0 <= now < 150 * Second ->
  engageLocked now r (flapped n) =
    (set_trip stateTripped (Some r) now (default_floor (S n)) (S n) (flapped n), [(true, Some r)]).
Proof. intros Hnow. unfold engageLocked. rewrite flapped_flapping by done. reflexivity. Qed.

Lemma backoff_doubles_28 :
  forallb (fun n => default_floor n =? Z.min (30 * Second * 2 ^ Z.of_nat n) (10 * Minute))
    (seq 0 29) = true.
Proof. vm_compute. reflexivity. Qed.

(** With the default settings the trip floor doubles with each flap up to the
    ten-minute ceiling, for the first 28 consecutive flaps. *)
Theorem backoff_doubles (n : nat) (now : Z) (r : list cause) :
  (n < 28)%nat -> 0 <= now < 150 * Second ->
  effectiveMin (engageLocked now r (flapped n)).1 =
    Z.min (30 * Second * 2 ^ (Z.of_nat n + 1)) (10 * Minute).
Proof.
  intros Hn Hnow. rewrite flapped_floor by done. cbn [fst set_trip effectiveMin].
  pose proof backoff_doubles_28 as Hall. rewrite forallb_forall in Hall.
  assert (Hin : In (S n) (seq 0 29)) by (apply in_seq; lia).
  specialize (Hall _ Hin). apply Z.eqb_eq in Hall.
  rewrite Hall. do 3 f_equal. lia.
Qed.

(** On amd64 the 29th consecutive flap overflows the conversion to int64: the floor is
    negative, the ceiling does not catch it, and the next healthy sample already starts the
    recovery. *)
Theorem backoff_overflow (now : Z) (r : list cause) :
  0 <= now < 150 * Second ->
  let b := (engageLocked now r (flapped 28)).1 in
  effectiveMin b = min_int64 /\ st (RecordSinkSuccess now b).1 = stateRecovering.
Proof.
  intros Hnow. rewrite flapped_floor by done. cbv zeta. cbn [fst].
  change (default_floor 29) with (Z.opp (2 ^ 63)). split; [reflexivity|].
  unfold RecordSinkSuccess, evalLocked. cbn -[time_sub Z.pow].
  rewrite (proj2 (Z.ltb_ge _ _)); [reflexivity|]. apply Z.le_max_l.
Qed.

(** ** Concrete runs *)

(** A burst of 60 drops in a second, then health. *)
Definition burst : list (op * Z) :=
  [(DropSample 0, 0); (DropSample 60, Second); (DropSample 60, 2 * Second);
   (SinkSuccess, 40 * Second)].

Definition after_burst : Breaker :=
  default (fresh default_fail_closed) (run burst (New default_fail_closed)).1.

Lemma clear_is_earned_witness :
  st after_burst = stateRecovering /\ signals_healthy SinkSuccess after_burst (call SinkSuccess (70 * Second) after_burst).1 /\
  effectiveMin after_burst <= time_sub (recoveringAt after_burst) (trippedAt after_burst) /\
  30 * Second <= 70 * Second - recoveringAt after_burst.
Proof.
  exact (clear_is_earned default_fail_closed burst SinkSuccess (70 * Second) after_burst
           (call SinkSuccess (70 * Second) after_burst).1
           (run burst (New default_fail_closed)).2 (reason after_burst)
           ltac:(vm_compute; reflexivity) ltac:(vm_compute; reflexivity)).
Defined.

(** A breaker that is recovering from the burst when the engine panics. *)
Lemma panic_never_clears_witness :
  let '(b, ts) := run [(EnginePanic, 45 * Second); (SinkSuccess, 60 * Minute); (SinkSuccess, 120 * Minute)] (Some after_burst) in
  Tripped b = true /\ ts = [].
Proof.
  exact (panic_never_clears after_burst (45 * Second)
           [(SinkSuccess, 60 * Minute); (SinkSuccess, 120 * Minute)] ltac:(vm_compute; done)).
Defined.

Lemma backoff_doubles_witness :
  effectiveMin (engageLocked Second [panics 1] (flapped 3)).1 =
    Z.min (30 * Second * 2 ^ (Z.of_nat 3 + 1)) (10 * Minute).
Proof. apply (backoff_doubles 3 Second [panics 1]); unfold Second; lia. Defined.

Lemma backoff_overflow_witness :
  effectiveMin (engageLocked Second [panics 1] (flapped 28)).1 = min_int64.
Proof.
  exact (proj1 (backoff_overflow Second [panics 1] ltac:(unfold Second; lia))).
Defined.
