(* ===== verification/GoStrings.v ===== *)
(** * The functions of Go's package strings (and of strconv) the engine calls

    A Go string is its list of bytes; nothing here needs it to be valid UTF-8. The
    searching functions are specified by the decompositions of the string they find. *)

From stdpp Require Import pretty.
From S2P Require Import Prelude.

(** ** Searching *)

(** [len(s)] *)
Definition len {A} (s : list A) : Z := Z.of_nat (length s).

(** [strings.HasPrefix(s, p)] *)
Fixpoint HasPrefix (s p : bytes) {struct p} : bool :=
  match p, s with
  | [], _ => true
  | x :: p, y :: s => Byte.eqb x y && HasPrefix s p
  | _ :: _, [] => false
  end.

(** [strings.HasSuffix(s, p)] *)
Definition HasSuffix (s p : bytes) : bool := HasPrefix (reverse s) (reverse p).

(** [strings.Contains(s, sub)] *)
Fixpoint Contains (s sub : bytes) : bool :=
  HasPrefix s sub || match s with [] => false | _ :: s => Contains s sub end.

(** [strings.Index(s, sub)], [None] for -1 *)
Fixpoint Index (s sub : bytes) : option nat :=
  if HasPrefix s sub then Some 0%nat
  else match s with [] => None | _ :: s => S <$> Index s sub end.

(** [strings.LastIndex(s, sub)], [None] for -1 *)
Fixpoint LastIndex (s sub : bytes) : option nat :=
  match s with
  | [] => if HasPrefix s sub then Some 0%nat else None
  | _ :: s' =>
      match LastIndex s' sub with
      | Some i => Some (S i)
      | None => if HasPrefix s sub then Some 0%nat else None
      end
  end.

(** [strings.IndexByte(s, c)], [None] for -1 *)
Definition IndexByte (s : bytes) (c : byte) : option nat := Index s [c].

(** ** Replacing and joining *)

(** [strings.ReplaceAll(s, old, new)] for a non-empty [old]: non-overlapping
    occurrences from the left; [skip] bytes of the last one are still to be passed. *)
Fixpoint replace_from (skip : nat) (s old new : bytes) : bytes :=
  match s with
  | [] => []
  | c :: s' =>
      match skip with
      | S skip => replace_from skip s' old new
      | O =>
          if HasPrefix s old then new ++ replace_from (length old - 1) s' old new
          else c :: replace_from 0 s' old new
      end
  end.

Definition ReplaceAll (s old new : bytes) : bytes := replace_from 0 s old new.

(** [strings.Join(elems, sep)] *)
Fixpoint Join (elems : list bytes) (sep : bytes) : bytes :=
  match elems with
  | [] => []
  | [e] => e
  | e :: elems => e ++ sep ++ Join elems sep
  end.

(** ** Trimming *)

Fixpoint drop_while (p : byte -> bool) (s : bytes) : bytes :=
  match s with
  | [] => []
  | c :: s' => if p c then drop_while p s' else s
  end.

(** [strings.TrimRight(s, cutset)] for an ASCII cutset *)
Definition TrimRight (s cutset : bytes) : bytes :=
  reverse (drop_while (λ c, existsb (Byte.eqb c) cutset) (reverse s)).

(** [strings.TrimSuffix(s, suffix)] *)
Definition TrimSuffix (s suffix : bytes) : bytes :=
  if HasSuffix s suffix then take (length s - length suffix) s else s.

(** unicode.IsSpace on the UTF-8 encodings of one, two and three bytes:
    U+0009..000D, U+0020; U+0085, U+00A0; U+1680, U+2000..200A, U+2028, U+2029,
    U+202F, U+205F, U+3000. *)
Definition space1 (c : byte) : bool :=
  let z := byte_Z c in ((9 <=? z) && (z <=? 13)) || (z =? 32).

Definition space2 (c d : byte) : bool :=
  (byte_Z c =? 0xc2) && ((byte_Z d =? 0x85) || (byte_Z d =? 0xa0)).

Definition space3 (c d e : byte) : bool :=
  let '(c, d, e) := (byte_Z c, byte_Z d, byte_Z e) in
  ((c =? 0xe1) && (d =? 0x9a) && (e =? 0x80)) ||
  ((c =? 0xe2) && (d =? 0x80) &&
     (((0x80 <=? e) && (e <=? 0x8a)) || (e =? 0xa8) || (e =? 0xa9) || (e =? 0xaf))) ||
  ((c =? 0xe2) && (d =? 0x81) && (e =? 0x9f)) ||
  ((c =? 0xe3) && (d =? 0x80) && (e =? 0x80)).

(** Drop the space encodings the string starts with. *)
Fixpoint skip_spaces (sp2 : byte -> byte -> bool) (sp3 : byte -> byte -> byte -> bool)
    (s : bytes) : bytes :=
  match s with
  | [] => []
  | c :: s1 =>
      if space1 c then skip_spaces sp2 sp3 s1 else
      match s1 with
      | [] => s
      | d :: s2 =>
          if sp2 c d then skip_spaces sp2 sp3 s2 else
          match s2 with
          | [] => s
          | e :: s3 => if sp3 c d e then skip_spaces sp2 sp3 s3 else s
          end
      end
  end.

(** [strings.TrimSpace(s)]: a space encoding is a suffix of the string exactly when
    utf8.DecodeLastRune finds that space, so the right end is trimmed on the reversed
    bytes. *)
Definition TrimSpace (s : bytes) : bytes :=
  let s := skip_spaces space2 space3 s in
  reverse (skip_spaces (λ d c, space2 c d) (λ e d c, space3 c d e) (reverse s)).

(** ** Decimal numbers: package strconv and the verb %d *)

Definition Itoa (z : Z) : bytes := gostr (pretty z).

Fixpoint digits (acc : Z) (s : bytes) : option Z :=
  match s with
  | [] => Some acc
  | c :: s => let d := byte_Z c - 48 in if (0 <=? d) && (d <=? 9) then digits (10 * acc + d) s else None
  end.

(** [strconv.ParseUint(s, 10, 64)] and [strconv.Atoi(s)]; [None] is the error. *)
Definition ParseUint (s : bytes) : option Z :=
  match s with [] => None | _ => z ← digits 0 s; if z <? 2 ^ 64 then Some z else None end.

Definition Atoi (s : bytes) : option Z :=
  let '(sign, s) := match s with x2b :: s => (1, s) | x2d :: s => (-1, s) | _ => (1, s) end in
  match s with [] => None | _ => z ← digits 0 s; if (- 2 ^ 63 <=? sign * z) && (sign * z <? 2 ^ 63) then Some (sign * z) else None end.

(** ** Specifications *)

(** [sub] occurs in [s]. *)
Definition infix (sub s : bytes) : Prop := exists a b, s = a ++ sub ++ b.

Lemma byte_eqb_spec (x y : byte) : Byte.eqb x y = true <-> x = y.
Proof. split; [apply Byte.byte_dec_bl|apply Byte.byte_dec_lb]. Qed.

Lemma HasPrefix_spec s p : HasPrefix s p = true <-> exists t, s = p ++ t.
Proof.
  revert s. induction p as [|x p IH]; intros s; cbn.
  { split; [by exists s|done]. }
  destruct s as [|y s]; [by split; [|intros [t Ht]]|].
  rewrite andb_true_iff, byte_eqb_spec, IH. split.
  - intros [-> [t ->]]. by exists t.
  - intros [t [= -> ->]]. split; [done|by exists t].
Qed.

Lemma HasPrefix_app p t : HasPrefix (p ++ t) p = true.
Proof. apply HasPrefix_spec. by exists t. Qed.

Lemma HasSuffix_spec s p : HasSuffix s p = true <-> exists t, s = t ++ p.
Proof.
  unfold HasSuffix. rewrite HasPrefix_spec. split; intros [t Ht].
  - exists (reverse t). apply (f_equal reverse) in Ht.
    by rewrite reverse_app, !reverse_involutive in Ht.
  - exists (reverse t). by rewrite Ht, reverse_app.
Qed.

Lemma Contains_spec s sub : Contains s sub = true <-> infix sub s.
Proof.
  induction s as [|c s IH]; cbn [Contains]; rewrite orb_true_iff, HasPrefix_spec.
  - split.
    + intros [[t Ht]|?]; [by exists [], t|done].
    + intros (a & b & H). left. exists b. destruct a; [done|discriminate].
  - rewrite IH. split.
    + intros [[t Ht]|(a & b & ->)]; [by exists [], t|by exists (c :: a), b].
    + intros ([|x a] & b & H); [left; by exists b|].
      injection H as -> ->. right. by exists a, b.
Qed.

Lemma infix_refl s : infix s s.
Proof. exists [], []. by rewrite app_nil_r. Qed.

Lemma infix_app sub a s b : infix sub s -> infix sub (a ++ s ++ b).
Proof. intros (x & y & ->). exists (a ++ x), (y ++ b). by rewrite !app_assoc. Qed.

Lemma infix_app_l sub a s : infix sub s -> infix sub (a ++ s).
Proof. intros H. apply (infix_app _ a _ []) in H. by rewrite app_nil_r in H. Qed.

Lemma infix_app_r sub s b : infix sub s -> infix sub (s ++ b).
Proof. apply (infix_app _ []). Qed.

Lemma infix_trans a b c : infix a b -> infix b c -> infix a c.
Proof. intros H (x & y & ->). by apply infix_app. Qed.

Lemma infix_length sub s : infix sub s -> (length sub <= length s)%nat.
Proof. intros (a & b & ->). rewrite !length_app. lia. Qed.

Lemma infix_slice lo hi s : infix (slice lo hi s) s.
Proof.
  exists (take lo s), (drop (hi - lo) (drop lo s)). unfold slice. by rewrite !take_drop.
Qed.

Lemma Contains_self s : Contains s s = true.
Proof. apply Contains_spec, infix_refl. Qed.

Create HintDb infix.
#[export] Hint Resolve infix_refl infix_app_l infix_app_r infix_slice : infix.

Lemma Index_Some s sub i :
  Index s sub = Some i -> exists t, drop i s = sub ++ t /\ (i <= length s)%nat.
Proof.
  revert i. induction s as [|c s IH]; intros i; cbn [Index].
  - destruct (HasPrefix [] sub) eqn:E; [|discriminate]. intros [= <-].
    apply HasPrefix_spec in E as [t Ht]. exists t. rewrite drop_0. done.
  - destruct (HasPrefix (c :: s) sub) eqn:E.
    + intros [= <-]. apply HasPrefix_spec in E as [t Ht]. exists t.
      rewrite drop_0, Ht. split; [done|lia].
    + destruct (Index s sub) as [j|] eqn:Ej; [|discriminate]. intros [= <-].
      destruct (IH j eq_refl) as (t & Ht & Hl). exists t. cbn. split; [done|lia].
Qed.

Lemma Index_None s sub : Index s sub = None -> Contains s sub = false.
Proof.
  induction s as [|c s IH]; cbn [Index Contains].
  - by destruct (HasPrefix [] sub).
  - destruct (HasPrefix (c :: s) sub); [done|]. cbn.
    destruct (Index s sub); [done|]. intros _. by apply IH.
Qed.

(** *** ReplaceAll *)

Lemma replace_skip k s old new : replace_from k s old new = replace_from 0 (drop k s) old new.
Proof. revert k. induction s as [|c s IH]; intros [|k]; cbn; [done..|]. apply IH. Qed.

(** A replaced occurrence and a byte passed over. *)
Lemma ReplaceAll_hit old t new :
  old ≠ [] -> ReplaceAll (old ++ t) old new = new ++ ReplaceAll t old new.
Proof.
  intros Hne. unfold ReplaceAll. destruct old as [|x old]; [done|]. cbn [app replace_from].
  rewrite (HasPrefix_app (x :: old) t : HasPrefix (x :: old ++ t) (x :: old) = true).
  cbn [length]. rewrite replace_skip. f_equal. f_equal. rewrite Nat.sub_1_r.
  apply drop_app_length.
Qed.

Lemma ReplaceAll_miss c s old new :
  HasPrefix (c :: s) old = false ->
  ReplaceAll (c :: s) old new = c :: ReplaceAll s old new.
Proof. intros H. unfold ReplaceAll. cbn [replace_from]. by rewrite H. Qed.

Lemma ReplaceAll_absent s old new : Contains s old = false -> ReplaceAll s old new = s.
Proof.
  induction s as [|c s IH]; cbn [Contains]; [done|].
  intros [Hp Hc]%orb_false_iff. by rewrite ReplaceAll_miss, IH.
Qed.

Lemma Join_nil elems : Join elems [] = mjoin elems.
Proof.
  induction elems as [|e [|f elems] IH]; [done|cbn; by rewrite app_nil_r|].
  change (Join (e :: f :: elems) []) with (e ++ [] ++ Join (f :: elems) []).
  by rewrite IH.
Qed.

Lemma Join_infix e elems sep : e ∈ elems -> infix e (Join elems sep).
Proof.
  induction elems as [|f [|g elems] IH]; intros He.
  - by apply elem_of_nil in He.
  - apply list_elem_of_singleton in He as ->. apply infix_refl.
  - change (Join (f :: g :: elems) sep) with (f ++ sep ++ Join (g :: elems) sep).
    apply elem_of_cons in He as [->|He]; [apply infix_app_r, infix_refl|].
    rewrite app_assoc. by apply infix_app_l, IH.
Qed.

(** *** Trimming *)

Lemma drop_while_suffix p s : exists t, s = t ++ drop_while p s.
Proof.
  induction s as [|c s [t Ht]]; cbn; [by exists []|].
  destruct (p c); [exists (c :: t); by rewrite Ht at 1|by exists []].
Qed.

Lemma drop_while_id p c s : p c = false -> drop_while p (c :: s) = c :: s.
Proof. cbn. by intros ->. Qed.

Lemma TrimRight_prefix s cut : exists t, s = TrimRight s cut ++ t.
Proof.
  unfold TrimRight. destruct (drop_while_suffix (λ c, existsb (Byte.eqb c) cut) (reverse s)) as [t Ht].
  exists (reverse t). apply (f_equal reverse) in Ht.
  by rewrite reverse_involutive, reverse_app in Ht.
Qed.

Lemma skip_spaces_suffix sp2 sp3 s : exists t, s = t ++ skip_spaces sp2 sp3 s.
Proof.
  induction s as [s IH] using (induction_ltof1 _ length). unfold ltof in IH.
  destruct s as [|c s1]; [by exists []|]. cbn [skip_spaces]. destruct (space1 c).
  { destruct (IH s1) as [t Ht]; [cbn; lia|]. exists (c :: t). by rewrite Ht at 1. }
  destruct s1 as [|d s2]; [by exists []|]. destruct (sp2 c d).
  { destruct (IH s2) as [t Ht]; [cbn; lia|]. exists (c :: d :: t). by rewrite Ht at 1. }
  destruct s2 as [|e s3]; [by exists []|]. destruct (sp3 c d e).
  { destruct (IH s3) as [t Ht]; [cbn; lia|]. exists (c :: d :: e :: t). by rewrite Ht at 1. }
  by exists [].
Qed.

Lemma TrimSpace_infix s : infix (TrimSpace s) s.
Proof.
  unfold TrimSpace. set (u := skip_spaces space2 space3 s).
  destruct (skip_spaces_suffix space2 space3 s) as [t Ht]. fold u in Ht.
  destruct (skip_spaces_suffix (λ d c, space2 c d) (λ e d c, space3 c d e) (reverse u)) as [v Hv].
  exists t, (reverse v). rewrite Ht at 1. f_equal. apply (f_equal reverse) in Hv.
  by rewrite reverse_involutive, reverse_app in Hv.
Qed.

(** Nothing is trimmed from a string of graphic ASCII bytes. *)
Definition graphic (c : byte) : bool := (32 <? byte_Z c) && (byte_Z c <? 127).

Lemma graphic_not_space1 c : graphic c = true -> space1 c = false.
Proof. unfold graphic, space1. intros. lia. Qed.

Lemma graphic_not_space2 c d : graphic c = true -> space2 c d = false.
Proof. unfold graphic, space2. intros. lia. Qed.

Lemma graphic_not_space2' c d : graphic d = true -> space2 c d = false.
Proof. unfold graphic, space2. intros. lia. Qed.

Lemma graphic_not_space3 c d e : graphic c = true -> space3 c d e = false.
Proof. unfold graphic, space3. intros. lia. Qed.

Lemma graphic_not_space3' c d e : graphic e = true -> space3 c d e = false.
Proof. unfold graphic, space3. intros. lia. Qed.

Lemma skip_spaces_id sp2 sp3 s :
  (forall c, head s = Some c ->
    space1 c = false /\ (forall d, sp2 c d = false) /\ (forall d e, sp3 c d e = false)) ->
  skip_spaces sp2 sp3 s = s.
Proof.
  destruct s as [|c [|d [|e s]]]; intros H; [done|..];
    destruct (H c eq_refl) as (H1 & H2 & H3); cbn; by rewrite H1, ?H2, ?H3.
Qed.

Lemma TrimSpace_graphic s : forallb graphic s = true -> TrimSpace s = s.
Proof.
  rewrite forallb_forall. intros H. unfold TrimSpace.
  rewrite (skip_spaces_id space2).
  2: { intros c Hc. assert (graphic c = true) by (apply H; destruct s; [done|left; by injection Hc]).
       split_and!; intros;
       [by apply graphic_not_space1|by apply graphic_not_space2|by apply graphic_not_space3]. }
  rewrite skip_spaces_id; [by rewrite reverse_involutive|].
  intros c Hc. assert (graphic c = true).
  { apply H, list_elem_of_In, elem_of_reverse.
    destruct (reverse s); [done|]. injection Hc as ->. by left. }
  split_and!; intros;
    [by apply graphic_not_space1|by apply graphic_not_space2'|by apply graphic_not_space3'].
Qed.

(** *** Decimal numbers *)

Lemma gostr_inj s t : gostr s = gostr t -> s = t.
Proof.
  unfold gostr. intros H.
  rewrite <- (String.string_of_list_byte_of_string s), <- (String.string_of_list_byte_of_string t).
  by rewrite H.
Qed.

Lemma Itoa_inj x y : Itoa x = Itoa y -> x = y.
Proof. unfold Itoa. intros H%gostr_inj. by apply (inj pretty) in H. Qed.

Lemma pretty_N_go_nonempty x s : s ≠ EmptyString -> pretty_N_go x s ≠ EmptyString.
Proof.
  revert s. induction (N.lt_wf_0 x) as [x _ IH]. intros s Hs.
  assert (x = 0 \/ 0 < x)%N as [->|Hx] by lia; [by rewrite pretty_N_go_0|].
  rewrite pretty_N_go_step by done. apply IH; [by apply N.div_lt|done].
Qed.

Lemma Itoa_nonempty z : Itoa z ≠ [].
Proof.
  unfold Itoa. intros E. change [] with (gostr EmptyString) in E. apply gostr_inj in E.
  assert (forall p, pretty (N.pos p) ≠ EmptyString) as Hp.
  { intros p. unfold pretty, pretty_N. rewrite decide_False by done.
    rewrite pretty_N_go_step by done. by apply pretty_N_go_nonempty. }
  destruct z; [done|by apply Hp in E|done].
Qed.

Example replace_ex : ReplaceAll (gostr "aXbXXc") (gostr "X") (gostr "--") = gostr "a--b----c".
Proof. reflexivity. Qed.

Example replace_overlap_ex : ReplaceAll (gostr "aaaaa") (gostr "aa") (gostr "b") = gostr "bba".
Proof. reflexivity. Qed.

Example trim_ex : TrimSpace ([xc2; xa0; x20] ++ gostr "a b" ++ [x0a; xe2; x80; x83]) = gostr "a b".
Proof. reflexivity. Qed.

Example itoa_ex : Itoa (-1207) = gostr "-1207".
Proof. reflexivity. Qed.
