(* ===== verification/Encodings.v ===== *)
(** * internal/engine/encoding.go: the canonical encodings of a tainted value

    encoding/base64 (standard alphabet, padded and raw), encoding/hex, net/url's
    QueryEscape and crypto/sha256 are written out; the compressors are parameters. *)

From S2P Require Import Prelude GoStrings.

(** ** encoding/hex *)

Definition hex_digit (z : Z) : byte := Z_byte (if z <? 10 then 48 + z else 87 + z).

Fixpoint hex_encode (s : bytes) : bytes :=
  match s with
  | [] => []
  | c :: s => hex_digit (byte_Z c / 16) :: hex_digit (byte_Z c mod 16) :: hex_encode s
  end.

Definition from_hex (c : byte) : option Z :=
  let z := byte_Z c in
  if (48 <=? z) && (z <=? 57) then Some (z - 48)
  else if (97 <=? z) && (z <=? 102) then Some (z - 87)
  else if (65 <=? z) && (z <=? 70) then Some (z - 55)
  else None.

(** [hex.DecodeString(s)] *)
Fixpoint hex_decode (s : bytes) : option bytes :=
  match s with
  | [] => Some []
  | a :: b :: s =>
      x ← from_hex a; y ← from_hex b; r ← hex_decode s; Some (Z_byte (16 * x + y) :: r)
  | [_] => None
  end.

(** ** encoding/base64 *)

Definition b64_digit (z : Z) : byte :=
  Z_byte (if z <? 26 then 65 + z else if z <? 52 then 71 + z
          else if z <? 62 then z - 4 else if z =? 62 then 43 else 47).

Definition from_b64 (c : byte) : option Z :=
  let z := byte_Z c in
  if (65 <=? z) && (z <=? 90) then Some (z - 65)
  else if (97 <=? z) && (z <=? 122) then Some (z - 71)
  else if (48 <=? z) && (z <=? 57) then Some (z + 4)
  else if z =? 43 then Some 62
  else if z =? 47 then Some 63
  else None.

(** [base64.StdEncoding.EncodeToString(s)] *)
Fixpoint b64_encode (s : bytes) : bytes :=
  match s with
  | [] => []
  | [a] =>
      let v := byte_Z a in [b64_digit (v / 4); b64_digit (v mod 4 * 16); x3d; x3d]
  | [a; b] =>
      let v := 256 * byte_Z a + byte_Z b in
      [b64_digit (v / 1024); b64_digit (v / 16 mod 64); b64_digit (v mod 16 * 4); x3d]
  | a :: b :: c :: s =>
      let v := 65536 * byte_Z a + 256 * byte_Z b + byte_Z c in
      b64_digit (v / 262144) :: b64_digit (v / 4096 mod 64) ::
      b64_digit (v / 64 mod 64) :: b64_digit (v mod 64) :: b64_encode s
  end.

(** One quantum of [decodeQuantum]: its first one, two or three bytes. Trailing bits are
    not checked (the encodings used are not Strict). *)
Definition quantum (n : nat) (a b c d : Z) : bytes :=
  take n [Z_byte (a * 4 + b / 16); Z_byte (b * 16 + c / 4); Z_byte (c * 64 + d)].

(** [DecodeString] without the line breaks it ignores; [pad] is false for RawStdEncoding. *)
Fixpoint b64_quanta (pad : bool) (s : bytes) : option bytes :=
  match s with
  | [] => Some []
  | [_] => None
  | [a; b] =>
      if pad then None else x ← from_b64 a; y ← from_b64 b; Some (quantum 1 x y 0 0)
  | [a; b; c] =>
      if pad then None
      else x ← from_b64 a; y ← from_b64 b; z ← from_b64 c; Some (quantum 2 x y z 0)
  | a :: b :: c :: d :: s' =>
      x ← from_b64 a; y ← from_b64 b;
      if pad && Byte.eqb c x3d then
        if Byte.eqb d x3d && bool_decide (s' = []) then Some (quantum 1 x y 0 0) else None
      else
        z ← from_b64 c;
        if pad && Byte.eqb d x3d then
          if bool_decide (s' = []) then Some (quantum 2 x y z 0) else None
        else w ← from_b64 d; r ← b64_quanta pad s'; Some (quantum 3 x y z w ++ r)
  end.

Definition line_break (c : byte) : bool := Byte.eqb c x0a || Byte.eqb c x0d.

Definition b64_decode (pad : bool) (s : bytes) : option bytes :=
  b64_quanta pad (List.filter (λ c, negb (line_break c)) s).

(** ** net/url *)

Definition unreserved (c : byte) : bool :=
  let z := byte_Z c in
  ((65 <=? z) && (z <=? 90)) || ((97 <=? z) && (z <=? 122)) || ((48 <=? z) && (z <=? 57)) ||
  (z =? 45) || (z =? 95) || (z =? 46) || (z =? 126).

Definition upper_hex (z : Z) : byte := Z_byte (if z <? 10 then 48 + z else 55 + z).

(** [url.QueryEscape(s)] *)
Fixpoint QueryEscape (s : bytes) : bytes :=
  match s with
  | [] => []
  | c :: s =>
      (if unreserved c then [c]
       else if Byte.eqb c x20 then [x2b]
       else [x25; upper_hex (byte_Z c / 16); upper_hex (byte_Z c mod 16)]) ++ QueryEscape s
  end.

(** ** crypto/sha256 *)

Definition rotr (n x : Z) : Z :=
  Z.lor (Z.shiftr x n) (u32 (Z.shiftl x (32 - n))).

(** The constants are the first 32 bits of the fractional parts of the cube roots and square
    roots of the first primes. *)
Definition primes_below (n : nat) : list Z :=
  List.filter (λ p, forallb (λ d, negb (p mod d =? 0)) (map Z.of_nat (seq 2 (Z.to_nat p - 2))))
    (map Z.of_nat (seq 2 (n - 2))).

(** The integer cube root, bit by bit from [2^n] down. *)
Fixpoint cube_root (n : nat) (r x : Z) : Z :=
  match n with
  | O => r
  | S n => let r' := r + 2 ^ Z.of_nat n in cube_root n (if r' * r' * r' <=? x then r' else r) x
  end.

Definition K256 : list Z :=
  Eval vm_compute in map (λ p, u32 (cube_root 40 0 (p * 2 ^ 96))) (primes_below 312).

Definition H256 : list Z :=
  Eval vm_compute in map (λ p, u32 (Z.sqrt (p * 2 ^ 64))) (take 8 (primes_below 20)).

(** The message schedule, latest word first. *)
Fixpoint schedule (n : nat) (w : list Z) : list Z :=
  match n with
  | O => w
  | S n =>
      let '(w2, w7, w15, w16) := (nth 1 w 0, nth 6 w 0, nth 14 w 0, nth 15 w 0) in
      let s1 := Z.lxor (Z.lxor (rotr 17 w2) (rotr 19 w2)) (Z.shiftr w2 10) in
      let s0 := Z.lxor (Z.lxor (rotr 7 w15) (rotr 18 w15)) (Z.shiftr w15 3) in
      schedule n (u32 (s1 + w7 + s0 + w16) :: w)
  end.

Definition round256 (h : list Z) (kw : Z * Z) : list Z :=
  match h with
  | [a; b; c; d; e; f; g; i] =>
      let s1 := Z.lxor (Z.lxor (rotr 6 e) (rotr 11 e)) (rotr 25 e) in
      let ch := Z.lxor (Z.land e f) (Z.land (0xffffffff - e) g) in
      let t1 := i + s1 + ch + kw.1 + kw.2 in
      let s0 := Z.lxor (Z.lxor (rotr 2 a) (rotr 13 a)) (rotr 22 a) in
      let maj := Z.lxor (Z.lxor (Z.land a b) (Z.land a c)) (Z.land b c) in
      [u32 (t1 + s0 + maj); a; b; c; u32 (d + t1); e; f; g]
  | _ => h
  end.

Fixpoint be_words (s : bytes) : list Z :=
  match s with
  | a :: b :: c :: d :: s => le_Z [d; c; b; a] :: be_words s
  | _ => []
  end.

Definition block256 (h : list Z) (block : bytes) : list Z :=
  let w := reverse (schedule 48 (reverse (be_words block))) in
  zip_with (λ x y, u32 (x + y)) h (foldl round256 h (zip K256 w)).

Fixpoint blocks256 (n : nat) (h : list Z) (s : bytes) : list Z :=
  match n with
  | O => h
  | S n => blocks256 n (block256 h (take 64 s)) (drop 64 s)
  end.

Definition pad256 (s : bytes) : bytes :=
  s ++ x80 :: replicate (Z.to_nat ((55 - Z.of_nat (length s)) mod 64)) x00 ++
  reverse (le_bytes 8 (8 * Z.of_nat (length s))).

(** [sha256.Sum256(s)] *)
Definition Sum256 (s : bytes) : bytes :=
  let p := pad256 s in
  concat (map (λ x, reverse (le_bytes 4 x)) (blocks256 (length p / 64) H256 p)).

(** [HashValue] of taint.go *)
Definition HashValue (value : bytes) : bytes := hex_encode (Sum256 value).

(** ** CanonicalEncodings *)

(** [model.ReverseString]: the bytes are swapped pairwise from the ends. *)
Definition ReverseString (s : bytes) : bytes := reverse s.

(** [TaintedVariant] of model.go *)
Record TaintedVariant := { Form : bytes; vValue : bytes }.

#[export] Instance TaintedVariant_eq_dec : EqDecision TaintedVariant.
Proof. solve_decision. Defined.

Definition FormLiteral := gostr "literal".
Definition FormBase64 := gostr "base64".
Definition FormHex := gostr "hex".
Definition FormURLEncoded := gostr "url_encoded".
Definition FormReversed := gostr "reversed".
Definition FormBase64Hex := gostr "base64_hex".
Definition FormHexBase64 := gostr "hex_base64".
Definition FormBase64URL := gostr "base64_url".
Definition FormBase64Rev := gostr "base64_reversed".
Definition FormGzipBase64 := gostr "gzip_base64".
Definition FormBrotliBase64 := gostr "brotli_base64".
Definition FormZstdBase64 := gostr "zstd_base64".
Definition FormLZ4Base64 := gostr "lz4_base64".

(** The compressed bytes of compress/gzip, andybalholm/brotli, klauspost/compress/zstd and
    pierrec/lz4; [None] for an error of a writer. *)
Class Compressors := {
  gzip : bytes -> option bytes;
  brotli : bytes -> option bytes;
  zstd : bytes -> option bytes;
  lz4 : bytes -> option bytes
}.

Definition gzipBase64 `{Compressors} (value : bytes) : option bytes := b64_encode <$> gzip value.
Definition brotliBase64 `{Compressors} (value : bytes) : option bytes := b64_encode <$> brotli value.
Definition zstdBase64 `{Compressors} (value : bytes) : option bytes := b64_encode <$> zstd value.
Definition lz4Base64 `{Compressors} (value : bytes) : option bytes := b64_encode <$> lz4 value.

Definition variant (form value : bytes) : TaintedVariant := {| Form := form; vValue := value |}.

(** [append(out, ...)] when the compressor gave no error *)
Definition variant_of (form : bytes) (r : option bytes) : list TaintedVariant :=
  match r with Some v => [variant form v] | None => [] end.

Definition CanonicalEncodings `{Compressors} (value : bytes) : list TaintedVariant :=
  match value with
  | [] => []
  | _ =>
      let b64 := b64_encode value in
      let hx := hex_encode value in
      let ue := QueryEscape value in
      let rev := ReverseString value in
      [ variant FormLiteral value; variant FormBase64 b64; variant FormHex hx;
        variant FormURLEncoded ue; variant FormReversed rev;
        variant FormBase64Hex (b64_encode hx); variant FormHexBase64 (hex_encode b64);
        variant FormBase64URL (b64_encode ue); variant FormBase64Rev (b64_encode rev) ] ++
      variant_of FormGzipBase64 (gzipBase64 value) ++
      variant_of FormBrotliBase64 (brotliBase64 value) ++
      variant_of FormZstdBase64 (zstdBase64 value) ++
      variant_of FormLZ4Base64 (lz4Base64 value)
  end.
