(* ===== verification/EncodingFacts.v ===== *)
(** * Facts about the encodings: round trips and alphabets *)

From S2P Require Import Prelude GoStrings Encodings.

(** ** Small tables, checked by evaluation *)

Definition upto (n : nat) : list Z := map Z.of_nat (seq 0 n).

Lemma upto_in n z : 0 <= z < Z.of_nat n -> In z (upto n).
Proof.
  intros. apply in_map_iff. exists (Z.to_nat z). split; [lia|]. apply in_seq. lia.
Qed.

Lemma upto_all n (p : Z -> bool) z :
  forallb p (upto n) = true -> 0 <= z < Z.of_nat n -> p z = true.
Proof. rewrite forallb_forall. intros H Hz. by apply H, upto_in. Qed.

Definition gives (o : option Z) (z : Z) : bool :=
  match o with Some y => y =? z | None => false end.

Lemma gives_spec o z : gives o z = true -> o = Some z.
Proof. destruct o; cbn; [|done]. by intros ->%Z.eqb_eq. Qed.

Lemma from_hex_digit z : 0 <= z < 16 -> from_hex (hex_digit z) = Some z.
Proof.
  intros Hz. apply gives_spec, (upto_all 16 (λ z, gives (from_hex (hex_digit z)) z));
    [vm_compute; reflexivity|lia].
Qed.

Lemma hex_digit_graphic z : 0 <= z < 16 -> graphic (hex_digit z) = true.
Proof.
  intros Hz. apply (upto_all 16 (λ z, graphic (hex_digit z))); [vm_compute; reflexivity|lia].
Qed.

(** A base64 digit decodes back and is neither padding nor a line break. *)
Lemma b64_digit_facts z : 0 <= z < 64 ->
  from_b64 (b64_digit z) = Some z /\ Byte.eqb (b64_digit z) x3d = false /\
  line_break (b64_digit z) = false /\ graphic (b64_digit z) = true.
Proof.
  intros Hz.
  pose (p := λ z, gives (from_b64 (b64_digit z)) z && (negb (Byte.eqb (b64_digit z) x3d) &&
    (negb (line_break (b64_digit z)) && graphic (b64_digit z)))).
  assert (p z = true) as H by (apply (upto_all 64); [vm_compute; reflexivity|lia]).
  apply andb_prop in H as [H1%gives_spec H]. apply andb_prop in H as [H2%negb_true_iff H].
  by apply andb_prop in H as [H3%negb_true_iff H4].
Qed.

Lemma from_b64_digit z : 0 <= z < 64 -> from_b64 (b64_digit z) = Some z.
Proof. apply b64_digit_facts. Qed.

Lemma b64_digit_not_pad z : 0 <= z < 64 -> Byte.eqb (b64_digit z) x3d = false.
Proof. apply b64_digit_facts. Qed.

Lemma b64_digit_graphic z : 0 <= z < 64 -> graphic (b64_digit z) = true.
Proof. apply b64_digit_facts. Qed.

(** ** Hexadecimal *)

Lemma nibbles c : 0 <= byte_Z c / 16 < 16 /\ 0 <= byte_Z c mod 16 < 16.
Proof. pose proof (byte_Z_bound c). Z.to_euclidean_division_equations. lia. Qed.

Lemma hex_decode_encode s : hex_decode (hex_encode s) = Some s.
Proof.
  induction s as [|c s IH]; cbn [hex_encode hex_decode]; [done|].
  destruct (nibbles c). rewrite !from_hex_digit by done.
  cbn. rewrite IH. cbn. do 2 f_equal. rewrite <- (Z.div_mod (byte_Z c) 16) by lia.
  apply Z_byte_Z.
Qed.

Lemma length_hex_encode s : length (hex_encode s) = (2 * length s)%nat.
Proof. induction s; cbn in *; lia. Qed.

Lemma hex_encode_graphic s : forallb graphic (hex_encode s) = true.
Proof.
  induction s as [|c s IH]; [done|]. cbn [hex_encode forallb]. destruct (nibbles c).
  by rewrite !hex_digit_graphic, IH.
Qed.

(** The letter i is no digit. *)
Lemma hex_encode_no_i s : x69 ∉ hex_encode s.
Proof.
  induction s as [|c s IH]; [apply not_elem_of_nil|]. cbn [hex_encode]. destruct (nibbles c) as [H1 H2].
  assert (forall z, 0 <= z < 16 -> hex_digit z ≠ x69) as Hd.
  { intros z Hz E. assert (Byte.eqb (hex_digit z) x69 = false) as E'
      by (apply (upto_all 16 (λ z, negb (Byte.eqb (hex_digit z) x69))) in Hz as ?%negb_true_iff; [done|vm_compute; reflexivity]).
    rewrite E in E'. done. }
  rewrite !not_elem_of_cons. split_and!; [by apply not_eq_sym, Hd..|done].
Qed.

(** ** Base64 *)

Lemma Z_byte_eq z b : z mod 256 = byte_Z b -> Z_byte z = b.
Proof.
  intros H. rewrite <- (Z_byte_Z b), <- H. unfold Z_byte. by rewrite Z.mod_mod by lia.
Qed.

(** The three bytes of a quantum, from its four sextets; fewer bytes read as zeros. *)
Lemma quantum_bytes n a b c :
  let v := 65536 * byte_Z a + 256 * byte_Z b + byte_Z c in
  quantum n (v / 262144) (v / 4096 mod 64) (v / 64 mod 64) (v mod 64) = take n [a; b; c].
Proof.
  pose proof (byte_Z_bound a); pose proof (byte_Z_bound b); pose proof (byte_Z_bound c).
  intros v. unfold quantum. f_equal.
  assert (v / 262144 * 4 + v / 4096 mod 64 / 16 = byte_Z a) as ->.
  { unfold v. Z.to_euclidean_division_equations. lia. }
  rewrite Z_byte_Z. f_equal. f_equal; [|f_equal]; apply Z_byte_eq.
  - unfold v. Z.to_euclidean_division_equations. lia.
  - unfold v. Z.to_euclidean_division_equations. lia.
Qed.

(** The sextets of a quantum are in range. *)
Lemma sextets v : 0 <= v < 16777216 ->
  0 <= v / 262144 < 64 /\ 0 <= v / 4096 mod 64 < 64 /\ 0 <= v / 64 mod 64 < 64 /\
  0 <= v mod 64 < 64.
Proof. intros. Z.to_euclidean_division_equations. lia. Qed.

(** Induction by groups of three bytes. *)
Lemma groups_ind (P : bytes -> Prop) :
  P [] -> (forall a, P [a]) -> (forall a b, P [a; b]) ->
  (forall a b c s, P s -> P (a :: b :: c :: s)) -> forall s, P s.
Proof.
  intros H0 H1 H2 H3 s. induction s as [s IH] using (induction_ltof1 _ length).
  unfold ltof in IH. destruct s as [|a [|b [|c s]]]; auto. apply H3, IH. cbn. lia.
Qed.

(** The shorter last groups are the sextets of the group completed with zeros. *)
Lemma b64_encode_1 a :
  let v := 65536 * byte_Z a + 256 * byte_Z x00 + byte_Z x00 in
  b64_encode [a] = [b64_digit (v / 262144); b64_digit (v / 4096 mod 64); x3d; x3d].
Proof.
  intros v. cbn [b64_encode]. change (byte_Z x00) with 0 in v. pose proof (byte_Z_bound a).
  replace (v / 262144) with (byte_Z a / 4)
    by (unfold v; Z.to_euclidean_division_equations; lia).
  replace (v / 4096 mod 64) with (byte_Z a mod 4 * 16)
    by (unfold v; Z.to_euclidean_division_equations; lia). done.
Qed.

Lemma b64_encode_2 a b :
  let v := 65536 * byte_Z a + 256 * byte_Z b + byte_Z x00 in
  b64_encode [a; b] =
    [b64_digit (v / 262144); b64_digit (v / 4096 mod 64); b64_digit (v / 64 mod 64); x3d].
Proof.
  intros v. cbn [b64_encode]. change (byte_Z x00) with 0 in v.
  pose proof (byte_Z_bound a). pose proof (byte_Z_bound b).
  set (w := 256 * byte_Z a + byte_Z b).
  replace (v / 262144) with (w / 1024) by (unfold v, w; Z.to_euclidean_division_equations; lia).
  replace (v / 4096 mod 64) with (w / 16 mod 64)
    by (unfold v, w; Z.to_euclidean_division_equations; lia).
  replace (v / 64 mod 64) with (w mod 16 * 4)
    by (unfold v, w; Z.to_euclidean_division_equations; lia). done.
Qed.

Lemma triple_bound a b c :
  0 <= 65536 * byte_Z a + 256 * byte_Z b + byte_Z c < 16777216.
Proof.
  pose proof (byte_Z_bound a). pose proof (byte_Z_bound b). pose proof (byte_Z_bound c). lia.
Qed.

Lemma b64_encode_graphic s : forallb graphic (b64_encode s) = true.
Proof.
  induction s as [|a|a b|a b c s IH] using groups_ind; [done| | |].
  - rewrite b64_encode_1. destruct (sextets _ (triple_bound a x00 x00)) as (?&?&?&?).
    cbn [forallb]. by rewrite !b64_digit_graphic by done.
  - rewrite b64_encode_2. destruct (sextets _ (triple_bound a b x00)) as (?&?&?&?).
    cbn [forallb]. by rewrite !b64_digit_graphic by done.
  - cbn [b64_encode forallb]. destruct (sextets _ (triple_bound a b c)) as (?&?&?&?).
    by rewrite !b64_digit_graphic by done.
Qed.

Lemma graphic_no_break s : forallb graphic s = true -> List.filter (λ c, negb (line_break c)) s = s.
Proof.
  induction s as [|c s IH]; cbn; [done|]. intros [Hc Hs]%andb_prop.
  assert (line_break c = false) as ->; [|cbn; by rewrite IH].
  destruct (line_break c) eqn:E; [|done]. unfold line_break in E. exfalso.
  apply orb_prop in E as [->%byte_eqb_spec| ->%byte_eqb_spec]; vm_compute in Hc; discriminate.
Qed.

Lemma b64_quanta_encode s : b64_quanta true (b64_encode s) = Some s.
Proof.
  induction s as [|a|a b|a b c s IH] using groups_ind; [done| | |].
  - pose proof (quantum_bytes 1 a x00 x00) as Hq. rewrite b64_encode_1.
    destruct (sextets _ (triple_bound a x00 x00)) as (H1&H2&H3&H4).
    cbn [b64_quanta]. rewrite !from_b64_digit by done. cbn -[quantum] in Hq |- *.
    f_equal. etransitivity; [|exact Hq]. reflexivity.
  - pose proof (quantum_bytes 2 a b x00) as Hq. rewrite b64_encode_2.
    destruct (sextets _ (triple_bound a b x00)) as (H1&H2&H3&H4).
    cbn [b64_quanta]. rewrite !from_b64_digit by done. cbn [mbind option_bind andb].
    rewrite b64_digit_not_pad by done. cbn -[quantum] in Hq |- *.
    f_equal. etransitivity; [|exact Hq]. reflexivity.
  - pose proof (quantum_bytes 3 a b c) as Hq. cbn [b64_encode].
    destruct (sextets _ (triple_bound a b c)) as (H1&H2&H3&H4).
    cbn [b64_quanta]. rewrite !from_b64_digit, IH by done. cbn [mbind option_bind andb].
    rewrite !b64_digit_not_pad by done. cbn zeta in Hq. by rewrite Hq.
Qed.

Lemma b64_decode_encode s : b64_decode true (b64_encode s) = Some s.
Proof. unfold b64_decode. by rewrite graphic_no_break, b64_quanta_encode by apply b64_encode_graphic. Qed.

Lemma length_b64_encode s : Z.of_nat (length (b64_encode s)) = 4 * ((Z.of_nat (length s) + 2) / 3).
Proof.
  induction s as [|a|a b|a b c s IH] using groups_ind; [done..|].
  cbn [b64_encode length]. rewrite !Nat2Z.inj_succ in *.
  Z.to_euclidean_division_equations; lia.
Qed.

(** ** The length of a hash *)

Lemma length_round256 h kw : length h = 8%nat -> length (round256 h kw) = 8%nat.
Proof. intros Hl. do 8 (destruct h as [|? h]; [discriminate|]). by destruct h. Qed.

Lemma length_block256 h block : length h = 8%nat -> length (block256 h block) = 8%nat.
Proof.
  intros Hl. unfold block256.
  assert (forall kws h, length h = 8%nat -> length (foldl round256 h kws) = 8%nat) as Hf.
  { intros kws. induction kws as [|kw kws IH]; intros h' Hh; [done|]. cbn [foldl]. by apply IH, length_round256. }
  rewrite length_zip_with, Hf by done. lia.
Qed.

Lemma length_blocks256 n h s : length h = 8%nat -> length (blocks256 n h s) = 8%nat.
Proof. revert h s. induction n as [|n IH]; intros h s Hh; [done|]. cbn [blocks256]. by apply IH, length_block256. Qed.

Lemma length_HashValue s : length (HashValue s) = 64%nat.
Proof.
  unfold HashValue, Sum256. rewrite length_hex_encode.
  pose proof (length_blocks256 (length (pad256 s) / 64) H256 (pad256 s) eq_refl) as Hl. revert Hl.
  generalize (blocks256 (length (pad256 s) / 64) H256 (pad256 s)). intros h Hl.
  do 8 (destruct h as [|? h]; [discriminate|]). destruct h; [|discriminate].
  cbn [map concat]. rewrite !length_app, !length_reverse. reflexivity.
Qed.

(** ** SHA-256 test vectors (FIPS 180-4) *)

Example sha256_abc : HashValue (gostr "abc") =
  gostr "ba7816bf8f01cfea414140de5dae2223b00361a396177a9cb410ff61f20015ad".
Proof. vm_compute. reflexivity. Qed.

Example sha256_empty : HashValue [] =
  gostr "e3b0c44298fc1c149afbf4c8996fb92427ae41e4649b934ca495991b7852b855".
Proof. vm_compute. reflexivity. Qed.

Example sha256_two_blocks :
  HashValue (gostr "abcdbcdecdefdefgefghfghighijhijkijkljklmklmnlmnomnopnopq") =
  gostr "248d6a61d20638b8e5c026930c3e6039a33ce45964ff2167f6ecedd419db06c1".
Proof. vm_compute. reflexivity. Qed.

Example b64_ex : b64_encode (gostr "hello") = gostr "aGVsbG8=".
Proof. reflexivity. Qed.

Example b64_newline_ex : b64_decode true (gostr "aGVs" ++ [x0a] ++ gostr "bG8=") = Some (gostr "hello").
Proof. reflexivity. Qed.

Example b64_raw_ex : b64_decode false (gostr "aGVsbG8") = Some (gostr "hello").
Proof. reflexivity. Qed.

Example query_escape_ex : QueryEscape (gostr "a b/c?") = gostr "a+b%2Fc%3F".
Proof. reflexivity. Qed.
