(* ===== verification/Json.v ===== *)
(** * encoding/json into [any]: what Unmarshal accepts and Marshal writes

    The scanner's tree keeps the members of an object as they are written. Decoding into
    [any] makes a [map[string]any] of them: an association list with distinct keys in
    increasing byte order, the order Marshal and the sorted walks of the engine use. A
    number keeps the literal it was decoded from: the conversion of a decimal literal to
    float64 and back to its shortest form (strconv) is a parameter. *)

From S2P Require Import Prelude GoStrings Encodings.

#[local] Set Warnings "-register-all".

Inductive json :=
  | JNull
  | JBool (b : bool)
  | JNum (lit : bytes)
  | JStr (s : bytes)
  | JArr (l : list json)
  | JObj (l : list (bytes * json)).

(** The text Marshal writes for the float64 a literal denotes; [None] when the literal is
    out of range, which Unmarshal reports as an error. *)
Class Floats := float_text : bytes -> option bytes.

(** ** UTF-8 *)

Definition RuneError : Z := 0xfffd.

(** The continuation byte [c] of a first byte [b], inside the accept range of [b]. *)
Definition accept (b c : Z) : bool :=
  let lo := if b =? 0xe0 then 0xa0 else if b =? 0xf0 then 0x90 else 0x80 in
  let hi := if b =? 0xed then 0x9f else if b =? 0xf4 then 0x8f else 0xbf in
  (lo <=? c) && (c <=? hi).

Definition continuation (c : Z) : bool := (0x80 <=? c) && (c <=? 0xbf).

(** [utf8.DecodeRune(s)] of a non-empty string: the rune and its width. *)
Definition DecodeRune (s : bytes) : Z * nat :=
  match map byte_Z s with
  | [] => (RuneError, 0%nat)
  | b :: t =>
      if b <? 0x80 then (b, 1%nat) else
      if (0xc2 <=? b) && (b <=? 0xdf) then
        match t with
        | c :: _ => if continuation c then ((b - 0xc0) * 64 + (c - 0x80), 2%nat) else (RuneError, 1%nat)
        | _ => (RuneError, 1%nat)
        end
      else if (0xe0 <=? b) && (b <=? 0xef) then
        match t with
        | c :: d :: _ =>
            if accept b c && continuation d
            then ((b - 0xe0) * 4096 + (c - 0x80) * 64 + (d - 0x80), 3%nat) else (RuneError, 1%nat)
        | _ => (RuneError, 1%nat)
        end
      else if (0xf0 <=? b) && (b <=? 0xf4) then
        match t with
        | c :: d :: e :: _ =>
            if accept b c && continuation d && continuation e
            then ((b - 0xf0) * 262144 + (c - 0x80) * 4096 + (d - 0x80) * 64 + (e - 0x80), 4%nat)
            else (RuneError, 1%nat)
        | _ => (RuneError, 1%nat)
        end
      else (RuneError, 1%nat)
  end.

(** [utf8.AppendRune(nil, r)] *)
Definition EncodeRune (r : Z) : bytes :=
  let r := if (r <? 0) || (0x10ffff <? r) || ((0xd800 <=? r) && (r <=? 0xdfff)) then RuneError else r in
  map Z_byte
    (if r <? 0x80 then [r]
     else if r <? 0x800 then [0xc0 + r / 64; 0x80 + r mod 64]
     else if r <? 0x10000 then [0xe0 + r / 4096; 0x80 + r / 64 mod 64; 0x80 + r mod 64]
     else [0xf0 + r / 262144; 0x80 + r / 4096 mod 64; 0x80 + r / 64 mod 64; 0x80 + r mod 64]).

(** The runes of [for _, r := range s]. *)
Fixpoint runes (n : nat) (s : bytes) : list Z :=
  match n, s with
  | S n, _ :: _ => let '(r, w) := DecodeRune s in r :: runes n (drop w s)
  | _, _ => []
  end.

(** [utf8.ValidString(s)] *)
Fixpoint valid_utf8 (n : nat) (s : bytes) : bool :=
  match n, s with
  | S n, c :: _ =>
      let '(r, w) := DecodeRune s in
      negb ((r =? RuneError) && (Nat.eqb w 1)) && valid_utf8 n (drop w s)
  | _, _ => true
  end.

(** ** Strings *)

Definition is_hex (c : byte) : bool := match from_hex c with Some _ => true | None => false end.

Definition simple_escape (c : byte) : option byte :=
  if Byte.eqb c x22 then Some x22 else if Byte.eqb c x5c then Some x5c
  else if Byte.eqb c x2f then Some x2f else if Byte.eqb c x62 then Some x08
  else if Byte.eqb c x66 then Some x0c else if Byte.eqb c x6e then Some x0a
  else if Byte.eqb c x72 then Some x0d else if Byte.eqb c x74 then Some x09 else None.

(** The body of a literal up to its closing quote, still escaped, and what follows. *)
Fixpoint scan_string (s : bytes) : option (bytes * bytes) :=
  match s with
  | [] => None
  | c :: s' =>
      if Byte.eqb c x22 then Some ([], s')
      else if Byte.eqb c x5c then
        match s' with
        | [] => None
        | e :: t =>
            match simple_escape e with
            | Some _ => '(b, r) ← scan_string t; Some (c :: e :: b, r)
            | None =>
                match t with
                | h1 :: h2 :: h3 :: h4 :: t' =>
                    if Byte.eqb e x75 && is_hex h1 && is_hex h2 && is_hex h3 && is_hex h4
                    then '(b, r) ← scan_string t'; Some (c :: e :: h1 :: h2 :: h3 :: h4 :: b, r)
                    else None
                | _ => None
                end
            end
        end
      else if byte_Z c <? 32 then None
      else '(b, r) ← scan_string s'; Some (c :: b, r)
  end.

(** [getu4]: the code unit of a [\uXXXX] the string starts with. *)
Definition getu4 (s : bytes) : option Z :=
  match s with
  | b :: u :: h1 :: h2 :: h3 :: h4 :: _ =>
      if Byte.eqb b x5c && Byte.eqb u x75 then
        a ← from_hex h1; b ← from_hex h2; c ← from_hex h3; d ← from_hex h4;
        Some (4096 * a + 256 * b + 16 * c + d)
      else None
  | _ => None
  end.

(** [utf16.DecodeRune] *)
Definition surrogate_pair (r1 r2 : Z) : option Z :=
  if (0xd800 <=? r1) && (r1 <? 0xdc00) && (0xdc00 <=? r2) && (r2 <? 0xe000)
  then Some ((r1 - 0xd800) * 1024 + (r2 - 0xdc00) + 0x10000) else None.

Definition is_surrogate (r : Z) : bool := (0xd800 <=? r) && (r <? 0xe000).

(** [unquote] of a scanned body; [n] is at least its length. *)
Fixpoint unquote (n : nat) (s : bytes) : bytes :=
  match n with
  | O => []
  | S n =>
      match s with
      | [] => []
      | c :: s' =>
          if Byte.eqb c x5c then
            match getu4 s with
            | Some r =>
                let t := drop 6 s in
                if is_surrogate r then
                  match getu4 t ≫= surrogate_pair r with
                  | Some p => EncodeRune p ++ unquote n (drop 6 t)
                  | None => EncodeRune RuneError ++ unquote n t
                  end
                else EncodeRune r ++ unquote n t
            | None =>
                match s' with
                | e :: t => default e (simple_escape e) :: unquote n t
                | [] => []
                end
            end
          else if byte_Z c <? 0x80 then c :: unquote n s'
          else let '(r, w) := DecodeRune s in EncodeRune r ++ unquote n (drop w s)
      end
  end.

Definition p_string (s : bytes) : option (bytes * bytes) :=
  '(b, r) ← scan_string s; Some (unquote (length b) b, r).

(** ** Numbers *)

Definition digit (c : byte) : bool := (48 <=? byte_Z c) && (byte_Z c <=? 57).

Fixpoint span_digits (s : bytes) : bytes * bytes :=
  match s with
  | c :: s' => if digit c then let '(d, r) := span_digits s' in (c :: d, r) else ([], s)
  | [] => ([], [])
  end.

(** A non-empty run of digits. *)
Definition digits1 (s : bytes) : option (bytes * bytes) :=
  match span_digits s with ([], _) => None | dr => Some dr end.

Definition scan_int (s : bytes) : option (bytes * bytes) :=
  match s with
  | c :: s' => if Byte.eqb c x30 then Some ([c], s') else digits1 s
  | [] => None
  end.

Definition scan_frac (s : bytes) : option (bytes * bytes) :=
  match s with
  | c :: s' =>
      if Byte.eqb c x2e then '(d, r) ← digits1 s'; Some (c :: d, r) else Some ([], s)
  | [] => Some ([], [])
  end.

Definition scan_exp (s : bytes) : option (bytes * bytes) :=
  match s with
  | c :: s' =>
      if Byte.eqb c x65 || Byte.eqb c x45 then
        match s' with
        | g :: s'' =>
            if Byte.eqb g x2b || Byte.eqb g x2d
            then '(d, r) ← digits1 s''; Some (c :: g :: d, r)
            else '(d, r) ← digits1 s'; Some (c :: d, r)
        | [] => None
        end
      else Some ([], s)
  | [] => Some ([], [])
  end.

Definition scan_number (s : bytes) : option (bytes * bytes) :=
  let '(sign, s) := match s with
                    | c :: s' => if Byte.eqb c x2d then ([c], s') else ([], s)
                    | [] => ([], [])
                    end in
  '(i, s) ← scan_int s; '(f, s) ← scan_frac s; '(e, s) ← scan_exp s;
  Some (sign ++ i ++ f ++ e, s).

(** ** Values *)

Fixpoint skip_ws (s : bytes) : bytes :=
  match s with
  | c :: s' =>
      if Byte.eqb c x20 || Byte.eqb c x09 || Byte.eqb c x0a || Byte.eqb c x0d
      then skip_ws s' else s
  | [] => []
  end.

(** Byte-wise order of strings. *)
Fixpoint bytes_lt (s t : bytes) : bool :=
  match s, t with
  | _, [] => false
  | [], _ :: _ => true
  | x :: s, y :: t => (byte_Z x <? byte_Z y) || ((byte_Z x =? byte_Z y) && bytes_lt s t)
  end.

(** [m[k] = v] *)
Fixpoint obj_set (k : bytes) (v : json) (l : list (bytes * json)) : list (bytes * json) :=
  match l with
  | [] => [(k, v)]
  | (k', v') :: l' =>
      if bytes_lt k k' then (k, v) :: l
      else if bytes_lt k' k then (k', v') :: obj_set k v l'
      else (k, v) :: l'
  end.

Definition maxNestingDepth : nat := Z.to_nat 10000.

(** The value, the elements after '[' and the members after '{'. The scanner refuses a
    container nested deeper than [maxNestingDepth]; [d] is the depth left. *)
Fixpoint p_value (n d : nat) (s : bytes) : option (json * bytes) :=
  match n with
  | O => None
  | S n =>
      match skip_ws s with
      | [] => None
      | c :: s' =>
          if Byte.eqb c x22 then '(t, r) ← p_string s'; Some (JStr t, r)
          else if Byte.eqb c x5b then
            match d with
            | O => None
            | S d =>
                match skip_ws s' with
                | x5d :: r => Some (JArr [], r)
                | _ => '(l, r) ← p_elems n d s'; Some (JArr l, r)
                end
            end
          else if Byte.eqb c x7b then
            match d with
            | O => None
            | S d =>
                match skip_ws s' with
                | x7d :: r => Some (JObj [], r)
                | _ => '(l, r) ← p_members n d s'; Some (JObj l, r)
                end
            end
          else if HasPrefix (c :: s') (gostr "true") then Some (JBool true, drop 4 (c :: s'))
          else if HasPrefix (c :: s') (gostr "false") then Some (JBool false, drop 5 (c :: s'))
          else if HasPrefix (c :: s') (gostr "null") then Some (JNull, drop 4 (c :: s'))
          else '(lit, r) ← scan_number (c :: s'); Some (JNum lit, r)
      end
  end
with p_elems (n d : nat) (s : bytes) : option (list json * bytes) :=
  match n with
  | O => None
  | S n =>
      '(v, r) ← p_value n d s;
      match skip_ws r with
      | x2c :: r => '(l, r) ← p_elems n d r; Some (v :: l, r)
      | x5d :: r => Some ([v], r)
      | _ => None
      end
  end
with p_members (n d : nat) (s : bytes) : option (list (bytes * json) * bytes) :=
  match n with
  | O => None
  | S n =>
      match skip_ws s with
      | x22 :: s =>
          '(k, r) ← p_string s;
          match skip_ws r with
          | x3a :: r =>
              '(v, r) ← p_value n d r;
              match skip_ws r with
              | x2c :: r => '(l, r) ← p_members n d r; Some ((k, v) :: l, r)
              | x7d :: r => Some ([(k, v)], r)
              | _ => None
              end
          | _ => None
          end
      | _ => None
      end
  end.

(** The tree of a whole text. Every call of the parser either consumes a byte or is followed
    by one that does. *)
Definition parse (raw : bytes) : option json :=
  '(v, r) ← p_value (2 * length raw + 2) maxNestingDepth raw;
  match skip_ws r with [] => Some v | _ => None end.

(** Decoding into [any]: of the members with one key the last stays. *)
Fixpoint to_any `{Floats} (v : json) : option json :=
  match v with
  | JNum lit => _ ← float_text lit; Some v
  | JArr l =>
      (fix go (l acc : list json) :=
         match l with
         | [] => Some (JArr (reverse acc))
         | x :: l => y ← to_any x; go l (y :: acc)
         end) l []
  | JObj l =>
      (fix go (l acc : list (bytes * json)) :=
         match l with
         | [] => Some (JObj acc)
         | (k, x) :: l => y ← to_any x; go l (obj_set k y acc)
         end) l []
  | _ => Some v
  end.

(** [json.Unmarshal(raw, &v)] for [v any]; [None] for an error. *)
Definition Unmarshal `{Floats} (raw : bytes) : option json := parse raw ≫= to_any.

(** ** Marshal *)

Definition u_escape (r : Z) : bytes :=
  gostr "\u" ++ map hex_digit [r / 4096 mod 16; r / 256 mod 16; r / 16 mod 16; r mod 16].

(** The escape of an ASCII byte, with HTML escaping on. *)
Definition escape_byte (c : byte) : bytes :=
  let z := byte_Z c in
  if (z =? 0x5c) || (z =? 0x22) then [x5c; c]
  else if z =? 8 then gostr "\b" else if z =? 12 then gostr "\f"
  else if z =? 10 then gostr "\n" else if z =? 13 then gostr "\r"
  else if z =? 9 then gostr "\t"
  else if (z <? 32) || (z =? 0x3c) || (z =? 0x3e) || (z =? 0x26) then u_escape z
  else [c].

Fixpoint escape (n : nat) (s : bytes) : bytes :=
  match n, s with
  | S n, c :: s' =>
      if byte_Z c <? 0x80 then escape_byte c ++ escape n s'
      else
        let '(r, w) := DecodeRune s in
        (if (r =? RuneError) && (Nat.eqb w 1) then u_escape RuneError
         else if (r =? 0x2028) || (r =? 0x2029) then u_escape r
         else take w s) ++ escape n (drop w s)
  | _, _ => []
  end.

Definition quote (s : bytes) : bytes := x22 :: escape (length s) s ++ [x22].

Fixpoint Marshal `{Floats} (v : json) : bytes :=
  match v with
  | JNull => gostr "null"
  | JBool b => gostr (if b then "true" else "false")
  | JNum lit => default [] (float_text lit)
  | JStr s => quote s
  | JArr l => x5b :: Join (map Marshal l) [x2c] ++ [x5d]
  | JObj l => x7b :: Join (map (λ kv, quote kv.1 ++ x3a :: Marshal kv.2) l) [x2c] ++ [x7d]
  end.

(** ** Walks shared by the engine *)

(** [collectJSONStringLeaves] of decode.go: depth first, keys in order. *)
Fixpoint collectJSONStringLeaves (v : json) : list bytes :=
  match v with
  | JStr s => [s]
  | JArr l => concat (map collectJSONStringLeaves l)
  | JObj l => concat (map (λ kv, collectJSONStringLeaves kv.2) l)
  | _ => []
  end.

(** [jsonStringLeaves] *)
Definition jsonStringLeaves `{Floats} (raw : bytes) : list bytes :=
  match raw with
  | [] => []
  | _ => match Unmarshal raw with Some v => collectJSONStringLeaves v | None => [] end
  end.

(** [collectJSONStrings] of overlap.go, the text it appends to its builder. *)
Fixpoint collectJSONStrings (v : json) : bytes :=
  match v with
  | JStr s => s
  | JArr l => mjoin (map collectJSONStrings l)
  | JObj l => mjoin (map (λ kv, collectJSONStrings kv.2) l)
  | _ => []
  end.

(** [joinJSONStringValues] *)
Definition joinJSONStringValues `{Floats} (raw : bytes) : bytes :=
  match raw with
  | [] => []
  | _ => match Unmarshal raw with Some v => collectJSONStrings v | None => [] end
  end.

(** ** Examples *)

#[local] Instance plain_floats : Floats := Some.

Definition q (s : string) : bytes :=
  List.map (λ c, if Byte.eqb c x27 then x22 else c) (gostr s).
Arguments q s%_string.

Example json_ex :
  Unmarshal (q " {'b':[1,-2.5e3,true,null],'a':'x\u00e9\ud83d\ude00\n','b':'z'} ") =
  Some (JObj [(gostr "a", JStr (gostr "x" ++ [xc3; xa9; xf0; x9f; x98; x80; x0a]));
              (gostr "b", JStr (gostr "z"))]).
Proof. vm_compute. reflexivity. Qed.

Example json_bad : Unmarshal (q "{'a':01}") = None /\ Unmarshal (q "[1,]") = None /\
  Unmarshal (q "'a' x") = None /\ Unmarshal (q "") = None.
Proof. vm_compute. done. Qed.

Example json_lone_surrogate : Unmarshal (q "'\ud83dx'") = Some (JStr ([xef; xbf; xbd] ++ gostr "x")).
Proof. vm_compute. reflexivity. Qed.

Example marshal_ex :
  Marshal (JObj [(gostr "k", JArr [JStr (gostr "<a>" ++ [x00; xff]); JNum (gostr "1")])]) =
  q "{'k':['\u003ca\u003e\u0000\ufffd',1]}".
Proof. vm_compute. reflexivity. Qed.

(** * The texts of structs and of raw messages

    A struct is written field by field, a json.RawMessage compacted; a raw message is the text
    of a value as it stands in the input. *)

(** ** Without HTML escaping *)

(** A literal as an Encoder writes it after SetEscapeHTML(false). *)
Fixpoint escape_plain (n : nat) (s : bytes) : bytes :=
  match n, s with
  | S n, c :: s' =>
      if byte_Z c <? 0x80 then (if existsb (Byte.eqb c) (gostr "<>&") then [c] else escape_byte c) ++ escape_plain n s'
      else
        let '(r, w) := DecodeRune s in
        (if (r =? RuneError) && (Nat.eqb w 1) then u_escape RuneError
         else if (r =? 0x2028) || (r =? 0x2029) then u_escape r
         else take w s) ++ escape_plain n (drop w s)
  | _, _ => []
  end.

(** A literal; [html] is the option. *)
Definition quote_as (html : bool) (s : bytes) : bytes :=
  if html then quote s else x22 :: escape_plain (length s) s ++ [x22].

(** ** Structs *)

Definition field (name : string) (v : bytes) : bytes := quote (gostr name) ++ x3a :: v.
Arguments field name%_string v.

Definition object (fields : list bytes) : bytes := x7b :: Join fields [x2c] ++ [x7d].

(** The option omitempty. *)
Definition unless (empty : bool) (f : bytes) : list bytes := if empty then [] else [f].

Definition bool_text (b : bool) : bytes := gostr (if b then "true" else "false").

(** ** Raw messages *)

(** The compaction of a json.RawMessage, with HTML escaping on: [quoted] inside a string
    literal, [escaped] right after a backslash in it. *)
Fixpoint compact_bytes (quoted escaped : bool) (s : bytes) : bytes :=
  match s with
  | [] => []
  | c :: s =>
      let quoted' := if Byte.eqb c x22 && negb escaped then negb quoted else quoted in
      let escaped' := quoted && negb escaped && Byte.eqb c x5c in
      if existsb (Byte.eqb c) (gostr "<>&") then u_escape (byte_Z c) ++ compact_bytes quoted' escaped' s
      else
        match c, s with
        | xe2, x80 :: xa8 :: s' => u_escape 0x2028 ++ compact_bytes quoted' escaped' s'
        | xe2, x80 :: xa9 :: s' => u_escape 0x2029 ++ compact_bytes quoted' escaped' s'
        | _, _ =>
            if negb quoted && existsb (Byte.eqb c) [x20; x09; x0d; x0a] then compact_bytes quoted' escaped' s
            else c :: compact_bytes quoted' escaped' s
        end
  end.

(** The compaction without it: spaces go. *)
Fixpoint compact_plain (quoted escaped : bool) (s : bytes) : bytes :=
  match s with
  | [] => []
  | c :: s =>
      let quoted' := if Byte.eqb c x22 && negb escaped then negb quoted else quoted in
      let escaped' := quoted && negb escaped && Byte.eqb c x5c in
      (if negb quoted && existsb (Byte.eqb c) [x20; x09; x0d; x0a] then [] else [c]) ++ compact_plain quoted' escaped' s
  end.

(** A nil message is null; one that is no JSON is an error. *)
Definition raw_text_as (html : bool) (raw : bytes) : option bytes :=
  match raw with
  | [] => Some (gostr "null")
  | _ => _ ← parse raw; Some (if html then compact_bytes false false raw else compact_plain false false raw)
  end.

Definition raw_text (raw : bytes) : option bytes := raw_text_as true raw.
