(* ===== verification/JsonFacts.v ===== *)
(** * Facts about encoding/json: string literals, then whole texts, read back as what they were written from *)

From stdpp Require Import pretty.
From S2P Require Import Prelude GoStrings Encodings EncodingFacts Json.

(** ** Well-formed UTF-8 *)

(** [p] is the encoding of the rune [r] beyond ASCII. *)
Record rune_bytes (r : Z) (p : bytes) : Prop := {
  rb_decode t : DecodeRune (p ++ t) = (r, length p);
  rb_encode : EncodeRune r = p;
  rb_high : Forall (λ c, 0x80 <= byte_Z c) p;
  rb_long : (2 <= length p)%nat }.

Inductive utf8 : bytes -> Prop :=
| utf8_nil : utf8 []
| utf8_ascii c s : byte_Z c < 0x80 -> utf8 s -> utf8 (c :: s)
| utf8_rune r p s : rune_bytes r p -> utf8 s -> utf8 (p ++ s).

Lemma encoded p q : map byte_Z p = q -> map Z_byte q = p.
Proof. intros <-. rewrite List.map_map. etransitivity; [|apply List.map_id]. apply List.map_ext, Z_byte_Z. Qed.

Lemma EncodeRune_valid r :
  0 <= r < 0xd800 \/ 0xe000 <= r <= 0x10ffff ->
  EncodeRune r = map Z_byte
    (if r <? 0x80 then [r]
     else if r <? 0x800 then [0xc0 + r / 64; 0x80 + r mod 64]
     else if r <? 0x10000 then [0xe0 + r / 4096; 0x80 + r / 64 mod 64; 0x80 + r mod 64]
     else [0xf0 + r / 262144; 0x80 + r / 4096 mod 64; 0x80 + r / 64 mod 64; 0x80 + r mod 64]).
Proof.
  intros Hr. unfold EncodeRune.
  assert ((r <? 0) || (0x10ffff <? r) || ((0xd800 <=? r) && (r <=? 0xdfff)) = false) as -> by lia. done.
Qed.

Ltac range_tests := repeat match goal with
  | |- context [?a <? ?b] => destruct (Z.ltb_spec a b); try lia
  | |- context [?a <=? ?b] => destruct (Z.leb_spec a b); try lia
  end.

Lemma rune_2 c d :
  0xc2 <= byte_Z c <= 0xdf -> continuation (byte_Z d) = true ->
  rune_bytes ((byte_Z c - 0xc0) * 64 + (byte_Z d - 0x80)) [c; d].
Proof.
  unfold continuation. intros Hc [? ?]%andb_true_iff. split; [|  |repeat constructor; lia|cbn; lia].
  - intros t. unfold DecodeRune. cbn [map app]. unfold continuation. range_tests; done.
  - rewrite EncodeRune_valid by lia. range_tests; apply encoded; cbn [map]; (f_equal; [|f_equal]);
      Z.div_mod_to_equations; lia.
Qed.

Lemma rune_3 c d e :
  0xe0 <= byte_Z c <= 0xef -> accept (byte_Z c) (byte_Z d) = true -> continuation (byte_Z e) = true ->
  rune_bytes ((byte_Z c - 0xe0) * 4096 + (byte_Z d - 0x80) * 64 + (byte_Z e - 0x80)) [c; d; e].
Proof.
  intros Hc Hd He. pose proof Hd as Ha. unfold accept in Ha. unfold continuation in He.
  apply andb_true_iff in Ha as [? ?], He as [? ?].
  assert (0x80 <= byte_Z d <= 0xbf /\ (byte_Z c = 0xe0 -> 0xa0 <= byte_Z d) /\ (byte_Z c = 0xed -> byte_Z d <= 0x9f)) as (? & ? & ?)
    by (repeat case_match; lia).
  split; [| |repeat constructor; lia|cbn; lia].
  - intros t. unfold DecodeRune. cbn [map app]. rewrite Hd. unfold continuation. range_tests; done.
  - rewrite EncodeRune_valid by lia. range_tests; apply encoded; cbn [map]; (f_equal; [|f_equal; [|f_equal]]);
      Z.div_mod_to_equations; lia.
Qed.

Lemma rune_4 c d e f :
  0xf0 <= byte_Z c <= 0xf4 -> accept (byte_Z c) (byte_Z d) = true -> continuation (byte_Z e) = true ->
  continuation (byte_Z f) = true ->
  rune_bytes ((byte_Z c - 0xf0) * 262144 + (byte_Z d - 0x80) * 4096 + (byte_Z e - 0x80) * 64 + (byte_Z f - 0x80)) [c; d; e; f].
Proof.
  intros Hc Hd He Hf. pose proof Hd as Ha. unfold accept in Ha. unfold continuation in He, Hf.
  apply andb_true_iff in Ha as [? ?], He as [? ?], Hf as [? ?].
  assert (0x80 <= byte_Z d <= 0xbf /\ (byte_Z c = 0xf0 -> 0x90 <= byte_Z d) /\ (byte_Z c = 0xf4 -> byte_Z d <= 0x8f)) as (? & ? & ?)
    by (repeat case_match; lia).
  split; [| |repeat constructor; lia|cbn; lia].
  - intros t. unfold DecodeRune. cbn [map app]. rewrite Hd. unfold continuation. range_tests; done.
  - rewrite EncodeRune_valid by lia. range_tests; apply encoded; cbn [map]; (f_equal; [|f_equal; [|f_equal; [|f_equal]]]);
      Z.div_mod_to_equations; lia.
Qed.

(** What DecodeRune makes of a string that starts beyond ASCII. *)
Lemma decode_high c s :
  0x80 <= byte_Z c ->
  DecodeRune (c :: s) = (RuneError, 1%nat) \/
  exists r p t, c :: s = p ++ t /\ rune_bytes r p.
Proof.
  intros Hc. unfold DecodeRune. cbn [map]. rewrite (proj2 (Z.ltb_ge _ _) Hc).
  destruct ((0xc2 <=? byte_Z c) && (byte_Z c <=? 0xdf)) eqn:E2.
  { destruct s as [|d s]; [by left|]. cbn [map]. destruct (continuation (byte_Z d)) eqn:Ed; [|by left]. right.
    eexists _, [c; d], s. split; [done|]. apply rune_2; [lia|done]. }
  destruct ((0xe0 <=? byte_Z c) && (byte_Z c <=? 0xef)) eqn:E3.
  { destruct s as [|d [|e s]]; [by left..|]. cbn [map].
    destruct (accept (byte_Z c) (byte_Z d)) eqn:Ed, (continuation (byte_Z e)) eqn:Ee; try by left. right.
    eexists _, [c; d; e], s. split; [done|]. apply rune_3; [lia|done..]. }
  destruct ((0xf0 <=? byte_Z c) && (byte_Z c <=? 0xf4)) eqn:E4; [|by left].
  destruct s as [|d [|e [|f s]]]; [by left..|]. cbn [map].
  destruct (accept (byte_Z c) (byte_Z d)) eqn:Ed, (continuation (byte_Z e)) eqn:Ee, (continuation (byte_Z f)) eqn:Ef; try by left.
  right. eexists _, [c; d; e; f], s. split; [done|]. apply rune_4; [lia|done..].
Qed.

Lemma DecodeRune_ascii c s : byte_Z c < 0x80 -> DecodeRune (c :: s) = (byte_Z c, 1%nat).
Proof. intros Hc. unfold DecodeRune. cbn [map]. by rewrite (proj2 (Z.ltb_lt _ _) Hc). Qed.

Lemma valid_utf8_spec n s : (length s <= n)%nat -> valid_utf8 n s = true -> utf8 s.
Proof.
  revert s. induction n as [|n IH]; intros [|c s] Hn Hv; [constructor|cbn in Hn; lia|constructor|]. cbn [valid_utf8] in Hv.
  destruct (Z_lt_le_dec (byte_Z c) 0x80) as [Hc|Hc].
  { rewrite DecodeRune_ascii in Hv by done. constructor; [done|]. apply IH; [cbn in Hn; lia|].
    by apply andb_true_iff in Hv as [_ Hv]. }
  destruct (decode_high c s Hc) as [E|(r & p & t & E & Hp)].
  { by rewrite E in Hv. }
  rewrite E, (rb_decode _ _ Hp) in Hv. rewrite E. apply (utf8_rune r); [done|].
  rewrite drop_app_length in Hv. apply andb_true_iff in Hv as [_ Hv]. apply IH; [|done].
  apply (f_equal length) in E. rewrite length_app in E. pose proof (rb_long _ _ Hp). lia.
Qed.

(** ** The literal of a string *)

Lemma scan_ascii c t : byte_Z c < 0x80 -> scan_string (escape_byte c ++ t) = '(b, r) ← scan_string t; Some (escape_byte c ++ b, r).
Proof. intros Hc. destruct c; try (exfalso; revert Hc; vm_compute; congruence); (cbn; destruct (scan_string t) as [[? ?]|]; reflexivity). Qed.

Lemma scan_high p t :
  Forall (λ c, 0x80 <= byte_Z c) p -> scan_string (p ++ t) = '(b, r) ← scan_string t; Some (p ++ b, r).
Proof.
  induction 1 as [|c p Hc _ IH]; cbn [app]; [by destruct (scan_string t) as [[? ?]|]|]. cbn [scan_string].
  assert (Byte.eqb c x22 = false /\ Byte.eqb c x5c = false) as [-> ->] by (by destruct c).
  rewrite (proj2 (Z.ltb_ge _ _)) by lia. rewrite IH. by destruct (scan_string t) as [[? ?]|].
Qed.

Lemma getu4_other b u t : Byte.eqb u x75 = false -> getu4 (b :: u :: t) = None.
Proof. intros Hu. unfold getu4. do 4 (destruct t as [|? t]; [done|]). by rewrite Hu, andb_false_r. Qed.

Lemma unquote_ascii c n t :
  byte_Z c < 0x80 -> (length (escape_byte c ++ t) <= n)%nat ->
  exists n', (length t <= n')%nat /\ unquote n (escape_byte c ++ t) = c :: unquote n' t.
Proof.
  intros Hc Hn. rewrite length_app in Hn. assert (1 <= length (escape_byte c))%nat by (destruct c; cbn; lia).
  destruct n as [|n]; [lia|]. exists n.
  destruct c; try (exfalso; revert Hc; vm_compute; congruence); (split; [cbn in Hn; lia|]);
    first [reflexivity | cbn -[getu4 unquote]; cbn [unquote]; rewrite getu4_other by done; reflexivity].
Qed.


Lemma unquote_high r p n t :
  rune_bytes r p -> (length (p ++ t) <= n)%nat ->
  exists n', (length t <= n')%nat /\ unquote n (p ++ t) = p ++ unquote n' t.
Proof.
  intros Hp Hn. rewrite length_app in Hn. pose proof (rb_long _ _ Hp). destruct n as [|n]; [lia|]. exists n. split; [lia|].
  destruct p as [|c p]; [by cbn in *; lia|]. pose proof (rb_decode _ _ Hp t) as Hd. pose proof (rb_high _ _ Hp) as Hh.
  apply Forall_cons in Hh as [Hh _]. cbn [app unquote] in *.
  assert (Byte.eqb c x5c = false) as -> by (by destruct c). rewrite (proj2 (Z.ltb_ge _ _)) by lia.
  rewrite Hd, (rb_encode _ _ Hp). f_equal. f_equal. change (c :: p ++ t) with ((c :: p) ++ t). by rewrite drop_app_length.
Qed.

(** The two line separators are the only runes that are escaped by number. *)
Lemma escape_rune r p n t :
  rune_bytes r p -> (length (p ++ t) <= S n)%nat ->
  escape (S n) (p ++ t) = (if (r =? 0x2028) || (r =? 0x2029) then u_escape r else p) ++ escape n t.
Proof.
  intros Hp Hn. pose proof (rb_long _ _ Hp) as Hl. pose proof (rb_decode _ _ Hp t) as Hd. pose proof (rb_high _ _ Hp) as Hh.
  destruct p as [|c p]; [by cbn in *; lia|]. apply Forall_cons in Hh as [Hh _]. cbn [app escape] in *.
  rewrite (proj2 (Z.ltb_ge _ _)) by lia. rewrite Hd. change (c :: p ++ t) with ((c :: p) ++ t).
  rewrite take_app_length, drop_app_length. assert (Nat.eqb (length (c :: p)) 1 = false) as -> by (by apply Nat.eqb_neq; lia).
  by rewrite andb_false_r.
Qed.

Lemma unquote_separator r m t :
  r = 0x2028 \/ r = 0x2029 -> unquote (S m) (u_escape r ++ t) = EncodeRune r ++ unquote m t.
Proof. by intros [->| ->]. Qed.

Lemma escape_scan s n r :
  utf8 s -> (length s <= n)%nat -> scan_string (escape n s ++ x22 :: r) = Some (escape n s, r).
Proof.
  intros Hs. revert n. induction Hs as [|c s Hc _ IH|q p s Hp _ IH]; intros n Hn; [by destruct n|..].
  - destruct n as [|n]; [cbn in Hn; lia|]. cbn [escape length] in *. rewrite (proj2 (Z.ltb_lt _ _) Hc), <- app_assoc, scan_ascii by done.
    by rewrite IH by lia.
  - destruct n as [|n]; [rewrite length_app in Hn; pose proof (rb_long _ _ Hp); lia|].
    rewrite (escape_rune q) by done. rewrite length_app in Hn. pose proof (rb_long _ _ Hp). rewrite <- app_assoc.
    destruct ((q =? 0x2028) || (q =? 0x2029)) eqn:E.
    + apply orb_true_iff in E as [->%Z.eqb_eq| ->%Z.eqb_eq]; cbn -[escape]; by rewrite IH by lia.
    + rewrite scan_high by apply (rb_high _ _ Hp). by rewrite IH by lia.
Qed.

Lemma escape_unquote s n m :
  utf8 s -> (length s <= n)%nat -> (length (escape n s) <= m)%nat -> unquote m (escape n s) = s.
Proof.
  intros Hs. revert n m. induction Hs as [|c s Hc _ IH|q p s Hp _ IH]; intros n m Hn Hm.
  - destruct n; [by destruct m|by destruct m].
  - destruct n as [|n]; [cbn in Hn; lia|]. cbn [escape length] in *. rewrite (proj2 (Z.ltb_lt _ _) Hc) in Hm |- *.
    destruct (unquote_ascii c m (escape n s) Hc Hm) as (m' & Hm' & ->). by rewrite IH by lia.
  - destruct n as [|n]; [rewrite length_app in Hn; pose proof (rb_long _ _ Hp); lia|].
    rewrite (escape_rune q) in Hm |- * by done. rewrite length_app in Hn. pose proof (rb_long _ _ Hp).
    destruct ((q =? 0x2028) || (q =? 0x2029)) eqn:E.
    + rewrite length_app in Hm. rewrite <- (rb_encode _ _ Hp).
      apply orb_true_iff in E as [->%Z.eqb_eq| ->%Z.eqb_eq]; (destruct m as [|m]; [cbn in Hm; lia|]);
        rewrite unquote_separator, IH by (cbn in Hm; lia || auto); reflexivity.
    + destruct (unquote_high q p m (escape n s) Hp Hm) as (m' & Hm' & ->). by rewrite IH by lia.
Qed.

Lemma parse_quote s : utf8 s -> parse (quote s) = Some (JStr s).
Proof.
  intros Hs. unfold parse, quote. replace (2 * _ + 2)%nat with (S (2 * length (x22 :: escape (length s) s ++ [x22]) + 1)) by lia.
  generalize (2 * length (x22 :: escape (length s) s ++ [x22]) + 1)%nat as n, maxNestingDepth as d. intros n d.
  cbn [p_value skip_ws Byte.eqb orb]. cbn -[escape scan_string p_string unquote].
  unfold p_string. rewrite escape_scan by done. cbn. by rewrite escape_unquote by done.
Qed.

(** ASCII is well formed. *)
Lemma utf8_graphic s : forallb graphic s = true -> utf8 s.
Proof.
  induction s as [|c s IH]; cbn [forallb]; [constructor|]. intros [Hc Hs]%andb_true_iff.
  constructor; [unfold graphic in Hc; lia|auto].
Qed.

(** * What is written reads back

    [reads d text v]: inside any text, nested at most [maxNestingDepth - d] deep, the parser
    takes [text] for the value [v]. The texts of strings, numbers, null, arrays and structs read
    back as the values they were written from. *)

(** ** What may follow and start a value *)

Definition stops (rest : bytes) : Prop :=
  match rest with [] => True | c :: _ => c = x2c \/ c = x5d \/ c = x7d end.

Definition starts_value (c : byte) : bool := negb (existsb (Byte.eqb c) [x20; x09; x0a; x0d; x5d; x7d]).

Record reads (d : nat) (text : bytes) (v : json) : Prop := {
  rd_start : exists c t, text = c :: t /\ starts_value c = true;
  rd_value n d' rest : (2 * length text + 2 <= n)%nat -> (d <= d')%nat -> stops rest ->
    p_value n d' (text ++ rest) = Some (v, rest) }.

Lemma skip_ws_start c t : starts_value c = true -> skip_ws (c :: t) = c :: t.
Proof. by destruct c. Qed.

Lemma skip_ws_reads d text v rest : reads d text v -> skip_ws (text ++ rest) = text ++ rest.
Proof. intros [(c & t & -> & Hc) _]. by apply skip_ws_start. Qed.

Lemma reads_weaken d d' text v : (d <= d')%nat -> reads d text v -> reads d' text v.
Proof. intros Hd [Hs Hv]. split; [done|]. intros. apply Hv; lia || done. Qed.

Lemma skip_ws_stops rest : stops rest -> skip_ws rest = rest.
Proof. destruct rest as [|c rest]; [done|]. by intros [->|[->| ->]]. Qed.

(** A whole text. *)
Lemma reads_parse text v : reads maxNestingDepth text v -> parse text = Some v.
Proof.
  intros Hr. unfold parse. pose proof (rd_value _ _ _ Hr (2 * length text + 2)%nat maxNestingDepth []) as H.
  rewrite app_nil_r in H. rewrite H by (done || lia). done.
Qed.

(** ** Strings and null *)

Lemma p_string_quote s rest : utf8 s -> p_string (escape (length s) s ++ x22 :: rest) = Some (s, rest).
Proof. intros Hs. unfold p_string. rewrite escape_scan by done. cbn. by rewrite escape_unquote by done. Qed.

Lemma quote_app s rest : quote s ++ rest = x22 :: escape (length s) s ++ x22 :: rest.
Proof. unfold quote. cbn [app]. by rewrite <- app_assoc. Qed.

Lemma reads_quote d s : utf8 s -> reads d (quote s) (JStr s).
Proof.
  intros Hs. split; [by eexists _, _|]. intros n d' rest Hn _ _.
  destruct n as [|n]; [lia|]. rewrite quote_app. cbn [p_value]. rewrite skip_ws_start by done.
  change (Byte.eqb x22 x22) with true. cbn iota. by rewrite p_string_quote.
Qed.

Lemma reads_null d : reads d (gostr "null") JNull.
Proof.
  split; [by eexists _, _|]. intros n d' rest Hn _ _.
  destruct n as [|n]; [cbn in Hn; lia|]. done.
Qed.

(** ** Numbers *)

Lemma digits_app acc s t : forallb digit s = true -> digits acc (s ++ t) = (z ← digits acc s; digits z t).
Proof.
  revert acc. induction s as [|c s IH]; intros acc; [done|]. cbn [forallb app digits]. unfold digit at 1.
  intros [Hc Hs]%andb_true_iff. rewrite IH by done. by destruct ((0 <=? _) && _).
Qed.

(** The digits of a number in front of [s]. *)
Lemma pretty_N_go_digits x s :
  exists ds, gostr (pretty_N_go x s) = ds ++ gostr s /\ forallb digit ds = true /\ digits 0 ds = Some (Z.of_N x) /\ ((0 < x)%N -> exists c ds', ds = c :: ds' /\ c ≠ x30).
Proof.
  revert s. induction (N.lt_wf_0 x) as [x _ IH]. intros s.
  assert (x = 0 \/ 0 < x)%N as [->|Hx] by lia; [rewrite pretty_N_go_0; exists []; split_and!; (done || lia)|].
  rewrite pretty_N_go_step by done.
  destruct (IH (x `div` 10)%N ltac:(by apply N.div_lt) (String (pretty_N_char (x `mod` 10)) s)) as (ds & E & Hd & Hz & Hc).
  set (c := Ascii.byte_of_ascii (pretty_N_char (x `mod` 10))).
  assert (digit c = true /\ byte_Z c = 48 + Z.of_N (x `mod` 10) /\ ((0 < x `mod` 10)%N -> c ≠ x30)) as (Hdc & Hzc & Hnc).
  { assert (x `mod` 10 < 10)%N as Hlt by (by apply N.mod_lt). unfold c. generalize dependent (x `mod` 10)%N.
    intros m _ _ Hm. assert (m = 0 \/ m = 1 \/ m = 2 \/ m = 3 \/ m = 4 \/ m = 5 \/ m = 6 \/ m = 7 \/ m = 8 \/ m = 9)%N as Hm' by lia.
    by repeat destruct Hm' as [->|Hm']; subst; vm_compute. }
  exists (ds ++ [c]). split_and!.
  - rewrite E, <- app_assoc. done.
  - by rewrite forallb_app, Hd, andb_true_l; cbn; rewrite Hdc.
  - rewrite digits_app, Hz by done. cbn [digits mbind option_bind]. rewrite Hzc.
    replace (48 + Z.of_N (x `mod` 10) - 48) with (Z.of_N (x `mod` 10)) by lia.
    pose proof (N.mod_lt x 10 ltac:(done)) as Hm. pose proof (N.div_mod x 10 ltac:(done)) as Hx10.
    clear -Hm Hx10. set (m := (x `mod` 10)%N) in *. clearbody m. assert ((0 <=? Z.of_N m) && (Z.of_N m <=? 9) = true) as -> by lia.
    f_equal. lia.
  - intros _. destruct (N.eq_0_gt_0_cases (x `div` 10)) as [H0|H0].
    + exists c, []. rewrite H0, pretty_N_go_0 in E. apply (app_inv_tail _ [] ds) in E as <-. split; [done|]. apply Hnc.
      rewrite N.mod_small; [done|]. by apply N.div_small_iff.
    + destruct (Hc H0) as (c' & ds' & -> & Hn). by exists c', (ds' ++ [c]).
Qed.

(** Itoa writes decimal digits, without a leading zero. *)
Lemma Itoa_digits z :
  0 <= z -> forallb digit (Itoa z) = true /\ digits 0 (Itoa z) = Some z /\
  (Itoa z = [x30] \/ exists c t, Itoa z = c :: t /\ c ≠ x30).
Proof.
  intros Hz. destruct z as [|p|p]; [by split_and!; [..|left]| |lia]. unfold Itoa.
  change (pretty (Z.pos p)) with (pretty_N_go (N.pos p) EmptyString).
  destruct (pretty_N_go_digits (N.pos p) EmptyString) as (ds & E & Hd & Hv & Hc). rewrite app_nil_r in E.
  rewrite E. split_and!; [done..|]. right. by apply Hc.
Qed.

Lemma ParseUint_Itoa z : 0 <= z < 2 ^ 64 -> ParseUint (Itoa z) = Some z.
Proof.
  intros Hz. destruct (Itoa_digits z) as (_ & Hd & _); [lia|]. unfold ParseUint.
  destruct (Itoa z) as [|c t] eqn:E; [by apply Itoa_nonempty in E|]. rewrite Hd. cbn -[Z.pow].
  by rewrite (proj2 (Z.ltb_lt _ _)) by lia.
Qed.

Lemma span_digits_stops s rest : forallb digit s = true -> stops rest -> span_digits (s ++ rest) = (s, rest).
Proof.
  induction s as [|c s IH]; cbn [forallb app].
  - intros _. destruct rest as [|c rest]; [done|]. by intros [->|[->| ->]].
  - intros [Hc Hs]%andb_true_iff Hr. cbn. by rewrite Hc, IH.
Qed.

Lemma scan_number_digits s rest :
  forallb digit s = true -> s ≠ [] -> (s = [x30] \/ exists c t, s = c :: t /\ c ≠ x30) -> stops rest ->
  scan_number (s ++ rest) = Some (s, rest).
Proof.
  intros Hd Hne Hz Hr. destruct s as [|c s]; [done|]. unfold scan_number. cbn [app].
  assert (digit c = true) as Hc by (by apply andb_true_iff in Hd as [? _]).
  assert (Byte.eqb c x2d = false) as -> by (by destruct c).
  assert (scan_int (c :: s ++ rest) = Some (c :: s, rest)) as ->.
  { unfold scan_int. destruct Hz as [[= -> ->]|(? & ? & [= <- <-] & Hn)]; [done|].
    assert (Byte.eqb c x30 = false) as -> by (by destruct c). unfold digits1.
    change (c :: s ++ rest) with ((c :: s) ++ rest). by rewrite span_digits_stops. }
  cbn [mbind option_bind].
  assert (scan_frac rest = Some ([], rest) /\ scan_exp rest = Some ([], rest)) as [-> E].
  { destruct rest as [|x rest]; [done|]. by destruct Hr as [->|[->| ->]]. }
  cbn [mbind option_bind]. rewrite E. cbn. by rewrite app_nil_r.
Qed.

Lemma reads_Itoa d z : 0 <= z -> reads d (Itoa z) (JNum (Itoa z)).
Proof.
  intros Hz. destruct (Itoa_digits z Hz) as (Hd & _ & Hs). pose proof (Itoa_nonempty z) as Hne.
  destruct (Itoa z) as [|c s]; [done|].
  assert (digit c = true) as Hc by (by apply andb_true_iff in Hd as [? _]).
  assert (starts_value c = true) as Hw by (by destruct c).
  split; [by eexists _, _|]. intros n d' rest Hn _ Hr. destruct n as [|n]; [lia|].
  pose proof (scan_number_digits (c :: s) rest Hd Hne Hs Hr) as Hscan. cbn [app] in *. cbn [p_value].
  rewrite skip_ws_start by done. rewrite Hscan. by destruct c.
Qed.

(** ** Arrays and objects *)

Lemma Join_cons x y (l : list bytes) sep : Join (x :: y :: l) sep = x ++ sep ++ Join (y :: l) sep.
Proof. done. Qed.

Lemma reads_elems d (l : list (bytes * json)) n d' rest :
  l ≠ [] -> Forall (λ x, reads d x.1 x.2) l -> (2 * length (Join (map fst l) [x2c]) + 3 <= n)%nat -> (d <= d')%nat ->
  p_elems n d' (Join (map fst l) [x2c] ++ x5d :: rest) = Some (map snd l, rest).
Proof.
  intros Hne Hl. revert n. induction Hl as [|[t v] l Hx Hl IH]; intros n Hn Hd; [done|]. cbn [fst snd] in Hx.
  destruct n as [|n]; [lia|]. destruct l as [|y l].
  - cbn [map fst snd Join] in *. cbn [p_elems].
    rewrite (rd_value _ _ _ Hx) by (lia || (right; by left) || done). done.
  - cbn [map fst snd] in *. rewrite Join_cons in Hn |- *. rewrite !length_app in Hn. cbn [p_elems].
    rewrite <- app_assoc, (rd_value _ _ _ Hx) by (lia || by left). cbn -[Join p_elems].
    cbn [app] in *. rewrite IH by (done || (cbn [length] in Hn; lia)). done.
Qed.

Lemma reads_array d (l : list (bytes * json)) :
  l ≠ [] -> Forall (λ x, reads d x.1 x.2) l -> reads (S d) (x5b :: Join (map fst l) [x2c] ++ [x5d]) (JArr (map snd l)).
Proof.
  intros Hne Hl. split; [by eexists _, _|]. intros n d' rest Hn Hd _. cbn [length] in Hn. rewrite length_app in Hn.
  destruct n as [|n]; [lia|]. cbn [app p_value]. rewrite skip_ws_start by done. cbn -[Join p_elems skip_ws maxNestingDepth].
  destruct d' as [|d']; [lia|]. rewrite <- app_assoc. cbn [app].
  rewrite (reads_elems d l n d' rest) by (done || (cbn [length] in Hn; lia)).
  destruct l as [|[t v] l]; [done|]. apply Forall_cons in Hl as [[(c & t' & E & Hc) _] _].
  cbn [fst] in E. subst t. assert (exists u, Join (map fst ((c :: t', v) :: l)) [x2c] ++ x5d :: rest = c :: u) as [u ->]
    by (destruct l; eexists; reflexivity).
  rewrite skip_ws_start by done. by destruct c.
Qed.

(** A field of a struct is given by its name, its text and its value. *)
Definition member_text (f : bytes * (bytes * json)) : bytes := quote f.1 ++ x3a :: f.2.1.

Definition member_reads (d : nat) (f : bytes * (bytes * json)) : Prop := utf8 f.1 /\ reads d f.2.1 f.2.2.

Lemma reads_members d (l : list (bytes * (bytes * json))) n d' rest :
  l ≠ [] -> Forall (member_reads d) l -> (2 * length (Join (map member_text l) [x2c]) + 3 <= n)%nat -> (d <= d')%nat ->
  p_members n d' (Join (map member_text l) [x2c] ++ x7d :: rest) = Some (map (λ f, (f.1, f.2.2)) l, rest).
Proof.
  intros Hne Hl. revert n. induction Hl as [|[k [t v]] l [Hk Hx] Hl IH]; intros n Hn Hd; [done|]. cbn [fst snd] in Hk, Hx.
  destruct n as [|n]; [lia|].
  assert (forall u, stops u -> (2 * length t + 2 <= n)%nat -> 
    p_members (S n) d' (member_text (k, (t, v)) ++ u) =
    match skip_ws u with
    | x2c :: r => '(l, r) ← p_members n d' r; Some ((k, v) :: l, r)
    | x7d :: r => Some ([(k, v)], r)
    | _ => None
    end) as step.
  { intros u Hu Hf. unfold member_text. cbn [fst snd p_members]. rewrite <- app_assoc, quote_app, skip_ws_start by done.
    rewrite p_string_quote by done. cbn [mbind option_bind]. cbn [app]. rewrite skip_ws_start by done.
    by rewrite (rd_value _ _ _ Hx) by done. }
  destruct l as [|y l].
  - cbn [map Join] in *. rewrite step; [done|by right; right|]. unfold member_text in Hn. cbn [fst snd] in Hn.
    rewrite length_app in Hn. cbn in Hn. lia.
  - cbn [map] in *. rewrite Join_cons in Hn |- *. rewrite !length_app in Hn. rewrite <- app_assoc, step.
    + cbn -[Join p_members member_text]. rewrite IH by (done || (cbn [length] in Hn; lia)). done.
    + by left.
    + unfold member_text in Hn at 1. cbn [fst snd] in Hn. rewrite length_app in Hn. cbn in Hn. lia.
Qed.

Lemma reads_object d (l : list (bytes * (bytes * json))) :
  l ≠ [] -> Forall (member_reads d) l -> reads (S d) (object (map member_text l)) (JObj (map (λ f, (f.1, f.2.2)) l)).
Proof.
  intros Hne Hl. unfold object. split; [by eexists _, _|]. intros n d' rest Hn Hd _. cbn [length] in Hn. rewrite length_app in Hn.
  destruct n as [|n]; [lia|]. cbn [app p_value]. rewrite skip_ws_start by done. cbn -[Join p_members skip_ws member_text maxNestingDepth].
  destruct d' as [|d']; [lia|]. rewrite <- app_assoc. cbn [app].
  rewrite (reads_members d l n d' rest) by (done || (cbn [length] in Hn; lia)).
  destruct l as [|[k [t v]] l]; [done|].
  assert (exists u, Join (map member_text ((k, (t, v)) :: l)) [x2c] ++ x7d :: rest = x22 :: u) as [u ->]
    by (destruct l; eexists; reflexivity).
  by rewrite skip_ws_start by done.
Qed.

(** ** No line breaks *)

Lemma quote_no_newline s : utf8 s -> x0a ∉ quote s.
Proof.
  intros Hs. unfold quote. intros [?|Hin]%elem_of_cons; [done|]. apply elem_of_app in Hin as [Hin|Hin%list_elem_of_singleton]; [|done].
  revert Hin. assert (length s <= length s)%nat as Hn by done. revert Hn. generalize (length s) at 2 3. 
  induction Hs as [|c s Hc _ IH|q p s Hp _ IH]; intros n Hn; [by destruct n; intros ?%not_elem_of_nil|..].
  - destruct n as [|n]; [cbn in Hn; lia|]. cbn [escape length] in *. rewrite (proj2 (Z.ltb_lt _ _) Hc).
    intros [Hin|Hin]%elem_of_app; [|by apply (IH n); [lia|]].
    apply list_elem_of_In in Hin. revert Hin. destruct c; vm_compute; intuition discriminate.
  - destruct n as [|n]; [rewrite length_app in Hn; pose proof (rb_long _ _ Hp); lia|].
    rewrite (escape_rune q) by done. rewrite length_app in Hn. pose proof (rb_long _ _ Hp).
    intros [Hin|Hin]%elem_of_app; [|by apply (IH n); [lia|]].
    destruct ((q =? 0x2028) || (q =? 0x2029)) eqn:E.
    + apply list_elem_of_In in Hin. revert Hin. apply orb_true_iff in E as [->%Z.eqb_eq| ->%Z.eqb_eq]; vm_compute; intuition discriminate.
    + pose proof (rb_high _ _ Hp) as Hh. rewrite Forall_forall in Hh. by apply Hh in Hin.
Qed.

Lemma Itoa_no_newline z : 0 <= z -> x0a ∉ Itoa z.
Proof.
  intros Hz Hin. destruct (Itoa_digits z Hz) as (Hd & _). rewrite forallb_forall in Hd.
  apply list_elem_of_In in Hin. by apply Hd in Hin.
Qed.

Lemma Join_no_newline (l : list bytes) : Forall (λ t, x0a ∉ t) l -> x0a ∉ Join l [x2c].
Proof.
  induction 1 as [|t l Ht Hl IH]; [apply not_elem_of_nil|]. destruct l as [|u l]; [done|]. rewrite Join_cons.
  intros [?|[?%list_elem_of_singleton|?]%elem_of_app]%elem_of_app; done.
Qed.

Lemma object_no_newline l : Forall (λ t, x0a ∉ t) l -> x0a ∉ object l.
Proof.
  intros Hl%Join_no_newline. unfold object. intros [?|[?|?%list_elem_of_singleton]%elem_of_app]%elem_of_cons; done.
Qed.
