(* ===== verification/Model.v ===== *)
(** * internal/model/model.go: the data the engine works on

    A string-typed constant group (Status, Verdict, Action, Variant) is an inductive type
    whose extra constructor, where there is one, is the empty string. Timestamps and
    sequence numbers are Z; a Go map is a [gmap], which does not tell nil from empty. *)

From S2P Require Import Prelude GoTime GoStrings Encodings Json.

(** ** Events of the two planes *)

Record InterceptedEvent := {
  ieSessionID : bytes; ieSeq : Z; ieTSWall : Z; ieTSMono : Z; ieDirection : bytes; ieMethod : bytes;
  ieToolName : bytes; ieToolArgs : bytes; ieResult : bytes; ieServerID : bytes; ieServerPID : Z;
  ieTags : list bytes; ieDecision : bytes; ieBlockReason : bytes
}.

Record PodContext := { Namespace : bytes; PodName : bytes; PodUID : bytes; NodeName : bytes }.

Record SyscallEvent := {
  seTSMono : Z; sePID : Z; seTID : Z; seComm : bytes; seSyscall : bytes;
  seDestIP : bytes; seDestPort : Z; seAllowlisted : bool; sePath : bytes; sePayloadExcerpt : bytes;
  seSessionID : bytes; seCgroupID : Z; sePod : option PodContext; seFileContents : bytes
}.

(** ** Legs *)

Record Leg := { Lit : bool; TriggerSeq : Z; Detail : bytes; LitAt : Z; EventsAtLit : Z }.

Definition no_leg : Leg :=
  {| Lit := false; TriggerSeq := 0; Detail := []; LitAt := 0; EventsAtLit := 0 |}.

Record TrifectaLegs := {
  SensitiveSourceTouched : Leg;
  UntrustedContentPresent : Leg;
  ExternalSinkInvoked : Leg
}.

Definition no_legs : TrifectaLegs := {|
  SensitiveSourceTouched := no_leg; UntrustedContentPresent := no_leg;
  ExternalSinkInvoked := no_leg |}.

Definition AllLit (t : TrifectaLegs) : bool :=
  Lit (SensitiveSourceTouched t) && Lit (UntrustedContentPresent t) && Lit (ExternalSinkInvoked t).

(** ** Taint *)

Record TaintedValue := {
  Value : bytes; Variants : list TaintedVariant; Chunks : list TaintedVariant;
  Hash : bytes; Preview : bytes; Source : bytes; tvSeq : Z; RegisteredAt : Z
}.

(** ** Sessions *)

Inductive status := Monitoring | Tripped | Terminated.

Record EgressFlowBuffer := {
  efPID : Z; efDestination : bytes; LastAppendNS : Z; efChunks : list bytes
}.

Record VaultEntry := { Real : bytes; vClass : bytes }.

Record SessionState := {
  SessionID : bytes;
  Status : status;
  Legs : TrifectaLegs;
  Tainted : list TaintedValue;
  Confidence : float64;
  Timeline : list Z;
  TimelineLabels : gmap Z bytes;
  CreatedAt : Z;
  LastActivity : Z;
  EventCount : Z;
  UntrustedExcerpts : list bytes;
  FragmentChunks : list bytes;
  EgressFlows : gmap bytes EgressFlowBuffer;
  EgressPIDFlows : gmap bytes EgressFlowBuffer;
  Vault : gmap bytes VaultEntry;
  PendingSensitiveReadPaths : gmap bytes bytes
}.

(** Field updates. *)

Definition set_Status (x : status) (st : SessionState) : SessionState := {|
  SessionID := SessionID st; Status := x; Legs := Legs st; Tainted := Tainted st; Confidence
  := Confidence st; Timeline := Timeline st; TimelineLabels := TimelineLabels st; CreatedAt
  := CreatedAt st; LastActivity := LastActivity st; EventCount := EventCount st;
  UntrustedExcerpts := UntrustedExcerpts st; FragmentChunks := FragmentChunks st;
  EgressFlows := EgressFlows st; EgressPIDFlows := EgressPIDFlows st; Vault := Vault st;
  PendingSensitiveReadPaths := PendingSensitiveReadPaths st |}.

Definition set_Legs (x : TrifectaLegs) (st : SessionState) : SessionState := {|
  SessionID := SessionID st; Status := Status st; Legs := x; Tainted := Tainted st;
  Confidence := Confidence st; Timeline := Timeline st; TimelineLabels := TimelineLabels st;
  CreatedAt := CreatedAt st; LastActivity := LastActivity st; EventCount := EventCount st;
  UntrustedExcerpts := UntrustedExcerpts st; FragmentChunks := FragmentChunks st;
  EgressFlows := EgressFlows st; EgressPIDFlows := EgressPIDFlows st; Vault := Vault st;
  PendingSensitiveReadPaths := PendingSensitiveReadPaths st |}.

Definition set_Tainted (x : list TaintedValue) (st : SessionState) : SessionState := {|
  SessionID := SessionID st; Status := Status st; Legs := Legs st; Tainted := x; Confidence
  := Confidence st; Timeline := Timeline st; TimelineLabels := TimelineLabels st; CreatedAt
  := CreatedAt st; LastActivity := LastActivity st; EventCount := EventCount st;
  UntrustedExcerpts := UntrustedExcerpts st; FragmentChunks := FragmentChunks st;
  EgressFlows := EgressFlows st; EgressPIDFlows := EgressPIDFlows st; Vault := Vault st;
  PendingSensitiveReadPaths := PendingSensitiveReadPaths st |}.

Definition set_Confidence (x : float64) (st : SessionState) : SessionState := {|
  SessionID := SessionID st; Status := Status st; Legs := Legs st; Tainted := Tainted st;
  Confidence := x; Timeline := Timeline st; TimelineLabels := TimelineLabels st; CreatedAt
  := CreatedAt st; LastActivity := LastActivity st; EventCount := EventCount st;
  UntrustedExcerpts := UntrustedExcerpts st; FragmentChunks := FragmentChunks st;
  EgressFlows := EgressFlows st; EgressPIDFlows := EgressPIDFlows st; Vault := Vault st;
  PendingSensitiveReadPaths := PendingSensitiveReadPaths st |}.

Definition set_Timeline (x : list Z) (st : SessionState) : SessionState := {|
  SessionID := SessionID st; Status := Status st; Legs := Legs st; Tainted := Tainted st;
  Confidence := Confidence st; Timeline := x; TimelineLabels := TimelineLabels st; CreatedAt
  := CreatedAt st; LastActivity := LastActivity st; EventCount := EventCount st;
  UntrustedExcerpts := UntrustedExcerpts st; FragmentChunks := FragmentChunks st;
  EgressFlows := EgressFlows st; EgressPIDFlows := EgressPIDFlows st; Vault := Vault st;
  PendingSensitiveReadPaths := PendingSensitiveReadPaths st |}.

Definition set_TimelineLabels (x : gmap Z bytes) (st : SessionState) : SessionState := {|
  SessionID := SessionID st; Status := Status st; Legs := Legs st; Tainted := Tainted st;
  Confidence := Confidence st; Timeline := Timeline st; TimelineLabels := x; CreatedAt :=
  CreatedAt st; LastActivity := LastActivity st; EventCount := EventCount st;
  UntrustedExcerpts := UntrustedExcerpts st; FragmentChunks := FragmentChunks st;
  EgressFlows := EgressFlows st; EgressPIDFlows := EgressPIDFlows st; Vault := Vault st;
  PendingSensitiveReadPaths := PendingSensitiveReadPaths st |}.

Definition set_LastActivity (x : Z) (st : SessionState) : SessionState := {|
  SessionID := SessionID st; Status := Status st; Legs := Legs st; Tainted := Tainted st;
  Confidence := Confidence st; Timeline := Timeline st; TimelineLabels := TimelineLabels st;
  CreatedAt := CreatedAt st; LastActivity := x; EventCount := EventCount st;
  UntrustedExcerpts := UntrustedExcerpts st; FragmentChunks := FragmentChunks st;
  EgressFlows := EgressFlows st; EgressPIDFlows := EgressPIDFlows st; Vault := Vault st;
  PendingSensitiveReadPaths := PendingSensitiveReadPaths st |}.

Definition set_EventCount (x : Z) (st : SessionState) : SessionState := {|
  SessionID := SessionID st; Status := Status st; Legs := Legs st; Tainted := Tainted st;
  Confidence := Confidence st; Timeline := Timeline st; TimelineLabels := TimelineLabels st;
  CreatedAt := CreatedAt st; LastActivity := LastActivity st; EventCount := x;
  UntrustedExcerpts := UntrustedExcerpts st; FragmentChunks := FragmentChunks st;
  EgressFlows := EgressFlows st; EgressPIDFlows := EgressPIDFlows st; Vault := Vault st;
  PendingSensitiveReadPaths := PendingSensitiveReadPaths st |}.

Definition set_UntrustedExcerpts (x : list bytes) (st : SessionState) : SessionState := {|
  SessionID := SessionID st; Status := Status st; Legs := Legs st; Tainted := Tainted st;
  Confidence := Confidence st; Timeline := Timeline st; TimelineLabels := TimelineLabels st;
  CreatedAt := CreatedAt st; LastActivity := LastActivity st; EventCount := EventCount st;
  UntrustedExcerpts := x; FragmentChunks := FragmentChunks st; EgressFlows := EgressFlows
  st; EgressPIDFlows := EgressPIDFlows st; Vault := Vault st; PendingSensitiveReadPaths :=
  PendingSensitiveReadPaths st |}.

Definition set_FragmentChunks (x : list bytes) (st : SessionState) : SessionState := {|
  SessionID := SessionID st; Status := Status st; Legs := Legs st; Tainted := Tainted st;
  Confidence := Confidence st; Timeline := Timeline st; TimelineLabels := TimelineLabels st;
  CreatedAt := CreatedAt st; LastActivity := LastActivity st; EventCount := EventCount st;
  UntrustedExcerpts := UntrustedExcerpts st; FragmentChunks := x; EgressFlows := EgressFlows
  st; EgressPIDFlows := EgressPIDFlows st; Vault := Vault st; PendingSensitiveReadPaths :=
  PendingSensitiveReadPaths st |}.

Definition set_EgressFlows (x : gmap bytes EgressFlowBuffer) (st : SessionState) : SessionState := {|
  SessionID := SessionID st; Status := Status st; Legs := Legs st; Tainted := Tainted st;
  Confidence := Confidence st; Timeline := Timeline st; TimelineLabels := TimelineLabels st;
  CreatedAt := CreatedAt st; LastActivity := LastActivity st; EventCount := EventCount st;
  UntrustedExcerpts := UntrustedExcerpts st; FragmentChunks := FragmentChunks st;
  EgressFlows := x; EgressPIDFlows := EgressPIDFlows st; Vault := Vault st;
  PendingSensitiveReadPaths := PendingSensitiveReadPaths st |}.

Definition set_EgressPIDFlows (x : gmap bytes EgressFlowBuffer) (st : SessionState) : SessionState := {|
  SessionID := SessionID st; Status := Status st; Legs := Legs st; Tainted := Tainted st;
  Confidence := Confidence st; Timeline := Timeline st; TimelineLabels := TimelineLabels st;
  CreatedAt := CreatedAt st; LastActivity := LastActivity st; EventCount := EventCount st;
  UntrustedExcerpts := UntrustedExcerpts st; FragmentChunks := FragmentChunks st;
  EgressFlows := EgressFlows st; EgressPIDFlows := x; Vault := Vault st;
  PendingSensitiveReadPaths := PendingSensitiveReadPaths st |}.

Definition set_Vault (x : gmap bytes VaultEntry) (st : SessionState) : SessionState := {|
  SessionID := SessionID st; Status := Status st; Legs := Legs st; Tainted := Tainted st;
  Confidence := Confidence st; Timeline := Timeline st; TimelineLabels := TimelineLabels st;
  CreatedAt := CreatedAt st; LastActivity := LastActivity st; EventCount := EventCount st;
  UntrustedExcerpts := UntrustedExcerpts st; FragmentChunks := FragmentChunks st;
  EgressFlows := EgressFlows st; EgressPIDFlows := EgressPIDFlows st; Vault := x;
  PendingSensitiveReadPaths := PendingSensitiveReadPaths st |}.

Definition set_PendingSensitiveReadPaths (x : gmap bytes bytes) (st : SessionState) : SessionState := {|
  SessionID := SessionID st; Status := Status st; Legs := Legs st; Tainted := Tainted st;
  Confidence := Confidence st; Timeline := Timeline st; TimelineLabels := TimelineLabels st;
  CreatedAt := CreatedAt st; LastActivity := LastActivity st; EventCount := EventCount st;
  UntrustedExcerpts := UntrustedExcerpts st; FragmentChunks := FragmentChunks st;
  EgressFlows := EgressFlows st; EgressPIDFlows := EgressPIDFlows st; Vault := Vault st;
  PendingSensitiveReadPaths := x |}.


(** ** Verdicts and evidence *)

Inductive verdict := NoVerdict | VerdictExfil | VerdictSuspicious.
Inductive action := NoAction | ActionPrevented | ActionAllowed | ActionContained | ActionDetectedOnly.
Inductive variant_plane := NoVariant | VariantA | VariantB.

#[export] Instance verdict_eq_dec : EqDecision verdict.
Proof. solve_decision. Defined.
#[export] Instance action_eq_dec : EqDecision action.
Proof. solve_decision. Defined.
#[export] Instance status_eq_dec : EqDecision status.
Proof. solve_decision. Defined.

Definition verdict_string (v : verdict) : bytes :=
  match v with
  | NoVerdict => []
  | VerdictExfil => gostr "EXFIL"
  | VerdictSuspicious => gostr "SUSPICIOUS"
  end.

Record OverlapHit := {
  TaintedHash : bytes; ohPreview : bytes; WhereFound : bytes; MatchForm : bytes
}.

Inductive item_kind := Intercepted | Syscall.

Record TimelineItem := {
  TimelineSeq : Z; tiTSMono : Z; Kind : item_kind; Label : bytes; Ref : Z
}.

(** A value of the [map[string]any] that describes the sink call. *)
Inductive sink_value := SinkStr (s : bytes) | SinkInt (z : Z) | SinkRaw (raw : bytes).

Record EvidenceRecord := {
  erSessionID : bytes; TripTS : Z; erVerdict : verdict; erAction : action;
  erVariant : variant_plane; erConfidence : float64; erLegs : TrifectaLegs;
  SinkCall : list (bytes * sink_value); ValueOverlap : option OverlapHit;
  erTimeline : list TimelineItem; erPod : option PodContext;
  ChainSeq : Z; PrevHash : bytes; erHash : bytes
}.

Record Decision := {
  Allow : bool; dVerdict : verdict; dAction : action; Reason : bytes;
  Evidence : option EvidenceRecord; ForwardArgs : option bytes
}.

(** [model.Decision{Allow: true}] *)
Definition allowed : Decision := {|
  Allow := true; dVerdict := NoVerdict; dAction := NoAction; Reason := [];
  Evidence := None; ForwardArgs := None |}.

(** [SecurityAuditEvent], its wall-clock time apart. *)
Record SecurityAuditEvent := {
  saKind : bytes; saReason : bytes; saSyscall : option SyscallEvent
}.
