(* ===== verification/Store.v ===== *)
(** * internal/engine/session_store.go: the bounded store of sessions

    The store holds at most [maxSessions] sessions. When it is full, creating one evicts
    the best victim: a session without taint if there is one, the least recently active
    among those. *)

From S2P Require Import Prelude Go GoTime GoStrings Encodings Json Model.

(** ** Iteration over a Go map

    The order of [for k, v := range m] is not specified and may differ each time: the [n]th
    iteration visits the entries in the order [range n] gives them. *)
Class MapOrder := {
  range : forall {A : Type}, nat -> list (bytes * A) -> list (bytes * A);
  range_perm : forall {A : Type} n (l : list (bytes * A)), range n l ≡ₚ l
}.

Definition entries {A} `{MapOrder} (n : nat) (m : gmap bytes A) : list (bytes * A) :=
  range n (map_to_list m).

Lemma elem_of_entries {A} `{MapOrder} (n : nat) (m : gmap bytes A) k v :
  (k, v) ∈ entries n m <-> m !! k = Some v.
Proof. unfold entries. by rewrite range_perm, elem_of_map_to_list. Qed.

(** ** Operations *)

Definition maxSessions : nat := Z.to_nat 10000.

Abbreviation SessionStore := (gmap bytes SessionState).

Definition NewSessionStore : SessionStore := ∅.

Definition Get (sessionID : bytes) (s : SessionStore) : option SessionState := s !! sessionID.

Definition no_taint (st : SessionState) : bool :=
  match Tainted st with [] => true | _ => false end.

Definition betterVictim (a b : SessionState) : bool :=
  if negb (Bool.eqb (no_taint a) (no_taint b)) then no_taint a
  else LastActivity a <? LastActivity b.

(** The loop of [evictOne]: the victim of the entries visited so far. *)
Definition pick (victim : option (bytes * SessionState)) (e : bytes * SessionState)
    : option (bytes * SessionState) :=
  match victim with
  | None => Some e
  | Some v => if betterVictim e.2 v.2 then Some e else victim
  end.

Definition victim_of (l : list (bytes * SessionState)) : option (bytes * SessionState) :=
  foldl pick None l.

(** [delete(s.sessions, victimID)]; the log line dereferences the victim, which exists
    since the store is not empty. *)
Definition evictOne `{MapOrder} (n : nat) (s : SessionStore) : SessionStore :=
  match victim_of (entries n s) with
  | Some (id, _) => delete id s
  | None => s
  end.

Definition new_session (sessionID : bytes) (now : Z) : SessionState := {|
  SessionID := sessionID; Status := Monitoring; Legs := no_legs; Tainted := [];
  Confidence := f64 0; Timeline := []; TimelineLabels := ∅; CreatedAt := now;
  LastActivity := now; EventCount := 0; UntrustedExcerpts := []; FragmentChunks := [];
  EgressFlows := ∅; EgressPIDFlows := ∅; Vault := ∅; PendingSensitiveReadPaths := ∅ |}.

Definition GetOrCreate `{MapOrder} (n : nat) (now : Z) (sessionID : bytes) (s : SessionStore)
    : SessionState * SessionStore :=
  match s !! sessionID with
  | Some st => (st, s)
  | None =>
      let s := if (maxSessions <=? size s)%nat then evictOne n s else s in
      let st := new_session sessionID now in
      (st, <[sessionID := st]> s)
  end.

Definition Upsert (st : SessionState) (s : SessionStore) : SessionStore :=
  <[SessionID st := st]> s.

Definition All `{MapOrder} (n : nat) (s : SessionStore) : list SessionState :=
  (entries n s).*2.

(** ** The victim *)

#[global] Opaque maxSessions.

Lemma maxSessions_pos : (0 < maxSessions)%nat.
Proof. Transparent maxSessions. unfold maxSessions. Opaque maxSessions. lia. Qed.

(** The order [evictOne] minimises: untainted sessions first, then by last activity. *)
Definition rank (st : SessionState) : Z * Z := (if no_taint st then 0 else 1, LastActivity st).

Definition rank_le (a b : SessionState) : Prop :=
  (rank a).1 < (rank b).1 \/ (rank a).1 = (rank b).1 /\ (rank a).2 <= (rank b).2.

Lemma betterVictim_rank a b : betterVictim a b = false <-> rank_le b a.
Proof.
  unfold betterVictim, rank_le, rank. destruct (no_taint a), (no_taint b); cbn;
    rewrite ?Z.ltb_ge; lia || (split; [done|lia]).
Qed.

#[export] Instance rank_le_pre : PreOrder rank_le.
Proof. split; [intros x|intros x y z]; unfold rank_le; lia. Qed.

Lemma rank_le_total a b : rank_le a b \/ rank_le b a.
Proof. unfold rank_le. lia. Qed.

Lemma foldl_pick v l :
  exists w, foldl pick (Some v) l = Some w /\ w ∈ v :: l /\
    forall x, x ∈ v :: l -> rank_le w.2 x.2.
Proof.
  revert v. induction l as [|e l IH]; intros v; cbn [foldl].
  { exists v. split_and!; [done|by left|]. intros x ->%list_elem_of_singleton. reflexivity. }
  cbn [pick]. destruct (betterVictim e.2 v.2) eqn:E.
  - destruct (IH e) as (w & -> & Hin & Hmin). exists w. split_and!; [done|by right|].
    assert (rank_le e.2 v.2).
    { destruct (rank_le_total e.2 v.2) as [|H]; [done|]. apply betterVictim_rank in H. congruence. }
    intros x [->|Hx]%elem_of_cons; [|by apply Hmin].
    etransitivity; [apply Hmin; by left|done].
  - destruct (IH v) as (w & -> & Hin & Hmin). exists w. split_and!; [done|rewrite !elem_of_cons in *; tauto|].
    apply betterVictim_rank in E. intros x [->|[->|Hx]%elem_of_cons]%elem_of_cons.
    + apply Hmin. by left.
    + etransitivity; [apply Hmin; by left|done].
    + apply Hmin. by right.
Qed.

Section order.

Context `{MapOrder}.
Implicit Types (n : nat) (s : SessionStore).

(** The victim is a least entry of the store. *)
Lemma victim_spec n (s : SessionStore) :
  s ≠ ∅ -> exists id st, victim_of (entries n s) = Some (id, st) /\ s !! id = Some st /\
    forall id' st', s !! id' = Some st' -> rank_le st st'.
Proof.
  intros Hs. unfold victim_of. destruct (entries n s) as [|e l] eqn:E.
  { exfalso. apply Hs, map_empty. intros i. destruct (s !! i) as [x|] eqn:Ex; [|done].
    apply (elem_of_entries n) in Ex. rewrite E in Ex. by apply elem_of_nil in Ex. }
  cbn [foldl pick]. destruct (foldl_pick e l) as ([id st] & -> & Hin & Hmin).
  rewrite <- E in Hin, Hmin. exists id, st. split_and!; [done|by apply (elem_of_entries n)|].
  intros id' st' H'. apply (Hmin (id', st')). by apply elem_of_entries.
Qed.

Lemma size_evictOne n s : s ≠ ∅ -> size (evictOne n s) = (size s - 1)%nat.
Proof.
  intros Hs. unfold evictOne. destruct (victim_spec n s Hs) as (id & st & -> & Hid & _).
  rewrite map_size_delete_Some by eauto. lia.
Qed.

(** Only the victim leaves, and nothing else ranks below it. *)
Lemma evictOne_spec n s id st :
  s !! id = Some st -> evictOne n s !! id = None ->
  forall id' st', s !! id' = Some st' -> rank_le st st'.
Proof.
  intros Hid. assert (s ≠ ∅) as Hs by (intros ->; by rewrite lookup_empty in Hid).
  unfold evictOne. destruct (victim_spec n s Hs) as (v & vst & -> & Hv & Hmin).
  destruct (decide (v = id)) as [->|Hne]; [|by rewrite lookup_delete_ne, Hid].
  rewrite Hid in Hv. by injection Hv as ->.
Qed.

Lemma evictOne_sub n s : evictOne n s ⊆ s.
Proof. unfold evictOne. destruct (victim_of _) as [[??]|]; [apply delete_subseteq|done]. Qed.

(** ** Invariant: bounded, and every session under its own id *)

Definition store_ok (s : SessionStore) : Prop :=
  (size s <= maxSessions)%nat /\ map_Forall (λ id st, SessionID st = id) s.

Lemma NewSessionStore_ok : store_ok NewSessionStore.
Proof. split; [|apply map_Forall_empty]. unfold NewSessionStore. rewrite map_size_empty. lia. Qed.

Lemma GetOrCreate_ok n now id s : store_ok s -> store_ok (GetOrCreate n now id s).2.
Proof.
  intros [Hsz Hid]. unfold GetOrCreate. destruct (s !! id) as [st|] eqn:E; [done|]. cbn [snd].
  pose proof maxSessions_pos.
  set (s' := if (maxSessions <=? size s)%nat then evictOne n s else s).
  assert (s' ⊆ s) as Hsub.
  { unfold s'. destruct (_ <=? _)%nat; [apply evictOne_sub|done]. }
  assert (S (size s') <= maxSessions)%nat as Hs'.
  { unfold s'. destruct (Nat.leb_spec maxSessions (size s)); [|lia].
    rewrite size_evictOne; [lia|]. intros ->. rewrite map_size_empty in *. lia. }
  split.
  - rewrite map_size_insert_None; [lia|]. destruct (s' !! id) as [x|] eqn:Ex; [|done].
    eapply lookup_weaken in Ex; [|exact Hsub]. congruence.
  - apply map_Forall_insert_2; [done|]. intros i x Hx. eapply lookup_weaken in Hx; eauto.
Qed.

Lemma Upsert_ok st s : store_ok s -> is_Some (s !! SessionID st) -> store_ok (Upsert st s).
Proof.
  intros [Hsz Hid] [x Hx]. split.
  - unfold Upsert. by rewrite map_size_insert_Some by eauto.
  - by apply map_Forall_insert_2.
Qed.

Lemma GetOrCreate_lookup n now id s :
  (GetOrCreate n now id s).2 !! id = Some (GetOrCreate n now id s).1.
Proof.
  unfold GetOrCreate. destruct (s !! id) eqn:E; cbn; [done|]. by rewrite lookup_insert_eq.
Qed.

Lemma GetOrCreate_hit n now id s st : s !! id = Some st -> GetOrCreate n now id s = (st, s).
Proof. unfold GetOrCreate. by intros ->. Qed.

(** Sessions that survive a creation are untouched. *)
Lemma GetOrCreate_other n now id s id' :
  id' ≠ id -> (GetOrCreate n now id s).2 !! id' = s !! id' \/
              (maxSessions <= size s)%nat /\ (GetOrCreate n now id s).2 !! id' = None.
Proof.
  intros Hne. unfold GetOrCreate. destruct (s !! id); [by left|]. cbn [snd].
  rewrite lookup_insert_ne by done. destruct (Nat.leb_spec maxSessions (size s)); [|by left].
  destruct (evictOne n s !! id') as [x|] eqn:E; [left|by right].
  symmetry. eapply lookup_weaken; [done|apply evictOne_sub].
Qed.

End order.

(** ** Properties *)

(** The session cap protects secrets: when creating a session drops another one, the
    store was full, no session in it was a better victim, and a session that holds tainted
    values is dropped only if every session holds some. *)
Theorem eviction_spares_taint `{MapOrder} (n : nat) (now : Z) (id id' : bytes)
    (s : SessionStore) (st' : SessionState) :
  id' ≠ id -> s !! id' = Some st' -> (GetOrCreate n now id s).2 !! id' = None ->
  (maxSessions <= size s)%nat /\
  (forall i x, s !! i = Some x -> betterVictim x st' = false) /\
  (Tainted st' ≠ [] -> map_Forall (λ _ x, Tainted x ≠ []) s).
Proof.
  intros Hne Hs' Hgone. destruct (GetOrCreate_other n now id s id' Hne) as [E|[Hfull _]].
  { rewrite Hgone, Hs' in E. discriminate. }
  assert (forall i x, s !! i = Some x -> rank_le st' x) as Hmin.
  { apply (evictOne_spec n s id' st' Hs'). revert Hgone. unfold GetOrCreate.
    destruct (s !! id); cbn [snd]; [congruence|]. rewrite lookup_insert_ne by done.
    by rewrite (proj2 (Nat.leb_le _ _) Hfull). }
  split_and!; [done| |].
  - intros i x Hx. apply betterVictim_rank. by apply (Hmin i).
  - intros Ht i x Hx Hxt. pose proof (Hmin i x Hx) as Hr. unfold rank_le, rank, no_taint in Hr.
    rewrite Hxt in Hr. destruct (Tainted st'); [done|]. cbn in Hr. lia.
Qed.

(** The iteration order of a witness: the entries as they are listed. *)
Definition listed_order : MapOrder := {| range := λ _ _ l, l; range_perm := λ _ _ l, reflexivity l |}.

(** A full store in which one session, the most recently active, holds no taint. *)
Definition secret : TaintedValue := {|
  Value := gostr "s3cr3t"; Variants := []; Chunks := []; Hash := HashValue (gostr "s3cr3t");
  Preview := gostr "****"; Source := []; tvSeq := 1; RegisteredAt := 1 |}.

Definition tainted_session (id : bytes) : SessionState := set_Tainted [secret] (new_session id 1).

Definition crowd (n : nat) : SessionStore :=
  list_to_map (map (λ i, (replicate i x61, tainted_session (replicate i x61))) (seq 0 n)).

Definition full_store : SessionStore :=
  <[gostr "idle" := new_session (gostr "idle") 2]> (crowd (maxSessions - 1)).

Lemma crowd_keys n : NoDup (map (λ i, (replicate i x61, tainted_session (replicate i x61))) (seq 0 n)).*1.
Proof.
  rewrite <- list_fmap_compose. apply NoDup_fmap_2; [|apply NoDup_seq].
  intros i j Hij. apply (f_equal length) in Hij. cbn in Hij. by rewrite !length_replicate in Hij.
Qed.

Lemma crowd_tainted n i st : crowd n !! i = Some st -> Tainted st = [secret].
Proof.
  unfold crowd. intros Hi%elem_of_list_to_map_2. apply list_elem_of_In, in_map_iff in Hi.
  destruct Hi as (k & [= <- <-] & _). done.
Qed.

Lemma crowd_fresh n : crowd n !! gostr "idle" = None.
Proof.
  destruct (crowd n !! gostr "idle") as [st|] eqn:E; [|done]. unfold crowd in E.
  apply elem_of_list_to_map_2, list_elem_of_In, in_map_iff in E.
  destruct E as ([|k] & [= E] & _).
Qed.

Lemma size_full_store : size full_store = maxSessions.
Proof.
  unfold full_store. rewrite map_size_insert_None by apply crowd_fresh. unfold crowd.
  rewrite map_size_list_to_map by apply crowd_keys. rewrite length_map, length_seq.
  pose proof maxSessions_pos. lia.
Qed.

Lemma full_store_full : (maxSessions <=? size full_store)%nat = true.
Proof. apply Nat.leb_le, Nat.eq_le_incl. symmetry. apply size_full_store. Qed.

Lemma full_store_victim (o : MapOrder) (n : nat) : evictOne n full_store !! gostr "idle" = None.
Proof.
  unfold evictOne. assert (full_store ≠ ∅) as Hne by apply insert_non_empty.
  destruct (victim_spec n full_store Hne) as (id & st & -> & Hid & Hmin).
  destruct (decide (id = gostr "idle")) as [->|Hne']; [apply lookup_delete_eq|exfalso].
  specialize (Hmin (gostr "idle") (new_session (gostr "idle") 2) (lookup_insert_eq _ _ _)).
  unfold full_store in Hid. rewrite lookup_insert_ne in Hid by done.
  apply crowd_tainted in Hid. unfold rank_le, rank, no_taint in Hmin. rewrite Hid in Hmin.
  cbn in Hmin. lia.
Qed.

Example eviction_spares_taint_witness :
  (maxSessions <= size full_store)%nat /\
  (forall i x, full_store !! i = Some x -> betterVictim x (new_session (gostr "idle") 2) = false).
Proof.
  pose (o := listed_order).
  assert (gostr "idle" ≠ gostr "new") as Hne by done.
  assert (full_store !! gostr "idle" = Some (new_session (gostr "idle") 2)) as Hs
    by apply lookup_insert_eq.
  assert ((GetOrCreate 0 3 (gostr "new") full_store).2 !! gostr "idle" = None) as Hgone.
  { unfold GetOrCreate. destruct (full_store !! gostr "new") as [x|] eqn:E.
    - exfalso. unfold full_store in E. rewrite lookup_insert_ne in E by done. unfold crowd in E.
      apply elem_of_list_to_map_2, list_elem_of_In, in_map_iff in E.
      destruct E as ([|k] & [= E] & _).
    - cbn [snd]. rewrite lookup_insert_ne by done.
      rewrite full_store_full. apply full_store_victim. }
  destruct (eviction_spares_taint 0 3 (gostr "new") (gostr "idle") full_store _ Hne Hs Hgone)
    as (H1 & H2 & _).
  exact (conj H1 H2).
Defined.
