(* ===== verification/Tagger.v ===== *)
(** * internal/engine/tagger.go, and the settings of an Engine

    The tagger decides which tools are sensitive sources and which are external sinks. The
    record [Engine] holds what NewEngine and Configure set and no operation changes. *)

From S2P Require Import Prelude Go GoTime Config GoStrings Encodings Json Model Store.

(** ** Tagger *)

Record Tagger := {
  toolTags : gmap bytes (list bytes);
  serverTags : gmap bytes (list bytes);
  inheritSinkSuspicion : bool;
  sinkAllowlist : gset bytes
}.

(** The loop over [cfg.Servers]: servers without tags are not recorded. *)
Definition server_tags (servers : list ServerConfig) : gmap bytes (list bytes) :=
  foldl (λ m sc, match sc_ProvidesTags sc with
                 | [] => m
                 | tags => <[sc_ID sc := tags]> m
                 end) ∅ servers.

Definition NewTagger (cfg : option Config) : Tagger :=
  match cfg with
  | None => {| toolTags := ∅; serverTags := ∅; inheritSinkSuspicion := false; sinkAllowlist := ∅ |}
  | Some c => {|
      toolTags := c_ToolTags c;
      serverTags := server_tags (c_Servers c);
      inheritSinkSuspicion := sd_InheritSinkSuspicion (c_ServerDefaults c);
      sinkAllowlist :=
        list_to_set (List.filter (λ n, bool_decide (n ≠ [])) (sd_SinkSuspicionAllowlist (c_ServerDefaults c))) |}
  end.

Definition hasTag (tags : list bytes) (target : bytes) : bool :=
  existsb (λ t, bool_decide (t = target)) tags.

Definition TagsFor (t : Tagger) (toolName serverID : bytes) : list bytes :=
  match toolTags t !! toolName with
  | Some tags => tags
  | None => default [] (serverTags t !! serverID)
  end.

Definition sensitive_source := gostr "sensitive_source".
Definition external_sink := gostr "external_sink".

Definition IsSensitiveSource (t : Tagger) (toolName serverID : bytes) : bool :=
  hasTag (TagsFor t toolName serverID) sensitive_source.

Definition serverIsSensitiveSource (t : Tagger) (serverID : bytes) : bool :=
  hasTag (default [] (serverTags t !! serverID)) sensitive_source.

Definition IsExternalSink (t : Tagger) (toolName serverID : bytes) : bool :=
  if hasTag (TagsFor t toolName serverID) external_sink then true
  else if negb (inheritSinkSuspicion t) then false
  else if bool_decide (toolName ∈ sinkAllowlist t) then false
  else serverIsSensitiveSource t serverID.

(** The loops over the two maps return at the first hit, so their order does not matter. *)
Definition hasAnyTag (t : Tagger) (target : bytes) : bool :=
  existsb (λ kv, hasTag kv.2 target) (map_to_list (toolTags t)) ||
  existsb (λ kv, hasTag kv.2 target) (map_to_list (serverTags t)).

Definition HasSensitiveSource (t : Tagger) : bool := hasAnyTag t sensitive_source.

Definition HasExternalSink (t : Tagger) : bool :=
  if hasAnyTag t external_sink then true
  else if inheritSinkSuspicion t
  then existsb (λ kv, serverIsSensitiveSource t kv.1) (map_to_list (serverTags t))
  else false.

(** ** Engine *)

(** [ContainerLimits] of container.go; [MaxInspect] in nanoseconds. *)
Record ContainerLimits := {
  Enabled : bool; MaxDecompressedBytes : Z; MaxDescentDepth : Z; MaxParts : Z; MaxInspect : Z
}.

Definition Millisecond : Z := 1000000.

Definition DefaultContainerLimits : ContainerLimits := {|
  Enabled := true; MaxDecompressedBytes := 10 * 1024 * 1024; MaxDescentDepth := 2;
  MaxParts := 100; MaxInspect := 50 * Millisecond |}.

Record Engine := {
  tagger : option Tagger;
  mode : bytes;
  untrustedToolResults : bool;
  legTTL : Z;
  decayAfterCalls : Z;
  contentBindMinLen : Z;
  fragmentMaxChunks : Z;
  fragmentMaxBytes : Z;
  chunkMatchBytes : Z;
  chunkMatchMinLen : Z;
  egressReassemblyEnabled : bool;
  egressFragmentMaxChunks : Z;
  egressFragmentMaxBytes : Z;
  egressFragmentMaxAge : Z;
  egressMaxFlows : Z;
  maxDecodeDepth : Z;          (* the package variable activeDecodeDepth *)
  vaultEnabled : bool;
  vaultAuthorize : list VaultAuthorizeEntry;
  sensitivePaths : list bytes;
  containerLimits : ContainerLimits
}.

Definition defaultContentBindMinLen : Z := 16.
Definition defaultFragmentChunks : Z := 16.
Definition defaultFragmentBytes : Z := 64 * 1024.
Definition defaultEgressFragmentChunks : Z := 16.
Definition defaultEgressFragmentBytes : Z := 4 * 1024.
Definition defaultEgressFragmentAge : Z := 10 * Second.
Definition defaultEgressMaxFlows : Z := 32.
Definition defaultChunkMatchBytes : Z := 32.
Definition defaultChunkMatchMinLen : Z := 64.

Definition NewEngine (t : option Tagger) (m : bytes) : Engine := {|
  tagger := t;
  mode := match m with [] => gostr "block" | _ => m end;
  untrustedToolResults := true;
  legTTL := 30 * Minute;
  decayAfterCalls := 32;
  contentBindMinLen := defaultContentBindMinLen;
  fragmentMaxChunks := defaultFragmentChunks;
  fragmentMaxBytes := defaultFragmentBytes;
  chunkMatchBytes := defaultChunkMatchBytes;
  chunkMatchMinLen := defaultChunkMatchMinLen;
  egressReassemblyEnabled := true;
  egressFragmentMaxChunks := defaultEgressFragmentChunks;
  egressFragmentMaxBytes := defaultEgressFragmentBytes;
  egressFragmentMaxAge := defaultEgressFragmentAge;
  egressMaxFlows := defaultEgressMaxFlows;
  maxDecodeDepth := DefaultMaxDecodeDepth;
  vaultEnabled := false;
  vaultAuthorize := [];
  sensitivePaths := [];
  containerLimits := DefaultContainerLimits |}.

Definition Configure (cfg : option Config) (e : Engine) : Engine :=
  match cfg with
  | None => e
  | Some c =>
      let t := c_Trifecta c in {|
      tagger := tagger e;
      mode := mode e;
      untrustedToolResults := c_ToolResults c;
      legTTL := LegTTLDuration t;
      decayAfterCalls := DecayAfterCallsOrDefault t;
      contentBindMinLen := ContentBindMinLenOrDefault t;
      fragmentMaxChunks := FragmentMaxChunksOrDefault t;
      fragmentMaxBytes := FragmentMaxBytesOrDefault t;
      chunkMatchBytes := ChunkMatchBytesOrDefault t;
      chunkMatchMinLen := ChunkMatchMinLenOrDefault t;
      egressReassemblyEnabled := EgressReassemblyEnabledOrDefault t;
      egressFragmentMaxChunks := EgressFragmentMaxChunksOrDefault t;
      egressFragmentMaxBytes := EgressFragmentMaxBytesOrDefault t;
      egressFragmentMaxAge := EgressFragmentMaxAgeOrDefault t;
      egressMaxFlows := EgressMaxDestinationsOrDefault t;
      maxDecodeDepth := ClampMaxDecodeDepth (MaxDecodeDepthOrDefault t);
      vaultEnabled := vc_Enabled (c_Vault c);
      vaultAuthorize := vc_Authorize (c_Vault c);
      sensitivePaths := c_SensitivePaths c;
      containerLimits := {|
        Enabled := ContainerInspectEnabledOrDefault t;
        MaxDecompressedBytes := ContainerMaxDecompressedBytesOrDefault t;
        MaxDescentDepth := ContainerMaxDescentDepthOrDefault t;
        MaxParts := ContainerMaxPartsOrDefault t;
        MaxInspect := i64 (ContainerMaxInspectMsOrDefault t * Millisecond) |} |}
  end.

(** ** Properties *)

Lemma hasTag_spec tags target : hasTag tags target = true <-> target ∈ tags.
Proof.
  unfold hasTag. rewrite existsb_exists. split.
  - intros (x & Hx & ->%bool_decide_eq_true). by apply list_elem_of_In.
  - intros H. exists target. split; [by apply list_elem_of_In|by apply bool_decide_eq_true].
Qed.

Lemma existsb_entries {A} (p : bytes * A -> bool) (m : gmap bytes A) :
  existsb p (map_to_list m) = true <-> exists k v, m !! k = Some v /\ p (k, v) = true.
Proof.
  rewrite existsb_exists. split.
  - intros ([k v] & Hin%list_elem_of_In & Hp). apply elem_of_map_to_list in Hin. eauto.
  - intros (k & v & Hm & Hp). exists (k, v). by rewrite <- list_elem_of_In, elem_of_map_to_list.
Qed.

Lemma hasAnyTag_tool t tool server target :
  hasTag (TagsFor t tool server) target = true -> hasAnyTag t target = true.
Proof.
  unfold TagsFor, hasAnyTag. rewrite orb_true_iff, !existsb_entries.
  destruct (toolTags t !! tool) as [tags|] eqn:E; [eauto|].
  destruct (serverTags t !! server) as [tags|] eqn:E'; cbn; [eauto|done].
Qed.

(** The start-up warnings of NewEngine are truthful. When HasSensitiveSource is false no
    tool of any server is a sensitive source, when HasExternalSink is false none is a sink;
    and with inherit_sink_suspicion every tool of a server tagged sensitive_source is a
    sink unless it is on the allowlist, whatever tool_tags says about it. *)
Theorem tagger_warnings_sound (t : Tagger) (tool server : bytes) :
  (IsSensitiveSource t tool server = true -> HasSensitiveSource t = true) /\
  (IsExternalSink t tool server = true -> HasExternalSink t = true) /\
  (inheritSinkSuspicion t = true -> tool ∉ sinkAllowlist t ->
   serverIsSensitiveSource t server = true -> IsExternalSink t tool server = true).
Proof.
  split_and!.
  - apply hasAnyTag_tool.
  - unfold IsExternalSink, HasExternalSink.
    destruct (hasTag (TagsFor t tool server) external_sink) eqn:E.
    { intros _. by rewrite (hasAnyTag_tool _ _ _ _ E). }
    destruct (inheritSinkSuspicion t); cbn [negb]; [|done]. destruct (bool_decide _); [done|].
    intros Hs. destruct (hasAnyTag t external_sink); [done|]. apply existsb_entries.
    destruct (serverTags t !! server) as [tags|] eqn:Et; [by exists server, tags|].
    unfold serverIsSensitiveSource in Hs. rewrite Et in Hs. discriminate Hs.
  - intros Hi Ha Hs. unfold IsExternalSink. rewrite Hi, (bool_decide_eq_false_2 _ Ha), Hs.
    by destruct (hasTag _ _).
Qed.

(** A server of tickets that is a sensitive source, and a tool exempt from nothing. *)
Definition ticket_tagger : Tagger := {|
  toolTags := <[gostr "internal_note" := []]> ∅;
  serverTags := <[gostr "tickets" := [sensitive_source]]> ∅;
  inheritSinkSuspicion := true; sinkAllowlist := {[ gostr "search" ]} |}.

Example tagger_warnings_sound_witness :
  HasSensitiveSource ticket_tagger = true /\ HasExternalSink ticket_tagger = true /\
  IsExternalSink ticket_tagger (gostr "internal_note") (gostr "tickets") = true.
Proof.
  destruct (tagger_warnings_sound ticket_tagger (gostr "get") (gostr "tickets")) as (H1 & H2 & _).
  destruct (tagger_warnings_sound ticket_tagger (gostr "internal_note") (gostr "tickets")) as (_ & _ & H3).
  split_and!.
  - apply H1. vm_compute. reflexivity.
  - apply H2. vm_compute. reflexivity.
  - apply H3; [reflexivity| |vm_compute; reflexivity].
    cbn [sinkAllowlist ticket_tagger]. intros H%elem_of_singleton. discriminate H.
Defined.
