(* ===== verification/Egress.v ===== *)
(** * Reassembly buffers of internal/engine/engine.go

    Two rolling histories let the engine see a secret that was split: the fragment buffer
    of sensitive results, and the per-flow buffers of egress payloads, kept once per
    (pid, destination) and once per pid. All are bounded; the oldest entries go first. *)

From S2P Require Import Prelude Go GoTime Config GoStrings Encodings Json Model Store Tagger.

(** [if n <= 0 { n = def }] *)
Definition or_default (n def : Z) : Z := if n <=? 0 then def else n.

Fixpoint fragmentBytes (chunks : list bytes) : Z :=
  match chunks with [] => 0 | c :: chunks => len c + fragmentBytes chunks end.

(** [for len(chunks) > maxChunks || fragmentBytes(chunks) > maxBytes { chunks = chunks[1:] }] *)
Fixpoint shed (maxChunks maxBytes : Z) (chunks : list bytes) : list bytes :=
  match chunks with
  | [] => []
  | _ :: rest =>
      if (maxChunks <? len chunks) || (maxBytes <? fragmentBytes chunks)
      then shed maxChunks maxBytes rest else chunks
  end.

(** [if len(s) > n { s = s[len(s)-n:] }] *)
Definition last_bytes (n : Z) (s : bytes) : bytes :=
  if n <? len s then drop (Z.to_nat (len s - n)) s else s.

(** ** The fragment buffer *)

Definition appendFragment (e : Engine) (chunk : bytes) (st : SessionState) : SessionState :=
  match TrimRight chunk [x0a] with
  | [] => st
  | chunk =>
      let maxChunks := or_default (fragmentMaxChunks e) defaultFragmentChunks in
      let maxBytes := or_default (fragmentMaxBytes e) defaultFragmentBytes in
      set_FragmentChunks
        (shed maxChunks maxBytes (FragmentChunks st ++ [last_bytes maxBytes chunk])) st
  end.

(** ** Egress flows *)

Definition openat := gostr "openat".
Definition dns := gostr "dns".

Definition maxAge (e : Engine) : Z := or_default (egressFragmentMaxAge e) defaultEgressFragmentAge.

Definition pruneEgressFlows (e : Engine) (flows : gmap bytes EgressFlowBuffer) (now : Z)
    : gmap bytes EgressFlowBuffer :=
  let cutoff := i64 (now - maxAge e) in
  filter (λ kf, cutoff <= LastAppendNS kf.2) flows.

(** The scan for the oldest flow: its time and its key so far. *)
Definition older (acc : Z * bytes) (kf : bytes * EgressFlowBuffer) : Z * bytes :=
  if LastAppendNS kf.2 <? acc.1 then (LastAppendNS kf.2, kf.1) else acc.

Definition enforceEgressFlowCap `{MapOrder} (e : Engine) (n : nat) (flows : gmap bytes EgressFlowBuffer)
    : gmap bytes EgressFlowBuffer :=
  let maxFlows := or_default (egressMaxFlows e) defaultEgressMaxFlows in
  if Z.of_nat (size flows) <? maxFlows then flows
  else
    let oldestKey := (foldl older (max_int64, []) (entries n flows)).2 in
    match oldestKey with [] => flows | _ => delete oldestKey flows end.

Definition appendFlow `{MapOrder} (e : Engine) (n : nat) (flows : gmap bytes EgressFlowBuffer)
    (key : bytes) (pid : Z) (dest fragment : bytes) (now : Z)
    : bytes * gmap bytes EgressFlowBuffer :=
  let flows := pruneEgressFlows e flows now in
  let '(flow, flows) :=
    match flows !! key with
    | Some flow => (flow, flows)
    | None => ({| efPID := pid; efDestination := dest; LastAppendNS := 0; efChunks := [] |},
               enforceEgressFlowCap e n flows)
    end in
  let stale := (0 <? LastAppendNS flow) && (maxAge e <? i64 (now - LastAppendNS flow)) in
  let chunks := if stale then [] else efChunks flow in
  let maxBytes := or_default (egressFragmentMaxBytes e) defaultEgressFragmentBytes in
  let maxChunks := or_default (egressFragmentMaxChunks e) defaultEgressFragmentChunks in
  let chunks := shed maxChunks maxBytes (chunks ++ [last_bytes maxBytes fragment]) in
  (Join chunks [],
   <[key := {| efPID := efPID flow; efDestination := efDestination flow;
               LastAppendNS := now; efChunks := chunks |}]> flows).

Definition egressFlowKey (ev : SyscallEvent) : bytes * bytes :=
  let destination :=
    if bool_decide (seDestIP ev = []) && (seDestPort ev =? 0) then seSyscall ev
    else seDestIP ev ++ x3a :: Itoa (seDestPort ev) in
  (Itoa (sePID ev) ++ x7c :: destination, destination).

Definition egressEventTime (ev : SyscallEvent) (now : Z) : Z :=
  if 0 <? seTSMono ev then seTSMono ev else now.

Definition normalizedEgressFragment (ev : SyscallEvent) : bytes :=
  if negb (bool_decide (seSyscall ev = dns)) then sePayloadExcerpt ev
  else
    match TrimSpace (TrimSuffix (sePayloadExcerpt ev) [x2e]) with
    | [] => []
    | q => match IndexByte q x2e with
           | Some (S i) => take (S i) q
           | _ => q
           end
    end.

Definition newline : bytes := [x0a].

Definition appendEgressFlowFragment `{MapOrder} (e : Engine) (n : nat) (now : Z)
    (ev : SyscallEvent) (fragment : bytes) (st : SessionState) : bytes * SessionState :=
  let now := egressEventTime ev now in
  let '(key, dest) := egressFlowKey ev in
  let '(window, flows) := appendFlow e n (EgressFlows st) key (sePID ev) dest fragment now in
  let '(pidWindow, pflows) :=
    appendFlow e (S n) (EgressPIDFlows st) (Itoa (sePID ev)) (sePID ev) [x2a] fragment now in
  let st := set_EgressPIDFlows pflows (set_EgressFlows flows st) in
  (if bool_decide (pidWindow = window) then window else window ++ newline ++ pidWindow, st).

(** [now] is the clock's answer, read when the event has no time of its own. *)
Definition egressCandidatePayload `{MapOrder} (e : Engine) (n : nat) (now : Z)
    (ev : SyscallEvent) (st : SessionState) : bytes * SessionState :=
  if bool_decide (seSyscall ev = openat) || bool_decide (sePayloadExcerpt ev = [])
  then (sePayloadExcerpt ev, st)
  else
    match normalizedEgressFragment ev with
    | [] => (sePayloadExcerpt ev, st)
    | fragment =>
        let '(window, st) :=
          if egressReassemblyEnabled e then appendEgressFlowFragment e n now ev fragment st
          else (fragment, st) in
        (if bool_decide (fragment ≠ sePayloadExcerpt ev)
         then window ++ newline ++ sePayloadExcerpt ev else window, st)
    end.

(** ** Sizes *)

Lemma len_nonneg {A} (s : list A) : 0 <= len s.
Proof. unfold len. lia. Qed.

Lemma len_app {A} (s t : list A) : len (s ++ t) = len s + len t.
Proof. unfold len. rewrite length_app. lia. Qed.

Lemma fragmentBytes_nonneg chunks : 0 <= fragmentBytes chunks.
Proof. induction chunks as [|c cs IH]; cbn [fragmentBytes]; [done|]. pose proof (len_nonneg c). lia. Qed.

Lemma fragmentBytes_app a b : fragmentBytes (a ++ b) = fragmentBytes a + fragmentBytes b.
Proof. induction a as [|c a IH]; cbn [app fragmentBytes]; [done|]. rewrite IH. lia. Qed.

Lemma fragmentBytes_join chunks : fragmentBytes chunks = len (mjoin chunks).
Proof. induction chunks as [|c cs IH]; [done|]. cbn [fragmentBytes mjoin list_join]. by rewrite len_app, IH. Qed.

Lemma fragmentBytes_snoc a c : fragmentBytes (a ++ [c]) = fragmentBytes a + len c.
Proof. rewrite fragmentBytes_app. cbn [fragmentBytes]. lia. Qed.
