(* ===== verification/EgressTheorems.v ===== *)
(** * The reassembly buffers are bounded and lose nothing inside their window *)

From S2P Require Import Prelude Go GoTime Config GoStrings Encodings Json Model Store Tagger Egress.

(** ** Shedding *)

Definition within (maxChunks maxBytes : Z) (chunks : list bytes) : Prop :=
  len chunks <= maxChunks /\ fragmentBytes chunks <= maxBytes.

Lemma shed_within mc mb chunks : 0 <= mc -> 0 <= mb -> within mc mb (shed mc mb chunks).
Proof.
  intros. induction chunks as [|c cs IH]; [done|]. cbn [shed].
  destruct (_ || _) eqn:E; [done|]. apply orb_false_iff in E as [?%Z.ltb_ge ?%Z.ltb_ge]. done.
Qed.

(** A suffix that fits is kept. *)
Lemma shed_keeps mc mb pre suf :
  within mc mb suf -> exists pre', shed mc mb (pre ++ suf) = pre' ++ suf.
Proof.
  intros [Hc Hb]. induction pre as [|c pre IH].
  - exists []. destruct suf as [|c suf]; [done|]. cbn [app shed].
    by rewrite (proj2 (Z.ltb_ge _ _) Hc), (proj2 (Z.ltb_ge _ _) Hb).
  - cbn [app shed]. destruct (_ || _); [done|]. by exists (c :: pre).
Qed.

Lemma last_bytes_short n s : len s <= n -> last_bytes n s = s.
Proof. unfold last_bytes. intros. by rewrite (proj2 (Z.ltb_ge _ _)). Qed.

Lemma or_default_pos n def : 0 < def -> 0 < or_default n def.
Proof. unfold or_default. destruct (Z.leb_spec n 0); lia. Qed.

(** ** One flow map *)

Section flows.

Context `{MapOrder} (e : Engine).
Implicit Types (n : nat) (flows : gmap bytes EgressFlowBuffer) (key : bytes).

Definition max_flows : Z := or_default (egressMaxFlows e) defaultEgressMaxFlows.
Definition flow_bytes : Z := or_default (egressFragmentMaxBytes e) defaultEgressFragmentBytes.
Definition flow_chunks : Z := or_default (egressFragmentMaxChunks e) defaultEgressFragmentChunks.

Definition flow_ok (f : EgressFlowBuffer) : Prop :=
  within flow_chunks flow_bytes (efChunks f) /\ LastAppendNS f < max_int64.

Definition flows_ok flows : Prop :=
  Z.of_nat (size flows) <= max_flows /\ map_Forall (λ k f, k ≠ [] /\ flow_ok f) flows.

Lemma flow_chunks_pos : 0 < flow_chunks.
Proof. by apply or_default_pos. Qed.

Lemma flow_bytes_pos : 0 < flow_bytes.
Proof. by apply or_default_pos. Qed.

Lemma max_flows_pos : 0 < max_flows.
Proof. by apply or_default_pos. Qed.

Lemma flows_ok_empty : flows_ok ∅.
Proof.
  split; [|apply map_Forall_empty]. rewrite map_size_empty. pose proof max_flows_pos. lia.
Qed.

(** Removing flows keeps the invariant. *)
Lemma flows_ok_sub flows flows' : flows' ⊆ flows -> flows_ok flows -> flows_ok flows'.
Proof.
  intros Hs [Hz Hf]. split.
  - pose proof (map_subseteq_size _ _ Hs). lia.
  - intros k f Hk. eapply lookup_weaken in Hk; [|exact Hs]. by apply Hf in Hk.
Qed.

Lemma prune_sub flows now : pruneEgressFlows e flows now ⊆ flows.
Proof. apply map_filter_subseteq. Qed.

Lemma prune_keeps flows now key f :
  flows !! key = Some f -> i64 (now - maxAge e) <= LastAppendNS f ->
  pruneEgressFlows e flows now !! key = Some f.
Proof. intros. by apply map_lookup_filter_Some_2. Qed.

(** Once the scan holds a key, it is the key of a flow it visited. *)
Lemma older_key l acc : (foldl older acc l).2 = acc.2 \/ (foldl older acc l).2 ∈ l.*1.
Proof.
  revert acc. induction l as [|kf l IH]; intros acc; [by left|]. cbn [foldl fmap list_fmap].
  destruct (IH (older acc kf)) as [E|E]; [|right; by right].
  rewrite E. unfold older. destruct (_ <? _); [right; by left|by left].
Qed.

(** From the initial bound, the first flow is taken. *)
Lemma older_some kf l :
  LastAppendNS kf.2 < max_int64 ->
  (foldl older (max_int64, []) (kf :: l)).2 ∈ (kf :: l).*1.
Proof.
  intros Hl. cbn [foldl]. unfold older at 2. cbn [fst]. rewrite (proj2 (Z.ltb_lt _ _) Hl).
  destruct (older_key l (LastAppendNS kf.2, kf.1)) as [E|E].
  - rewrite E. by left.
  - right. exact E.
Qed.

Lemma enforce_sub n flows : enforceEgressFlowCap e n flows ⊆ flows.
Proof.
  unfold enforceEgressFlowCap. destruct (_ <? _); [done|]. destruct (foldl _ _ _) as [o k].
  cbn [snd]. destruct k; [done|apply delete_subseteq].
Qed.

(** After the cap is enforced there is room for one more flow. *)
Lemma enforce_room n flows :
  flows_ok flows -> Z.of_nat (size (enforceEgressFlowCap e n flows)) < max_flows.
Proof.
  intros [Hz Hf]. unfold enforceEgressFlowCap. fold max_flows.
  destruct (Z.ltb_spec (Z.of_nat (size flows)) max_flows) as [|Hge]; [done|].
  pose proof max_flows_pos.
  assert (forall x, x ∈ entries n flows -> x.1 ≠ [] /\ flow_ok x.2 /\ flows !! x.1 = Some x.2) as He.
  { intros [k f] Hx%elem_of_entries. by destruct (Hf k f Hx). }
  destruct (entries n flows) as [|kf l] eqn:E.
  { apply (f_equal length) in E. unfold entries in E. rewrite range_perm, length_map_to_list in E.
    cbn in E. lia. }
  assert ((foldl older (max_int64, []) (kf :: l)).2 ∈ (kf :: l).*1) as Hin.
  { apply older_some, He. by left. }
  apply list_elem_of_fmap in Hin as (x & Hk & Hx). destruct (He x Hx) as (Hne & _ & Hlk).
  rewrite Hk. destruct x as [[|c k] f]; [done|]. cbn [fst] in *.
  rewrite map_size_delete_Some by eauto. lia.
Qed.

Lemma appendFlow_ok n flows key pid dest fragment now :
  key ≠ [] -> now < max_int64 -> flows_ok flows ->
  flows_ok (appendFlow e n flows key pid dest fragment now).2.
Proof.
  intros Hkey Hnow Hok. unfold appendFlow.
  pose proof (flows_ok_sub _ _ (prune_sub flows now) Hok) as Hp.
  set (p := pruneEgressFlows e flows now) in *.
  destruct (match p !! key with Some f => _ | None => _ end) as [flow fl] eqn:E.
  cbn [snd]. fold flow_bytes flow_chunks.
  assert (flows_ok fl /\ (is_Some (fl !! key) \/ Z.of_nat (size fl) < max_flows)) as [Hfl Hroom].
  { destruct (p !! key) as [f|] eqn:Ep; injection E as <- <-.
    - split; [done|left; by exists f].
    - split; [|right; by apply enforce_room].
      eapply flows_ok_sub; [apply enforce_sub|done]. }
  destruct Hfl as [Hz Hf]. split.
  - destruct Hroom as [Hs|Hs]; [by rewrite map_size_insert_Some|].
    rewrite map_size_insert. destruct (fl !! key); cbn [id]; unfold id; lia.
  - apply map_Forall_insert_2; [|done]. split; [done|]. split; [|done].
    apply shed_within; [pose proof flow_chunks_pos|pose proof flow_bytes_pos]; lia.
Qed.


(** ** What one append does to the flow of its key *)

(** The window ends with the fragment appended and with every suffix of the old window that
    still fits. *)
Lemma appendFlow_window n flows key pid dest fragment now f pre suf :
  pruneEgressFlows e flows now !! key = Some f -> efChunks f = pre ++ suf ->
  i64 (now - LastAppendNS f) <= maxAge e ->
  within flow_chunks flow_bytes (suf ++ [fragment]) -> len fragment <= flow_bytes ->
  exists f' pre', (appendFlow e n flows key pid dest fragment now).2 !! key = Some f' /\
    efChunks f' = pre' ++ suf ++ [fragment] /\ LastAppendNS f' = now /\
    (appendFlow e n flows key pid dest fragment now).1 = mjoin (efChunks f').
Proof.
  intros Hf Hc Hage Hw Hl. unfold appendFlow. rewrite Hf.
  rewrite (proj2 (Z.ltb_ge _ _) Hage), andb_false_r, Hc. fold flow_bytes flow_chunks.
  rewrite (last_bytes_short _ _ Hl), <- app_assoc.
  destruct (shed_keeps _ _ pre _ Hw) as [pre' ->]. cbn [fst snd].
  eexists _, pre'. rewrite lookup_insert_eq, Join_nil. split_and!; reflexivity.
Qed.

(** Whatever the flow held, the new window ends with the fragment. *)
Lemma appendFlow_last n flows key pid dest fragment now :
  len fragment <= flow_bytes ->
  exists f' pre', (appendFlow e n flows key pid dest fragment now).2 !! key = Some f' /\
    efChunks f' = pre' ++ [fragment] /\ LastAppendNS f' = now /\
    (appendFlow e n flows key pid dest fragment now).1 = mjoin (efChunks f').
Proof.
  intros Hl. unfold appendFlow. destruct (match _ with Some f => _ | None => _ end) as [flow fl].
  fold flow_bytes flow_chunks. rewrite (last_bytes_short _ _ Hl).
  set (old := if _ : bool then [] else efChunks flow).
  destruct (shed_keeps flow_chunks flow_bytes old [fragment]) as [pre' ->].
  { pose proof flow_chunks_pos. split; cbn [fragmentBytes]; unfold len in *; cbn [length]; lia. }
  eexists _, pre'. cbn [fst snd]. rewrite lookup_insert_eq, Join_nil. split_and!; reflexivity.
Qed.

(** The flow of another key stays, when the keys in use fit under the cap. *)
Lemma appendFlow_other n flows (D : gset bytes) key key' pid dest fragment now f :
  key' ≠ key -> key ∈ D -> dom flows ⊆ D -> Z.of_nat (size D) <= max_flows ->
  pruneEgressFlows e flows now !! key' = Some f ->
  (appendFlow e n flows key pid dest fragment now).2 !! key' = Some f.
Proof.
  intros Hne Hk HD Hsz Hf. unfold appendFlow. set (p := pruneEgressFlows e flows now) in *.
  destruct (p !! key) as [g|] eqn:Eg; cbn [snd]; rewrite lookup_insert_ne by done; [done|].
  unfold enforceEgressFlowCap. fold max_flows.
  rewrite (proj2 (Z.ltb_lt (Z.of_nat (size p)) max_flows)); [done|].
  assert (dom p ⊂ D) as Hlt.
  { assert (dom p ⊆ D) as Hp by (etransitivity; [apply subseteq_dom, prune_sub|done]).
    split; [done|]. intros HD'. apply HD', elem_of_dom in Hk as [x Hx]. congruence. }
  apply subset_size in Hlt. rewrite size_dom in Hlt. lia.
Qed.

Lemma appendFlow_dom n flows (D : gset bytes) key pid dest fragment now :
  key ∈ D -> dom flows ⊆ D -> dom (appendFlow e n flows key pid dest fragment now).2 ⊆ D.
Proof.
  intros Hk HD. unfold appendFlow.
  assert (dom (pruneEgressFlows e flows now) ⊆ D) as Hp
    by (etransitivity; [apply subseteq_dom, prune_sub|done]).
  set (p := pruneEgressFlows e flows now) in *.
  destruct (p !! key) as [g|]; cbn [snd]; rewrite dom_insert; [set_solver|].
  assert (dom (enforceEgressFlowCap e n p) ⊆ dom p) by apply subseteq_dom, enforce_sub. set_solver.
Qed.

End flows.

(** ** Runs of egress events

    An event comes with the number of its first map iteration and the clock it would read. *)

Record egress_input := { ei_n : nat; ei_now : Z; ei_ev : SyscallEvent }.

Definition egress_step `{MapOrder} (e : Engine) (st : SessionState) (x : egress_input) : SessionState :=
  (egressCandidatePayload e (ei_n x) (ei_now x) (ei_ev x) st).2.

Definition run_egress `{MapOrder} (e : Engine) : SessionState -> list egress_input -> SessionState :=
  foldl (egress_step e).

Definition event_time (x : egress_input) : Z := egressEventTime (ei_ev x) (ei_now x).

(** The event leaves a fragment in the buffers. *)
Definition buffered (ev : SyscallEvent) : bool :=
  negb (bool_decide (seSyscall ev = openat)) && negb (bool_decide (sePayloadExcerpt ev = [])) &&
  negb (bool_decide (normalizedEgressFragment ev = [])).

(** The bytes a flow map holds. *)
Definition stored (flows : gmap bytes EgressFlowBuffer) : Z :=
  foldr (λ kf z, fragmentBytes (efChunks kf.2) + z) 0 (map_to_list flows).

Section runs.

Context `{MapOrder} (e : Engine).

Lemma stored_bound flows : flows_ok e flows -> stored flows <= max_flows e * flow_bytes e.
Proof.
  intros [Hz Hf]. pose proof (flow_bytes_pos e).
  enough (forall l, (forall kf, kf ∈ l -> fragmentBytes (efChunks kf.2) <= flow_bytes e) ->
            foldr (λ kf : bytes * EgressFlowBuffer, λ z, fragmentBytes (efChunks kf.2) + z) 0 l <=
            Z.of_nat (length l) * flow_bytes e) as Hl.
  { unfold stored. specialize (Hl (map_to_list flows)). rewrite length_map_to_list in Hl.
    etransitivity; [apply Hl|nia]. intros [k f] Hk%elem_of_map_to_list.
    by destruct (Hf k f Hk) as (_ & [_ ?] & _). }
  induction l as [|kf l IH]; intros Hl; [done|]. cbn [foldr length].
  pose proof (Hl kf ltac:(by left)). specialize (IH (λ x Hx, Hl x ltac:(by right))). lia.
Qed.

(** An event that is not buffered leaves the session alone; one that is goes to both maps. *)
Lemma candidate_unbuffered n now ev st :
  buffered ev = false -> (egressCandidatePayload e n now ev st).2 = st.
Proof.
  unfold buffered, egressCandidatePayload. destruct (bool_decide (seSyscall ev = openat)); [done|].
  destruct (bool_decide (sePayloadExcerpt ev = [])); [done|]. cbn.
  by destruct (normalizedEgressFragment ev).
Qed.

Lemma candidate_buffered n now ev st :
  buffered ev = true -> egressReassemblyEnabled e = true ->
  let frag := normalizedEgressFragment ev in
  let t := egressEventTime ev now in
  let '(key, dest) := egressFlowKey ev in
  let flow := appendFlow e n (EgressFlows st) key (sePID ev) dest frag t in
  let pflow := appendFlow e (S n) (EgressPIDFlows st) (Itoa (sePID ev)) (sePID ev) [x2a] frag t in
  (egressCandidatePayload e n now ev st).2 = set_EgressPIDFlows pflow.2 (set_EgressFlows flow.2 st) /\
  infix pflow.1 (egressCandidatePayload e n now ev st).1.
Proof.
  unfold buffered, egressCandidatePayload. destruct (bool_decide (seSyscall ev = openat)); [done|].
  destruct (bool_decide (sePayloadExcerpt ev = [])); [done|]. cbn [negb andb orb]. intros Hb ->.
  cbn zeta. destruct (egressFlowKey ev) as [key dest] eqn:Ek.
  destruct (normalizedEgressFragment ev) as [|c s] eqn:En; [done|].
  unfold appendEgressFlowFragment. rewrite Ek.
  destruct (appendFlow e n (EgressFlows st) _ _ _ _ _) as [w fl].
  destruct (appendFlow e (S n) _ _ _ _ _ _) as [pw pfl]. cbn [fst snd]. split; [done|].
  assert (infix pw (if bool_decide (pw = w) then w else w ++ newline ++ pw)) as Hp
    by (clear Hb; case_bool_decide; subst; auto with infix).
  destruct (bool_decide (c :: s ≠ sePayloadExcerpt ev)); auto with infix.
Qed.

Lemma flow_key_nonempty ev : (egressFlowKey ev).1 ≠ [].
Proof. unfold egressFlowKey. cbn [fst]. intros E. by apply app_eq_nil in E as [_ ?]. Qed.

(** *** Bounds *)

Lemma egress_step_ok st x :
  event_time x < max_int64 -> flows_ok e (EgressFlows st) /\ flows_ok e (EgressPIDFlows st) ->
  flows_ok e (EgressFlows (egress_step e st x)) /\ flows_ok e (EgressPIDFlows (egress_step e st x)).
Proof.
  intros Ht [H1 H2]. unfold egress_step.
  destruct (buffered (ei_ev x)) eqn:Eb; [|by rewrite candidate_unbuffered].
  destruct (egressReassemblyEnabled e) eqn:Ee.
  - pose proof (candidate_buffered (ei_n x) (ei_now x) (ei_ev x) st Eb Ee) as Hc. cbn zeta in Hc.
    pose proof (flow_key_nonempty (ei_ev x)) as Hk.
    destruct (egressFlowKey (ei_ev x)) as [key dest]. destruct Hc as [-> _].
    split; apply appendFlow_ok; auto using Itoa_nonempty.
  - unfold egressCandidatePayload. destruct (_ || _); [done|].
    destruct (normalizedEgressFragment (ei_ev x)); [done|]. rewrite Ee. done.
Qed.

Lemma run_egress_ok trace st :
  Forall (λ x, event_time x < max_int64) trace ->
  flows_ok e (EgressFlows st) /\ flows_ok e (EgressPIDFlows st) ->
  flows_ok e (EgressFlows (run_egress e st trace)) /\
  flows_ok e (EgressPIDFlows (run_egress e st trace)).
Proof.
  intros Ht. revert st. induction Ht as [|x trace Hx _ IH]; intros st Hst; [done|].
  apply (IH (egress_step e st x)). by apply egress_step_ok.
Qed.

(** *** Reassembly *)

(** The fragments process [p] sent, in order. *)
Definition sent_by (p : Z) (x : egress_input) : bool :=
  (sePID (ei_ev x) =? p) && buffered (ei_ev x).

Definition pieces (p : Z) (trace : list egress_input) : list bytes :=
  map (λ x, normalizedEgressFragment (ei_ev x)) (List.filter (sent_by p) trace).

Section window.

(** All events inside one window [t0, t1]; [D] holds the pids of the session's flows and of
    the events, and there are no more of them than flows the engine retains. *)
Context (t0 t1 : Z) (D : gset bytes) (p : Z).
Context (Hre : egressReassemblyEnabled e = true).
Context (Ht0 : 0 < t0) (Hwin : t1 - t0 <= maxAge e) (Ht1 : t1 < 2 ^ 62) (Hage : maxAge e < 2 ^ 62).
Context (HD : Z.of_nat (size D) <= max_flows e).

Definition in_window (x : egress_input) : Prop :=
  t0 <= event_time x <= t1 /\ Itoa (sePID (ei_ev x)) ∈ D.

(** The pid's flow ends with the fragments sent so far. *)
Definition holds_parts (parts : list bytes) (st : SessionState) : Prop :=
  dom (EgressPIDFlows st) ⊆ D /\
  (parts = [] \/ exists f pre, EgressPIDFlows st !! Itoa p = Some f /\
     efChunks f = pre ++ parts /\ t0 <= LastAppendNS f <= t1).

Lemma window_prune flows key f t :
  t0 <= t <= t1 -> flows !! key = Some f -> t0 <= LastAppendNS f <= t1 ->
  pruneEgressFlows e flows t !! key = Some f /\ i64 (t - LastAppendNS f) <= maxAge e.
Proof.
  intros Ht Hf Hl. assert (2 ^ 62 = 4611686018427387904) as E by done. rewrite E in *.
  pose proof (or_default_pos (egressFragmentMaxAge e) defaultEgressFragmentAge ltac:(done)).
  fold (maxAge e) in *. split.
  - apply prune_keeps; [done|]. rewrite i64_small; unfold min_int64, max_int64; lia.
  - rewrite i64_small; unfold min_int64, max_int64; lia.
Qed.

Lemma own_append n flows key pid dest fragment t parts :
  t0 <= t <= t1 -> within (flow_chunks e) (flow_bytes e) (parts ++ [fragment]) ->
  (parts = [] \/ exists f pre, flows !! key = Some f /\ efChunks f = pre ++ parts /\
     t0 <= LastAppendNS f <= t1) ->
  exists f pre, (appendFlow e n flows key pid dest fragment t).2 !! key = Some f /\
    efChunks f = pre ++ parts ++ [fragment] /\ LastAppendNS f = t /\
    (appendFlow e n flows key pid dest fragment t).1 = mjoin (efChunks f).
Proof.
  intros Ht Hw Hp.
  assert (len fragment <= flow_bytes e) as Hl.
  { destruct Hw as [_ Hw]. rewrite fragmentBytes_app in Hw. cbn [fragmentBytes] in Hw.
    pose proof (fragmentBytes_nonneg parts). lia. }
  destruct Hp as [->|(f & pre & Hf & Hc & Hlast)].
  - by apply appendFlow_last.
  - destruct (window_prune flows key f t Ht Hf Hlast) as [Hf' Ha].
    by apply (appendFlow_window e n flows key pid dest fragment t f pre parts).
Qed.

Lemma holds_step parts st x :
  in_window x -> holds_parts parts st ->
  within (flow_chunks e) (flow_bytes e) (parts ++ pieces p [x]) ->
  holds_parts (parts ++ pieces p [x]) (egress_step e st x).
Proof.
  intros [Ht Hx] [Hdom Hp] Hw. unfold egress_step, pieces, sent_by in *. cbn [List.filter] in *.
  destruct (buffered (ei_ev x)) eqn:Eb.
  2: { rewrite andb_false_r, candidate_unbuffered by done. cbn [map]. rewrite app_nil_r. done. }
  pose proof (candidate_buffered (ei_n x) (ei_now x) (ei_ev x) st Eb Hre) as Hc. cbn zeta in Hc.
  destruct (egressFlowKey (ei_ev x)) as [key dest]. destruct Hc as [-> _].
  split; [by apply appendFlow_dom|]. cbn [EgressPIDFlows set_EgressPIDFlows].
  destruct (Z.eqb_spec (sePID (ei_ev x)) p) as [->|Hne]; cbn [andb map] in *.
  - right. destruct (own_append (S (ei_n x)) (EgressPIDFlows st) (Itoa p) p [x2a]
      (normalizedEgressFragment (ei_ev x)) (event_time x) parts Ht Hw Hp)
      as (f & pre & Hf & Hc & Hl & _).
    exists f, pre. rewrite Hl. done.
  - rewrite app_nil_r. destruct Hp as [->|(f & pre & Hf & Hc & Hl)]; [by left|right].
    destruct (window_prune _ _ f (event_time x) Ht Hf Hl) as [Hf' _].
    exists f, pre. split; [|done]. eapply appendFlow_other; [|exact Hx|exact Hdom|done|done].
    intros E. by apply Itoa_inj in E.
Qed.

Lemma pieces_app a b : pieces p (a ++ b) = pieces p a ++ pieces p b.
Proof. unfold pieces. by rewrite List.filter_app, map_app. Qed.

Lemma within_prefix mc mb a b : within mc mb (a ++ b) -> within mc mb a.
Proof.
  unfold within. rewrite len_app, fragmentBytes_app.
  pose proof (len_nonneg b). pose proof (fragmentBytes_nonneg b). lia.
Qed.

Lemma holds_run trace parts st :
  Forall in_window trace -> holds_parts parts st ->
  within (flow_chunks e) (flow_bytes e) (parts ++ pieces p trace) ->
  holds_parts (parts ++ pieces p trace) (run_egress e st trace).
Proof.
  intros Hin. revert parts st. induction Hin as [|x trace Hx _ IH]; intros parts st Hst Hw.
  { unfold pieces. cbn. by rewrite app_nil_r. }
  change (x :: trace) with ([x] ++ trace) in *. rewrite pieces_app, app_assoc in Hw |- *.
  apply IH; [|done]. apply holds_step; [done|done|]. by apply within_prefix in Hw.
Qed.

(** The scan of the next fragment sees all of them. *)
Lemma holds_last parts st x :
  in_window x -> sent_by p x = true -> holds_parts parts st ->
  within (flow_chunks e) (flow_bytes e) (parts ++ pieces p [x]) ->
  infix (mjoin (parts ++ pieces p [x])) (egressCandidatePayload e (ei_n x) (ei_now x) (ei_ev x) st).1.
Proof.
  intros [Hx HxD] Hs [_ Hp] Hw. unfold pieces in *. cbn [List.filter] in *. rewrite Hs in *. cbn [map] in *.
  apply andb_prop in Hs as [Epid%Z.eqb_eq Hb].
  pose proof (candidate_buffered (ei_n x) (ei_now x) (ei_ev x) st Hb Hre) as Hc. cbn zeta in Hc.
  destruct (egressFlowKey (ei_ev x)) as [key dest]. destruct Hc as [_ Hc].
  eapply infix_trans; [|exact Hc]. rewrite <- Epid in Hp.
  destruct (own_append (S (ei_n x)) (EgressPIDFlows st) _ (sePID (ei_ev x)) [x2a] _ (event_time x) _ Hx Hw Hp)
    as (f & pre & _ & Hch & _ & Hj).
  unfold event_time in Hj. rewrite Hj, Hch, (join_app pre). apply infix_app_l, infix_refl.
Qed.

End window.

End runs.

(** ** Properties *)

(** The reassembly buffers of a session are bounded: after any sequence of egress events
    the two flow maps hold at most max_flows flows of at most max_bytes bytes each. *)
Theorem egress_memory_bounded `{MapOrder} (e : Engine) (id : bytes) (t : Z) (trace : list egress_input) :
  Forall (λ x, event_time x < max_int64) trace ->
  let st := run_egress e (new_session id t) trace in
  stored (EgressFlows st) + stored (EgressPIDFlows st) <= 2 * (max_flows e * flow_bytes e) /\
  Z.of_nat (size (EgressFlows st)) <= max_flows e /\
  Z.of_nat (size (EgressPIDFlows st)) <= max_flows e.
Proof.
  intros Ht st. destruct (run_egress_ok e trace (new_session id t) Ht) as [H1 H2].
  { split; apply flows_ok_empty. }
  pose proof (stored_bound e _ H1). pose proof (stored_bound e _ H2).
  split_and!; [unfold st; lia|apply H1|apply H2].
Qed.

(** C36: egress reassembly is complete inside its window: when a process splits its payload
    over several writes, sends or DNS queries, to whatever destinations and with events of
    other processes in between, the string scanned at the last of them contains the
    concatenation of all its fragments, as long as they fit the byte and chunk budgets, lie
    within the maximum age and no more processes are active than flows are retained. *)
Theorem egress_reassembly_complete `{MapOrder} (e : Engine) (st : SessionState)
    (trace : list egress_input) (x : egress_input) (t0 t1 p : Z) (D : gset bytes) :
  egressReassemblyEnabled e = true ->
  0 < t0 -> t1 - t0 <= maxAge e -> t1 < 2 ^ 62 -> maxAge e < 2 ^ 62 ->
  Z.of_nat (size D) <= max_flows e -> dom (EgressPIDFlows st) ⊆ D ->
  Forall (in_window t0 t1 D) (trace ++ [x]) -> sent_by p x = true ->
  within (flow_chunks e) (flow_bytes e) (pieces p (trace ++ [x])) ->
  infix (mjoin (pieces p (trace ++ [x])))
    (egressCandidatePayload e (ei_n x) (ei_now x) (ei_ev x) (run_egress e st trace)).1.
Proof.
  intros Hre Ht0 Hwin Ht1 Hage HD Hdom [Hin Hx]%Forall_app Hs Hw.
  apply Forall_inv in Hx. rewrite pieces_app in Hw |- *.
  apply (holds_last e t0 t1 D p Hre Ht0 Hwin Ht1 Hage); [done|done| |done].
  apply (holds_run e t0 t1 D p Hre Ht0 Hwin Ht1 Hage HD trace []); [done|by split; [|left]|].
  by apply within_prefix in Hw.
Qed.

(** A key sent in three parts, two of them by write to different hosts and the last as a DNS
    label, with an event of another process in between. *)
Definition an_event (pid t port : Z) (syscall payload : string) : egress_input :=
  {| ei_n := 0; ei_now := 0; ei_ev := {|
       seTSMono := t; sePID := pid; seTID := pid; seComm := gostr "curl";
       seSyscall := gostr syscall; seDestIP := gostr "203.0.113.7"; seDestPort := port;
       seAllowlisted := false; sePath := []; sePayloadExcerpt := gostr payload;
       seSessionID := gostr "s1"; seCgroupID := 0; sePod := None; seFileContents := [] |} |}.
Arguments an_event pid t port syscall%_string payload%_string.

Definition split_trace : list egress_input :=
  [an_event 7 1000 80 "write" "sk-live-"; an_event 9 1500 80 "write" "noise";
   an_event 7 2000 443 "write" "0123456789"].

Definition split_last : egress_input := an_event 7 3000 53 "dns" "abcdef.evil.example.".

Definition pids79 : gset bytes := list_to_set [Itoa 7; Itoa 9].

Definition demo_engine : Engine := NewEngine None [].

#[local] Existing Instance listed_order.

Example egress_memory_bounded_witness :
  Z.of_nat (size (EgressFlows (run_egress demo_engine (new_session (gostr "s1") 0) split_trace))) <= 32.
Proof.
  assert (Forall (λ x, event_time x < max_int64) split_trace) as Ht
    by (repeat constructor).
  exact (proj1 (proj2 (egress_memory_bounded demo_engine (gostr "s1") 0 split_trace Ht))).
Defined.

Lemma in_pids79 t t0 t1 pid port syscall payload :
  t0 <= t <= t1 -> 0 < t -> (pid = 7 \/ pid = 9) ->
  in_window t0 t1 pids79 (an_event pid t port syscall payload).
Proof.
  intros Ht Hpos Hp. split.
  - unfold event_time, egressEventTime. cbn [ei_ev an_event seTSMono].
    by rewrite (proj2 (Z.ltb_lt 0 t) Hpos).
  - apply elem_of_list_to_set. cbn [sePID ei_ev an_event].
    destruct Hp as [->| ->]; [by left|right; by left].
Qed.

Example egress_reassembly_complete_witness :
  infix (gostr "sk-live-0123456789abcdef")
    (egressCandidatePayload demo_engine 0 0 (ei_ev split_last)
       (run_egress demo_engine (new_session (gostr "s1") 0) split_trace)).1.
Proof.
  refine (egress_reassembly_complete demo_engine (new_session (gostr "s1") 0) split_trace split_last
    1000 3000 7 pids79 eq_refl _ _ _ _ _ _ _ _ _).
  - reflexivity.
  - vm_compute. discriminate.
  - reflexivity.
  - reflexivity.
  - vm_compute. discriminate.
  - set_solver.
  - repeat (apply Forall_cons; split; [apply in_pids79; lia|]). by apply Forall_nil.
  - vm_compute. reflexivity.
  - split; vm_compute; discriminate.
Defined.
