(* ===== verification/Regex.v ===== *)
(** * The part of package regexp the patterns of the sources use

    A pattern is matched on the runes of the text. Of the matches that start leftmost, the
    one a backtracking engine finds first is taken; that is the semantics package regexp
    documents. Patterns have one capture group. *)

From S2P Require Import Prelude GoStrings Encodings Json.

Inductive re :=
  | Eps
  | Cls (p : Z -> bool)
  | Cat (a b : re)
  | Alt (a b : re)
  | Star (greedy : bool) (a : re)
  | Cap (a : re)
  | WordB
  | Bol
  | Eol.

(** ** Derived forms *)

Definition opt (a : re) : re := Alt a Eps.

Fixpoint times (n : nat) (a b : re) : re :=
  match n with O => b | S n => Cat a (times n a b) end.

(** [a{n,}] *)
Definition at_least (n : nat) (a : re) : re := times n a (Star true a).

Definition plus (a : re) : re := at_least 1 a.

Definition rune_in (s : bytes) (r : Z) : bool := existsb (λ c, byte_Z c =? r) s.

Definition one_of (s : string) : re := Cls (rune_in (gostr s)).
Arguments one_of s%_string.

(** A literal string, case sensitive and not. *)
Definition lit (s : string) : re := foldr (λ c, Cat (Cls (Z.eqb (byte_Z c)))) Eps (gostr s).
Arguments lit s%_string.

(** The simple case folds of the letters the patterns contain: U+212A folds to k and
    U+017F to s. *)
Definition fold_rune (r : Z) : Z :=
  if (65 <=? r) && (r <=? 90) then r + 32
  else if r =? 0x212a then 107 else if r =? 0x17f then 115 else r.

Definition ilit (s : string) : re :=
  foldr (λ c, Cat (Cls (λ r, fold_rune r =? byte_Z c))) Eps (gostr s).
Arguments ilit s%_string.

Definition any : re := Cls (λ _, true).
Definition is_digit_rune (r : Z) : bool := (48 <=? r) && (r <=? 57).
Definition is_alpha_rune (r : Z) : bool :=
  ((65 <=? r) && (r <=? 90)) || ((97 <=? r) && (r <=? 122)).
Definition is_alnum_rune (r : Z) : bool := is_digit_rune r || is_alpha_rune r.
Definition is_word_rune (r : Z) : bool := is_alnum_rune r || (r =? 95).
Definition is_space_rune (r : Z) : bool :=
  (r =? 9) || (r =? 10) || (r =? 12) || (r =? 13) || (r =? 32).

Definition alnum : re := Cls is_alnum_rune.

(** ** Matching *)

(** A position: the rune before it, the runes after it with their bytes, and how many have
    been consumed. *)
Record pos := { before : option Z; rest : list (Z * bytes); at_ : nat }.

(** The capture of a successful match, and the position after it. *)
Record mres := { cap : option (nat * nat); final : pos }.

Definition word_at (o : option Z) : bool := match o with Some r => is_word_rune r | None => false end.

Definition boundary (p : pos) : bool :=
  negb (Bool.eqb (word_at (before p)) (word_at (fst <$> head (rest p)))).

Fixpoint run (r : re) (c : option (nat * nat)) (p : pos) (k : option (nat * nat) -> pos -> option mres)
    : option mres :=
  match r with
  | Eps => k c p
  | Cls f =>
      match rest p with
      | (x, bs) :: xs =>
          if f x then k c {| before := Some x; rest := xs; at_ := S (at_ p) |} else None
      | [] => None
      end
  | Cat a b => run a c p (λ c p, run b c p k)
  | Alt a b => match run a c p k with Some m => Some m | None => run b c p k end
  | Cap a => run a c p (λ _ q, k (Some (at_ p, at_ q)) q)
  | WordB => if boundary p then k c p else None
  | Bol => match before p with None => k c p | Some _ => None end
  | Eol => match rest p with [] => k c p | _ => None end
  | Star greedy a =>
      (fix loop (n : nat) (c : option (nat * nat)) (p : pos) : option mres :=
         match n with
         | O => k c p
         | S n =>
             if greedy then
               match run a c p (λ c q, if Nat.eqb (at_ q) (at_ p) then None else loop n c q) with
               | Some m => Some m
               | None => k c p
               end
             else
               match k c p with
               | Some m => Some m
               | None => run a c p (λ c q, if Nat.eqb (at_ q) (at_ p) then None else loop n c q)
               end
         end) (length (rest p)) c p
  end.

Definition match_at (r : re) (p : pos) : option mres :=
  run r None p (λ c q, Some {| cap := c; final := q |}).

(** The runes of the text with their bytes. *)
Fixpoint items (n : nat) (s : bytes) : list (Z * bytes) :=
  match n, s with
  | S n, _ :: _ => let '(r, w) := DecodeRune s in (r, take w s) :: items n (drop w s)
  | _, _ => []
  end.

Definition text_of (l : list (Z * bytes)) : bytes := mjoin (map snd l).

(** The bytes of the capture, relative to the start position [p] of the match. *)
Definition captured (p : pos) (m : mres) : bytes :=
  match cap m with
  | Some (i, j) => text_of (take (j - i) (drop (i - at_ p) (rest p)))
  | None => []
  end.

(** The captures of [FindAllStringSubmatch(text, -1)] for a pattern that matches no empty
    string: the next search starts where the last match ended. *)
Fixpoint find_from (n : nat) (r : re) (p : pos) : list bytes :=
  match n with
  | O => []
  | S n =>
      match match_at r p with
      | Some m => captured p m :: find_from n r (final m)
      | None =>
          match rest p with
          | (x, _) :: xs => find_from n r {| before := Some x; rest := xs; at_ := S (at_ p) |}
          | [] => []
          end
      end
  end.

Definition FindAllSubmatch (r : re) (text : bytes) : list bytes :=
  let l := items (length text) text in
  find_from (S (length l)) r {| before := None; rest := l; at_ := 0 |}.

(** The capture of [FindStringSubmatch(text)]. *)
Definition FindSubmatch (r : re) (text : bytes) : option bytes := head (FindAllSubmatch r text).

(** ** Captures are substrings *)

(** [q] is reached from [p] by consuming runes. *)
Definition reaches (p q : pos) : Prop :=
  (at_ p <= at_ q)%nat /\ rest q = drop (at_ q - at_ p) (rest p).

Lemma reaches_refl p : reaches p p.
Proof. split; [done|]. by rewrite Nat.sub_diag, drop_0. Qed.

Lemma reaches_trans p q r : reaches p q -> reaches q r -> reaches p r.
Proof.
  intros [H1 E1] [H2 E2]. split; [lia|]. rewrite E2, E1, drop_drop. f_equal. lia.
Qed.

(** The continuation is entered at a reachable position. *)
Lemma run_reaches r c p k m :
  run r c p k = Some m -> exists c' q, reaches p q /\ k c' q = Some m.
Proof.
  revert c p k m. induction r as [|f|a IHa b IHb|a IHa b IHb|g a IHa|a IHa| | |]; intros c p k m; cbn [run].
  - intros H. exists c, p. split; [apply reaches_refl|done].
  - destruct (rest p) as [|[x bs] xs] eqn:E; [done|]. destruct (f x); [|done]. intros H.
    eexists _, _. split; [|exact H]. split; cbn [at_ rest]; [lia|].
    rewrite E. by replace (S (at_ p) - at_ p)%nat with 1%nat by lia.
  - intros (c1 & q1 & R1 & H1)%IHa. apply IHb in H1 as (c2 & q2 & R2 & H2).
    exists c2, q2. split; [by eapply reaches_trans|done].
  - destruct (run a c p k) as [m'|] eqn:E; [intros [= <-]; by apply IHa in E|apply IHb].
  - generalize (length (rest p)). intros n. revert c p m. induction n as [|n IHn]; intros c p m.
    { intros H. exists c, p. split; [apply reaches_refl|done]. }
    set (more := run a c p _). assert (forall m, more = Some m -> exists c' q, reaches p q /\ k c' q = Some m) as Hm.
    { intros m'. unfold more. intros (c1 & q1 & R1 & H1)%IHa.
      destruct (Nat.eqb (at_ q1) (at_ p)); [done|]. apply IHn in H1 as (c2 & q2 & R2 & H2).
      exists c2, q2. split; [by eapply reaches_trans|done]. }
    assert (forall m, k c p = Some m -> exists c' q, reaches p q /\ k c' q = Some m) as Hk.
    { intros m' H. exists c, p. split; [apply reaches_refl|done]. }
    destruct g.
    + destruct more as [m'|]; [intros [= <-]; by apply Hm|apply Hk].
    + destruct (k c p) as [m'|]; [intros [= <-]; by apply Hk|apply Hm].
  - intros (c1 & q1 & R1 & H1)%IHa. by eexists _, q1.
  - destruct (boundary p); [|done]. intros H. exists c, p. split; [apply reaches_refl|done].
  - destruct (before p); [done|]. intros H. exists c, p. split; [apply reaches_refl|done].
  - destruct (rest p) eqn:E; [|done]. intros H. exists c, p. split; [apply reaches_refl|done].
Qed.

Lemma text_of_app a b : text_of (a ++ b) = text_of a ++ text_of b.
Proof. unfold text_of. by rewrite map_app, join_app. Qed.

Lemma text_of_infix i j l : infix (text_of (take i (drop j l))) (text_of l).
Proof.
  rewrite <- (take_drop j l) at 2. rewrite text_of_app. apply infix_app_l.
  rewrite <- (take_drop i (drop j l)) at 2. rewrite text_of_app. apply infix_app_r, infix_refl.
Qed.

Lemma DecodeRune_width s : s ≠ [] -> (1 <= (DecodeRune s).2)%nat.
Proof.
  destruct s as [|b t]; [done|]. intros _. unfold DecodeRune. cbn [map].
  repeat match goal with
  | |- context [if ?x then _ else _] => destruct x
  | |- context [match ?x with [] => _ | _ :: _ => _ end] => destruct x
  end; cbn; lia.
Qed.

Lemma text_of_items n s : (length s <= n)%nat -> text_of (items n s) = s.
Proof.
  revert s. induction n as [|n IH]; intros [|c s] Hn; [done|cbn in Hn; lia|done|].
  cbn [items]. pose proof (DecodeRune_width (c :: s) ltac:(done)) as Hw.
  destruct (DecodeRune (c :: s)) as [r w]. cbn [snd] in Hw. unfold text_of in *. cbn [map snd].
  change (take w (c :: s) ++ mjoin (map snd (items n (drop w (c :: s)))) = c :: s).
  rewrite IH, take_drop; [done|]. rewrite length_drop. cbn [length] in *. lia.
Qed.

Lemma find_from_infix n r p x l :
  rest p = drop (at_ p) l -> In x (find_from n r p) -> infix x (text_of l).
Proof.
  revert p. induction n as [|n IH]; intros p Hp; [done|]. cbn [find_from].
  destruct (match_at r p) as [m|] eqn:E.
  - intros [<-|Hx].
    + unfold captured. destruct (cap m) as [[i j]|]; [|by exists [], (text_of l)].
      rewrite Hp, drop_drop. apply text_of_infix.
    + apply (IH (final m)); [|done]. apply run_reaches in E as (c & q & [Hle Hr] & [= <-]).
      cbn [final]. rewrite Hr, Hp, drop_drop. f_equal. lia.
  - destruct (rest p) as [|[y bs] ys] eqn:Er; [done|]. apply IH. cbn [rest at_].
    change ys with (drop 1 ((y, bs) :: ys)). rewrite Hp, drop_drop. f_equal. lia.
Qed.

(** Every capture is a substring of the text. *)
Lemma FindAllSubmatch_infix r text x : In x (FindAllSubmatch r text) -> infix x text.
Proof.
  unfold FindAllSubmatch. intros H. apply (find_from_infix _ _ _ _ (items (length text) text)) in H.
  - by rewrite text_of_items in H.
  - cbn [rest at_]. by rewrite drop_0.
Qed.
