(* ===== verification/TaintTheorems.v ===== *)
(** * The tainted values of a session: bounded, distinct, newest kept

    What [addTainted] makes of the list, and what extraction puts into it: in particular every
    Stripe key that stands alone in a text, wherever it stands ([stripe_extracted]). *)

From S2P Require Import Prelude Go GoTime Config GoStrings Encodings EncodingFacts Json JsonFacts Model Store Tagger.
From S2P Require Import Egress EgressTheorems Regex Taint.

(** ** Extraction *)

Lemma first_seen_spec seen vals v : v ∈ first_seen seen vals <-> v ∈ vals /\ v ∉ seen.
Proof.
  revert seen. induction vals as [|x vals IH]; intros seen; cbn [first_seen].
  { split; [by intros ?%elem_of_nil|by intros [?%elem_of_nil _]]. }
  destruct (decide (x ∈ seen)) as [Hx|Hx].
  - rewrite bool_decide_eq_true_2, IH, elem_of_cons by done. split; [tauto|].
    intros [[->|?] ?]; tauto.
  - rewrite bool_decide_eq_false_2, !elem_of_cons, IH, elem_of_cons by done.
    destruct (decide (v = x)) as [->|]; tauto.
Qed.

Lemma first_seen_NoDup seen vals : NoDup (first_seen seen vals).
Proof.
  revert seen. induction vals as [|x vals IH]; intros seen; cbn [first_seen]; [constructor|].
  destruct (bool_decide (x ∈ seen)); [apply IH|]. constructor; [|apply IH].
  intros [_ Hx]%first_seen_spec. apply Hx. by left.
Qed.

Lemma extracted_value `{Compressors} now text source seq tv :
  tv ∈ ExtractTaintedValues now text source seq ->
  tv = new_taint (Value tv) (CanonicalEncodings (Value tv)) source seq now /\
  exists pat, pat ∈ secretPatterns /\ Value tv ∈ FindAllSubmatch pat text.
Proof.
  unfold ExtractTaintedValues. intros (v & -> & Hv)%list_elem_of_fmap. cbn [new_taint Value].
  split; [done|]. apply first_seen_spec in Hv as [Hv _].
  apply list_elem_of_In, in_concat in Hv as (l & Hl%list_elem_of_In & Hv%list_elem_of_In).
  apply list_elem_of_fmap in Hl as (pat & -> & Hp). by exists pat.
Qed.

(** ** Uniqueness *)

Lemma unique_from_seen seen cs tv : tv ∈ unique_from seen cs -> (Hash tv ∉ seen) /\ tv ∈ cs.
Proof.
  revert seen. induction cs as [|c cs IH]; intros seen; cbn [unique_from]; [by intros ?%elem_of_nil|].
  case_bool_decide as Hs.
  - intros [? ?]%IH. split; [done|by right].
  - intros [->|[Hn Hin]%IH]%elem_of_cons; [split; [done|by left]|].
    split; [|by right]. intros Hx. apply Hn. by right.
Qed.

Lemma unique_from_NoDup seen cs : NoDup (map Hash (unique_from seen cs)).
Proof.
  revert seen. induction cs as [|c cs IH]; intros seen; cbn [unique_from]; [constructor|].
  case_bool_decide; [apply IH|]. cbn [map]. constructor; [|apply IH].
  intros (tv & E & [Hn _]%unique_from_seen)%list_elem_of_fmap. apply Hn. rewrite <- E. by left.
Qed.

(** Every candidate is known afterwards. *)
Lemma unique_from_complete seen cs c :
  c ∈ cs -> Hash c ∈ seen \/ Hash c ∈ map Hash (unique_from seen cs).
Proof.
  revert seen. induction cs as [|x cs IH]; intros seen Hc; [by apply elem_of_nil in Hc|]. cbn [unique_from].
  apply elem_of_cons in Hc as [->|Hc]; case_bool_decide as Hs; cbn [map].
  - by left.
  - right. by left.
  - by apply IH.
  - destruct (IH (Hash x :: seen) Hc) as [[->|?]%elem_of_cons|?]; [right; by left|by left|right; by right].
Qed.

(** ** Shedding *)

(** Over one of the caps, and not down to a single value. *)
Definition over_caps (l : list TaintedValue) : bool :=
  (1 <? len l) && ((maxTaintedPerSession <? len l) || (maxTaintedBytesPerSession <? value_bytes l)).

Lemma len_cons {A} (x : A) l : len (x :: l) = len l + 1.
Proof. unfold len. cbn [length]. lia. Qed.

Lemma shed_taint_eq l :
  shed_taint l = match l with [] => [] | _ :: rest => if over_caps l then shed_taint rest else l end.
Proof.
  destruct l as [|x [|y l]]; try done. cbn [shed_taint]. unfold over_caps.
  replace (1 <? len (x :: y :: l)) with true; [done|].
  symmetry. apply Z.ltb_lt. rewrite !len_cons. unfold len. lia.
Qed.

(** What is shed is a shortest prefix that brings the rest within the caps. *)
Lemma shed_taint_drop l :
  over_caps (shed_taint l) = false /\
  exists k, shed_taint l = drop k l /\ forall j, (j < k)%nat -> over_caps (drop j l) = true.
Proof.
  induction l as [|x l IH]; rewrite shed_taint_eq.
  { split; [done|]. exists 0%nat. split; [done|intros; lia]. }
  destruct (over_caps (x :: l)) eqn:E.
  - destruct IH as [Ho (k & Hk & Hj)]. split; [done|]. exists (S k). split; [done|].
    intros [|j] Hlt; [done|]. apply Hj. lia.
  - split; [done|]. exists 0%nat. split; [done|intros; lia].
Qed.

Lemma shed_within_caps l : over_caps l = false -> shed_taint l = l.
Proof. rewrite shed_taint_eq. destruct l; [done|]. by intros ->. Qed.

(** ** The list of a session *)

Section engine.

Context `{Compressors} `{MathLog2}.
Implicit Types (e : Engine) (st : SessionState).

Definition taint_ok (l : list TaintedValue) : Prop := NoDup (map Hash l) /\ over_caps l = false.

(** The values [addTainted] adds to [l]. *)
Definition added_to e (l candidates : list TaintedValue) : list TaintedValue :=
  attachChunksAll e (map with_variants (appendUniqueTainted l candidates)).

Lemma Hash_with_variants tv : Hash (with_variants tv) = Hash tv.
Proof. unfold with_variants. by destruct (Variants tv). Qed.

Lemma Value_with_variants tv : Value (with_variants tv) = Value tv.
Proof. unfold with_variants. by destruct (Variants tv). Qed.

Lemma with_chunks_same e tv :
  Hash (with_chunks e tv) = Hash tv /\ Value (with_chunks e tv) = Value tv /\
  Variants (with_chunks e tv) = Variants tv.
Proof. unfold with_chunks, AttachChunks. destruct (Chunks tv); [|done]. by destruct (Value tv) eqn:Ev; cbn; rewrite ?Ev. Qed.

Lemma Hash_added e l cs : map Hash (added_to e l cs) = map Hash (appendUniqueTainted l cs).
Proof.
  unfold added_to, attachChunksAll. rewrite !map_map. apply map_ext. intros tv.
  by rewrite (proj1 (with_chunks_same e _)), Hash_with_variants.
Qed.

(** The outcome of [addTainted], in one equation. *)
Lemma addTainted_eq e cs st :
  addTainted e cs st =
    (added_to e (Tainted st) cs,
     if decide (added_to e (Tainted st) cs = []) then st
     else set_Tainted (shed_taint (Tainted st ++ added_to e (Tainted st) cs)) st).
Proof.
  unfold addTainted, added_to. destruct (appendUniqueTainted (Tainted st) cs); [done|].
  by rewrite decide_False by done.
Qed.

Definition taint_step e (l l' : list TaintedValue) : Prop :=
  l' = l \/ exists cs, l' = shed_taint (l ++ added_to e l cs).

Lemma addTainted_step e cs st : taint_step e (Tainted st) (Tainted (addTainted e cs st).2).
Proof.
  rewrite addTainted_eq. cbn [snd]. destruct (decide _); [by left|]. right. by exists cs.
Qed.

Lemma NoDup_added e l cs : NoDup (map Hash l) -> NoDup (map Hash (l ++ added_to e l cs)).
Proof.
  intros Hn. rewrite map_app, Hash_added. apply NoDup_app. split_and!; [done| |apply unique_from_NoDup].
  intros h Hh (tv & -> & [Hx _]%unique_from_seen)%list_elem_of_fmap. by apply Hx.
Qed.

Lemma taint_step_ok e l l' : taint_step e l l' -> taint_ok l -> taint_ok l'.
Proof.
  intros [->|[cs ->]] [Hn Ho]; [done|].
  destruct (shed_taint_drop (l ++ added_to e l cs)) as [Hw (k & Hk & _)]. split; [|done].
  rewrite Hk. pose proof (NoDup_added e l cs Hn) as Ha.
  rewrite <- (take_drop k (l ++ _)), map_app in Ha. by apply NoDup_app in Ha as (_ & _ & ?).
Qed.

End engine.

(** ** What a pattern consumes *)

(** The sequences of runes an expression can consume, whatever its assertions say. *)
Fixpoint consumes (r : re) (w : list Z) : Prop :=
  match r with
  | Cls f => exists x, w = [x] /\ f x = true
  | Cat a b => exists u v, w = u ++ v /\ consumes a u /\ consumes b v
  | Alt a b => consumes a w \/ consumes b w
  | Star _ a => exists ws, w = mjoin ws /\ Forall (consumes a) ws
  | Cap a => consumes a w
  | Eps | WordB | Bol | Eol => w = []
  end.

(** The position after [l]. *)
Definition advance (p : pos) (l : list (Z * bytes)) : pos := {|
  before := match last l with Some x => Some x.1 | None => before p end;
  rest := drop (length l) (rest p); at_ := at_ p + length l |}.

Lemma advance_nil p : advance p [] = p.
Proof. destruct p. unfold advance. cbn. by rewrite Nat.add_0_r. Qed.

Lemma advance_app p l1 l2 : advance (advance p l1) l2 = advance p (l1 ++ l2).
Proof.
  unfold advance. cbn [before rest at_]. rewrite last_app, length_app, drop_drop. f_equal; [by destruct (last l2)|lia].
Qed.

Lemma advance_cons p x bs l t :
  rest p = (x, bs) :: t -> advance {| before := Some x; rest := t; at_ := S (at_ p) |} l = advance p ((x, bs) :: l).
Proof.
  intros Hr. unfold advance. cbn [before rest at_]. rewrite Hr. cbn [length drop]. f_equal; [|lia].
  destruct l as [|y l]; [done|]. rewrite last_cons_cons. by destruct (last (y :: l)) eqn:E; [|apply last_None in E].
Qed.

Lemma advance_rest p l t : rest p = l ++ t -> rest (advance p l) = t.
Proof. unfold advance. cbn. intros ->. by rewrite drop_app_length. Qed.

Lemma run_consumes r c p k m :
  run r c p k = Some m ->
  exists l t c', rest p = l ++ t /\ consumes r (map fst l) /\ k c' (advance p l) = Some m.
Proof.
  revert c p k m. induction r as [|f|a IHa b IHb|a IHa b IHb|g a IHa|a IHa| | |]; intros c p k m; cbn [run consumes].
  - intros Hk. exists [], (rest p), c. rewrite advance_nil. by split_and!.
  - destruct (rest p) as [|[x bs] xs] eqn:E; [done|]. destruct (f x) eqn:Ef; [|done]. intros Hk.
    exists [(x, bs)], xs, c. split; [done|]. split; [by exists x|].
    by rewrite <- (advance_cons _ _ _ _ _ E), advance_nil.
  - intros (l1 & t1 & c1 & E1 & C1 & H1)%IHa. apply IHb in H1 as (l2 & t2 & c2 & E2 & C2 & H2).
    rewrite (advance_rest _ _ _ E1) in E2. exists (l1 ++ l2), t2, c2. rewrite <- app_assoc, <- E2, advance_app in *. split; [done|].
    split; [|done]. exists (map fst l1), (map fst l2). by rewrite map_app.
  - destruct (run a c p k) as [m'|] eqn:E.
    + intros [= <-]. apply IHa in E as (l & t & c' & ? & ? & ?). exists l, t, c'. by split_and!; [|left|].
    + intros (l & t & c' & ? & ? & ?)%IHb. exists l, t, c'. by split_and!; [|right|].
  - generalize (length (rest p)). intros n. revert c p m. induction n as [|n IHn]; intros c p m.
    { intros Hk. exists [], (rest p), c. rewrite advance_nil. split_and!; [done|by exists []|done]. }
    set (more := run a c p _). assert (forall m, more = Some m -> exists l t c', rest p = l ++ t /\
      (exists ws, map fst l = mjoin ws /\ Forall (consumes a) ws) /\ k c' (advance p l) = Some m) as Hm.
    { intros m'. unfold more. intros (l1 & t1 & c1 & E1 & C1 & H1)%IHa.
      destruct (Nat.eqb _ _); [done|]. apply IHn in H1 as (l2 & t2 & c2 & E2 & (ws & E3 & Hws) & H2).
      rewrite (advance_rest _ _ _ E1) in E2. exists (l1 ++ l2), t2, c2. rewrite <- app_assoc, <- E2, advance_app in *.
      split; [done|]. split; [|done]. exists (map fst l1 :: ws). split; [|by constructor]. by rewrite map_app, E3. }
    assert (forall m, k c p = Some m -> exists l t c', rest p = l ++ t /\
      (exists ws, map fst l = mjoin ws /\ Forall (consumes a) ws) /\ k c' (advance p l) = Some m) as Hk.
    { intros m' Hk. exists [], (rest p), c. rewrite advance_nil. split_and!; [done|by exists []|done]. }
    destruct g.
    + destruct more as [m'|]; [intros [= <-]; by apply Hm|apply Hk].
    + destruct (k c p) as [m'|]; [intros [= <-]; by apply Hk|apply Hm].
  - intros (l & t & c' & ? & ? & ?)%IHa. by exists l, t, (Some (at_ p, at_ (advance p l))).
  - destruct (boundary p); [|done]. intros Hk. exists [], (rest p), c. rewrite advance_nil. by split_and!.
  - destruct (before p) eqn:?; [done|]. intros Hk. exists [], (rest p), c. rewrite advance_nil. by split_and!.
  - destruct (rest p) eqn:E; [|done]. intros Hk. exists [], [], c. rewrite advance_nil. by split_and!.
Qed.

Lemma consumes_lit (s : bytes) w :
  consumes (foldr (λ c, Cat (Cls (Z.eqb (byte_Z c)))) Eps s) w -> w = map byte_Z s.
Proof.
  revert w. induction s as [|c s IH]; intros w; cbn [foldr consumes map]; [done|].
  intros (u & v & -> & (x & -> & Hx) & ->%IH). apply Z.eqb_eq in Hx as <-. done.
Qed.

Lemma consumes_cls_star f g w : consumes (Star g (Cls f)) w -> Forall (λ x, f x = true) w.
Proof.
  cbn [consumes]. intros (ws & -> & Hw). induction Hw as [|u ws (x & -> & Hx) _ IH]; [constructor|]. by constructor.
Qed.

Lemma consumes_at_least n f w : consumes (at_least n (Cls f)) w -> Forall (λ x, f x = true) w /\ (n <= length w)%nat.
Proof.
  unfold at_least. revert w. induction n as [|n IH]; intros w; cbn [times].
  - intros Hw. split; [by eapply consumes_cls_star|lia].
  - cbn [consumes]. intros (u & v & -> & (x & -> & Hx) & [Hv Hl]%IH). split; [by constructor|cbn; lia].
Qed.

(** ** Where a pattern is sure to match *)

Lemma run_lit (s : bytes) c p k l t :
  rest p = l ++ t -> map fst l = map byte_Z s ->
  run (foldr (λ c, Cat (Cls (Z.eqb (byte_Z c)))) Eps s) c p k = k c (advance p l).
Proof.
  revert p l. induction s as [|d s IH]; intros p l Hr Hl; destruct l as [|[x bs] l]; try done.
  - by rewrite advance_nil.
  - cbn in Hl. injection Hl as -> Hl. cbn [foldr run]. rewrite Hr. cbn [app]. rewrite Z.eqb_refl.
    rewrite (IH _ l) by done. by rewrite (advance_cons _ _ _ _ _ Hr).
Qed.

Lemma run_cls f c p k x bs t :
  rest p = (x, bs) :: t -> f x = true -> run (Cls f) c p k = k c (advance p [(x, bs)]).
Proof.
  intros Hr Hf. cbn [run]. rewrite Hr, Hf. by rewrite <- (advance_cons _ _ _ _ _ Hr), advance_nil.
Qed.

Lemma run_times n f r c p k l t :
  rest p = l ++ t -> length l = n -> Forall (λ x, f x.1 = true) l ->
  run (times n (Cls f) r) c p k = run r c (advance p l) k.
Proof.
  revert p l. induction n as [|n IH]; intros p l Hr Hn Hf; (destruct l as [|[x bs] l]; [|]; try done).
  - by rewrite advance_nil.
  - apply Forall_cons in Hf as [Hx Hf]. cbn [times run]. rewrite Hr. cbn [app]. cbn in Hx. rewrite Hx.
    rewrite (IH _ l) by (done || (cbn in Hn; lia)). by rewrite (advance_cons _ _ _ _ _ Hr).
Qed.

(** A greedy loop takes all it can, if the rest then matches. *)
Lemma run_star f c p k l t m :
  rest p = l ++ t -> Forall (λ x, f x.1 = true) l -> match t with x :: _ => f x.1 = false | [] => True end ->
  k c (advance p l) = Some m -> run (Star true (Cls f)) c p k = Some m.
Proof.
  intros Hr Hf Ht Hk. cbn [run]. assert (length l <= length (rest p))%nat as Hn by (rewrite Hr, length_app; lia).
  revert Hn. generalize (length (rest p)). intros n Hn. revert p l Hr Hf Hk Hn.
  induction n as [|n IH]; intros p l Hr Hf Hk Hn.
  { destruct l; [|cbn in Hn; lia]. by rewrite advance_nil in Hk. }
  destruct l as [|[x bs] l].
  - rewrite advance_nil in Hk. rewrite Hr. cbn [app]. destruct t as [|[y bs] t]; [done|]. cbn in Ht. by rewrite Ht.
  - apply Forall_cons in Hf as [Hx Hf]. rewrite Hr. cbn [app]. cbn in Hx. rewrite Hx.
    replace (Nat.eqb (at_ {| before := Some x; rest := l ++ t; at_ := S (at_ p) |}) (at_ p)) with false
      by (symmetry; apply Nat.eqb_neq; cbn; lia).
    rewrite (IH {| before := Some x; rest := l ++ t; at_ := S (at_ p) |} l); [done|done|done| |cbn in Hn; lia].
    rewrite <- Hk. by rewrite (advance_cons _ _ _ _ _ Hr).
Qed.

(** ** Runes and bytes *)

Definition word_byte (c : byte) : bool := is_word_rune (byte_Z c).

Lemma word_rune_ascii r : is_word_rune r = true -> 0 <= r < 0x80.
Proof. unfold is_word_rune, is_alnum_rune, is_digit_rune, is_alpha_rune. lia. Qed.

Lemma rune_bytes_no_word r p : rune_bytes r p -> is_word_rune r = false.
Proof.
  intros B. destruct (is_word_rune r) eqn:E; [|done]. exfalso. apply word_rune_ascii in E. pose proof (rb_long _ _ B) as Hl.
  rewrite <- (rb_encode _ _ B) in Hl. unfold EncodeRune in Hl.
  replace ((r <? 0) || (1114111 <? r) || ((55296 <=? r) && (r <=? 57343))) with false in Hl by lia.
  replace (r <? 128) with true in Hl by lia. cbn in Hl. lia.
Qed.

Lemma items_enough n s : (length s <= n)%nat -> items n s = items (length s) s.
Proof.
  revert n. induction s as [s IH] using (induction_ltof1 _ length). unfold ltof in IH. intros [|n] Hn; [by destruct s; [|cbn in Hn; lia]|].
  destruct s as [|c s]; [done|]. cbn [items length]. pose proof (DecodeRune_width (c :: s) ltac:(done)) as Hw.
  destruct (DecodeRune (c :: s)) as [r w]. cbn [snd] in Hw. f_equal.
  assert (length (drop w (c :: s)) <= length s)%nat as Hd by (rewrite length_drop; cbn [length]; lia).
  cbn [length] in Hn. rewrite (IH (drop w (c :: s))) by (cbn [length]; lia). symmetry. apply IH; cbn [length]; lia.
Qed.

Lemma items_cons c s : items (length (c :: s)) (c :: s) =
  let '(r, w) := DecodeRune (c :: s) in (r, take w (c :: s)) :: items (length (drop w (c :: s))) (drop w (c :: s)).
Proof.
  cbn [length items]. pose proof (DecodeRune_width (c :: s) ltac:(done)) as Hw. destruct (DecodeRune (c :: s)) as [r w]. cbn [snd] in Hw.
  f_equal. apply items_enough. rewrite length_drop. cbn [length]. lia.
Qed.

(** The items of a text of ASCII bytes. *)
Definition ascii_items (s : bytes) : list (Z * bytes) := map (λ c, (byte_Z c, [c])) s.

Lemma items_ascii s t :
  Forall (λ c, byte_Z c < 0x80) s -> items (length (s ++ t)) (s ++ t) = ascii_items s ++ items (length t) t.
Proof.
  induction 1 as [|c s Hc _ IH]; [done|]. cbn [app]. rewrite items_cons, DecodeRune_ascii by done. cbn [drop take ascii_items map app].
  by rewrite drop_0, take_0, IH.
Qed.

(** Nothing of a word stands at this end. *)
Definition open_end (o : option byte) : Prop := match o with Some c => word_byte c = false | None => True end.

Lemma head_no_word t : open_end (head t) -> match items (length t) t with x :: _ => is_word_rune x.1 = false | [] => True end.
Proof.
  destruct t as [|c t]; [done|]. rewrite items_cons. cbn [head open_end]. unfold word_byte. intros Hc.
  destruct (Z.lt_ge_cases (byte_Z c) 0x80) as [Hl|Hh]; [by rewrite DecodeRune_ascii|].
  destruct (decode_high c t Hh) as [->|(r & p & t' & E & B)]; [done|]. rewrite E, (rb_decode _ _ B). by eapply rune_bytes_no_word.
Qed.

(** An ASCII byte ends whatever rune is before it. *)
Lemma items_split a c t :
  byte_Z c < 0x80 -> open_end (last a) ->
  exists la, items (length (a ++ c :: t)) (a ++ c :: t) = la ++ items (length (c :: t)) (c :: t) /\
    match last la with Some x => is_word_rune x.1 = false | None => True end.
Proof.
  intros Hc. induction a as [a IH] using (induction_ltof1 _ length). unfold ltof in IH. intros Ha.
  destruct a as [|d a]; [by exists []|]. cbn [app]. rewrite items_cons.
  assert (forall r (w : nat), (1 <= w)%nat -> (w <= length (d :: a))%nat -> (w = length (d :: a) -> is_word_rune r = false) ->
    exists la, (r, take w (d :: a ++ c :: t)) :: items (length (drop w (d :: a ++ c :: t))) (drop w (d :: a ++ c :: t)) =
      la ++ items (length (c :: t)) (c :: t) /\ match last la with Some x => is_word_rune x.1 = false | None => True end) as Hgo.
  { intros r w Hw1 Hw Hr. change (d :: a ++ c :: t) with ((d :: a) ++ c :: t). rewrite drop_app_le by done.
    destruct (IH (drop w (d :: a))) as (la & Hla & Hlast).
    - rewrite length_drop. cbn [length] in *. lia.
    - destruct (decide (w = length (d :: a))) as [->|Hne]; [by rewrite drop_ge|].
      rewrite <- (take_drop w (d :: a)), last_app in Ha.
      destruct (last (drop w (d :: a))) eqn:El; [done|]. apply last_None, (f_equal length) in El. rewrite length_drop in El. cbn in *. lia.
    - exists ((r, take w ((d :: a) ++ c :: t)) :: la). rewrite Hla. split; [done|]. destruct la as [|x la].
      + cbn. apply Hr. destruct (decide (w = length (d :: a))) as [|Hne]; [done|]. exfalso.
        apply (f_equal (length ∘ text_of)) in Hla. cbn [compose] in Hla. cbn [app] in Hla. rewrite !text_of_items in Hla by done.
        rewrite length_app, length_drop in Hla. cbn [length] in *. lia.
      + by rewrite last_cons_cons. }
  destruct (Z.lt_ge_cases (byte_Z d) 0x80) as [Hl|Hh].
  - rewrite DecodeRune_ascii by done. apply Hgo; [lia|cbn; lia|]. cbn [length]. intros E. destruct a; [|cbn in E; lia]. exact Ha.
  - destruct (decode_high d (a ++ c :: t) Hh) as [->|(r & p & t' & E & B)]; [apply Hgo; [lia|cbn; lia|done]|].
    rewrite E, (rb_decode _ _ B), <- E. apply Hgo; [pose proof (rb_long _ _ B); lia| |intros _; by eapply rune_bytes_no_word].
    destruct (Nat.le_gt_cases (length p) (length (d :: a))) as [?|Hgt]; [done|]. exfalso.
    assert (c ∈ p) as Hin.
    { change (d :: a ++ c :: t) with ((d :: a) ++ c :: t) in E. apply (f_equal (λ l, l !! length (d :: a))) in E.
      rewrite lookup_app_r, Nat.sub_diag in E by done. cbn in E. rewrite lookup_app_l in E by (cbn [length] in *; lia).
      by eapply list_elem_of_lookup_2. }
    pose proof (rb_high _ _ B) as Hb. rewrite Forall_forall in Hb. specialize (Hb c Hin). lia.
Qed.

(** ** Every occurrence is found *)

Definition no_word_before (p : pos) : Prop := word_at (before p) = false.

Lemma before_advance p l x : last l = Some x -> before (advance p l) = Some x.1.
Proof. intros E. unfold advance. cbn. by rewrite E. Qed.

(** A search that cannot run past the start of an occurrence finds it. *)
Lemma find_from_complete r lk t n la p :
  (forall q, rest q = lk ++ t -> no_word_before q -> exists m, match_at r q = Some m /\ captured q m = text_of lk) ->
  (forall w, consumes r w -> w ≠ []) ->
  (forall la l u x, l ++ u = la ++ lk ++ t -> last la = Some x -> is_word_rune x.1 = false -> consumes r (map fst l) ->
     (length l <= length la)%nat) ->
  rest p = la ++ lk ++ t -> (la = [] -> no_word_before p) ->
  match last la with Some x => is_word_rune x.1 = false | None => True end ->
  (length la < n)%nat -> text_of lk ∈ find_from n r p.
Proof.
  intros Hkey Hne Hpass. revert la p. induction n as [|n IH]; intros la p Hr Hb Hl Hn; [lia|]. cbn [find_from].
  destruct (last la) as [x|] eqn:El.
  2: { apply last_None in El as ->. destruct (Hkey p Hr (Hb eq_refl)) as (m & -> & Hc). rewrite Hc. by left. }
  assert (forall l la', l ≠ [] -> la = l ++ la' -> text_of lk ∈ find_from n r (advance p l)) as Hgo.
  { intros l la' Hln ->. rewrite <- app_assoc in Hr. apply (IH la').
    - by rewrite (advance_rest _ _ _ Hr).
    - intros ->. rewrite app_nil_r in El. unfold no_word_before. by rewrite (before_advance _ _ _ El).
    - rewrite last_app in El. destruct (last la'); [by injection El as <-|done].
    - rewrite length_app in Hn. destruct l; [done|cbn in Hn; lia]. }
  destruct (match_at r p) as [m|] eqn:Em.
  - right. apply run_consumes in Em as (l & u & c & Hlu & Hc & [= <-]). cbn [final]. rewrite Hr in Hlu.
    pose proof (Hpass la l u x (eq_sym Hlu) El Hl Hc) as Hle.
    apply (Hgo l (drop (length l) la)).
    + intros ->. by apply (Hne _ Hc).
    + rewrite <- (take_drop (length l) la) at 1. f_equal. apply (f_equal (take (length l))) in Hlu.
      rewrite take_app_le, take_app_length in Hlu by done. done.
  - destruct la as [|[y bs] la]; [done|]. rewrite Hr. cbn [app].
    assert (advance p [(y, bs)] = {| before := Some y; rest := la ++ lk ++ t; at_ := S (at_ p) |}) as <-
      by (by rewrite <- (advance_cons _ _ _ [] _ Hr), advance_nil).
    by apply (Hgo [(y, bs)] la).
Qed.

(** ** Stripe keys *)

(** sk, a separator, live or test, a separator, ten letters or digits at least. *)
Record stripe_shaped (key : bytes) : Prop := {
  ss_text : exists s1 mode s2 tail, key = gostr "sk" ++ s1 :: gostr mode ++ s2 :: tail /\
    (s1 = x2d \/ s1 = x5f) /\ (s2 = x2d \/ s2 = x5f) /\ (mode = "live"%string \/ mode = "test"%string) /\
    Forall (λ c, is_alnum_rune (byte_Z c) = true) tail /\ (10 <= length tail)%nat }.

Lemma alnum_word r : is_alnum_rune r = true -> is_word_rune r = true.
Proof. unfold is_word_rune. by intros ->. Qed.

Lemma alnum_no_sep r : is_alnum_rune r = true -> r ≠ 45 /\ r ≠ 95.
Proof. unfold is_alnum_rune, is_digit_rune, is_alpha_rune. lia. Qed.

Lemma consumes_sep w : consumes sep w -> w = [45] \/ w = [95].
Proof.
  intros (x & -> & Hx). unfold rune_in in Hx. cbn [gostr existsb] in Hx. apply existsb_exists in Hx as (c & Hin & Hc%Z.eqb_eq).
  cbn in Hin. destruct Hin as [<-|[<-|[]]]; [left|right]; by rewrite <- Hc.
Qed.

(** What the pattern consumes. *)
Lemma stripe_consumes w :
  consumes stripe_key w -> exists s1 mode s2 al, w = [115; 107; s1] ++ mode ++ s2 :: al /\
    (s1 = 45 \/ s1 = 95) /\ (s2 = 45 \/ s2 = 95) /\ (mode = [108; 105; 118; 101] \/ mode = [116; 101; 115; 116]) /\
    Forall (λ x, is_alnum_rune x = true) al /\ (10 <= length al)%nat.
Proof.
  unfold stripe_key. intros (? & ? & -> & -> & (w1 & ? & -> & Hw & ->)). rewrite app_nil_r. cbn [app].
  destruct Hw as (u1 & v1 & -> & ->%consumes_lit & (u2 & v2 & -> & H2%consumes_sep & (u3 & v3 & -> & H3 & (u4 & al & -> & H4%consumes_sep & H5)))).
  apply consumes_at_least in H5 as [Ha Hl].
  assert (u3 = [108; 105; 118; 101] \/ u3 = [116; 101; 115; 116]) as Hm by (destruct H3 as [->%consumes_lit| ->%consumes_lit]; [by left|by right]).
  destruct H2 as [-> | ->], H4 as [-> | ->]; eexists _, u3, _, al; (split; [reflexivity|]); split_and!; auto.
Qed.

Lemma stripe_items key : stripe_shaped key -> Forall (λ c, byte_Z c < 0x80) key.
Proof.
  intros [(s1 & mode & s2 & tail & -> & H1 & H2 & Hm & Ht & _)].
  repeat first [rewrite Forall_app | rewrite Forall_cons]. split_and!.
  - by repeat constructor.
  - by destruct H1 as [-> | ->].
  - by destruct Hm as [-> | ->]; repeat constructor.
  - by destruct H2 as [-> | ->].
  - eapply Forall_impl; [exact Ht|]. intros c Hc. apply alnum_word, word_rune_ascii in Hc. cbn in Hc. lia.
Qed.

(** A rune of the first of two lists. *)
Lemma app_eq_at {A} (l1 l2 r : list A) x s : l1 ++ l2 = r ++ x :: s -> (length r < length l1)%nat -> x ∈ l1.
Proof.
  intros E Hl. apply (f_equal (λ l, l !! length r)) in E. rewrite lookup_app_l, list_lookup_middle in E by done.
  by eapply list_elem_of_lookup_2.
Qed.

(** The pattern does not consume the start of a key from before it. *)
Lemma stripe_passes key la l u t x :
  stripe_shaped key -> l ++ u = la ++ ascii_items key ++ t -> last la = Some x -> is_word_rune x.1 = false ->
  consumes stripe_key (map fst l) -> (length l <= length la)%nat.
Proof.
  intros [(s1 & kmode & s2 & tail & -> & H1 & _)] Hl Hx Hw (z1 & mode & z2 & al & E & Hz1 & Hz2 & Hm & Ha & Hal)%stripe_consumes.
  destruct (Nat.le_gt_cases (length l) (length la)) as [?|Hgt]; [done|]. exfalso.
  apply last_Some in Hx as [la' ->]. apply (f_equal (map fst)) in Hl. rewrite !map_app, E, <- app_assoc in Hl.
  assert (length (map fst la') < 8 + length al)%nat as Hlen.
  { apply (f_equal length) in E. rewrite length_map, !length_app in E. rewrite length_app in Hgt. rewrite length_map.
    destruct Hm as [-> | ->]; cbn in E, Hgt |- *; lia. }
  assert (is_alnum_rune (byte_Z s1) = false) as Hs1 by (by destruct H1 as [-> | ->]).
  rewrite Forall_forall in Ha. set (r := map fst la') in *. clearbody r. set (ks := map fst t) in *. clearbody ks.
  assert (exists rest, [115; 107; z1] ++ mode ++ z2 :: al ++ map fst u = r ++ x.1 :: 115 :: 107 :: byte_Z s1 :: rest) as [rest Hr].
  { eexists. rewrite <- !app_assoc in Hl. cbn [app] in Hl |- *. rewrite Hl. reflexivity. }
  clear Hl. destruct Hm as [-> | ->]; cbn [app] in Hr;
    (do 7 (destruct r as [|? r]; [injection Hr as; subst; destruct x as [x bs]; cbn in *; first [done|naive_solver]|injection Hr as ? Hr; subst]));
    (destruct r as [|? r]; [|injection Hr as ? Hr; subst]).
  1, 3: injection Hr as _ Hr; pose proof (Ha _ (app_eq_at _ _ [115; 107] _ _ Hr ltac:(cbn; lia))); congruence.
  all: assert (x.1 ∈ al) as Hin by (eapply app_eq_at; [exact Hr|cbn in Hlen; lia]);
    pose proof (alnum_word _ (Ha _ Hin)); congruence.
Qed.

Lemma run_text (s : string) c p k t :
  rest p = ascii_items (gostr s) ++ t -> run (lit s) c p k = k c (advance p (ascii_items (gostr s))).
Proof. intros Hr. unfold lit. apply (run_lit _ _ _ _ _ t); [done|]. unfold ascii_items. by rewrite map_map. Qed.

Lemma run_at_least n f c p k l t m :
  rest p = l ++ t -> Forall (λ x, f x.1 = true) l -> (n <= length l)%nat ->
  match t with x :: _ => f x.1 = false | [] => True end ->
  k c (advance p l) = Some m -> run (at_least n (Cls f)) c p k = Some m.
Proof.
  intros Hr Hf Hn Ht Hk. unfold at_least. rewrite <- (take_drop n l) in Hr, Hf, Hk. apply Forall_app in Hf as [Hf1 Hf2].
  rewrite <- app_assoc in Hr. rewrite (run_times _ _ _ _ _ _ _ _ Hr) by (rewrite ?length_take; done || lia).
  apply (run_star _ _ _ _ (drop n l) t); [by apply advance_rest|done|done|]. by rewrite advance_app.
Qed.

Lemma sep_rune c : c = x2d \/ c = x5f -> rune_in (gostr "-_") (byte_Z c) = true.
Proof. by intros [-> | ->]. Qed.

(** At its start a key is taken whole. *)
Lemma stripe_found key t q :
  stripe_shaped key -> match t with x :: _ => is_word_rune x.1 = false | [] => True end ->
  rest q = ascii_items key ++ t -> no_word_before q ->
  exists m, match_at stripe_key q = Some m /\ captured q m = text_of (ascii_items key).
Proof.
  intros [(s1 & mode & s2 & tail & Hk & H1 & H2 & Hm & Ht & Hlen)] Hnext Hr Hb.
  set (lk := ascii_items key) in *. set (q' := advance q lk).
  exists {| cap := Some (at_ q, at_ q'); final := q' |}. split.
  2: { unfold captured. cbn [cap]. rewrite Nat.sub_diag, drop_0, Hr. unfold q'. cbn [at_ advance].
       replace (at_ q + length lk - at_ q)%nat with (length lk) by lia. by rewrite take_app_length. }
  unfold match_at, stripe_key. cbn [run].
  assert (boundary q = true) as ->.
  { unfold boundary. rewrite Hr. unfold no_word_before in Hb. rewrite Hb. unfold lk. by rewrite Hk. }
  set (K := λ (_ : option (nat * nat)) (q0 : pos), if boundary q0 then Some {| cap := Some (at_ q, at_ q0); final := q0 |} else None).
  assert (boundary q' = true) as Hb'.
  { unfold boundary. rewrite (advance_rest q lk t Hr : rest q' = t). unfold q', lk, ascii_items. rewrite Hk.
    destruct (exists_last (l := tail)) as (tl & c & ->); [by intros ->; cbn in Hlen; lia|].
    rewrite (before_advance _ _ (byte_Z c, [c])).
    - cbn [word_at fst]. apply Forall_app in Ht as [_ Ht]. apply Forall_cons in Ht as [Hc _]. rewrite (alnum_word _ Hc).
      destruct t as [|[y bs] t]; [done|]. cbn in Hnext |- *. by rewrite Hnext.
    - rewrite !app_comm_cons, !app_assoc, map_app. by rewrite last_app. }
  assert (K None q' = Some {| cap := Some (at_ q, at_ q'); final := q' |}) as HK by (unfold K; by rewrite Hb').
  assert (q' = advance q lk) as Hq' by done. clearbody q'. clear Hb'.
  assert (lk = ascii_items (gostr "sk") ++ (byte_Z s1, [s1]) :: ascii_items (gostr mode) ++ (byte_Z s2, [s2]) :: ascii_items tail) as Elk
    by (unfold lk; rewrite Hk; unfold ascii_items; rewrite map_app; cbn [map]; by rewrite map_app).
  rewrite Elk, <- !app_assoc in Hr. cbn [app] in Hr. rewrite <- app_assoc in Hr. cbn [app] in Hr.
  rewrite (run_text _ _ _ _ _ Hr). set (p1 := advance q (ascii_items (gostr "sk"))). pose proof (advance_rest _ _ _ Hr : rest p1 = _) as Hr1.
  unfold sep at 1, one_of. rewrite (run_cls _ _ _ _ _ _ _ Hr1 (sep_rune _ H1)).
  set (p2 := advance p1 [(byte_Z s1, [s1])]). pose proof (advance_rest p1 [(byte_Z s1, [s1])] _ Hr1 : rest p2 = _) as Hr2.
  assert (forall c p3, p3 = advance p2 (ascii_items (gostr mode)) ->
    run sep c p3 (λ c2 p4, run (at_least 10 alnum) c2 p4 K) = Some {| cap := Some (at_ q, at_ q'); final := q' |}) as Hend.
  { intros c p3 ->. set (p3 := advance _ _). pose proof (advance_rest _ _ _ Hr2 : rest p3 = _) as Hr3.
    unfold sep, one_of. rewrite (run_cls _ _ _ _ _ _ _ Hr3 (sep_rune _ H2)).
    pose proof (advance_rest p3 [(byte_Z s2, [s2])] _ Hr3) as Hr4.
    apply (run_at_least _ _ _ _ _ (ascii_items tail) t); [exact Hr4| | | |].
    - unfold ascii_items. by apply Forall_map.
    - unfold ascii_items. by rewrite length_map.
    - destruct t as [|x t]; [done|]. destruct (is_alnum_rune x.1) eqn:E; [|done]. apply alnum_word in E. congruence.
    - replace (advance _ (ascii_items tail)) with q'; [exact HK|].
      rewrite Hq'. unfold p3, p2, p1. rewrite !advance_app, Elk. f_equal. }
  destruct Hm as [-> | ->].
  - rewrite (run_text _ _ _ _ _ Hr2). by rewrite (Hend _ _ eq_refl).
  - assert (forall c k, run (lit "live") c p2 k = None) as -> 
      by (intros c k; change (lit "live") with (Cat (Cls (Z.eqb 108)) (lit "ive")); cbn [run]; by rewrite Hr2).
    rewrite (run_text _ _ _ _ _ Hr2). exact (Hend _ _ eq_refl).
Qed.

(** A key that stands alone in a text is among the values extracted from it. *)
Lemma stripe_extracted `{Compressors} now a key b source seq :
  stripe_shaped key -> open_end (last a) -> open_end (head b) ->
  new_taint key (CanonicalEncodings key) source seq now ∈ ExtractTaintedValues now (a ++ key ++ b) source seq.
Proof.
  intros Hk Ha Hb. assert (key ∈ FindAllSubmatch stripe_key (a ++ key ++ b)) as Hin.
  { pose proof (stripe_items key Hk) as Hascii. unfold FindAllSubmatch.
    destruct (ss_text _ Hk) as (s1 & mode & s2 & tail & E & _).
    assert (exists c t, key = c :: t /\ byte_Z c < 0x80) as (c & t & Ec & Hc) by (rewrite E; by exists x73, (x6b :: s1 :: gostr mode ++ s2 :: tail)).
    destruct (items_split a c (t ++ b) Hc Ha) as (la & Hla & Hlast). rewrite !(app_comm_cons t), <- Ec in Hla.
    rewrite (items_ascii key b Hascii) in Hla. rewrite Hla.
    replace key with (text_of (ascii_items key)) at 1.
    - apply (find_from_complete _ _ (items (length b) b) _ la).
      + intros q Hr Hq. exact (stripe_found key _ q Hk (head_no_word b Hb) Hr Hq).
      + intros w (s & m & s' & al & -> & _)%stripe_consumes. done.
      + intros la' l u x Hl Hx Hw Hcs. by apply (stripe_passes key la' l u (items (length b) b) x).
      + reflexivity.
      + reflexivity.
      + exact Hlast.
      + rewrite length_app. lia.
    - unfold text_of, ascii_items. rewrite map_map. cbn [snd]. clear. induction key as [|c key IH]; [done|]. cbn [map]. change (c :: mjoin (map (λ c, [c]) key) = c :: key). by rewrite IH. }
  unfold ExtractTaintedValues. apply list_elem_of_fmap. exists key. split; [done|]. apply first_seen_spec. split; [|apply not_elem_of_nil].
  apply list_elem_of_In, in_concat. exists (FindAllSubmatch stripe_key (a ++ key ++ b)). split; [by left|by apply list_elem_of_In].
Qed.
