(* ===== verification/Overlap.v ===== *)
(** * internal/engine/decode.go, bind.go and the string part of overlap.go

    Whether a tainted value, one of its canonical encodings or one of its chunks occurs in a
    string, directly or after unwrapping layers of base64 and hexadecimal. *)

From S2P Require Import Prelude Go GoTime Config GoStrings Encodings Json Model Store Tagger.
From S2P Require Import Egress Taint.

(** ** bind.go *)

(** [for i := 0; i+minLen <= len(short); i++] *)
Fixpoint window_in (minLen : nat) (long short : bytes) : bool :=
  if (length short <? minLen)%nat then false
  else Contains long (take minLen short) ||
       match short with [] => false | _ :: short => window_in minLen long short end.

Definition sharedSubstringAtLeast (a b : bytes) (minLen : Z) : bool :=
  if (len a <? minLen) || (len b <? minLen) then false
  else
    let '(short, long) := if len b <? len a then (b, a) else (a, b) in
    window_in (Z.to_nat minLen) long short.

Definition CheckContentBind (excerpts : list bytes) (sink : bytes) (minLen : Z) : bool :=
  let minLen := or_default minLen defaultContentBindMinLen in
  if bool_decide (sink = []) || (len sink <? minLen) then false
  else existsb (λ ex, sharedSubstringAtLeast ex sink minLen) excerpts.

(** ** Direct matches *)

Section compressors.

Context `{Compressors}.

Definition variantsForLegacy (value : bytes) : list TaintedVariant := CanonicalEncodings value.

(** [forms] of matchTaintedValue and matchSingleLayer *)
Definition forms_of (tv : TaintedValue) : list TaintedVariant :=
  match Variants tv, Value tv with
  | [], _ :: _ => variantsForLegacy (Value tv)
  | vs, _ => vs
  end.

Definition hit (tv : TaintedValue) (form : bytes) : OverlapHit := {|
  TaintedHash := Hash tv; ohPreview := Preview tv; WhereFound := []; MatchForm := form |}.

(** The first of the variants that is not empty and occurs in the string. *)
Definition first_form (argsStr : bytes) (vs : list TaintedVariant) : option TaintedVariant :=
  List.find (λ v, negb (bool_decide (vValue v = [])) && Contains argsStr (vValue v)) vs.

Definition matchTaintedValue (argsStr : bytes) (tv : TaintedValue) : option OverlapHit :=
  match first_form argsStr (forms_of tv) with
  | Some v => Some (hit tv (Form v))
  | None => (λ v, hit tv (Form v)) <$> first_form argsStr (Chunks tv)
  end.

(** [for _, x := range l { if r := f(x); r != nil { return r } }; return nil] *)
Fixpoint first_some {A B} (f : A -> option B) (l : list A) : option B :=
  match l with
  | [] => None
  | x :: l => match f x with Some y => Some y | None => first_some f l end
  end.

Definition checkOverlapString (tainted : list TaintedValue) (haystack : bytes) : option OverlapHit :=
  match haystack with
  | [] => None
  | _ => first_some (matchTaintedValue haystack) tainted
  end.

(** ** decode.go *)

Definition maxDecodeBytes : Z := 8 * 1024.
Definition maxDecodeInputBytes : Z := 64 * 1024.
Definition minDecodeCandidate : Z := 4.

Definition tryBase64 (s : bytes) : option bytes :=
  let s := TrimSpace s in
  if len s <? minDecodeCandidate then None
  else match b64_decode true s with
       | Some dec => Some dec
       | None => b64_decode false s
       end.

Definition looksLikeHex (s : bytes) : bool :=
  if (len s <? minDecodeCandidate) || negb (len s mod 2 =? 0) then false
  else forallb is_hex s.

Definition tryHex (s : bytes) : option bytes :=
  let s := TrimSpace s in if looksLikeHex s then hex_decode s else None.

(** The scan of looksLikeBase64 with [pad] padding bytes seen. *)
Fixpoint b64_shape (pad : nat) (s : bytes) : bool :=
  match s with
  | [] => true
  | c :: s =>
      match from_b64 c with
      | Some _ => if (0 <? pad)%nat then false else b64_shape pad s
      | None => if Byte.eqb c x3d then if (2 <? S pad)%nat then false else b64_shape (S pad) s
                else false
      end
  end.

Definition looksLikeBase64 (s : bytes) : bool :=
  let s := TrimSpace s in
  if len s <? minDecodeCandidate then false else b64_shape 0 s.

Definition printable_byte (c : byte) : bool :=
  let z := byte_Z c in ((0x20 <=? z) && (z <? 0x7f)) || (z =? 10) || (z =? 13) || (z =? 9).

Definition printable_rune (r : Z) : bool :=
  ((0x20 <=? r) && negb (r =? 0x7f)) || (r =? 10) || (r =? 13) || (r =? 9).

Definition mostlyPrintable (s : bytes) : bool :=
  if negb (valid_utf8 (length s) s) then
    80 <=? len (List.filter printable_byte s) * 100 / len s
  else
    let rs := runes (length s) s in
    match rs with
    | [] => false
    | _ => 80 <=? len (List.filter printable_rune rs) * 100 / len rs
    end.

Definition plausibleDecoded (s : bytes) : bool :=
  if bool_decide (s = []) || (maxDecodeBytes <? len s) then false
  else if looksLikeHex s || looksLikeBase64 s then true
  else mostlyPrintable s.

Definition singleLayerForms : list bytes :=
  [FormLiteral; FormBase64; FormHex; FormURLEncoded; FormReversed].

Definition isSingleLayerForm (form : bytes) : bool :=
  existsb (λ f, bool_decide (form = f)) singleLayerForms.

Definition single_layer_match (haystack : bytes) (tv : TaintedValue) : bool :=
  existsb (λ v, negb (bool_decide (vValue v = [])) && isSingleLayerForm (Form v) &&
                Contains haystack (vValue v)) (forms_of tv) ||
  (negb (bool_decide (Value tv = [])) && Contains haystack (Value tv)).

Definition matchSingleLayer (haystack : bytes) (tainted : list TaintedValue) (path : list bytes)
    : option OverlapHit :=
  let formName := gostr "decoded_" ++ Join path (gostr "_") in
  first_some (λ tv, if single_layer_match haystack tv then Some (hit tv formName) else None) tainted.

(** [attempts]: the layers that decode, with their names. *)
Definition attempts (s : bytes) : list (bytes * bytes) :=
  match tryBase64 s with Some d => [(gostr "base64", d)] | None => [] end ++
  match tryHex s with Some d => [(gostr "hex", d)] | None => [] end.

(** [decodeMatchCandidates(s, tainted, path, depth)] with [fuel] layers left, that is
    [CurrentMaxDecodeDepth() - depth]. *)
Fixpoint decodeMatchCandidates (fuel : nat) (s : bytes) (tainted : list TaintedValue) (path : list bytes)
    : option OverlapHit :=
  match fuel with
  | O => None
  | S fuel =>
      if bool_decide (s = []) || (maxDecodeInputBytes <? len s) then None
      else
        first_some (λ a : bytes * bytes,
          let '(layer, decoded) := a in
          if bool_decide (decoded = []) || (maxDecodeInputBytes <? len decoded) then None
          else
            let newPath := path ++ [layer] in
            match matchSingleLayer decoded tainted newPath with
            | Some h => Some h
            | None =>
                if plausibleDecoded decoded then decodeMatchCandidates fuel decoded tainted newPath
                else None
            end) (attempts s)
  end.

Definition checkOverlapDecoded (depth : nat) (tainted : list TaintedValue) (candidates : list bytes)
    : option OverlapHit :=
  match tainted with
  | [] => None
  | _ =>
      first_some (λ c, if (len c <? minDecodeCandidate) || (maxDecodeInputBytes <? len c) then None
                       else decodeMatchCandidates depth c tainted []) candidates
  end.

Context `{Floats}.

Definition decodeCandidatesFromArgs (sinkArgs : bytes) : list bytes :=
  match jsonStringLeaves sinkArgs with
  | [] => match sinkArgs with [] => [] | _ => [sinkArgs] end
  | leaves => leaves
  end.

Definition decodeCandidatesFromPayload (payload : bytes) : list bytes :=
  match payload with
  | [] => []
  | _ => payload :: jsonStringLeaves payload
  end.

End compressors.
