(* ===== verification/Container.v ===== *)
(** * internal/engine/container.go: the bounded walk of archives

    The archive formats of the standard library (archive/zip, archive/tar, compress/gzip,
    compress/zlib) are parameters: what their readers return. The walk itself, with its
    budgets of bytes, members, depth and time, is modelled call by call. *)

From S2P Require Import Prelude Go GoTime Config GoStrings Encodings Json Model Store Tagger Egress.

(** ** Readers *)

Inductive read_status := More | EOF | ReadError.

(** An [io.Reader]: what its [i]th Read of [want] bytes returns. *)
Definition reader : Type := nat -> nat -> bytes * read_status.

Record zip_file := { encrypted : bool; is_dir : bool; open_file : option reader }.

(** Next of a tar reader: a header with its body, and how the sequence of headers ends. *)
Record tar_entry := { regular : bool; body : reader }.

Class Archives := {
  zip_NewReader : bytes -> option (list zip_file);
  gzip_NewReader : bytes -> option reader;
  zlib_NewReader : bytes -> option reader;
  tar_entries : bytes -> list tar_entry * read_status
}.

(** A Read returns no more than it was asked for. *)
Definition reader_ok (r : reader) : Prop := forall i want, (length (r i want).1 <= want)%nat.

Class ArchivesOk `{Archives} : Prop := {
  zip_ok : forall raw fs f r, zip_NewReader raw = Some fs -> f ∈ fs -> open_file f = Some r -> reader_ok r;
  gzip_ok : forall raw r, gzip_NewReader raw = Some r -> reader_ok r;
  zlib_ok : forall raw r, zlib_NewReader raw = Some r -> reader_ok r;
  tar_ok : forall raw e, e ∈ (tar_entries raw).1 -> reader_ok (body e)
}.

(** The instants [time.Now] answers, by call. *)
Class Clock := clock : nat -> Z.

(** ** Kinds *)

Inductive ContainerAbortReason :=
  | ContainerAbortNone | ContainerAbortMaxBytes | ContainerAbortMaxDepth | ContainerAbortMaxParts
  | ContainerAbortMaxTime | ContainerAbortEncrypted | ContainerAbortCorrupt.

#[export] Instance abort_eq_dec : EqDecision ContainerAbortReason.
Proof. solve_decision. Defined.

Definition abort_string (a : ContainerAbortReason) : bytes :=
  gostr match a with
        | ContainerAbortNone => ""
        | ContainerAbortMaxBytes => "max_decompressed_bytes"
        | ContainerAbortMaxDepth => "max_descent_depth"
        | ContainerAbortMaxParts => "max_parts"
        | ContainerAbortMaxTime => "max_inspect_ms"
        | ContainerAbortEncrypted => "encrypted"
        | ContainerAbortCorrupt => "corrupt"
        end.

Inductive containerKind := KindNone | KindZIP | KindGzip | KindZlib | KindTar.

Definition looksLikeTar (raw : bytes) : bool :=
  if len raw <? 512 then false else bool_decide (slice 257 262 raw = gostr "ustar").

Definition detectContainerKind (raw : bytes) : containerKind :=
  let tar := if looksLikeTar raw then KindTar else KindNone in
  match raw with
  | x50 :: x4b :: x03 :: x04 :: _ => KindZIP
  | x1f :: x8b :: _ => KindGzip
  | x78 :: (x01 | x9c | xda) :: _ => KindZlib
  | _ => tar
  end.

Definition is_kind_none (k : containerKind) : bool := match k with KindNone => true | _ => false end.

Definition LooksLikeContainer (raw : bytes) : bool := negb (is_kind_none (detectContainerKind raw)).

Definition text_rune (r : Z) : bool :=
  (r =? 10) || (r =? 13) || (r =? 9) || ((32 <=? r) && negb (r =? 127)).

Definition isMostlyPrintable (b : bytes) : bool :=
  if bool_decide (b = []) || negb (valid_utf8 (length b) b) then false
  else
    let rs := runes (length b) b in
    len rs * 8 <=? len (List.filter text_rune rs) * 10.

(** ** The walker *)

Record containerWalker := {
  w_bytes : Z; w_parts : Z; w_out : list bytes; w_abort : ContainerAbortReason;
  w_tick : nat                    (* calls of time.Now so far *)
}.

Section walk.

Context `{Archives} `{Clock} (lim : ContainerLimits) (deadline : Z).

(** A step of the walk: a result and the new walker. *)
Definition W (A : Type) : Type := containerWalker -> A * containerWalker.

Definition aborted (w : containerWalker) : bool := negb (bool_decide (w_abort w = ContainerAbortNone)).

Definition with_abort (a : ContainerAbortReason) (w : containerWalker) : containerWalker := {|
  w_bytes := w_bytes w; w_parts := w_parts w; w_out := w_out w; w_abort := a; w_tick := w_tick w |}.

Definition setAbort (r : ContainerAbortReason) (w : containerWalker) : containerWalker :=
  if aborted w then w else with_abort r w.

Definition timedOut : W bool := λ w,
  (deadline <? clock (w_tick w),
   {| w_bytes := w_bytes w; w_parts := w_parts w; w_out := w_out w; w_abort := w_abort w;
      w_tick := S (w_tick w) |}).

Definition addBytes (n : Z) : W bool := λ w,
  let w := {| w_bytes := w_bytes w + n; w_parts := w_parts w; w_out := w_out w;
              w_abort := w_abort w; w_tick := w_tick w |} in
  if MaxDecompressedBytes lim <? w_bytes w then (false, setAbort ContainerAbortMaxBytes w) else (true, w).

Definition addPart : W bool := λ w,
  let w := {| w_bytes := w_bytes w; w_parts := w_parts w + 1; w_out := w_out w;
              w_abort := w_abort w; w_tick := w_tick w |} in
  if MaxParts lim <? w_parts w then (false, setAbort ContainerAbortMaxParts w) else (true, w).

Definition add_out (s : bytes) (w : containerWalker) : containerWalker := {|
  w_bytes := w_bytes w; w_parts := w_parts w; w_out := w_out w ++ [s]; w_abort := w_abort w;
  w_tick := w_tick w |}.

(** The end of considerText and of considerMember: keep printable text. *)
Definition keep_text (b : bytes) (w : containerWalker) : containerWalker :=
  if negb (isMostlyPrintable b) then w
  else match TrimSpace b with [] => w | _ => add_out b w end.

Definition readChunk : nat := Z.to_nat (32 * 1024).

(** The loop of [readCapped] after [i] reads; a Read that is not at the end adds a byte, so
    [remain] iterations are enough. *)
Fixpoint read_loop (fuel : nat) (r : reader) (remain i : nat) (buf : bytes) : W (bytes * bool) := λ w,
  if (remain <=? length buf)%nat then ((buf, true), setAbort ContainerAbortMaxBytes w)
  else
    match fuel with
    | O => ((buf, true), setAbort ContainerAbortMaxBytes w)
    | S fuel =>
        let '(late, w) := timedOut w in
        if late : bool then (([], false), setAbort ContainerAbortMaxTime w)
        else
          let want := Nat.min (remain - length buf) readChunk in
          let '(data, status) := r i want in
          let buf := buf ++ data in
          match status with
          | EOF => ((buf, false), w)
          | ReadError => (([], false), setAbort ContainerAbortCorrupt w)
          | More =>
              match data with
              | [] => (([], false), setAbort ContainerAbortCorrupt w)
              | _ => read_loop fuel r remain (S i) buf w
              end
          end
    end.

Definition readCapped (r : reader) (remain : Z) : W (bytes * bool) := λ w,
  if remain <=? 0 then (([], true), setAbort ContainerAbortMaxBytes w)
  else read_loop (Z.to_nat remain) r (Z.to_nat remain) 0 [] w.

Definition remainBudget (w : containerWalker) : Z := MaxDecompressedBytes lim - w_bytes w + 1.

(** [readCapped] and, unless it aborted or overran, [consider]. *)
Definition read_member (r : reader) (consider : bytes -> containerWalker -> containerWalker)
    (w : containerWalker) : containerWalker :=
  let '((data, overrun), w) := readCapped r (remainBudget w) w in
  if aborted w || overrun then w else consider data w.

Section members.

Context (walk : bytes -> Z -> containerWalker -> containerWalker).

Definition considerMember (depth : Z) (b : bytes) (w : containerWalker) : containerWalker :=
  if aborted w || bool_decide (b = []) then w
  else
    let '(ok, w) := addBytes (len b) w in
    if negb ok then w
    else
      let '(ok, w) := addPart w in
      if negb ok then w
      else
        let '(late, w) := timedOut w in
        if late : bool then setAbort ContainerAbortMaxTime w
        else if LooksLikeContainer b then
          if MaxDescentDepth lim <? depth + 1 then setAbort ContainerAbortMaxDepth w
          else walk b (depth + 1) w
        else keep_text b w.

Fixpoint walk_files (depth : Z) (fs : list zip_file) (w : containerWalker) : containerWalker :=
  match fs with
  | [] => w
  | f :: fs =>
      if aborted w then w
      else
        let '(late, w) := timedOut w in
        if late : bool then setAbort ContainerAbortMaxTime w
        else if encrypted f then setAbort ContainerAbortEncrypted w
        else if is_dir f then walk_files depth fs w
        else
          match open_file f with
          | None => setAbort ContainerAbortCorrupt w
          | Some rc =>
              let '((data, overrun), w) := readCapped rc (remainBudget w) w in
              if aborted w || overrun then w
              else walk_files depth fs (considerMember depth data w)
          end
  end.

Fixpoint walk_headers (depth : Z) (es : list tar_entry) (ending : read_status) (w : containerWalker)
    : containerWalker :=
  if aborted w then w
  else
    let '(late, w) := timedOut w in
    if late : bool then setAbort ContainerAbortMaxTime w
    else
      match es with
      | [] => match ending with EOF => w | _ => setAbort ContainerAbortCorrupt w end
      | e :: es =>
          if negb (regular e) then walk_headers depth es ending w
          else
            let '((data, overrun), w) := readCapped (body e) (remainBudget w) w in
            if aborted w || overrun then w
            else walk_headers depth es ending (considerMember depth data w)
      end.

End members.

(** [considerText], reached only from a walk of something that is no container. *)
Definition considerText (b : bytes) (w : containerWalker) : containerWalker :=
  if aborted w || bool_decide (b = []) then w
  else
    let '(ok, w) := addBytes (len b) w in
    if negb ok then w else keep_text b w.

(** A walk descends only below MaxDescentDepth, so MaxDescentDepth + 1 levels are enough. *)
Fixpoint walk (fuel : nat) (raw : bytes) (depth : Z) (w : containerWalker) : containerWalker :=
  if aborted w then w
  else
    let '(late, w) := timedOut w in
    if late : bool then setAbort ContainerAbortMaxTime w
    else if MaxDescentDepth lim <? depth then setAbort ContainerAbortMaxDepth w
    else
      match fuel with
      | O => setAbort ContainerAbortMaxDepth w
      | S fuel =>
          let consider := considerMember (walk fuel) depth in
          match detectContainerKind raw with
          | KindZIP =>
              match zip_NewReader raw with
              | None => setAbort ContainerAbortCorrupt w
              | Some fs => walk_files (walk fuel) depth fs w
              end
          | KindGzip =>
              match gzip_NewReader raw with
              | None => setAbort ContainerAbortCorrupt w
              | Some r => read_member r consider w
              end
          | KindZlib =>
              match zlib_NewReader raw with
              | None => setAbort ContainerAbortCorrupt w
              | Some r => read_member r consider w
              end
          | KindTar =>
              let '(es, ending) := tar_entries raw in walk_headers (walk fuel) depth es ending w
          | KindNone => considerText raw w
          end
      end.

End walk.

(** ** InspectContainer *)

Record ContainerInspectResult := {
  Parts : list bytes; Abort_ : ContainerAbortReason; Bytes_ : Z; PartsN : Z
}.

Definition normalize (lim : ContainerLimits) : ContainerLimits :=
  let d := DefaultContainerLimits in {|
  Enabled := Enabled lim;
  MaxDecompressedBytes := or_default (MaxDecompressedBytes lim) (MaxDecompressedBytes d);
  MaxDescentDepth := or_default (MaxDescentDepth lim) (MaxDescentDepth d);
  MaxParts := or_default (MaxParts lim) (MaxParts d);
  MaxInspect := or_default (MaxInspect lim) (MaxInspect d) |}.

(** The walk that starts at the [tick]th call of time.Now; the number of calls made. *)
Definition InspectContainer `{Archives} `{Clock} (tick : nat) (raw : bytes) (lim : ContainerLimits)
    : ContainerInspectResult * nat :=
  if negb (Enabled lim) || bool_decide (raw = []) || is_kind_none (detectContainerKind raw)
  then ({| Parts := []; Abort_ := ContainerAbortNone; Bytes_ := 0; PartsN := 0 |}, tick)
  else
    let lim := normalize lim in
    let w := {| w_bytes := 0; w_parts := 0; w_out := []; w_abort := ContainerAbortNone;
                w_tick := S tick |} in
    let w := walk lim (clock tick + MaxInspect lim) (S (Z.to_nat (MaxDescentDepth lim))) raw 0 w in
    ({| Parts := w_out w; Abort_ := w_abort w; Bytes_ := w_bytes w; PartsN := w_parts w |}, w_tick w).

Definition JoinContainerParts (parts : list bytes) : bytes := Join parts [x0a].

(** ** Invariant of the walk *)

Section invariant.

Context `{HA : Archives} `{HC : Clock} (lim : ContainerLimits) (deadline : Z).
Context (Hmax : 0 <= MaxDecompressedBytes lim).

(** The bytes attributed never pass the budget by more than the one byte that shows there
    is more, and not at all without an abort; the text kept is among them. *)
Definition walk_ok (w : containerWalker) : Prop :=
  0 <= w_bytes w <= MaxDecompressedBytes lim + 1 /\ 0 <= w_parts w <= MaxParts lim + 1 /\
  fragmentBytes (w_out w) <= w_bytes w /\
  (w_abort w = ContainerAbortNone ->
   w_bytes w <= MaxDecompressedBytes lim /\ w_parts w <= MaxParts lim).

Lemma aborted_spec w : aborted w = false <-> w_abort w = ContainerAbortNone.
Proof.
  unfold aborted. destruct (decide (w_abort w = ContainerAbortNone)) as [E|E].
  - by rewrite bool_decide_eq_true_2.
  - by rewrite bool_decide_eq_false_2.
Qed.

Lemma setAbort_ok r w : r ≠ ContainerAbortNone ->
  0 <= w_bytes w <= MaxDecompressedBytes lim + 1 -> 0 <= w_parts w <= MaxParts lim + 1 ->
  fragmentBytes (w_out w) <= w_bytes w -> walk_ok (setAbort r w).
Proof.
  intros Hr H1 H2 H3. unfold setAbort. destruct (aborted w) eqn:E.
  - split_and!; try done; try lia. all: intros E'; apply aborted_spec in E'; congruence.
  - unfold walk_ok. cbn. split_and!; try done; lia.
Qed.

Lemma timedOut_same w : forall b w', timedOut deadline w = (b, w') ->
  w_bytes w' = w_bytes w /\ w_parts w' = w_parts w /\ w_out w' = w_out w /\ w_abort w' = w_abort w.
Proof. by intros b w' [= <- <-]. Qed.

Lemma same_ok w w' :
  w_bytes w' = w_bytes w -> w_parts w' = w_parts w -> w_out w' = w_out w -> w_abort w' = w_abort w ->
  walk_ok w -> walk_ok w'.
Proof. unfold walk_ok. by intros -> -> -> ->. Qed.

Lemma abort_ok r w : r ≠ ContainerAbortNone -> walk_ok w -> walk_ok (setAbort r w).
Proof. intros Hr (H1 & H2 & H3 & _). by apply setAbort_ok. Qed.

Lemma timedOut_ok w b w' : timedOut deadline w = (b, w') -> walk_ok w -> walk_ok w'.
Proof. intros (? & ? & ? & ?)%timedOut_same. by apply same_ok. Qed.

(** What reading leaves of the walker, and the length of what was read. *)
Lemma read_loop_ok fuel r remain i buf w :
  reader_ok r -> (length buf <= remain)%nat -> walk_ok w ->
  let '((data, overrun), w') := read_loop deadline fuel r remain i buf w in
  walk_ok w' /\ w_bytes w' = w_bytes w /\ w_parts w' = w_parts w /\ w_out w' = w_out w /\
  (length data <= remain)%nat.
Proof.
  intros Hr. revert i buf w. induction fuel as [|fuel IH]; intros i buf w Hb Hw; cbn [read_loop].
  all: assert (forall r : ContainerAbortReason, w_bytes (setAbort r w) = w_bytes w /\
         w_parts (setAbort r w) = w_parts w /\ w_out (setAbort r w) = w_out w) as Hsame
         by (intros r0; unfold setAbort; by destruct (aborted w)).
  all: destruct (Nat.leb_spec remain (length buf)).
  1,2,3: split; [by apply abort_ok|]; pose proof (Hsame ContainerAbortMaxBytes); tauto.
  destruct (timedOut deadline w) as [late w1] eqn:Et. pose proof (timedOut_ok _ _ _ Et Hw) as Hw1.
  apply timedOut_same in Et as (E1 & E2 & E3 & _).
  assert (forall r : ContainerAbortReason, w_bytes (setAbort r w1) = w_bytes w /\
    w_parts (setAbort r w1) = w_parts w /\ w_out (setAbort r w1) = w_out w) as Hs1
    by (intros r0; unfold setAbort; by destruct (aborted w1)).
  destruct late.
  { split; [by apply abort_ok|]. pose proof (Hs1 ContainerAbortMaxTime). cbn [length]. intuition lia. }
  pose proof (Hr i (Nat.min (remain - length buf) readChunk)) as Hlen.
  destruct (r i _) as [data status]. cbn [fst] in Hlen.
  assert (length (buf ++ data) <= remain)%nat by (rewrite length_app; lia).
  destruct status.
  - destruct data as [|c data].
    { split; [by apply abort_ok|]. pose proof (Hs1 ContainerAbortCorrupt). cbn [length]. intuition lia. }
    specialize (IH (S i) (buf ++ c :: data) w1 ltac:(done) Hw1).
    destruct (read_loop _ _ _ _ _ _ _) as [[data' o] w']. rewrite <- E1, <- E2, <- E3. exact IH.
  - done.
  - split; [by apply abort_ok|]. pose proof (Hs1 ContainerAbortCorrupt). cbn [length]. intuition lia.
Qed.

Lemma readCapped_ok r w data overrun w' :
  reader_ok r -> walk_ok w -> readCapped deadline r (remainBudget lim w) w = ((data, overrun), w') ->
  walk_ok w' /\ len data <= Z.max 0 (remainBudget lim w') /\ w_bytes w' = w_bytes w.
Proof.
  intros Hr Hw. unfold readCapped. destruct (Z.leb_spec (remainBudget lim w) 0).
  { intros [= <- <- <-]. split; [by apply abort_ok|]. unfold len. cbn [length].
    split; [lia|]. unfold setAbort. by destruct (aborted w). }
  intros E. pose proof (read_loop_ok (Z.to_nat (remainBudget lim w)) r (Z.to_nat (remainBudget lim w))
    0 [] w Hr ltac:(cbn; lia) Hw) as Hl. rewrite E in Hl. destruct Hl as (H1 & H2 & _ & _ & H3).
  split_and!; [done| |done]. unfold remainBudget in *. rewrite H2. unfold len. lia.
Qed.

Lemma keep_text_ok b w :
  walk_ok w -> fragmentBytes (w_out w) + len b <= w_bytes w -> walk_ok (keep_text b w).
Proof.
  intros (H1 & H2 & H3 & H4) Hb. unfold keep_text. destruct (negb _); [done|].
  destruct (TrimSpace b); [done|]. unfold walk_ok. cbn [add_out w_bytes w_parts w_out w_abort].
  rewrite fragmentBytes_snoc. split_and!; tauto || lia.
Qed.

Lemma addBytes_ok n w ok w' :
  walk_ok w -> aborted w = false -> 0 <= n <= Z.max 0 (remainBudget lim w) ->
  addBytes lim n w = (ok, w') ->
  walk_ok w' /\ (ok = true -> aborted w' = false /\ fragmentBytes (w_out w') + n <= w_bytes w').
Proof.
  intros (H1 & H2 & H3 & H4) Ha Hn. apply aborted_spec in Ha. specialize (H4 Ha).
  unfold remainBudget in Hn. unfold addBytes. cbn [w_bytes].
  destruct (Z.ltb_spec (MaxDecompressedBytes lim) (w_bytes w + n)); intros [= <- <-].
  - split; [|done]. apply setAbort_ok; cbn; try done; lia.
  - split; [split_and!; cbn; try done; lia|]. intros _. split; [by apply aborted_spec|cbn; lia].
Qed.

Lemma addPart_ok w ok w' n :
  walk_ok w -> aborted w = false -> fragmentBytes (w_out w) + n <= w_bytes w ->
  addPart lim w = (ok, w') ->
  walk_ok w' /\ (ok = true -> aborted w' = false /\ fragmentBytes (w_out w') + n <= w_bytes w').
Proof.
  intros (H1 & H2 & H3 & H4) Ha Hn. apply aborted_spec in Ha. specialize (H4 Ha).
  unfold addPart. cbn [w_parts].
  destruct (Z.ltb_spec (MaxParts lim) (w_parts w + 1)); intros [= <- <-].
  - split; [|done]. apply setAbort_ok; cbn; try done; lia.
  - split; [split_and!; cbn; try done; lia|]. intros _. by split; [apply aborted_spec|].
Qed.

Section members.

Context (walk' : bytes -> Z -> containerWalker -> containerWalker).
Context (Hwalk : forall b d w, LooksLikeContainer b = true -> walk_ok w -> walk_ok (walk' b d w)).

Lemma considerMember_ok depth b w :
  walk_ok w -> len b <= Z.max 0 (remainBudget lim w) ->
  walk_ok (considerMember lim deadline walk' depth b w).
Proof.
  intros Hw Hb. unfold considerMember. destruct (aborted w) eqn:Ea; [done|].
  destruct (bool_decide (b = [])); [done|]. cbn [orb].
  destruct (addBytes lim (len b) w) as [ok w1] eqn:E1.
  destruct (addBytes_ok _ _ _ _ Hw Ea (conj (len_nonneg b) Hb) E1) as [Hw1 H1].
  destruct ok; [|done]. destruct (H1 eq_refl) as [Ha1 Hf1]. cbn [negb].
  destruct (addPart lim w1) as [ok w2] eqn:E2.
  destruct (addPart_ok _ _ _ (len b) Hw1 Ha1 Hf1 E2) as [Hw2 H2].
  destruct ok; [|done]. destruct (H2 eq_refl) as [Ha2 Hf2]. cbn [negb].
  destruct (timedOut deadline w2) as [late w3] eqn:E3. pose proof (timedOut_ok _ _ _ E3 Hw2) as Hw3.
  apply timedOut_same in E3 as (Eb & _ & Eo & _).
  destruct late; [by apply abort_ok|]. destruct (LooksLikeContainer b) eqn:El.
  - destruct (_ <? _); [by apply abort_ok|by apply Hwalk].
  - apply keep_text_ok; [done|]. by rewrite Eb, Eo.
Qed.

Lemma read_member_ok r depth w :
  reader_ok r -> walk_ok w ->
  walk_ok (read_member lim deadline r (considerMember lim deadline walk' depth) w).
Proof.
  intros Hr Hw. unfold read_member. destruct (readCapped _ _ _ _) as [[data overrun] w'] eqn:E.
  destruct (readCapped_ok _ _ _ _ _ Hr Hw E) as (Hw' & Hl & _).
  destruct (_ || _); [done|by apply considerMember_ok].
Qed.

Lemma walk_files_ok depth fs w :
  (forall f r, f ∈ fs -> open_file f = Some r -> reader_ok r) -> walk_ok w ->
  walk_ok (walk_files lim deadline walk' depth fs w).
Proof.
  revert w. induction fs as [|f fs IH]; intros w Hfs Hw; [done|]. cbn [walk_files].
  assert (forall w, walk_ok w -> walk_ok (walk_files lim deadline walk' depth fs w)) as IH'.
  { intros w' Hw'. apply IH; [|done]. intros f' r Hf'. apply Hfs. by right. }
  destruct (aborted w); [done|]. destruct (timedOut deadline w) as [late w1] eqn:E1.
  pose proof (timedOut_ok _ _ _ E1 Hw) as Hw1. destruct late; [by apply abort_ok|].
  destruct (encrypted f); [by apply abort_ok|]. destruct (is_dir f); [by apply IH'|].
  destruct (open_file f) as [rc|] eqn:Eo; [|by apply abort_ok].
  destruct (readCapped _ _ _ _) as [[data overrun] w'] eqn:E.
  destruct (readCapped_ok _ _ _ _ _ (Hfs f rc ltac:(by left) Eo) Hw1 E) as (Hw' & Hl & _).
  destruct (_ || _); [done|]. by apply IH', considerMember_ok.
Qed.

Lemma walk_headers_ok depth es ending w :
  (forall e, e ∈ es -> reader_ok (body e)) -> walk_ok w ->
  walk_ok (walk_headers lim deadline walk' depth es ending w).
Proof.
  revert w. induction es as [|e es IH]; intros w Hes Hw; cbn [walk_headers].
  all: destruct (aborted w); [done|]; destruct (timedOut deadline w) as [late w1] eqn:E1;
    pose proof (timedOut_ok _ _ _ E1 Hw) as Hw1; destruct late; [by apply abort_ok|].
  { destruct ending; [by apply abort_ok|done|by apply abort_ok]. }
  assert (forall w, walk_ok w -> walk_ok (walk_headers lim deadline walk' depth es ending w)) as IH'.
  { intros w' Hw'. apply IH; [|done]. intros e' He'. apply Hes. by right. }
  destruct (negb (regular e)); [by apply IH'|].
  destruct (readCapped _ _ _ _) as [[data overrun] w'] eqn:E.
  destruct (readCapped_ok _ _ _ _ _ (Hes e ltac:(by left)) Hw1 E) as (Hw' & Hl & _).
  destruct (_ || _); [done|]. by apply IH', considerMember_ok.
Qed.

End members.

Context {HO : ArchivesOk}.

(** The walk meets [considerText] only when called on something that is no container. *)
Lemma walk_container_ok fuel raw depth w :
  LooksLikeContainer raw = true -> walk_ok w -> walk_ok (walk lim deadline fuel raw depth w).
Proof.
  revert raw depth w. induction fuel as [|fuel IH]; intros raw depth w Hraw Hw; cbn [walk].
  all: destruct (aborted w); [done|]; destruct (timedOut deadline w) as [late w1] eqn:E1;
    pose proof (timedOut_ok _ _ _ E1 Hw) as Hw1; destruct late; [by apply abort_ok|];
    destruct (_ <? _); [by apply abort_ok|].
  { by apply abort_ok. }
  unfold LooksLikeContainer in Hraw. destruct (detectContainerKind raw) eqn:Ek; [done| | | |].
  - destruct (zip_NewReader raw) as [fs|] eqn:E; [|by apply abort_ok].
    apply walk_files_ok; [done| |done]. intros f r Hf Hr. by apply (zip_ok raw fs f).
  - destruct (gzip_NewReader raw) as [r|] eqn:E; [|by apply abort_ok].
    apply read_member_ok; [done|by apply (gzip_ok raw)|done].
  - destruct (zlib_NewReader raw) as [r|] eqn:E; [|by apply abort_ok].
    apply read_member_ok; [done|by apply (zlib_ok raw)|done].
  - destruct (tar_entries raw) as [es ending] eqn:E. apply walk_headers_ok; [done| |done].
    intros e He. apply (tar_ok raw). by rewrite E.
Qed.

End invariant.

(** More fuel than the bytes still wanted changes nothing: the O case of [read_loop] is
    never the one that answers. *)
Lemma read_loop_fuel `{Clock} deadline fuel fuel' r remain i buf w :
  (remain <= length buf + fuel)%nat -> (remain <= length buf + fuel')%nat ->
  read_loop deadline fuel r remain i buf w = read_loop deadline fuel' r remain i buf w.
Proof.
  revert fuel' i buf w. induction fuel as [|fuel IH]; intros [|fuel'] i buf w H1 H2; cbn [read_loop];
    destruct (Nat.leb_spec remain (length buf)); try done; try lia.
  destruct (timedOut deadline w) as [[|] w1]; [done|]. destruct (r i _) as [data []]; [|done..].
  destruct data as [|c data]; [done|]. apply IH; rewrite length_app; cbn [length]; lia.
Qed.

(** ** Property *)

Lemma normalize_pos lim : 0 < MaxDecompressedBytes (normalize lim) /\ 0 < MaxParts (normalize lim).
Proof.
  unfold normalize. cbn [MaxDecompressedBytes MaxParts]. unfold or_default.
  destruct (Z.leb_spec (MaxDecompressedBytes lim) 0), (Z.leb_spec (MaxParts lim) 0); cbn; lia.
Qed.

(** Decompression bombs are contained: whatever the archive and its readers return, a walk
    attributes at most one byte more than MaxDecompressedBytes and one member more than
    MaxParts, neither without an abort, and the text it hands to the matchers is no longer
    than the bytes it attributed. *)
Theorem container_walk_bounded `{ArchivesOk} `{Clock} (tick : nat) (raw : bytes) (lim : ContainerLimits) :
  let res := (InspectContainer tick raw lim).1 in
  let n := normalize lim in
  Bytes_ res <= MaxDecompressedBytes n + 1 /\ PartsN res <= MaxParts n + 1 /\
  fragmentBytes (Parts res) <= Bytes_ res /\
  (Abort_ res = ContainerAbortNone -> Bytes_ res <= MaxDecompressedBytes n /\ PartsN res <= MaxParts n).
Proof.
  destruct (normalize_pos lim) as [Hb Hp]. intros res n. unfold res, InspectContainer.
  destruct (negb (Enabled lim) || bool_decide (raw = []) || is_kind_none (detectContainerKind raw)) eqn:E.
  { cbn [fst Bytes_ PartsN Parts Abort_ fragmentBytes]. fold n in Hb, Hp. split_and!; lia. }
  apply orb_false_iff in E as [_ Hk]. fold n in Hb, Hp |- *.
  set (w0 := {| w_bytes := 0; w_parts := 0; w_out := []; w_abort := ContainerAbortNone; w_tick := S tick |}).
  assert (walk_ok n w0) as Hw0 by (unfold walk_ok, w0; cbn [w_bytes w_parts w_out fragmentBytes]; lia).
  assert (LooksLikeContainer raw = true) as Hl by (unfold LooksLikeContainer; by rewrite Hk).
  pose proof (walk_container_ok n (clock tick + MaxInspect n) (Z.lt_le_incl _ _ Hb) (S (Z.to_nat (MaxDescentDepth n)))
    raw 0 w0 Hl Hw0) as (Hbytes & Hcount & Htext & Hnone).
  cbn [fst Bytes_ PartsN Parts Abort_]. split_and!; [lia|lia|done|done].
Qed.

(** A gzip reader that expands to 300 bytes, delivered in reads of at most 100. *)
Definition bomb_reader : reader := λ i want,
  let n := Nat.min want 100 in (replicate n x61, if (i <? 2)%nat then More else EOF).

Definition bomb_archives : Archives := {|
  zip_NewReader := λ _, None; gzip_NewReader := λ _, Some bomb_reader;
  zlib_NewReader := λ _, None; tar_entries := λ _, ([], EOF) |}.

Lemma bomb_archives_ok : @ArchivesOk bomb_archives.
Proof.
  split.
  - intros raw fs f r [=].
  - intros raw r [= <-] i want. cbn. rewrite length_replicate. lia.
  - intros raw r [=].
  - intros raw e He. by apply elem_of_nil in He.
Qed.

Definition small_limits (n : Z) : ContainerLimits := {|
  Enabled := true; MaxDecompressedBytes := n; MaxDescentDepth := 2; MaxParts := 3;
  MaxInspect := Millisecond |}.

Definition gzip_magic : bytes := [x1f; x8b; x08].

Example bomb_aborts :
  Abort_ (@InspectContainer bomb_archives (λ _, 0) 0 gzip_magic (small_limits 200)).1 =
    ContainerAbortMaxBytes.
Proof. vm_compute. reflexivity. Qed.

Example bomb_fits :
  (@InspectContainer bomb_archives (λ _, 0) 0 gzip_magic (small_limits 300)).1 =
  {| Parts := [replicate 300 x61]; Abort_ := ContainerAbortNone; Bytes_ := 300; PartsN := 1 |}.
Proof. vm_compute. reflexivity. Qed.

Example container_walk_bounded_witness :
  Bytes_ (@InspectContainer bomb_archives (λ _, 0) 0 gzip_magic (small_limits 200)).1 <= 201.
Proof.
  exact (proj1 (@container_walk_bounded bomb_archives bomb_archives_ok (λ _, 0) 0 gzip_magic
    (small_limits 200))).
Defined.
