(* ===== verification/Match.v ===== *)
(** * internal/engine/overlap.go, vault.go and path_taint.go

    The overlap check of a sink call and of an egress payload, with its container pass; the
    token vault; taint of whole files read by a sensitive path. *)

From S2P Require Import Prelude Go GoTime Config GoStrings Encodings Json Model Store Tagger.
From S2P Require Import Egress Regex Taint Overlap Container.

(** [unicode.ToLower] of a rune beyond ASCII. *)
Class UnicodeLower := unicode_lower : Z -> Z.

Definition ascii_lower (z : Z) : Z := if (65 <=? z) && (z <=? 90) then z + 32 else z.

Section externals.

Context `{Compressors} `{MathLog2} `{Floats} `{Archives} `{Clock} `{MapOrder} `{UnicodeLower}.

(** ** The container pass *)

Definition unwrapContainerBlob (raw : bytes) : option bytes :=
  if LooksLikeContainer raw then Some raw
  else
    match TrimSpace raw with
    | [] => None
    | s => match tryBase64 s with
           | Some dec => if LooksLikeContainer dec then Some dec else None
           | None => None
           end
    end.

(** [add] of the two candidate functions, over the raw candidates in order. *)
Fixpoint unwrap_all (seen : list bytes) (raws : list bytes) : list bytes :=
  match raws with
  | [] => []
  | raw :: raws =>
      match unwrapContainerBlob raw with
      | None => unwrap_all seen raws
      | Some blob =>
          if bool_decide (blob ∈ seen) then unwrap_all seen raws
          else blob :: unwrap_all (blob :: seen) raws
      end
  end.

Definition containerCandidatesFromArgs (sinkArgs : bytes) : list bytes :=
  unwrap_all [] (decodeCandidatesFromArgs sinkArgs ++ [sinkArgs]).

Definition containerCandidatesFromPayload (payload : bytes) : list bytes :=
  unwrap_all [] (payload :: decodeCandidatesFromPayload payload).

Definition container_form (form : bytes) : bytes :=
  gostr "container_" ++
  (if bool_decide (form = []) || bool_decide (form = FormLiteral) then FormLiteral else form).

Definition container_hit (h : OverlapHit) : OverlapHit := {|
  TaintedHash := TaintedHash h; ohPreview := ohPreview h; WhereFound := WhereFound h;
  MatchForm := container_form (MatchForm h) |}.

(** A hit or the reason of an abort, and the calls of time.Now so far. *)
Definition checkOverlapContainer (tick : nat) (tainted : list TaintedValue) (raw : bytes)
    (lim : ContainerLimits) : option OverlapHit * ContainerAbortReason * nat :=
  if negb (Enabled lim) || negb (LooksLikeContainer raw) then (None, ContainerAbortNone, tick)
  else
    let '(res, tick) := InspectContainer tick raw lim in
    if negb (bool_decide (Abort_ res = ContainerAbortNone)) then (None, Abort_ res, tick)
    else (container_hit <$> first_some (checkOverlapString tainted) (Parts res), ContainerAbortNone, tick).

Fixpoint container_candidates (tick : nat) (tainted : list TaintedValue) (candidates : list bytes)
    (lim : ContainerLimits) (lastAbort : ContainerAbortReason)
    : option OverlapHit * ContainerAbortReason * nat :=
  match candidates with
  | [] => (None, lastAbort, tick)
  | raw :: candidates =>
      match checkOverlapContainer tick tainted raw lim with
      | (Some h, _, tick) => (Some h, ContainerAbortNone, tick)
      | (None, abort, tick) =>
          container_candidates tick tainted candidates lim
            (if bool_decide (abort = ContainerAbortNone) then lastAbort else abort)
      end
  end.

Definition checkOverlapContainerCandidates (tick : nat) (tainted : list TaintedValue)
    (candidates : list bytes) (lim : ContainerLimits) : option OverlapHit * ContainerAbortReason * nat :=
  container_candidates tick tainted candidates lim ContainerAbortNone.

(** ** CheckOverlap *)

Definition found_in (place : bytes) (h : OverlapHit) : OverlapHit := {|
  TaintedHash := TaintedHash h; ohPreview := ohPreview h; WhereFound := place;
  MatchForm := MatchForm h |}.

(** The string and decoder passes over a sink call's arguments. *)
Definition args_hit (depth : nat) (tainted : list TaintedValue) (sinkArgs : bytes) : option OverlapHit :=
  match checkOverlapString tainted sinkArgs with
  | Some h => Some h
  | None =>
      let reassembled := joinJSONStringValues sinkArgs in
      let h := if bool_decide (reassembled ≠ []) && bool_decide (reassembled ≠ sinkArgs)
               then checkOverlapString tainted reassembled else None in
      match h with
      | Some h => Some h
      | None => checkOverlapDecoded depth tainted (decodeCandidatesFromArgs sinkArgs)
      end
  end.

Definition CheckOverlapLimited (depth tick : nat) (tainted : list TaintedValue) (sinkArgs : bytes)
    (lim : ContainerLimits) : option OverlapHit * ContainerAbortReason * nat :=
  let '(h, abort, tick) :=
    match args_hit depth tainted sinkArgs with
    | Some h => (Some h, ContainerAbortNone, tick)
    | None => checkOverlapContainerCandidates tick tainted (containerCandidatesFromArgs sinkArgs) lim
    end in
  (found_in (gostr "sink args") <$> h, abort, tick).

Definition payload_hit (depth : nat) (tainted : list TaintedValue) (payload : bytes) : option OverlapHit :=
  match checkOverlapString tainted payload with
  | Some h => Some h
  | None => checkOverlapDecoded depth tainted (decodeCandidatesFromPayload payload)
  end.

Definition CheckOverlapPayloadLimited (depth tick : nat) (tainted : list TaintedValue) (payload : bytes)
    (lim : ContainerLimits) : option OverlapHit * ContainerAbortReason * nat :=
  let '(h, abort, tick) :=
    match payload_hit depth tainted payload with
    | Some h => (Some h, ContainerAbortNone, tick)
    | None => checkOverlapContainerCandidates tick tainted (containerCandidatesFromPayload payload) lim
    end in
  (found_in (gostr "egress payload") <$> h, abort, tick).

(** ** vault.go *)

Definition VaultSecretClassExtracted := gostr "extracted".

Definition VaultDummy (secret : bytes) : bytes := gostr "ilk.vault." ++ take 16 (HashValue secret).

Definition mint (v : gmap bytes VaultEntry) (tv : TaintedValue) : gmap bytes VaultEntry :=
  match Value tv with
  | [] => v
  | real => <[VaultDummy real := {| Real := real; vClass := VaultSecretClassExtracted |}]> v
  end.

Definition vaultMint (e : Engine) (values : list TaintedValue) (st : SessionState) : SessionState :=
  if negb (vaultEnabled e) || bool_decide (length values = 0%nat) then st
  else set_Vault (foldl mint (Vault st) values) st.

(** The loop over the vault, in the order of its [n]th iteration. *)
Definition replace_real (s : bytes) (kv : bytes * VaultEntry) : bytes :=
  if bool_decide (Real kv.2 = []) || negb (Contains s (Real kv.2)) then s
  else ReplaceAll s (Real kv.2) kv.1.

Definition vaultReplaceReals (n : nat) (raw : bytes) (vault : gmap bytes VaultEntry) : bytes :=
  foldl replace_real raw (entries n vault).

Definition replace_dummy (allowClass : bytes -> bool) (s : bytes) (kv : bytes * VaultEntry) : bytes :=
  if negb (allowClass (vClass kv.2)) then s
  else if bool_decide (kv.1 = []) || negb (Contains s kv.1) then s
  else ReplaceAll s kv.1 (Real kv.2).

Definition vaultDetokenize (n : nat) (raw : bytes) (vault : gmap bytes VaultEntry)
    (allowClass : bytes -> bool) : bytes :=
  match raw with
  | [] => raw
  | _ => foldl (replace_dummy allowClass) raw (entries n vault)
  end.

Definition allow_class (classes : list bytes) (class : bytes) : bool :=
  match classes with
  | [] => bool_decide (class = VaultSecretClassExtracted)
  | _ => existsb (λ c, bool_decide (c = gostr "*") || bool_decide (c = class)) classes
  end.

(** The first entry for the tool decides. *)
Definition vaultToolAuthorized (e : Engine) (tool : bytes) : option (bytes -> bool) :=
  (λ a, allow_class (va_SecretClasses a)) <$>
    List.find (λ a, bool_decide (va_Tool a = tool)) (vaultAuthorize e).

(** ** path_taint.go *)

(** [strings.ToLower(s)]: invalid bytes become U+FFFD. *)
Definition lower_rune (r : Z) : Z :=
  if r <? 0x80 then ascii_lower r else unicode_lower r.

Definition ToLower (s : bytes) : bytes := mjoin (map (λ r, EncodeRune (lower_rune r)) (runes (length s) s)).

Definition slash : byte := x2f.

(** [filepath.Base(path)] for a path that is not empty *)
Definition Base (path : bytes) : bytes :=
  let path := TrimRight path [slash] in
  let path := match LastIndex path [slash] with Some i => drop (S i) path | None => path end in
  match path with [] => [slash] | _ => path end.

Definition sensitiveExtensions : list bytes :=
  map (λ s, gostr s) [".p12"; ".pfx"; ".kdbx"; ".xlsx"; ".xlsm"; ".xls"; ".pem"; ".key"; ".crt"; ".cer"; ".jks"]%string.

Definition sensitiveBasenameSubstrings : list bytes :=
  map (λ s, gostr s) ["credentials"; "id_rsa"; "id_dsa"; "id_ecdsa"; "id_ed25519"; "secrets"; "kubeconfig"; ".aws"; "service-account"]%string.

Definition pathArgKeys : list bytes :=
  map (λ s, gostr s) ["path"; "file"; "filepath"; "file_path"; "excel_file"; "filename"; "source"; "target"]%string.

Definition IsSensitiveResourcePath (path : bytes) (prefixes : list bytes) : bool :=
  match TrimSpace path with
  | [] => false
  | path =>
      existsb (λ p, bool_decide (p ≠ []) && HasPrefix path p) prefixes ||
      existsb (HasSuffix (ToLower path)) sensitiveExtensions ||
      existsb (Contains (ToLower (Base path))) sensitiveBasenameSubstrings
  end.

Definition looksLikePathValue (key val : bytes) : bool :=
  match TrimSpace val with
  | [] => false
  | val =>
      if existsb (λ k, bool_decide (k = ToLower key)) pathArgKeys then true
      else if HasPrefix val [slash] || Contains val [slash]
      then Contains val [x2e] || Contains (ToLower val) (gostr "credential")
      else false
  end.

(** The strings [collectPaths] looks at with the key each has; the members of an object are
    visited in the order of the [n]th iteration. *)
Fixpoint keyed_strings (n : nat) (v : json) (key : bytes) : list (bytes * bytes) :=
  match v with
  | JObj l =>
      concat (map snd (range n (map (λ kv, (kv.1, keyed_strings n kv.2 kv.1)) l)))
  | JArr l => concat (map (λ c, keyed_strings n c key) l)
  | JStr s => [(key, s)]
  | _ => []
  end.

Definition collectPaths (n : nat) (root : json) : list bytes :=
  first_seen [] (map snd (List.filter (λ ks, looksLikePathValue ks.1 ks.2) (keyed_strings n root []))).

Definition ExtractPathsFromToolArgs (n : nat) (args : bytes) : list bytes :=
  match args with
  | [] => []
  | _ => match Unmarshal args with Some root => collectPaths n root | None => [] end
  end.

Definition maxPathTaintBytes : nat := Z.to_nat (64 * 1024).

Definition TaintPathDrivenContent (now : Z) (content path source : bytes) (seq : Z) : list TaintedValue :=
  match TrimSpace content with
  | [] => []
  | content =>
      let content := take maxPathTaintBytes content in
      [new_taint content [] (source ++ gostr " (path:" ++ path ++ gostr ")") seq now]
  end.

Definition pendingReadPathKey (serverID toolName : bytes) : bytes := serverID ++ slash :: toolName.

Definition stashSensitiveReadPath (e : Engine) (n : nat) (ev : InterceptedEvent) (st : SessionState)
    : SessionState :=
  match tagger e with
  | None => st
  | Some t =>
      if negb (IsSensitiveSource t (ieToolName ev) (ieServerID ev)) then st
      else
        match List.find (λ p, IsSensitiveResourcePath p (sensitivePaths e))
                (ExtractPathsFromToolArgs n (ieToolArgs ev)) with
        | Some p =>
            set_PendingSensitiveReadPaths
              (<[pendingReadPathKey (ieServerID ev) (ieToolName ev) := p]> (PendingSensitiveReadPaths st)) st
        | None => st
        end
  end.

(** The path and the session without it. *)
Definition consumePendingSensitiveReadPath (serverID toolName : bytes) (st : SessionState)
    : bytes * SessionState :=
  let key := pendingReadPathKey serverID toolName in
  (default [] (PendingSensitiveReadPaths st !! key),
   set_PendingSensitiveReadPaths (delete key (PendingSensitiveReadPaths st)) st).

Definition taintFromContainer (e : Engine) (tick : nat) (content source : bytes) (seq : Z)
    : list TaintedValue * nat :=
  if negb (Enabled (containerLimits e)) then ([], tick)
  else
    match unwrapContainerBlob content with
    | None => ([], tick)
    | Some raw =>
        let '(res, tick) := InspectContainer tick raw (containerLimits e) in
        if negb (bool_decide (Abort_ res = ContainerAbortNone)) then ([], tick)
        else
          match Parts res with
          | [] => ([], tick)
          | parts =>
              (ExtractTaintedValues (clock tick) (JoinContainerParts parts)
                 (source ++ gostr " (container)") seq, S tick)
          end
    end.

End externals.
