(* ===== verification/Carried.v ===== *)
(** * What counts as proof: soundness of the overlap check

    [carries] is the specification of an overlap hit: the ways in which bytes of a tainted
    value can be inside a payload. Every hit of CheckOverlap and CheckOverlapPayload is one
    of them, whatever the archive readers and the JSON decoder answer. *)

From S2P Require Import Prelude Go GoTime Config GoStrings Encodings Json Model Store Tagger.
From S2P Require Import Egress Regex Taint Overlap OverlapTheorems Container Match.

Section carries.

Context `{Compressors} `{MathLog2} `{Floats} `{Archives} `{Clock}.
Context (lim : ContainerLimits).

(** [s] carries bytes of [tv]: one of its forms or chunks, directly, or inside the string
    leaves of a JSON document, surrounding space, a base64 or hexadecimal layer, or a member of an archive. *)
Inductive carries (tv : TaintedValue) : bytes -> Prop :=
  | by_form v s :
      v ∈ forms_of tv ++ Chunks tv -> vValue v ≠ [] -> infix (vValue v) s -> carries tv s
  | by_value s : Value tv ≠ [] -> infix (Value tv) s -> carries tv s
  | in_leaves s : carries tv (joinJSONStringValues s) -> carries tv s
  | in_leaf s l : l ∈ jsonStringLeaves s -> carries tv l -> carries tv s
  | trimmed s : carries tv (TrimSpace s) -> carries tv s
  | under_base64 s d : tryBase64 s = Some d -> carries tv d -> carries tv s
  | under_hex s d : tryHex s = Some d -> carries tv d -> carries tv s
  | in_member tick s part :
      LooksLikeContainer s = true -> part ∈ Parts (InspectContainer tick s lim).1 ->
      carries tv part -> carries tv s.

(** A hit names a tainted value that the string carries. *)
Definition proves (tainted : list TaintedValue) (s : bytes) (h : OverlapHit) : Prop :=
  exists tv, tv ∈ tainted /\ TaintedHash h = Hash tv /\ ohPreview h = Preview tv /\ carries tv s.

Lemma proves_weaken tainted s s' h :
  (forall tv, carries tv s -> carries tv s') -> proves tainted s h -> proves tainted s' h.
Proof. intros Hs (tv & ? & ? & ? & ?). exists tv. auto. Qed.

(** ** Direct matches *)

Lemma first_form_Some s vs v : first_form s vs = Some v -> v ∈ vs /\ vValue v ≠ [] /\ infix (vValue v) s.
Proof.
  intros [Hin Hp]%find_some. apply andb_prop in Hp as [Hne Hc].
  split_and!; [by apply list_elem_of_In| |by apply Contains_spec].
  intros E. by rewrite bool_decide_eq_true_2 in Hne.
Qed.

Lemma matchTaintedValue_carries s tv h :
  matchTaintedValue s tv = Some h ->
  TaintedHash h = Hash tv /\ ohPreview h = Preview tv /\ carries tv s.
Proof.
  unfold matchTaintedValue. destruct (first_form s (forms_of tv)) as [v|] eqn:E.
  - intros [= <-]. apply first_form_Some in E as (? & ? & ?).
    split_and!; try done. apply (by_form tv v); [apply elem_of_app; by left|done..].
  - destruct (first_form s (Chunks tv)) as [v|] eqn:Ec; cbn [fmap option_fmap option_map]; [|done].
    intros [= <-]. apply first_form_Some in Ec as (? & ? & ?).
    split_and!; try done. apply (by_form tv v); [apply elem_of_app; by right|done..].
Qed.

Lemma checkOverlapString_proves tainted s h :
  checkOverlapString tainted s = Some h -> proves tainted s h.
Proof.
  unfold checkOverlapString. destruct s as [|c s]; [done|].
  intros (tv & Hin & (? & ? & ?)%matchTaintedValue_carries)%first_some_Some. by exists tv.
Qed.

(** ** The recursive decoder *)

Lemma matchSingleLayer_proves s tainted path h :
  matchSingleLayer s tainted path = Some h -> proves tainted s h.
Proof.
  unfold matchSingleLayer. intros (tv & Hin & E)%first_some_Some.
  destruct (single_layer_match s tv) eqn:Em; [|done]. injection E as <-.
  exists tv. split_and!; try done. unfold single_layer_match in Em.
  apply orb_prop in Em as [(v & Hv%list_elem_of_In & Hp)%existsb_exists|Hp].
  - apply andb_prop in Hp as [Hp Hc]. apply andb_prop in Hp as [Hne _].
    apply (by_form tv v); [apply elem_of_app; by left| |by apply Contains_spec].
    intros Ev. by rewrite bool_decide_eq_true_2 in Hne.
  - apply andb_prop in Hp as [Hne Hc]. apply by_value; [|by apply Contains_spec].
    intros Ev. by rewrite bool_decide_eq_true_2 in Hne.
Qed.

Lemma attempts_carries s layer d tv : (layer, d) ∈ attempts s -> carries tv d -> carries tv s.
Proof.
  unfold attempts. rewrite elem_of_app. intros [Hd|Hd] Hc.
  - destruct (tryBase64 s) as [x|] eqn:E; [|by apply elem_of_nil in Hd].
    apply list_elem_of_singleton in Hd as [= _ ->]. by eapply under_base64.
  - destruct (tryHex s) as [x|] eqn:E; [|by apply elem_of_nil in Hd].
    apply list_elem_of_singleton in Hd as [= _ ->]. by eapply under_hex.
Qed.

Lemma decodeMatch_proves fuel s tainted path h :
  decodeMatchCandidates fuel s tainted path = Some h -> proves tainted s h.
Proof.
  revert s path. induction fuel as [|fuel IH]; intros s path; [done|]. cbn [decodeMatchCandidates].
  destruct (_ || _); [done|]. intros ([layer d] & Hin & E)%first_some_Some.
  destruct (_ || _); [done|]. apply (proves_weaken _ d); [intros tv; by eapply attempts_carries|].
  destruct (matchSingleLayer d tainted _) as [h'|] eqn:Em.
  - injection E as <-. by eapply matchSingleLayer_proves.
  - destruct (plausibleDecoded d); [by eapply IH|done].
Qed.

Lemma checkOverlapDecoded_proves depth tainted candidates h :
  checkOverlapDecoded depth tainted candidates = Some h ->
  exists c, c ∈ candidates /\ proves tainted c h.
Proof.
  unfold checkOverlapDecoded. destruct tainted as [|t ts]; [done|].
  intros (c & Hin & E)%first_some_Some. destruct (_ || _); [done|].
  exists c. split; [done|by eapply decodeMatch_proves].
Qed.

(** ** The container descent *)

Lemma unwrap_carries raw blob tv :
  unwrapContainerBlob raw = Some blob ->
  LooksLikeContainer blob = true /\ (carries tv blob -> carries tv raw).
Proof.
  unfold unwrapContainerBlob. destruct (LooksLikeContainer raw) eqn:El; [by intros [= <-]|].
  destruct (TrimSpace raw) as [|c s] eqn:Et; [done|].
  destruct (tryBase64 (c :: s)) as [d|] eqn:Ed; [|done].
  destruct (LooksLikeContainer d) eqn:Ec; [|done]. intros [= <-]. split; [done|].
  intros Hc. apply trimmed. rewrite Et. by apply (under_base64 _ _ d).
Qed.

Lemma unwrap_all_carries seen raws blob :
  blob ∈ unwrap_all seen raws ->
  exists raw, raw ∈ raws /\ forall tv, carries tv blob -> carries tv raw.
Proof.
  revert seen. induction raws as [|raw raws IH]; intros seen; cbn [unwrap_all]; [by intros ?%elem_of_nil|].
  destruct (unwrapContainerBlob raw) as [b|] eqn:E.
  - destruct (bool_decide (b ∈ seen)).
    + intros (r & Hr & ?)%IH. exists r. split; [by right|done].
    + intros [->|(r & Hr & ?)%IH]%elem_of_cons.
      * exists raw. split; [by left|]. intros tv. by apply unwrap_carries.
      * exists r. split; [by right|done].
  - intros (r & Hr & ?)%IH. exists r. split; [by right|done].
Qed.

Lemma container_carries tick tainted raw h :
  (checkOverlapContainer tick tainted raw lim).1.1 = Some h -> proves tainted raw h.
Proof.
  unfold checkOverlapContainer. destruct (negb (Enabled lim) || negb (LooksLikeContainer raw)) eqn:El; [done|].
  apply orb_false_iff in El as [_ El]. apply negb_false_iff in El.
  destruct (InspectContainer tick raw lim) as [res tick'] eqn:Er. destruct (negb _); [done|]. cbn [fst].
  destruct (first_some _ _) as [h'|] eqn:Ef; cbn [fmap option_fmap option_map]; [|done]. intros [= <-].
  apply first_some_Some in Ef as (part & Hp & (tv & ? & ? & ? & ?)%checkOverlapString_proves).
  exists tv. split_and!; try done. apply (in_member tv tick raw part); [done| |done]. by rewrite Er.
Qed.

Lemma candidates_carries tick tainted candidates last h :
  (container_candidates tick tainted candidates lim last).1.1 = Some h ->
  exists raw, raw ∈ candidates /\ proves tainted raw h.
Proof.
  revert tick last. induction candidates as [|raw cs IH]; intros tick last; cbn [container_candidates]; [done|].
  pose proof (container_carries tick tainted raw) as Hc.
  destruct (checkOverlapContainer tick tainted raw lim) as [[[h'|] abort] t]; cbn [fst] in *.
  - intros [= <-]. exists raw. split; [by left|]. by apply Hc.
  - intros (r & Hr & ?)%IH. exists r. split; [by right|done].
Qed.

(** ** CheckOverlap *)

Lemma args_leaf s c tv : c ∈ decodeCandidatesFromArgs s -> carries tv c -> carries tv s.
Proof.
  unfold decodeCandidatesFromArgs. destruct (jsonStringLeaves s) as [|l ls] eqn:E.
  - destruct s as [|b s]; [by intros ?%elem_of_nil|]. by intros ->%list_elem_of_singleton.
  - intros Hc. apply in_leaf. by rewrite E.
Qed.

Lemma payload_leaf s c tv : c ∈ decodeCandidatesFromPayload s -> carries tv c -> carries tv s.
Proof.
  unfold decodeCandidatesFromPayload. destruct s as [|b s]; [by intros ?%elem_of_nil|].
  intros [Hc|Hc]%elem_of_cons; [by subst|]. by apply in_leaf.
Qed.

Lemma args_hit_proves depth tainted s h : args_hit depth tainted s = Some h -> proves tainted s h.
Proof.
  unfold args_hit. destruct (checkOverlapString tainted s) as [h'|] eqn:E.
  { intros [= <-]. by apply checkOverlapString_proves. }
  destruct (_ && _).
  - destruct (checkOverlapString tainted (joinJSONStringValues s)) as [h'|] eqn:Ej.
    { intros [= <-]. apply (proves_weaken _ (joinJSONStringValues s)); [intros tv; apply in_leaves|].
      by apply checkOverlapString_proves. }
    intros (c & Hc & Hp)%checkOverlapDecoded_proves. revert Hp. apply proves_weaken.
    intros tv. by apply args_leaf.
  - intros (c & Hc & Hp)%checkOverlapDecoded_proves. revert Hp. apply proves_weaken.
    intros tv. by apply args_leaf.
Qed.

Lemma CheckOverlap_proves depth tick tainted args h :
  (CheckOverlapLimited depth tick tainted args lim).1.1 = Some h -> proves tainted args h.
Proof.
  unfold CheckOverlapLimited. destruct (args_hit depth tainted args) as [h'|] eqn:E.
  { intros [= <-]. by apply args_hit_proves in E. }
  unfold checkOverlapContainerCandidates.
  pose proof (candidates_carries tick tainted (containerCandidatesFromArgs args) ContainerAbortNone) as Hc.
  destruct (container_candidates _ _ _ _ _) as [[[h'|] abort] t]; cbn [fst fmap option_fmap option_map] in *; [|done].
  intros [= <-]. destruct (Hc h' eq_refl) as (blob & (raw & Hr & Hw)%unwrap_all_carries & tv & ? & ? & ? & Hb).
  exists tv. split_and!; try done. apply Hw in Hb.
  apply elem_of_app in Hr as [Hr|Hr%list_elem_of_singleton]; [by eapply args_leaf|by subst].
Qed.

Lemma CheckPayload_proves depth tick tainted payload h :
  (CheckOverlapPayloadLimited depth tick tainted payload lim).1.1 = Some h -> proves tainted payload h.
Proof.
  unfold CheckOverlapPayloadLimited, payload_hit.
  destruct (checkOverlapString tainted payload) as [h'|] eqn:E.
  { intros [= <-]. by apply checkOverlapString_proves in E. }
  destruct (checkOverlapDecoded _ _ _) as [h'|] eqn:Ed.
  { intros [= <-]. apply checkOverlapDecoded_proves in Ed as (c & Hc & tv & ? & ? & ? & Hp).
    exists tv. split_and!; try done. by eapply payload_leaf. }
  unfold checkOverlapContainerCandidates.
  pose proof (candidates_carries tick tainted (containerCandidatesFromPayload payload) ContainerAbortNone) as Hc.
  destruct (container_candidates _ _ _ _ _) as [[[h'|] abort] t]; cbn [fst fmap option_fmap option_map] in *; [|done].
  intros [= <-]. destruct (Hc h' eq_refl) as (blob & (raw & Hr & Hw)%unwrap_all_carries & tv & ? & ? & ? & Hb).
  exists tv. split_and!; try done. apply Hw in Hb.
  apply elem_of_cons in Hr as [->|Hr]; [done|by eapply payload_leaf].
Qed.

End carries.
