(* ===== verification/Engine.v ===== *)
(** * internal/engine/engine.go: the trifecta state machine

    Every exported method is a function of a [World]: the store, the number of answers read
    from the clock and the map iterator so far, and the list of what left the engine
    (evidence, audit records, forwarded taint), latest last. Logging is left out. *)

From S2P Require Import Prelude Go GoTime Config GoStrings Encodings Json Model Store Tagger.
From S2P Require Import Egress Regex Taint Overlap Container Match.

(** ** Legs *)

Definition u64_succ (z : Z) : Z := u64 (z + 1).

(** [leg] decays at time [now] in a session whose EventCount is [count]. *)
Definition decayed (e : Engine) (count now : Z) (leg : Leg) : bool :=
  let ttlExpired := (0 <? legTTL e) && (0 <? LitAt leg) && (legTTL e <=? i64 (now - LitAt leg)) in
  let callsExpired := (0 <? decayAfterCalls e) && (0 <? EventsAtLit leg) && (EventsAtLit leg <? count) &&
                      (decayAfterCalls e <=? i64 (u64 (count - EventsAtLit leg))) in
  Lit leg && (ttlExpired || callsExpired).

Definition maybeDecayLeg (e : Engine) (count now : Z) (leg : Leg) : Leg :=
  if decayed e count now leg then no_leg else leg.

Definition pruneLegs (e : Engine) (now : Z) (st : SessionState) : SessionState :=
  let l := Legs st in
  let decay := maybeDecayLeg e (EventCount st) now in
  let st := if decayed e (EventCount st) now (UntrustedContentPresent l)
            then set_UntrustedExcerpts [] st else st in
  set_Legs {| SensitiveSourceTouched := decay (SensitiveSourceTouched l);
              UntrustedContentPresent := decay (UntrustedContentPresent l);
              ExternalSinkInvoked := decay (ExternalSinkInvoked l) |} st.

Definition touchSession (e : Engine) (now seq : Z) (label : bytes) (st : SessionState) : SessionState :=
  let st := pruneLegs e now (set_EventCount (u64_succ (EventCount st)) (set_LastActivity now st)) in
  if seq =? 0 then st
  else
    let st := set_Timeline (Timeline st ++ [seq]) st in
    if bool_decide (label ≠ []) && negb (HasPrefix label (gostr " "))
    then set_TimelineLabels (<[seq := label]> (TimelineLabels st)) st else st.

Definition lit_leg (st : SessionState) (now seq : Z) (detail : bytes) : Leg := {|
  Lit := true; TriggerSeq := seq; Detail := detail; LitAt := now; EventsAtLit := EventCount st |}.

Definition light_sensitive (leg : Leg) (st : SessionState) : SessionState :=
  set_Legs {| SensitiveSourceTouched := leg;
              UntrustedContentPresent := UntrustedContentPresent (Legs st);
              ExternalSinkInvoked := ExternalSinkInvoked (Legs st) |} st.

Definition light_untrusted (leg : Leg) (st : SessionState) : SessionState :=
  set_Legs {| SensitiveSourceTouched := SensitiveSourceTouched (Legs st);
              UntrustedContentPresent := leg;
              ExternalSinkInvoked := ExternalSinkInvoked (Legs st) |} st.

Definition light_sink (leg : Leg) (st : SessionState) : SessionState :=
  set_Legs {| SensitiveSourceTouched := SensitiveSourceTouched (Legs st);
              UntrustedContentPresent := UntrustedContentPresent (Legs st);
              ExternalSinkInvoked := leg |} st.

Definition setSensitiveSourceTouched (now : Z) (ev : InterceptedEvent) (st : SessionState) : SessionState :=
  if Lit (SensitiveSourceTouched (Legs st)) then st
  else light_sensitive (lit_leg st now (ieSeq ev)
         (gostr "tool " ++ ieToolName ev ++ gostr " returned sensitive data")) st.

Definition maxUntrustedExcerpts : nat := 8.
Definition maxUntrustedExcerpt : nat := Z.to_nat 4096.

Definition storeUntrustedExcerpt (excerpt : bytes) (st : SessionState) : SessionState :=
  match TrimSpace excerpt with
  | [] => st
  | excerpt =>
      let excerpt := take maxUntrustedExcerpt excerpt in
      let old := UntrustedExcerpts st in
      let old := if (maxUntrustedExcerpts <=? length old)%nat then drop 1 old else old in
      set_UntrustedExcerpts (old ++ [excerpt]) st
  end.

Definition setUntrustedContentPresent (now : Z) (ev : InterceptedEvent) (excerpt : bytes)
    (st : SessionState) : SessionState :=
  let st := storeUntrustedExcerpt excerpt st in
  if Lit (UntrustedContentPresent (Legs st)) then st
  else light_untrusted (lit_leg st now (ieSeq ev)
         (gostr "untrusted content from tool result (tool=" ++ ieToolName ev ++ gostr ")")) st.

Definition setExternalSinkInvoked (now : Z) (ev : InterceptedEvent) (st : SessionState) : SessionState :=
  if Lit (ExternalSinkInvoked (Legs st)) then st
  else light_sink (lit_leg st now (ieSeq ev)
         (gostr "external sink tool " ++ ieToolName ev ++ gostr " invoked")) st.

(** [rewind] of RewindLegClocks *)
Definition rewind (delta : Z) (leg : Leg) : Leg :=
  if Lit leg then {|
    Lit := true; TriggerSeq := TriggerSeq leg; Detail := Detail leg;
    LitAt := if delta <? LitAt leg then LitAt leg - delta else 1; EventsAtLit := EventsAtLit leg |}
  else leg.

(** ** Verdicts *)

Definition conf_exfil : float64 := fdiv (f64 95) (f64 100).
Definition conf_suspicious : float64 := fdiv (f64 6) (f64 10).

Definition classifyTrip (e : Engine) (st : SessionState) (overlap : option OverlapHit) (sinkPayload : bytes)
    (hasPayloadChannel : bool) (containerAbort : ContainerAbortReason) : option (verdict * float64) :=
  match overlap with
  | Some _ => Some (VerdictExfil, conf_exfil)
  | None =>
      if negb (AllLit (Legs st)) then None
      else if negb hasPayloadChannel then Some (VerdictSuspicious, conf_suspicious)
      else if CheckContentBind (UntrustedExcerpts st) sinkPayload (contentBindMinLen e)
      then Some (VerdictSuspicious, conf_suspicious)
      else if negb (bool_decide (containerAbort = ContainerAbortNone))
      then Some (VerdictSuspicious, conf_suspicious)
      else None
  end.

Definition proxyAction (e : Engine) (v : verdict) : bool * action :=
  if decide (v = VerdictExfil) then
    if bool_decide (mode e = gostr "monitor") then (true, ActionAllowed) else (false, ActionPrevented)
  else (true, ActionAllowed).

Definition variantBAction (v : verdict) : bool * action :=
  if decide (v = VerdictExfil) then (false, ActionContained) else (true, ActionDetectedOnly).

(** ** The text of a tool result *)

Definition maxExtractDepth : nat := 8.
Definition maxExtractBytes : nat := Z.to_nat (64 * 1024).

(** [b.WriteString(x); b.WriteByte('\n')], cut at [maxExtractBytes]. *)
Definition write_leaf (x b : bytes) : bytes :=
  if (maxExtractBytes <? length b + length x + 1)%nat then b ++ take (maxExtractBytes - length b) x
  else b ++ x ++ [x0a].

(** The calls an iteration makes, stopping when the budget is used up. *)
Fixpoint write_all (fs : list (bytes -> bytes)) (b : bytes) : bytes :=
  match fs with
  | [] => b
  | f :: fs => let b := f b in if (maxExtractBytes <=? length b)%nat then b else write_all fs b
  end.

(** [fuel] is the depth left; a call past [maxExtractDepth] does nothing. *)
Fixpoint walkJSONStrings `{MapOrder} (n fuel : nat) (skipContentKey : bool) (v : json) (b : bytes) : bytes :=
  match fuel with
  | O => b
  | S fuel =>
      if (maxExtractBytes <=? length b)%nat then b
      else
        match v with
        | JStr x => write_leaf x b
        | JArr l => write_all (map (walkJSONStrings n fuel false) l) b
        | JObj l =>
            write_all (map (λ kv : bytes * json,
              if skipContentKey && bool_decide (kv.1 = gostr "content") then λ b, b
              else walkJSONStrings n fuel false kv.2) (range n l)) b
        | _ => b
        end
  end.

(** Decoding a member name into a struct field: exact or by case folding (of ASCII letters:
    no other rune folds to a letter of these names). *)
Definition field_is (name : string) (k : bytes) : bool :=
  bool_decide (map (λ c, ascii_lower (byte_Z c)) k = map byte_Z (gostr name)).
Arguments field_is name%_string k.

(** Decoding into [Type string]/[Text string]: [None] is an UnmarshalTypeError. *)
Definition decode_string (v : json) (old : bytes) : option bytes :=
  match v with JStr s => Some s | JNull => Some old | _ => None end.

Fixpoint decode_item (members : list (bytes * json)) (acc : bytes * bytes) : option (bytes * bytes) :=
  match members with
  | [] => Some acc
  | (k, v) :: members =>
      if field_is "type" k then t ← decode_string v acc.1; decode_item members (t, acc.2)
      else if field_is "text" k then t ← decode_string v acc.2; decode_item members (acc.1, t)
      else decode_item members acc
  end.

Definition decode_element (v : json) (old : bytes * bytes) : option (bytes * bytes) :=
  match v with JObj l => decode_item l old | JNull => Some old | _ => None end.

(** An array decoded into a slice overwrites the elements of its backing array. *)
Fixpoint decode_elements (l : list json) (backing : list (bytes * bytes)) : option (list (bytes * bytes)) :=
  match l with
  | [] => Some []
  | v :: l =>
      x ← decode_element v (default ([], []) (head backing));
      xs ← decode_elements l (drop 1 backing); Some (x :: xs)
  end.

(** The backing array and the length of [Content] after each member. *)
Fixpoint decode_content (members : list (bytes * json)) (backing : list (bytes * bytes)) (n : nat)
    : option (list (bytes * bytes)) :=
  match members with
  | [] => Some (take n backing)
  | (k, v) :: members =>
      if field_is "content" k then
        match v with
        | JNull => decode_content members [] 0
        | JArr [] => decode_content members [] 0
        | JArr l => xs ← decode_elements l backing;
                    decode_content members (xs ++ drop (length l) backing) (length l)
        | _ => None
        end
      else decode_content members backing n
  end.

(** The struct decoding: the (type, text) pairs of [content]; [None] for any error. *)
Definition structured_content (result : bytes) : option (list (bytes * bytes)) :=
  match parse result with
  | Some (JObj members) => decode_content members [] 0
  | Some JNull => Some []
  | _ => None
  end.

Definition content_text (items : list (bytes * bytes)) : bytes :=
  mjoin (map (λ tt, if bool_decide (tt.1 = gostr "text") then tt.2 ++ [x0a] else []) items).

Definition extractResultText `{Floats} `{MapOrder} (n : nat) (result : bytes) : bytes :=
  match result with
  | [] => []
  | _ =>
      let b := match structured_content result with Some items => content_text items | None => [] end in
      match Unmarshal result with
      | None => match b with [] => result | _ => b end
      | Some root =>
          match walkJSONStrings n (S maxExtractDepth) true root b with
          | [] => result
          | b => b
          end
      end
  end.

(** ** The world of the engine *)

Inductive output :=
  | EmitEvidence (rec : EvidenceRecord)
  | EmitAudit (rec : SecurityAuditEvent)
  | ForwardTaint (tvs : list TaintedValue)
  | ForwardUntrusted (source : bytes) (seq : Z).

Record World := { store : SessionStore; tick : nat; out : list output }.

(** A computation of the engine. *)
Definition M (A : Type) : Type := World -> A * World.

#[export] Instance M_ret : MRet M := λ A a w, (a, w).
#[export] Instance M_bind : MBind M := λ A B f m w, let '(a, w) := m w in f a w.

Definition emit (o : output) : M () := λ w,
  ((), {| store := store w; tick := tick w; out := out w ++ [o] |}).

(** [e.store.Get(id)] *)
Definition get_session (id : bytes) : M (option SessionState) := λ w, (Get id (store w), w).

(** The assignments to the fields of the session the store points to. *)
Definition put_session (st : SessionState) : M () := λ w,
  ((), {| store := Upsert st (store w); tick := tick w; out := out w |}).

Section externals.

Context `{Compressors} `{MathLog2} `{Floats} `{Archives} `{Clock} `{MapOrder} `{UnicodeLower}.

(** [time.Now().UnixNano()] *)
Definition time_now : M Z := λ w,
  (clock (tick w), {| store := store w; tick := S (tick w); out := out w |}).

(** A computation that reads the clock or a map order by itself. *)
Definition with_tick {A} (f : nat -> A * nat) : M A := λ w,
  let '(a, n) := f (tick w) in (a, {| store := store w; tick := n; out := out w |}).

(** A map iteration. *)
Definition iterate {A} (f : nat -> A) : M A := with_tick (λ n, (f n, S n)).

Definition get_or_create (id : bytes) : M SessionState := λ w,
  let '(st, s) := GetOrCreate (tick w) (clock (tick w)) id (store w) in
  (st, {| store := s; tick := S (tick w); out := out w |}).

Definition touch (e : Engine) (seq : Z) (label : bytes) (st : SessionState) : M SessionState :=
  now ← time_now; mret (touchSession e now seq label st).

(** ** Evidence *)

Definition leg_label (name : string) (leg : Leg) : bytes := gostr name ++ gostr ": " ++ Detail leg.
Arguments leg_label name%_string leg.

(** The label of one entry of the timeline; Variant B does not look at the sink leg. *)
Definition item_label (with_sink : bool) (st : SessionState) (seq : Z) : bytes :=
  let l := Legs st in
  if seq =? TriggerSeq (SensitiveSourceTouched l)
  then leg_label "sensitive_source_touched" (SensitiveSourceTouched l)
  else if seq =? TriggerSeq (UntrustedContentPresent l)
  then leg_label "untrusted_content_present" (UntrustedContentPresent l)
  else if with_sink && (seq =? TriggerSeq (ExternalSinkInvoked l))
  then leg_label "external_sink_invoked" (ExternalSinkInvoked l)
  else default (gostr "event #" ++ Itoa seq) (TimelineLabels st !! seq).

Fixpoint timeline_items (with_sink : bool) (st : SessionState) (i : Z) (seqs : list Z) : M (list TimelineItem) :=
  match seqs with
  | [] => mret []
  | seq :: seqs =>
      now ← time_now;
      items ← timeline_items with_sink st (i + 1) seqs;
      mret ({| TimelineSeq := i + 1; tiTSMono := now; Kind := Intercepted;
               Label := item_label with_sink st seq; Ref := seq |} :: items)
  end.

Definition evidence_of (st : SessionState) (tripTS : Z) (v : verdict) (a : action) (var : variant_plane)
    (confidence : float64) (sinkCall : list (bytes * sink_value)) (overlap : option OverlapHit)
    (timeline : list TimelineItem) (pod : option PodContext) : EvidenceRecord := {|
  erSessionID := SessionID st; TripTS := tripTS; erVerdict := v; erAction := a; erVariant := var;
  erConfidence := confidence; erLegs := Legs st; SinkCall := sinkCall; ValueOverlap := overlap;
  erTimeline := timeline; erPod := pod; ChainSeq := 0; PrevHash := []; erHash := [] |}.

Definition buildEvidence (st : SessionState) (ev : InterceptedEvent) (v : verdict) (a : action)
    (confidence : float64) (overlap : option OverlapHit) : M EvidenceRecord :=
  let sinkCall := [(gostr "tool_name", SinkStr (ieToolName ev)); (gostr "server_id", SinkStr (ieServerID ev));
                   (gostr "args", SinkRaw (RedactJSON (ieToolArgs ev) (Tainted st)));
                   (gostr "seq", SinkInt (ieSeq ev))] in
  timeline ← timeline_items true st 0 (Timeline st);
  now ← time_now;
  mret (evidence_of st now v a VariantA confidence sinkCall overlap timeline None).

Definition dest_of (ev : SyscallEvent) : bytes := seDestIP ev ++ x3a :: Itoa (seDestPort ev).

Definition syscall_item (st : SessionState) (ev : SyscallEvent) (label : bytes) : TimelineItem := {|
  TimelineSeq := len (Timeline st) + 1; tiTSMono := seTSMono ev; Kind := Syscall; Label := label; Ref := 0 |}.

Definition buildEvidenceVariantB (st : SessionState) (ev : SyscallEvent) (v : verdict) (a : action)
    (confidence : float64) (overlap : option OverlapHit) : M EvidenceRecord :=
  let sinkCall := [(gostr "syscall", SinkStr (seSyscall ev)); (gostr "dest_ip", SinkStr (seDestIP ev));
                   (gostr "dest_port", SinkInt (seDestPort ev)); (gostr "pid", SinkInt (sePID ev));
                   (gostr "comm", SinkStr (seComm ev))] ++
    match sePath ev with [] => [] | p => [(gostr "path", SinkStr p)] end ++
    match sePayloadExcerpt ev with
    | [] => []
    | p => [(gostr "payload_excerpt", SinkStr (RedactJSON p (Tainted st)))]
    end in
  timeline ← timeline_items false st 0 (Timeline st);
  let label := gostr "external_sink_invoked: " ++ seSyscall ev ++ gostr " to " ++ dest_of ev ++
               gostr " by " ++ seComm ev ++ gostr " (pid " ++ Itoa (sePID ev) ++ gostr ")" in
  now ← time_now;
  mret (evidence_of st now v a VariantB confidence sinkCall overlap
          (timeline ++ [syscall_item st ev label]) (sePod ev)).

Definition buildLSMDenyEvidence (st : SessionState) (ev : SyscallEvent) : M EvidenceRecord :=
  let sinkCall := [(gostr "syscall", SinkStr (gostr "lsm_deny")); (gostr "pid", SinkInt (sePID ev));
                   (gostr "comm", SinkStr (seComm ev))] in
  timeline ← timeline_items false st 0 (Timeline st);
  let label := gostr "lsm_deny: kernel denied repeat connect() by " ++ seComm ev ++
               gostr " (pid " ++ Itoa (sePID ev) ++ gostr ")" in
  now ← time_now;
  mret (evidence_of st now VerdictExfil ActionPrevented VariantB (Confidence st) sinkCall None
          (timeline ++ [syscall_item st ev label]) (sePod ev)).

(** ** Remote registration (the taint bridge) *)

Definition RegisterRemoteTaint (e : Engine) (sessionID : bytes) (tv : TaintedValue) : M () :=
  if bool_decide (sessionID = []) || bool_decide (Value tv = []) then mret ()
  else
    st ← get_or_create sessionID;
    st ← touch e (tvSeq tv) (gostr "remote taint registered") st;
    now ← time_now;
    let detail := gostr "proxy taint bridge" ++
                  match Source tv with [] => [] | s => gostr ": " ++ s end in
    let st := if Lit (SensitiveSourceTouched (Legs st)) then st
              else light_sensitive (lit_leg st now 0 detail) st in
    now ← time_now;
    let tv := {| Value := Value tv; Variants := Variants tv; Chunks := Chunks tv;
                 Hash := match Hash tv with [] => HashValue (Value tv) | h => h end;
                 Preview := match Preview tv with [] => MaskValue (Value tv) | p => p end;
                 Source := Source tv; tvSeq := tvSeq tv;
                 RegisteredAt := if RegisteredAt tv =? 0 then now else RegisteredAt tv |} in
    put_session (addTainted e [tv] st).2.

Definition RegisterRemoteUntrusted (e : Engine) (sessionID source : bytes) (seq : Z) : M () :=
  if bool_decide (sessionID = []) then mret ()
  else
    st ← get_or_create sessionID;
    st ← touch e seq (gostr "remote untrusted content registered") st;
    if Lit (UntrustedContentPresent (Legs st)) then put_session st
    else
      now ← time_now;
      let detail := gostr "proxy taint bridge: untrusted content observed" ++
                    match source with [] => [] | s => gostr " (" ++ s ++ gostr ")" end in
      put_session (light_untrusted (lit_leg st now 0 detail) st).

(** ** Tool results *)

(** The candidates of a sensitive result: from the text, from the reassembled fragments, from
    a sensitive path that was read, and from inside a container, in this order. *)
Definition sensitive_candidates (e : Engine) (ev : InterceptedEvent) (resultText : bytes) (st : SessionState)
    : M (list TaintedValue * SessionState) :=
  let source := ieServerID ev ++ slash :: ieToolName ev in
  let st := appendFragment e resultText st in
  now ← time_now;
  let tainted := ExtractTaintedValues now resultText source (ieSeq ev) in
  now ← time_now;
  let reassembled := ExtractTaintedValues now (Join (FragmentChunks st) []) source (ieSeq ev) in
  let '(readPath, st) := consumePendingSensitiveReadPath (ieServerID ev) (ieToolName ev) st in
  now ← time_now;
  let whole := if bool_decide (readPath ≠ []) && IsSensitiveResourcePath readPath (sensitivePaths e)
               then TaintPathDrivenContent now resultText readPath source (ieSeq ev) else [] in
  inner ← with_tick (λ n, taintFromContainer e n resultText source (ieSeq ev));
  mret (tainted ++ reassembled ++ whole ++ inner, st).

(** [forwarding] tells whether a TaintForwarder and an UntrustedForwarder are installed. *)
Definition IngestResult (e : Engine) (forwarding : bool * bool) (ev : InterceptedEvent) : M () :=
  st ← get_or_create (ieSessionID ev);
  st ← touch e (ieSeq ev) (ieToolName ev ++ gostr " result returned") st;
  resultText ← iterate (λ n, extractResultText n (ieResult ev));
  let sensitive := match tagger e with
                   | Some t => IsSensitiveSource t (ieToolName ev) (ieServerID ev)
                   | None => false
                   end in
  if sensitive : bool then
    now ← time_now;
    let st := setSensitiveSourceTouched now ev st in
    match resultText with
    | [] => put_session (consumePendingSensitiveReadPath (ieServerID ev) (ieToolName ev) st).2
    | _ =>
        '(combined, st) ← sensitive_candidates e ev resultText st;
        let '(added, st) := addTainted e combined st in
        _ ← put_session (vaultMint e added st);
        if bool_decide (added ≠ []) && forwarding.1 then emit (ForwardTaint added) else mret ()
    end
  else if untrustedToolResults e then
    now ← time_now;
    let newly := negb (Lit (UntrustedContentPresent (Legs st))) in
    _ ← put_session (setUntrustedContentPresent now ev resultText st);
    if newly && forwarding.2 then emit (ForwardUntrusted (ieToolName ev) (ieSeq ev)) else mret ()
  else put_session st.

(** ** Tool calls *)

Definition decode_depth (e : Engine) : nat := Z.to_nat (maxDecodeDepth e).

(** The arguments scanned, and the detokenized ones to forward when they differ. *)
Definition detokenized (e : Engine) (ev : InterceptedEvent) (st : SessionState) : M (bytes * option bytes) :=
  let args := ieToolArgs ev in
  if negb (vaultEnabled e) then mret (args, None)
  else
    match vaultToolAuthorized e (ieToolName ev) with
    | None => mret (args, None)
    | Some allowClass =>
        detok ← iterate (λ n, vaultDetokenize n args (Vault st) allowClass);
        mret (if bool_decide (detok = args) then (args, None) else (detok, Some detok))
    end.

Definition with_forward (fwd : option bytes) (d : Decision) : Decision := {|
  Allow := Allow d; dVerdict := dVerdict d; dAction := dAction d; Reason := Reason d;
  Evidence := Evidence d; ForwardArgs := fwd |}.

Definition trip_reason (prefix : bytes) (v : verdict) (containerAbort : ContainerAbortReason) (what : bytes) : bytes :=
  if bool_decide (v = VerdictSuspicious) && negb (bool_decide (containerAbort = ContainerAbortNone))
  then prefix ++ verdict_string v ++ gostr ": container_inspect_limit (" ++ abort_string containerAbort ++
       gostr "): " ++ what
  else prefix ++ verdict_string v ++ gostr ": " ++ what.

Definition trip (confidence : float64) (st : SessionState) : SessionState :=
  set_Confidence confidence (set_Status Tripped st).

Definition is_external_sink (e : Engine) (ev : InterceptedEvent) : bool :=
  match tagger e with Some t => IsExternalSink t (ieToolName ev) (ieServerID ev) | None => false end.

(** [sink] tells whether an evidence sink is installed; its errors are only logged. *)
Definition EvaluateRequest (e : Engine) (sink : bool) (ev : InterceptedEvent) : M Decision :=
  st ← get_or_create (ieSessionID ev);
  st ← touch e (ieSeq ev) (ieToolName ev ++ gostr " called") st;
  st ← iterate (λ n, stashSensitiveReadPath e n ev st);
  if negb (is_external_sink e ev) then _ ← put_session st; mret allowed
  else
    now ← time_now;
    let st := setExternalSinkInvoked now ev st in
    '(args, forwardArgs) ← detokenized e ev st;
    '(overlap, containerAbort) ← with_tick (λ n,
       CheckOverlapLimited (decode_depth e) n (Tainted st) args (containerLimits e));
    match classifyTrip e st overlap args true containerAbort with
    | None => _ ← put_session st; mret (with_forward forwardArgs allowed)
    | Some (v, confidence) =>
        let '(allow, a) := proxyAction e v in
        let st := trip confidence st in
        _ ← put_session st;
        evidence ← buildEvidence st ev v a confidence overlap;
        _ ← (if sink : bool then emit (EmitEvidence evidence) else mret ());
        mret {| Allow := allow; dVerdict := v; dAction := a;
                Reason := trip_reason (gostr "trifecta ") v containerAbort (ieToolName ev);
                Evidence := Some evidence;
                ForwardArgs := if allow : bool then forwardArgs else None |}
    end.

(** The frame with its arguments and its result scrubbed. *)
Definition RedactEvent (ev : InterceptedEvent) : M InterceptedEvent :=
  st ← get_session (ieSessionID ev);
  mret match st with
       | None => ev
       | Some st =>
           match Tainted st with
           | [] => ev
           | tainted => {|
               ieSessionID := ieSessionID ev; ieSeq := ieSeq ev; ieTSWall := ieTSWall ev;
               ieTSMono := ieTSMono ev; ieDirection := ieDirection ev; ieMethod := ieMethod ev;
               ieToolName := ieToolName ev; ieToolArgs := RedactJSON (ieToolArgs ev) tainted;
               ieServerID := ieServerID ev; ieServerPID := ieServerPID ev; ieTags := ieTags ev;
               ieDecision := ieDecision ev; ieBlockReason := ieBlockReason ev;
               ieResult := RedactJSON (ieResult ev) tainted |}
           end
       end.

Definition VaultRewriteFrame (e : Engine) (sessionID frame : bytes) : M bytes :=
  if negb (vaultEnabled e) || bool_decide (sessionID = []) || bool_decide (frame = []) then mret frame
  else
    st ← get_session sessionID;
    match st with
    | None => mret frame
    | Some st => iterate (λ n, vaultReplaceReals n frame (Vault st))
    end.

Definition RewindLegClocks (sessionID : bytes) (d : Z) : M () :=
  if (d <=? 0) || bool_decide (sessionID = []) then mret ()
  else
    st ← get_session sessionID;
    match st with
    | None => mret ()
    | Some st =>
        let l := Legs st in
        put_session (set_Legs {| SensitiveSourceTouched := rewind d (SensitiveSourceTouched l);
                                 UntrustedContentPresent := rewind d (UntrustedContentPresent l);
                                 ExternalSinkInvoked := rewind d (ExternalSinkInvoked l) |} st)
    end.

(** ** Audit records; [audit] tells whether an audit sink is installed *)

Definition emit_audit (audit : bool) (rec : SecurityAuditEvent) : M () :=
  if audit then emit (EmitAudit rec) else mret ().

Definition recordUnattributedSyscall (audit : bool) (ev : SyscallEvent) (reason : bytes) : M () :=
  emit_audit audit {| saKind := gostr "unattributed_syscall"; saReason := reason; saSyscall := Some ev |}.

Definition RecordToolShadowing (audit : bool) (toolName owner shadow sessionID : bytes) (quoted : bytes -> bytes) : M () :=
  emit_audit audit {|
    saKind := gostr "tool_shadowing";
    saReason := gostr "tool " ++ quoted toolName ++ gostr ": owner=" ++ owner ++ gostr ", shadow=" ++ shadow ++
                gostr " (session " ++ sessionID ++ gostr ") " ++ [xe2; x80; x94] ++
                gostr " route unchanged, shadow refused";
    saSyscall := None |}.

Definition RecordFailClosedTransition (audit engaged : bool) (reason : bytes) : M () :=
  emit_audit audit {|
    saKind := gostr (if engaged then "fail_closed_engaged" else "fail_closed_cleared");
    saReason := reason; saSyscall := None |}.

(** ** Kernel events *)

Definition by_pid (ev : SyscallEvent) : bytes :=
  gostr " by pid " ++ Itoa (sePID ev).

Definition comm_suffix (ev : SyscallEvent) : bytes := gostr " (" ++ seComm ev ++ gostr ")".

(** The detail of the sink leg an egress event lights. *)
Definition egress_detail (ev : SyscallEvent) : bytes :=
  (if bool_decide (seSyscall ev = gostr "write") then gostr "write() egress correlated to " ++ dest_of ev
   else if bool_decide (seSyscall ev = dns) then gostr "dns sendto " ++ dest_of ev
   else seSyscall ev ++ gostr " to " ++ dest_of ev) ++ by_pid ev ++ comm_suffix ev.

Definition openat_detail (ev : SyscallEvent) (path : bytes) : bytes :=
  gostr "openat sensitive path " ++ path ++ by_pid ev ++ comm_suffix ev.

Definition finishVariantBSyscallTrip (sink : bool) (st : SessionState) (ev : SyscallEvent) (v : verdict)
    (confidence : float64) (overlap : option OverlapHit) (reason : bytes) : M Decision :=
  let '(allow, a) := variantBAction v in
  let st := trip confidence st in
  _ ← put_session st;
  evidence ← buildEvidenceVariantB st ev v a confidence overlap;
  _ ← (if sink : bool then emit (EmitEvidence evidence) else mret ());
  mret {| Allow := allow; dVerdict := v; dAction := a; Reason := reason; Evidence := Some evidence;
          ForwardArgs := None |}.

Definition ingestLSMDeny (sink audit : bool) (ev : SyscallEvent) : M Decision :=
  let reason := gostr "lsm quarantine denied repeat connect()" ++ by_pid ev ++ comm_suffix ev in
  let denied allow evidence := {|
    Allow := allow; dVerdict := VerdictExfil; dAction := ActionPrevented; Reason := reason;
    Evidence := evidence; ForwardArgs := None |} in
  match seSessionID ev with
  | [] =>
      _ ← recordUnattributedSyscall audit ev (gostr "no session attribution for LSM-denied connect");
      mret (denied true None)
  | sessionID =>
      st ← get_session sessionID;
      match st with
      | Some st =>
          if decide (Status st = Tripped) then
            evidence ← buildLSMDenyEvidence st ev;
            _ ← (if sink : bool then emit (EmitEvidence evidence) else mret ());
            mret (denied false (Some evidence))
          else mret (denied false None)
      | None => mret (denied false None)
      end
  end.

(** The overlap check of an egress payload: the hit, the abort and the session with its
    reassembly buffers. *)
Definition egress_overlap (e : Engine) (ev : SyscallEvent) (st : SessionState)
    : M (option OverlapHit * ContainerAbortReason * SessionState) :=
  now ← time_now;
  '(payload, st) ← with_tick (λ n, (egressCandidatePayload e n now ev st, S (S n)));
  '(overlap, abort) ← with_tick (λ n,
     CheckOverlapPayloadLimited (decode_depth e) n (Tainted st) payload (containerLimits e));
  mret (overlap, abort, st).

Definition is_connect (ev : SyscallEvent) : bool := bool_decide (seSyscall ev = gostr "connect").

Definition lsm_deny := gostr "lsm_deny".

Definition IngestSyscall (e : Engine) (sink audit : bool) (ev : SyscallEvent) : M Decision :=
  if decide (seSyscall ev = lsm_deny) then ingestLSMDeny sink audit ev
  else
    match seSessionID ev with
    | [] =>
        _ ← recordUnattributedSyscall audit ev (gostr "no session attribution for monitored PID");
        mret allowed
    | sessionID =>
        st ← get_or_create sessionID;
        st ← touch e 0 [] st;
        now ← time_now;
        let detail := if bool_decide (seSyscall ev = openat) then openat_detail ev (sePath ev)
                      else egress_detail ev in
        let st := if Lit (ExternalSinkInvoked (Legs st)) then st
                  else light_sink (lit_leg st now 0 detail) st in
        '(overlap, abort, st) ←
           (if bool_decide (seSyscall ev = openat) || bool_decide (sePayloadExcerpt ev = [])
            then mret (None, ContainerAbortNone, st) else egress_overlap e ev st);
        match classifyTrip e st overlap (sePayloadExcerpt ev) (negb (is_connect ev)) abort with
        | None => _ ← put_session st; mret allowed
        | Some (v, confidence) =>
            let what := seSyscall ev ++ gostr " to " ++ dest_of ev ++ by_pid ev in
            let what := if bool_decide (seSyscall ev = openat) && bool_decide (abort = ContainerAbortNone)
                        then gostr "openat " ++ sePath ev ++ by_pid ev else what in
            finishVariantBSyscallTrip sink st ev v confidence overlap
              (trip_reason (gostr "trifecta ") v abort what)
        end
    end.

Definition seedSensorSensitiveOpen (e : Engine) (st : SessionState) (ev : SyscallEvent) : M SessionState :=
  let path := match sePath ev with [] => gostr "(unknown)" | p => p end in
  now ← time_now;
  let st := if Lit (SensitiveSourceTouched (Legs st)) then st
            else light_sensitive (lit_leg st now 0 (openat_detail ev path)) st in
  match seFileContents ev with
  | [] => mret st
  | contents =>
      let source := gostr "sensor:" ++ path in
      now ← time_now;
      let tainted := ExtractTaintedValues now contents source 0 in
      now ← time_now;
      let tainted := if bool_decide (length tainted = 0%nat) && IsSensitiveResourcePath path (sensitivePaths e)
                     then TaintPathDrivenContent now contents path source 0 else tainted in
      inner ← with_tick (λ n, taintFromContainer e n contents source 0);
      mret (addTainted e (tainted ++ inner) st).2
  end.

Definition IngestSyscallSensor (e : Engine) (sink audit : bool) (ev : SyscallEvent) : M Decision :=
  if decide (seSyscall ev = lsm_deny) then ingestLSMDeny sink audit ev
  else
    match seSessionID ev with
    | [] =>
        _ ← recordUnattributedSyscall audit ev (gostr "no pod attribution for monitored PID");
        mret allowed
    | sessionID =>
        st ← get_or_create sessionID;
        st ← touch e 0 [] st;
        if decide (seSyscall ev = openat) then
          st ← seedSensorSensitiveOpen e st ev; _ ← put_session st; mret allowed
        else
          now ← time_now;
          let st := light_sink (lit_leg st now 0 (egress_detail ev)) st in
          '(overlap, abort, st) ←
             (if bool_decide (sePayloadExcerpt ev = []) then mret (None, ContainerAbortNone, st)
              else egress_overlap e ev st);
          match classifyTrip e st overlap (sePayloadExcerpt ev) (negb (is_connect ev)) abort with
          | None => _ ← put_session st; mret allowed
          | Some (v, confidence) =>
              finishVariantBSyscallTrip sink st ev v confidence overlap
                (trip_reason (gostr "sensor ") v abort
                   (seSyscall ev ++ gostr " to " ++ dest_of ev ++ by_pid ev))
          end
    end.

End externals.
