(* ===== verification/EngineFacts.v ===== *)
(** * How the engine's operations act on the store

    A small program logic for computations that work on one session: they keep the store
    well formed, leave every other session as it is, and only append to the outputs. *)

From S2P Require Import Prelude Go GoTime Config GoStrings Encodings Json Model Store Tagger.
From S2P Require Import Egress EgressTheorems Regex Taint Overlap OverlapTheorems Container Match Engine.

(** ** Session ids survive the field updates *)

Lemma SessionID_touch e now seq label st : SessionID (touchSession e now seq label st) = SessionID st.
Proof.
  unfold touchSession, pruneLegs. destruct (seq =? 0), (decayed _ _ _ _); try done;
    by destruct (_ && negb _).
Qed.

Lemma SessionID_storeUntrusted x st : SessionID (storeUntrustedExcerpt x st) = SessionID st.
Proof. unfold storeUntrustedExcerpt. by destruct (TrimSpace x). Qed.

Lemma SessionID_setUntrusted now ev x st : SessionID (setUntrustedContentPresent now ev x st) = SessionID st.
Proof.
  unfold setUntrustedContentPresent. rewrite <- (SessionID_storeUntrusted x st). by destruct (Lit _).
Qed.

Lemma SessionID_setSensitive now ev st : SessionID (setSensitiveSourceTouched now ev st) = SessionID st.
Proof. unfold setSensitiveSourceTouched. by destruct (Lit _). Qed.

Lemma SessionID_setSink now ev st : SessionID (setExternalSinkInvoked now ev st) = SessionID st.
Proof. unfold setExternalSinkInvoked. by destruct (Lit _). Qed.

Lemma SessionID_appendFragment e x st : SessionID (appendFragment e x st) = SessionID st.
Proof. unfold appendFragment. by destruct (TrimRight x _). Qed.

Lemma SessionID_addTainted `{Compressors} `{MathLog2} e cs st : SessionID (addTainted e cs st).2 = SessionID st.
Proof. unfold addTainted. by destruct (appendUniqueTainted _ _). Qed.

Lemma SessionID_vaultMint e vs st : SessionID (vaultMint e vs st) = SessionID st.
Proof. unfold vaultMint. by destruct (_ || _). Qed.

Lemma SessionID_stash `{Floats} `{MapOrder} `{UnicodeLower} e n ev st :
  SessionID (stashSensitiveReadPath e n ev st) = SessionID st.
Proof.
  unfold stashSensitiveReadPath. destruct (tagger e); [|done]. destruct (negb _); [done|].
  by destruct (List.find _ _).
Qed.

Lemma SessionID_egress `{MapOrder} e n now ev st :
  SessionID (egressCandidatePayload e n now ev st).2 = SessionID st.
Proof.
  unfold egressCandidatePayload, appendEgressFlowFragment. destruct (_ || _); [done|].
  destruct (normalizedEgressFragment ev); [done|]. destruct (egressReassemblyEnabled e); [|done].
  destruct (egressFlowKey ev), (appendFlow _ _ _ _ _ _ _ _), (appendFlow _ _ _ _ _ _ _ _). done.
Qed.

Lemma SessionID_consume server tool st :
  SessionID (consumePendingSensitiveReadPath server tool st).2 = SessionID st.
Proof. done. Qed.

Lemma SessionID_light_sensitive leg st : SessionID (light_sensitive leg st) = SessionID st.
Proof. done. Qed.

Lemma SessionID_light_untrusted leg st : SessionID (light_untrusted leg st) = SessionID st.
Proof. done. Qed.

Lemma SessionID_light_sink leg st : SessionID (light_sink leg st) = SessionID st.
Proof. done. Qed.

Lemma SessionID_trip c st : SessionID (trip c st) = SessionID st.
Proof. done. Qed.

(** ** Computations on one session *)

Section logic.

Context (id : bytes).

(** The store is well formed and holds the session. *)
Definition holds (w : World) : Prop := store_ok (store w) /\ is_Some (store w !! id).

(** From [w] to [w'] only the session [id] changed. *)
Definition local (w w' : World) : Prop :=
  (forall id', id' ≠ id -> store w' !! id' = store w !! id') /\
  exists l, out w' = out w ++ l.

Lemma local_refl w : local w w.
Proof. split; [done|]. exists []. by rewrite app_nil_r. Qed.

Lemma local_trans w1 w2 w3 : local w1 w2 -> local w2 w3 -> local w1 w3.
Proof.
  intros [H1 [l1 E1]] [H2 [l2 E2]]. split.
  - intros i Hi. by rewrite H2, H1.
  - exists (l1 ++ l2). by rewrite E2, E1, app_assoc.
Qed.

(** [m] works on the session [id] and answers something that satisfies [Q]. *)
Definition on_session {A} (Q : A -> Prop) (m : M A) : Prop :=
  forall w, holds w -> holds (m w).2 /\ local w (m w).2 /\ Q (m w).1.

Lemma on_ret {A} (Q : A -> Prop) a : Q a -> on_session Q (mret a).
Proof. intros HQ w Hw. split_and!; [done|apply local_refl|done]. Qed.

Lemma on_bind {A B} (P : A -> Prop) (Q : B -> Prop) (m : M A) (f : A -> M B) :
  on_session P m -> (forall a, P a -> on_session Q (f a)) -> on_session Q (m ≫= f).
Proof.
  intros Hm Hf w Hw. destruct (Hm w Hw) as (H1 & H2 & H3).
  change ((m ≫= f) w) with (let '(a, w') := m w in f a w'). destruct (m w) as [a w']. cbn in *.
  destruct (Hf a H3 w' H1) as (H4 & H5 & H6). split_and!; [done|by eapply local_trans|done].
Qed.

Lemma on_weaken {A} (P Q : A -> Prop) m : on_session P m -> (forall a, P a -> Q a) -> on_session Q m.
Proof. intros Hm H w Hw. destruct (Hm w Hw) as (? & ? & ?). auto. Qed.

Lemma on_put st : SessionID st = id -> on_session (λ _, True) (put_session st).
Proof.
  intros Hid w [Hok Hs]. unfold put_session. cbn [fst snd]. split_and!; [| |done].
  - split; cbn [store]; [apply Upsert_ok; by rewrite ?Hid|].
    unfold Upsert. rewrite Hid, lookup_insert_eq. by eexists.
  - split; cbn [store out]; [|exists []; by rewrite app_nil_r].
    intros i Hi. unfold Upsert. rewrite lookup_insert_ne; [done|congruence].
Qed.

Lemma on_emit o : on_session (λ _, True) (emit o).
Proof.
  intros w Hw. split_and!; [done| |done]. split; [done|]. by exists [o].
Qed.

Lemma on_tick {A} (f : nat -> A * nat) : on_session (λ a, exists n, a = (f n).1) (with_tick f).
Proof.
  intros w Hw. unfold with_tick. destruct (f (tick w)) as [a n] eqn:E. cbn [fst snd].
  split_and!; [done| |exists (tick w); by rewrite E]. split; [done|]. exists []. cbn. by rewrite app_nil_r.
Qed.

Lemma on_iterate {A} (f : nat -> A) : on_session (λ a, exists n, a = f n) (iterate f).
Proof. apply (on_weaken (λ a, exists n, a = (f n, S n).1)); [apply on_tick|done]. Qed.

Context `{Clock}.

Lemma on_time : on_session (λ _, True) time_now.
Proof.
  intros w Hw. split_and!; [done| |done]. split; [done|]. exists []. cbn. by rewrite app_nil_r.
Qed.

Lemma on_touch e seq label st :
  on_session (λ st', exists now, st' = touchSession e now seq label st) (touch e seq label st).
Proof. eapply on_bind; [apply on_time|]. intros now _. apply on_ret. by exists now. Qed.

Lemma on_timeline with_sink st i seqs : on_session (λ _, True) (timeline_items with_sink st i seqs).
Proof.
  revert i. induction seqs as [|seq seqs IH]; intros i; [by apply on_ret|]. cbn [timeline_items].
  eapply on_bind; [apply on_time|]. intros now _. eapply on_bind; [apply IH|].
  intros items _. by apply on_ret.
Qed.

End logic.

(** The steps of [on_session] goals. *)
Ltac on_step :=
  cbv zeta; lazymatch goal with
  | |- on_session _ _ (mret _) => apply on_ret
  | |- on_session _ _ (put_session _) => apply on_put
  | |- on_session _ _ (emit _) => apply on_emit
  | |- on_session _ _ (mbind _ time_now) => eapply on_bind; [apply on_time|intros ? _]
  | |- on_session _ _ (mbind _ (touch _ _ _ _)) =>
      eapply on_bind; [apply on_touch|intros ? [? ->]]
  | |- on_session _ _ (mbind _ (put_session _)) => eapply on_bind; [apply on_put|intros [] _]
  | |- on_session _ _ (mbind _ (emit _)) => eapply on_bind; [apply on_emit|intros [] _]
  | |- on_session _ _ (mbind _ (iterate _)) => eapply on_bind; [apply on_iterate|intros ? [? ->]]
  | |- on_session _ _ (mbind _ (with_tick _)) => eapply on_bind; [apply on_tick|intros ? [? ->]]
  | |- on_session _ _ (mbind _ (timeline_items _ _ _ _)) => eapply on_bind; [apply on_timeline|intros ? _]
  end.

#[export] Hint Rewrite SessionID_touch SessionID_setUntrusted SessionID_setSensitive SessionID_setSink
  SessionID_appendFragment @SessionID_addTainted SessionID_vaultMint @SessionID_stash @SessionID_egress
  SessionID_consume SessionID_light_sensitive SessionID_light_untrusted SessionID_light_sink SessionID_trip
  : layout.

(** ** Every operation stays on its session *)

Section operations.

Context `{Compressors} `{MathLog2} `{Floats} `{Archives} `{Clock} `{MapOrder} `{UnicodeLower}.
Context (e : Engine) (sink audit : bool).

(** A session whose id is known, whatever else was done to it. *)
#[local] Ltac id_done := autorewrite with layout in *; cbn [SessionID set_Tainted set_Vault] in *; congruence.

Lemma on_buildEvidence id st ev v a c o : on_session id (λ _, True) (buildEvidence st ev v a c o).
Proof. unfold buildEvidence. on_step. on_step. by on_step. Qed.

Lemma on_buildB id st ev v a c o : on_session id (λ _, True) (buildEvidenceVariantB st ev v a c o).
Proof. unfold buildEvidenceVariantB. on_step. on_step. by on_step. Qed.

Lemma on_buildDeny id st ev : on_session id (λ _, True) (buildLSMDenyEvidence st ev).
Proof. unfold buildLSMDenyEvidence. on_step. on_step. by on_step. Qed.

Lemma on_emit_if id (b : bool) o : on_session id (λ _, True) (if b then emit o else mret ()).
Proof. destruct b; by on_step. Qed.

Lemma on_candidates id ev text st :
  SessionID st = id ->
  on_session id (λ cs, SessionID cs.2 = id) (sensitive_candidates e ev text st).
Proof.
  intros Hid. unfold sensitive_candidates. do 2 on_step.
  destruct (consumePendingSensitiveReadPath _ _ _) as [p st'] eqn:E. do 2 on_step. on_step.
  cbn [snd]. injection E as _ <-. cbn [SessionID set_PendingSensitiveReadPaths]. id_done.
Qed.

Lemma on_detokenized id ev st : on_session id (λ _, True) (detokenized e ev st).
Proof.
  unfold detokenized. destruct (negb _); [by on_step|]. destruct (vaultToolAuthorized _ _); [|by on_step].
  on_step. by on_step.
Qed.

Lemma on_egress_overlap id ev st :
  SessionID st = id -> on_session id (λ r, SessionID r.2 = id) (egress_overlap e ev st).
Proof.
  intros Hid. unfold egress_overlap. eapply on_bind; [apply on_time|intros now _].
  eapply on_bind; [apply on_tick|intros y [n ->]]. cbn [fst].
  pose proof (SessionID_egress e n now ev st) as Hs.
  destruct (egressCandidatePayload e n now ev st) as [p st'].
  eapply on_bind; [apply on_tick|intros y [m ->]].
  destruct (CheckOverlapPayloadLimited _ _ _ _ _) as [[o ab] k]. cbn [fst]. on_step.
  cbn [snd] in *. congruence.
Qed.

Lemma on_finish id st ev v c o r :
  SessionID st = id -> on_session id (λ _, True) (finishVariantBSyscallTrip sink st ev v c o r).
Proof.
  intros Hid. unfold finishVariantBSyscallTrip. destruct (variantBAction v) as [allow ac].
  on_step; [done|]. eapply on_bind; [apply on_buildB|intros rec _].
  eapply on_bind; [apply on_emit_if|intros [] _]. by on_step.
Qed.

(** *** The bodies, after the session has been looked up or created *)

Lemma on_seed id st ev :
  SessionID st = id -> on_session id (λ st', SessionID st' = id) (seedSensorSensitiveOpen e st ev).
Proof.
  intros Hid. unfold seedSensorSensitiveOpen. on_step.
  set (st1 := if Lit _ then st else _). assert (SessionID st1 = id) as Hst1 by (unfold st1; by destruct (Lit _)).
  destruct (seFileContents ev); [by on_step|]. on_step. on_step. on_step. on_step. id_done.
Qed.

(** A call of the engine, as the proxy, the bridge and the sensor make them. *)
Inductive call :=
  | CallIngestResult (forwarding : bool * bool) (ev : InterceptedEvent)
  | CallEvaluateRequest (ev : InterceptedEvent)
  | CallIngestSyscall (ev : SyscallEvent)
  | CallIngestSyscallSensor (ev : SyscallEvent)
  | CallRemoteTaint (id : bytes) (tv : TaintedValue)
  | CallRemoteUntrusted (id source : bytes) (seq : Z)
  | CallRewind (id : bytes) (d : Z)
  | CallRedact (ev : InterceptedEvent)
  | CallVaultRewrite (id frame : bytes).

Definition perform (c : call) : M () :=
  match c with
  | CallIngestResult f ev => IngestResult e f ev
  | CallEvaluateRequest ev => _ ← EvaluateRequest e sink ev; mret ()
  | CallIngestSyscall ev => _ ← IngestSyscall e sink audit ev; mret ()
  | CallIngestSyscallSensor ev => _ ← IngestSyscallSensor e sink audit ev; mret ()
  | CallRemoteTaint id tv => RegisterRemoteTaint e id tv
  | CallRemoteUntrusted id source seq => RegisterRemoteUntrusted e id source seq
  | CallRewind id d => RewindLegClocks id d
  | CallRedact ev => _ ← RedactEvent ev; mret ()
  | CallVaultRewrite id frame => _ ← VaultRewriteFrame e id frame; mret ()
  end.

Definition session_of (c : call) : bytes :=
  match c with
  | CallIngestResult _ ev | CallEvaluateRequest ev | CallRedact ev => ieSessionID ev
  | CallIngestSyscall ev | CallIngestSyscallSensor ev => seSessionID ev
  | CallRemoteTaint id _ | CallRemoteUntrusted id _ _ | CallRewind id _ | CallVaultRewrite id _ => id
  end.

(** What an operation may do to the store: change its own session, and evict one other
    session when it creates its own in a full store. *)
Definition confined (id : bytes) (w w' : World) : Prop :=
  store_ok (store w') /\
  (forall id', id' ≠ id -> store w' !! id' = store w !! id' \/
     (maxSessions <= size (store w))%nat /\ store w !! id = None /\ store w' !! id' = None) /\
  exists l, out w' = out w ++ l.

Definition confines {A} (id : bytes) (m : M A) : Prop :=
  forall w, store_ok (store w) -> confined id w (m w).2.

Lemma confines_ret {A} id (a : A) : confines id (mret a).
Proof. intros w Hw. split_and!; [done|by left|]. exists []. cbn. by rewrite app_nil_r. Qed.

Lemma confines_emit_if id (b : bool) o : confines id (if b then emit o else mret ()).
Proof.
  destruct b; [|apply confines_ret]. intros w Hw. split_and!; [done|by left|]. by exists [o].
Qed.

Lemma confines_bind_pure {A B} id (m : M A) (g : A -> B) : confines id m -> confines id (a ← m; mret (g a)).
Proof.
  intros Hm w Hw. specialize (Hm w Hw). unfold mbind, M_bind. by destruct (m w) as [a w'].
Qed.

(** A body that runs on the session [get_or_create] answers. *)
Lemma confines_create {A} id (f : SessionState -> M A) :
  (forall st, SessionID st = id -> on_session id (λ _, True) (f st)) -> confines id (get_or_create id ≫= f).
Proof.
  intros Hf w Hw. unfold mbind, M_bind, get_or_create.
  pose proof (GetOrCreate_ok (tick w) (clock (tick w)) id (store w) Hw) as Hok.
  pose proof (GetOrCreate_lookup (tick w) (clock (tick w)) id (store w)) as Hl.
  pose proof (λ i, GetOrCreate_other (tick w) (clock (tick w)) id (store w) i) as Ho.
  destruct (GetOrCreate _ _ _ _) as [st s] eqn:E. cbn [fst snd] in *.
  set (w1 := {| store := s; tick := S (tick w); out := out w |}).
  destruct (Hf st (proj2 Hok id st Hl) w1) as (Hh & [Hloc [l Hout]] & _); [by split; [|exists st]|].
  split_and!; [apply Hh| |by exists l].
  intros i Hi. rewrite (Hloc i Hi). cbn [store w1].
  destruct (store w !! id) as [x|] eqn:Ex.
  - rewrite (GetOrCreate_hit _ _ _ _ x Ex) in E. injection E as _ <-. by left.
  - destruct (Ho i Hi) as [?|[? ?]]; [by left|by right].
Qed.

(** A body that runs only when the session exists. *)
Lemma confines_get {A} id (f : option SessionState -> M A) :
  confines id (f None) ->
  (forall st, SessionID st = id -> on_session id (λ _, True) (f (Some st))) -> confines id (get_session id ≫= f).
Proof.
  intros Hn Hf w Hw. unfold mbind, M_bind, get_session, Get. destruct (store w !! id) as [st|] eqn:E.
  - destruct (Hf st (proj2 Hw id st E) w) as (Hh & [Hloc Hl] & _); [by split; [|exists st]|].
    split_and!; [apply Hh| |done]. intros i Hi. left. by apply Hloc.
  - by apply Hn.
Qed.

(** *** Each operation *)

Lemma ingest_result_confined f ev : confines (ieSessionID ev) (IngestResult e f ev).
Proof.
  apply confines_create. intros st Hid. on_step. on_step. cbv zeta.
  destruct (match tagger e with Some t => _ | None => false end).
  - on_step. destruct (extractResultText _ _); [on_step; id_done|].
    eapply on_bind; [apply on_candidates; id_done|]. intros [cs st'] Hs. cbn [snd] in Hs.
    pose proof (SessionID_addTainted e cs st') as Ha.
    destruct (addTainted e cs st') as [added st2]. cbn [snd] in Ha. on_step; [id_done|].
    apply on_emit_if.
  - destruct (untrustedToolResults e); [|on_step; id_done]. on_step. on_step; [id_done|].
    apply on_emit_if.
Qed.

Lemma evaluate_confined ev : confines (ieSessionID ev) (EvaluateRequest e sink ev).
Proof.
  apply confines_create. intros st Hid. on_step. on_step.
  destruct (negb _); [on_step; [id_done|by on_step]|]. on_step.
  eapply on_bind; [apply on_detokenized|]. intros [args fwd] _. on_step.
  destruct (CheckOverlapLimited _ _ _ _ _) as [[o ab] k]. cbn [fst].
  destruct (classifyTrip _ _ _ _ _ _) as [[v c]|]; [|on_step; [id_done|by on_step]].
  destruct (proxyAction e v) as [allow ac]. on_step; [id_done|].
  eapply on_bind; [apply on_buildEvidence|intros rec _].
  eapply on_bind; [apply on_emit_if|intros [] _]. by on_step.
Qed.

Lemma deny_confined ev : confines (seSessionID ev) (ingestLSMDeny sink audit ev).
Proof.
  unfold ingestLSMDeny. destruct (seSessionID ev) as [|c s] eqn:E.
  - apply confines_bind_pure, confines_emit_if.
  - apply confines_get; [apply confines_ret|]. intros st Hid. destruct (decide _); [|by on_step].
    eapply on_bind; [apply on_buildDeny|intros rec _].
    eapply on_bind; [apply on_emit_if|intros [] _]. by on_step.
Qed.

(** The egress part shared by the two ingest functions. *)
Lemma on_maybe_overlap id (b : bool) ev st :
  SessionID st = id ->
  on_session id (λ r, SessionID r.2 = id)
    (if b then mret (None, ContainerAbortNone, st) else egress_overlap e ev st).
Proof. intros Hid. destruct b; [by on_step|by apply on_egress_overlap]. Qed.

Lemma ingest_syscall_confined ev : confines (seSessionID ev) (IngestSyscall e sink audit ev).
Proof.
  unfold IngestSyscall. destruct (decide _); [apply deny_confined|].
  destruct (seSessionID ev) as [|c s] eqn:E; [apply confines_bind_pure, confines_emit_if|].
  apply confines_create. intros st Hid. on_step. on_step.
  set (st1 := if Lit _ then _ else _).
  assert (SessionID st1 = c :: s) as Hst1 by (unfold st1; destruct (Lit _); id_done).
  eapply on_bind; [by apply on_maybe_overlap|]. intros [[o ab] st2] Hst2. cbn [snd] in Hst2.
  destruct (classifyTrip _ _ _ _ _ _) as [[v cf]|]; [by apply on_finish|]. on_step; [done|by on_step].
Qed.

Lemma ingest_sensor_confined ev : confines (seSessionID ev) (IngestSyscallSensor e sink audit ev).
Proof.
  unfold IngestSyscallSensor. destruct (decide _); [apply deny_confined|].
  destruct (seSessionID ev) as [|c s] eqn:E; [apply confines_bind_pure, confines_emit_if|].
  apply confines_create. intros st Hid. on_step. destruct (decide _).
  - eapply on_bind; [apply on_seed; id_done|]. intros st' Hs. on_step; [done|by on_step].
  - on_step. eapply on_bind; [apply on_maybe_overlap; id_done|].
    intros [[o ab] st2] Hst2. cbn [snd] in Hst2.
    destruct (classifyTrip _ _ _ _ _ _) as [[v cf]|]; [by apply on_finish|]. on_step; [done|by on_step].
Qed.

Lemma perform_confined c : confines (session_of c) (perform c).
Proof.
  destruct c as [f ev|ev|ev|ev|id tv|id source seq|id d|ev|id frame]; cbn [perform session_of].
  - apply ingest_result_confined.
  - apply confines_bind_pure, evaluate_confined.
  - apply confines_bind_pure, ingest_syscall_confined.
  - apply confines_bind_pure, ingest_sensor_confined.
  - unfold RegisterRemoteTaint. destruct (_ || _); [apply confines_ret|].
    apply confines_create. intros st Hid. on_step. on_step. on_step. on_step.
    rewrite SessionID_addTainted. destruct (Lit _); id_done.
  - unfold RegisterRemoteUntrusted. destruct (bool_decide _); [apply confines_ret|].
    apply confines_create. intros st Hid. on_step. destruct (Lit _); [on_step; id_done|].
    on_step. on_step. id_done.
  - unfold RewindLegClocks. destruct (_ || _); [apply confines_ret|].
    apply confines_get; [apply confines_ret|]. intros st Hid. on_step. done.
  - apply confines_bind_pure. apply confines_get; [apply confines_ret|]. intros st Hid. by on_step.
  - apply confines_bind_pure. unfold VaultRewriteFrame. destruct (_ || _); [apply confines_ret|].
    apply confines_get; [apply confines_ret|]. intros st Hid.
    eapply on_weaken; [apply on_iterate|done].
Qed.

End operations.
