(* ===== verification/EngineRuns.v ===== *)
(** * Session triples: what an operation makes of its session and sends out

    [runs S m Q]: from any world in which the session is [S], [m] leaves it in some state
    and appends some outputs that satisfy [Q] together with the answer. *)

From S2P Require Import Prelude Go GoTime Config GoStrings Encodings Json Model Store Tagger.
From S2P Require Import Egress EgressTheorems Regex Taint Overlap OverlapTheorems Container Match Engine EngineFacts.

(** ** Silent computations: they read the clock and map orders only *)

Definition silent {A} (m : M A) : Prop := forall w, store (m w).2 = store w /\ out (m w).2 = out w.

Definition answers {A} (m : M A) (a : A) : Prop := exists w, (m w).1 = a.

Lemma silent_ret {A} (a : A) : silent (mret a).
Proof. done. Qed.

Lemma silent_bind {A B} (m : M A) (f : A -> M B) :
  silent m -> (forall a, silent (f a)) -> silent (m ≫= f).
Proof.
  intros Hm Hf w. destruct (Hm w) as [E1 E2]. unfold mbind, M_bind. destruct (m w) as [a w']. cbn in *.
  destruct (Hf a w') as [E3 E4]. by rewrite E3, E4.
Qed.

Lemma silent_tick {A} (f : nat -> A * nat) : silent (with_tick f).
Proof. intros w. unfold with_tick. by destruct (f (tick w)). Qed.

Lemma silent_iterate {A} (f : nat -> A) : silent (iterate f).
Proof. apply silent_tick. Qed.

Lemma silent_time `{Clock} : silent time_now.
Proof. done. Qed.

Lemma answers_tick {A} (f : nat -> A * nat) a : answers (with_tick f) a -> exists n, a = (f n).1.
Proof. intros [w <-]. exists (tick w). unfold with_tick. by destruct (f (tick w)). Qed.

Lemma answers_iterate {A} (f : nat -> A) a : answers (iterate f) a -> exists n, a = f n.
Proof. apply answers_tick. Qed.

Lemma answers_ret {A} (a b : A) : answers (mret a) b -> b = a.
Proof. by intros [w <-]. Qed.

Lemma answers_bind {A B} (m : M A) (f : A -> M B) b :
  answers (m ≫= f) b -> exists a, answers m a /\ answers (f a) b.
Proof.
  intros [w <-]. exists (m w).1. split; [by exists w|]. unfold mbind, M_bind.
  destruct (m w) as [a w']. by exists w'.
Qed.

Create HintDb silent.
#[export] Hint Resolve silent_ret silent_tick silent_iterate silent_time : silent.

(** Binds of silent computations are silent. *)
Ltac silent :=
  repeat first [progress eauto with silent | apply silent_bind; [|intros ?]
               | progress cbv zeta | match goal with |- silent (match ?x with _ => _ end) => destruct x end].

Section components.

Context `{Compressors} `{MathLog2} `{Floats} `{Archives} `{Clock} `{MapOrder} `{UnicodeLower}.
Implicit Types (e : Engine) (st : SessionState).

Lemma silent_touch e seq label st : silent (touch e seq label st).
Proof. unfold touch. silent. Qed.

Lemma answers_touch e seq label st st' :
  answers (touch e seq label st) st' -> exists now, st' = touchSession e now seq label st.
Proof. intros (now & _ & E%answers_ret)%answers_bind. by exists now. Qed.

Lemma silent_timeline with_sink st i seqs : silent (timeline_items with_sink st i seqs).
Proof. revert i. induction seqs as [|seq seqs IH]; intros i; cbn [timeline_items]; silent. Qed.

#[local] Hint Resolve silent_timeline : silent.

Lemma silent_buildEvidence st ev v a c o : silent (buildEvidence st ev v a c o).
Proof. unfold buildEvidence. silent. Qed.

Lemma silent_buildB st ev v a c o : silent (buildEvidenceVariantB st ev v a c o).
Proof. unfold buildEvidenceVariantB. silent. Qed.

Lemma silent_buildDeny st ev : silent (buildLSMDenyEvidence st ev).
Proof. unfold buildLSMDenyEvidence. silent. Qed.

Lemma silent_detokenized e ev st : silent (detokenized e ev st).
Proof. unfold detokenized. silent. Qed.

Lemma silent_candidates e ev text st : silent (sensitive_candidates e ev text st).
Proof. unfold sensitive_candidates. silent. Qed.

Lemma silent_seed e st ev : silent (seedSensorSensitiveOpen e st ev).
Proof. unfold seedSensorSensitiveOpen. silent. Qed.

Lemma silent_egress_overlap e ev st : silent (egress_overlap e ev st).
Proof. unfold egress_overlap. silent. Qed.

End components.

#[export] Hint Resolve silent_touch silent_timeline silent_buildEvidence silent_buildB silent_buildDeny
  silent_detokenized silent_candidates silent_seed silent_egress_overlap : silent.

(** ** Triples *)

Section triples.

Context (id : bytes).

Definition runs {A} (S : SessionState) (m : M A) (Q : A -> SessionState -> list output -> Prop) : Prop :=
  forall w, store w !! id = Some S ->
  exists S' l, store (m w).2 !! id = Some S' /\ out (m w).2 = out w ++ l /\ Q (m w).1 S' l.

Lemma runs_ret {A} S (a : A) (Q : A -> SessionState -> list output -> Prop) : Q a S [] -> runs S (mret a) Q.
Proof. intros HQ w Hw. exists S, []. by rewrite app_nil_r. Qed.

Lemma runs_silent_bind {A B} S (m : M A) (f : A -> M B) Q :
  silent m -> (forall a, answers m a -> runs S (f a) Q) -> runs S (m ≫= f) Q.
Proof.
  intros Hm Hf w Hw. destruct (Hm w) as [E1 E2]. pose proof (Hf (m w).1 ltac:(by exists w)) as Hr.
  unfold mbind, M_bind. destruct (m w) as [a w']. cbn in *. rewrite <- E1 in Hw. rewrite <- E2. by apply Hr.
Qed.

Lemma runs_silent {A} S (m : M A) (Q : A -> SessionState -> list output -> Prop) :
  silent m -> (forall a, Q a S []) -> runs S m Q.
Proof.
  intros Hm HQ w Hw. destruct (Hm w) as [E1 E2]. exists S, []. by rewrite E1, E2, app_nil_r.
Qed.

Lemma runs_put_bind {A} S st (f : () -> M A) Q :
  SessionID st = id -> runs st (f ()) Q -> runs S (put_session st ≫= f) Q.
Proof.
  intros Hid Hf w Hw. unfold mbind, M_bind, put_session.
  apply (Hf {| store := Upsert st (store w); tick := tick w; out := out w |}).
  cbn [store]. unfold Upsert. by rewrite Hid, lookup_insert_eq.
Qed.

Lemma runs_put S st (Q : () -> SessionState -> list output -> Prop) :
  SessionID st = id -> Q () st [] -> runs S (put_session st) Q.
Proof.
  intros Hid HQ w Hw. exists st, []. cbn [put_session fst snd store out]. unfold Upsert.
  by rewrite Hid, lookup_insert_eq, app_nil_r.
Qed.

(** An output under a condition. *)
Lemma runs_emit_bind {A} S (b : bool) o (f : () -> M A) (Q : A -> SessionState -> list output -> Prop) :
  runs S (f ()) (λ a S' l, Q a S' ((if b then [o] else []) ++ l)) ->
  runs S ((if b then emit o else mret ()) ≫= f) Q.
Proof.
  intros Hf w Hw. unfold mbind, M_bind. destruct b.
  - destruct (Hf {| store := store w; tick := tick w; out := out w ++ [o] |} Hw) as (S' & l & E1 & E2 & HQ).
    cbn [emit]. exists S', ([o] ++ l). by rewrite E2, app_assoc.
  - destruct (Hf w Hw) as (S' & l & E1 & E2 & HQ). by exists S', l.
Qed.

Lemma runs_emit S (b : bool) o (Q : () -> SessionState -> list output -> Prop) :
  Q () S (if b then [o] else []) -> runs S (if b then emit o else mret ()) Q.
Proof.
  intros HQ w Hw. destruct b; [by exists S, [o]|]. exists S, []. by rewrite app_nil_r.
Qed.

Lemma runs_weaken {A} S (m : M A) (P Q : A -> SessionState -> list output -> Prop) :
  (forall a S' l, P a S' l -> Q a S' l) -> runs S m P -> runs S m Q.
Proof. intros HPQ Hm w Hw. destruct (Hm w Hw) as (S' & l & ? & ? & ?). eauto 10. Qed.

(** An answer that is not used. *)
Lemma runs_drop {A} S (m : M A) (Q : SessionState -> list output -> Prop) :
  runs S m (λ _, Q) -> runs S (m ≫= λ _, mret ()) (λ _ : (), Q).
Proof.
  intros Hm w Hw. destruct (Hm w Hw) as (S' & l & ? & ? & ?). unfold mbind, M_bind.
  destruct (m w) as [a w']. by exists S', l.
Qed.

(** The lookup of a session that exists. *)
Lemma runs_create {A} `{Clock} `{MapOrder} S (f : SessionState -> M A) Q :
  runs S (f S) Q -> runs S (get_or_create id ≫= f) Q.
Proof.
  intros Hf w Hw. unfold mbind, M_bind, get_or_create. rewrite (GetOrCreate_hit _ _ _ _ S) by done.
  apply (Hf {| store := store w; tick := Datatypes.S (tick w); out := out w |} Hw).
Qed.

Lemma runs_get {A} S (f : option SessionState -> M A) Q :
  runs S (f (Some S)) Q -> runs S (get_session id ≫= f) Q.
Proof.
  intros Hf w Hw. unfold mbind, M_bind, get_session, Get. rewrite Hw. by apply Hf.
Qed.

(** The creation of one that does not. *)
Lemma runs_new {A} `{Clock} `{MapOrder} (f : SessionState -> M A) (Q : A -> SessionState -> list output -> Prop) w :
  store w !! id = None -> (forall now, runs (new_session id now) (f (new_session id now)) Q) ->
  exists S' l, store ((get_or_create id ≫= f) w).2 !! id = Some S' /\
    out ((get_or_create id ≫= f) w).2 = out w ++ l /\ Q ((get_or_create id ≫= f) w).1 S' l.
Proof.
  intros Hw Hf. unfold mbind, M_bind, get_or_create.
  pose proof (GetOrCreate_lookup (tick w) (clock (tick w)) id (store w)) as Hl.
  assert ((GetOrCreate (tick w) (clock (tick w)) id (store w)).1 = new_session id (clock (tick w))) as En
    by (unfold GetOrCreate; by rewrite Hw).
  destruct (GetOrCreate _ _ _ _) as [st s]. cbn [fst snd] in *. subst st.
  apply (Hf _ {| store := s; tick := S (tick w); out := out w |} Hl).
Qed.

(** Either way: the session [f] starts from is the stored or a new one. *)
Lemma runs_any {A} `{Clock} `{MapOrder} (f : SessionState -> M A)
    (Q : SessionState -> A -> SessionState -> list output -> Prop) w :
  store_ok (store w) -> (forall S, SessionID S = id -> runs S (f S) (Q S)) ->
  exists S S' l, (store w !! id = Some S \/ store w !! id = None /\ exists now, S = new_session id now) /\
    store ((get_or_create id ≫= f) w).2 !! id = Some S' /\
    out ((get_or_create id ≫= f) w).2 = out w ++ l /\ Q S ((get_or_create id ≫= f) w).1 S' l.
Proof.
  intros Hw Hf. destruct (store w !! id) as [S|] eqn:E.
  - destruct (runs_create S f (Q S) (Hf S (proj2 Hw _ _ E)) w E) as (S' & l & ?).
    exists S, S', l. split; [by left|done].
  - destruct (runs_new f (λ a S' l, exists now, Q (new_session id now) a S' l) w E)
      as (S' & l & E1 & E2 & now & HQ).
    { intros now. eapply runs_weaken; [|by apply Hf]. cbn. eauto. }
    exists (new_session id now), S', l. split; [right; eauto|done].
Qed.

End triples.

(** The steps of [runs] goals. *)
Ltac runs_step :=
  cbv zeta; lazymatch goal with
  | |- runs _ _ (mret _) _ => apply runs_ret
  | |- runs _ _ (put_session _) _ => apply runs_put
  | |- runs _ _ (if _ then emit _ else mret ()) _ => apply runs_emit
  | |- runs _ _ (mbind _ (put_session _)) _ => apply runs_put_bind
  | |- runs _ _ (mbind _ (if _ then emit _ else mret ())) _ => apply runs_emit_bind
  | |- runs _ _ (mbind _ (get_or_create _)) _ => apply runs_create
  | |- runs _ _ (mbind _ (get_session _)) _ => apply runs_get
  | |- runs _ _ (mbind _ (touch _ _ _ _)) _ =>
      apply runs_silent_bind; [solve [silent]|intros ? [? ->]%answers_touch]
  | |- runs _ _ (mbind _ (iterate _)) _ =>
      apply runs_silent_bind; [solve [silent]|intros ? [? ->]%answers_iterate]
  | |- runs _ _ (mbind _ (with_tick _)) _ =>
      apply runs_silent_bind; [solve [silent]|intros ? [? ->]%answers_tick]
  | |- runs _ _ (mbind _ _) _ => apply runs_silent_bind; [solve [silent]|intros ? ?]
  end.
