(* ===== verification/EngineInvariants.v ===== *)
(** * Invariants of the sessions

    What a call can do to the taint, the fragments and the excerpts of its session, and
    what therefore holds of every session the engine ever reaches. *)

From S2P Require Import Prelude Go GoTime Config GoStrings Encodings Json Model Store Tagger.
From S2P Require Import Egress EgressTheorems Regex Taint TaintTheorems Overlap OverlapTheorems.
From S2P Require Import Container Match Engine EngineFacts EngineRuns.

Section externals.

Context `{Compressors} `{MathLog2} `{Floats} `{Archives} `{Clock} `{MapOrder} `{UnicodeLower}.
Implicit Types (e : Engine) (st S : SessionState).

(** ** Steps that add no taint *)

Definition fragments_ok e st : Prop :=
  within (or_default (fragmentMaxChunks e) defaultFragmentChunks)
         (or_default (fragmentMaxBytes e) defaultFragmentBytes) (FragmentChunks st).

Definition excerpts_ok st : Prop :=
  (length (UntrustedExcerpts st) <= maxUntrustedExcerpts)%nat /\
  Forall (λ x, (length x <= maxUntrustedExcerpt)%nat) (UntrustedExcerpts st).

(** Every token of the vault is the one of the secret it stands for. *)
Definition vault_entry_ok (d : bytes) (entry : VaultEntry) : Prop :=
  d = VaultDummy (Real entry) /\ Real entry ≠ [] /\ vClass entry = VaultSecretClassExtracted.
Definition vault_ok st : Prop := map_Forall vault_entry_ok (Vault st).

(** Same taint, the bounded buffers stay bounded and the vault stays what it is to be. *)
Definition quiet e st st' : Prop :=
  Tainted st' = Tainted st /\ (fragments_ok e st -> fragments_ok e st') /\ (excerpts_ok st -> excerpts_ok st') /\
  (vault_ok st -> vault_ok st').

#[export] Instance quiet_pre e : PreOrder (quiet e).
Proof.
  split; [done|]. intros x y z (E1 & F1 & G1 & V1) (E2 & F2 & G2 & V2). split_and!; [congruence|auto..].
Qed.

(** Fields that [quiet] speaks of are untouched. *)
Lemma quiet_same e st st' :
  Tainted st' = Tainted st -> FragmentChunks st' = FragmentChunks st ->
  UntrustedExcerpts st' = UntrustedExcerpts st -> Vault st' = Vault st -> quiet e st st'.
Proof. intros E1 E2 E3 E4. unfold quiet, fragments_ok, excerpts_ok, vault_ok. by rewrite E1, E2, E3, E4. Qed.

Lemma quiet_touch e now seq label st : quiet e st (touchSession e now seq label st).
Proof.
  unfold touchSession, pruneLegs.
  destruct (decayed _ _ _ (UntrustedContentPresent _)), (seq =? 0); try destruct (_ && negb _);
    (by apply quiet_same) || (split_and!; [done|done| |done]; intros _; split; cbn; [lia|constructor]).
Qed.

Lemma quiet_stash e e' n ev st : quiet e st (stashSensitiveReadPath e' n ev st).
Proof.
  unfold stashSensitiveReadPath. destruct (tagger e'); [|done]. destruct (negb _); [done|].
  destruct (List.find _ _); [by apply quiet_same|done].
Qed.

Lemma quiet_setSink e now ev st : quiet e st (setExternalSinkInvoked now ev st).
Proof. unfold setExternalSinkInvoked. destruct (Lit _); [done|by apply quiet_same]. Qed.

Lemma quiet_setSensitive e now ev st : quiet e st (setSensitiveSourceTouched now ev st).
Proof. unfold setSensitiveSourceTouched. destruct (Lit _); [done|by apply quiet_same]. Qed.

Lemma quiet_light_sink e leg st : quiet e st (light_sink leg st).
Proof. by apply quiet_same. Qed.

Lemma quiet_light_sensitive e leg st : quiet e st (light_sensitive leg st).
Proof. by apply quiet_same. Qed.

Lemma quiet_trip e c st : quiet e st (trip c st).
Proof. by apply quiet_same. Qed.

Lemma quiet_consume e server tool st : quiet e st (consumePendingSensitiveReadPath server tool st).2.
Proof. by apply quiet_same. Qed.

Lemma quiet_vaultMint e e' vs st : quiet e st (vaultMint e' vs st).
Proof.
  unfold vaultMint. destruct (_ || _); [done|]. split_and!; [done..|]. unfold vault_ok. cbn [Vault set_Vault].
  generalize (Vault st) as v. induction vs as [|tv vs IH]; intros v Hv; [done|]. cbn. apply IH. unfold mint.
  destruct (Value tv); [done|]. by apply map_Forall_insert_2.
Qed.

Lemma quiet_appendFragment e x st : quiet e st (appendFragment e x st).
Proof.
  unfold appendFragment. destruct (TrimRight x _) as [|c s]; [done|]. split_and!; [done| |done..].
  intros _. apply shed_within; (apply Z.lt_le_incl, or_default_pos; done).
Qed.

Lemma quiet_setUntrusted e now ev x st : quiet e st (setUntrustedContentPresent now ev x st).
Proof.
  transitivity (storeUntrustedExcerpt x st).
  - unfold storeUntrustedExcerpt. destruct (TrimSpace x) as [|c s]; [done|]. split_and!; [done|done| |done].
    intros [Hl Hf]. unfold excerpts_ok. cbn [UntrustedExcerpts set_UntrustedExcerpts].
    split; [|rewrite Forall_app, Forall_singleton, length_take; split; [|lia]].
    + rewrite length_app. cbn [length]. destruct (Nat.leb_spec maxUntrustedExcerpts (length (UntrustedExcerpts st)));
        rewrite ?length_drop; unfold maxUntrustedExcerpts in *; lia.
    + destruct (_ <=? _)%nat; [by apply Forall_drop|done].
  - unfold setUntrustedContentPresent. destruct (Lit _); [done|by apply quiet_same].
Qed.

Lemma quiet_egress e e' n now ev st : quiet e st (egressCandidatePayload e' n now ev st).2.
Proof.
  unfold egressCandidatePayload, appendEgressFlowFragment. destruct (_ || _); [done|].
  destruct (normalizedEgressFragment ev); [done|]. destruct (egressReassemblyEnabled e'); [|done].
  destruct (egressFlowKey ev), (appendFlow _ _ _ _ _ _ _ _), (appendFlow _ _ _ _ _ _ _ _).
  by apply quiet_same.
Qed.

(** ** What a call does *)

(** At most one registration of taint, and quiet steps before and after it. *)
Definition effect e st st' : Prop :=
  quiet e st st' \/
  exists cs st1, quiet e st st1 /\ quiet e (addTainted e cs st1).2 st'.

Lemma effect_pre e st st1 st' : quiet e st st1 -> effect e st1 st' -> effect e st st'.
Proof.
  intros Hq [Hs|(cs & x & Hs & Hp)]; [left; by transitivity st1|].
  right. exists cs, x. split; [by transitivity st1|done].
Qed.

Lemma effect_post e st st1 st' : effect e st st1 -> quiet e st1 st' -> effect e st st'.
Proof.
  intros [Hs|(cs & x & Hs & Hp)] Hq; [left; by transitivity st1|].
  right. exists cs, x. split; [done|by transitivity st1].
Qed.

Lemma effect_quiet e st st' : quiet e st st' -> effect e st st'.
Proof. by left. Qed.

Lemma effect_add e cs st : effect e st (addTainted e cs st).2.
Proof. right. by exists cs, st. Qed.

Lemma effect_taint e st st' : effect e st st' -> taint_step e (Tainted st) (Tainted st').
Proof.
  intros [[E _]|(cs & x & [E _] & [E' _])]; [by left|]. rewrite E', <- E. apply addTainted_step.
Qed.

(** The invariant of a session. *)
Definition session_ok e st : Prop := taint_ok (Tainted st) /\ fragments_ok e st /\ excerpts_ok st /\ vault_ok st.

Lemma quiet_ok e st st' : quiet e st st' -> session_ok e st -> session_ok e st'.
Proof. intros (E & F & G & V) (? & ? & ? & ?). unfold session_ok. rewrite E. auto. Qed.

Lemma addTainted_ok e cs st : session_ok e st -> session_ok e (addTainted e cs st).2.
Proof.
  intros (Ht & Hf & Hx & Hv). split_and!.
  { eapply taint_step_ok; [apply addTainted_step|done]. }
  all: rewrite addTainted_eq; cbn [snd]; by destruct (decide _).
Qed.

Lemma effect_ok e st st' : effect e st st' -> session_ok e st -> session_ok e st'.
Proof.
  intros [Hq|(cs & x & H1' & H2')] Hok; [by eapply quiet_ok|].
  eapply quiet_ok; [done|]. apply addTainted_ok. by eapply quiet_ok.
Qed.

Lemma new_session_ok e id now : session_ok e (new_session id now).
Proof.
  split_and!; [split; [constructor|done]| |split; [cbn; lia|constructor]|apply map_Forall_empty].
  unfold fragments_ok. cbn [new_session FragmentChunks].
  pose proof (or_default_pos (fragmentMaxChunks e) defaultFragmentChunks ltac:(done)).
  pose proof (or_default_pos (fragmentMaxBytes e) defaultFragmentBytes ltac:(done)).
  split; unfold len; cbn; lia.
Qed.

End externals.

Create HintDb quiet.
#[export] Hint Resolve quiet_touch quiet_stash quiet_setSink quiet_setSensitive quiet_light_sink
  quiet_light_sensitive quiet_trip quiet_consume quiet_vaultMint quiet_appendFragment
  quiet_setUntrusted quiet_egress : quiet.

(** Chains of quiet steps. *)
Ltac quiet_chain :=
  first [done | solve [eauto with quiet]
        | etransitivity; [|solve [eauto with quiet]]; quiet_chain].

(** ** Every operation has the effect *)

Section operations.

Context `{Compressors} `{MathLog2} `{Floats} `{Archives} `{Clock} `{MapOrder} `{UnicodeLower}.
Context (e : Engine) (sink audit : bool).
Implicit Types (S st : SessionState).

(** The candidates of a sensitive result, and the session they are added to. *)
Lemma answers_candidates ev text st r :
  answers (sensitive_candidates e ev text st) r ->
  r.2 = (consumePendingSensitiveReadPath (ieServerID ev) (ieToolName ev) (appendFragment e text st)).2 /\
  exists now rest, r.1 =
    ExtractTaintedValues now text (ieServerID ev ++ slash :: ieToolName ev) (ieSeq ev) ++ rest.
Proof.
  unfold sensitive_candidates. intros (now & _ & Hr)%answers_bind.
  apply answers_bind in Hr as (now2 & _ & Hr).
  destruct (consumePendingSensitiveReadPath _ _ _) as [p st'] eqn:E.
  apply answers_bind in Hr as (now3 & _ & Hr).
  apply answers_bind in Hr as (inner & _ & ->%answers_ret). cbn [fst snd]. split; [done|].
  by eexists now, _.
Qed.

Lemma quiet_candidates ev text st r :
  answers (sensitive_candidates e ev text st) r -> quiet e st r.2.
Proof. intros [-> _]%answers_candidates. quiet_chain. Qed.

Lemma answers_seed st ev st' :
  answers (seedSensorSensitiveOpen e st ev) st' -> effect e st st' /\ SessionID st' = SessionID st.
Proof.
  unfold seedSensorSensitiveOpen. intros (now & _ & Ha)%answers_bind.
  set (st1 := if Lit _ then st else _) in Ha.
  assert (quiet e st st1 /\ SessionID st1 = SessionID st) as [Hq Hid]
    by (unfold st1; destruct (Lit _); split; done || quiet_chain).
  destruct (seFileContents ev).
  { apply answers_ret in Ha as ->. split; [by apply effect_quiet|done]. }
  apply answers_bind in Ha as (now1 & _ & Ha). apply answers_bind in Ha as (now2 & _ & Ha).
  apply answers_bind in Ha as (inner & _ & ->%answers_ret).
  split; [eapply effect_pre; [done|apply effect_add]|by rewrite SessionID_addTainted].
Qed.

Lemma answers_overlap ev st r : answers (egress_overlap e ev st) r -> quiet e st r.2.
Proof.
  unfold egress_overlap. intros (now & _ & Ha)%answers_bind.
  apply answers_bind in Ha as ([p st'] & [n En]%answers_tick & Ha). cbn [fst] in En.
  apply answers_bind in Ha as ([o ab] & _ & ->%answers_ret). cbn [snd].
  pose proof (quiet_egress e e n now ev st) as Hq. by rewrite <- En in Hq.
Qed.

(** The session after a trip. *)
Lemma effect_finish id X S st ev v c o r :
  SessionID st = id -> effect e S st ->
  runs id X (finishVariantBSyscallTrip sink st ev v c o r) (λ _ S' _, effect e S S').
Proof.
  intros Hid He. unfold finishVariantBSyscallTrip. destruct (variantBAction v) as [allow ac].
  runs_step; [done|]. runs_step. runs_step. runs_step.
  eapply effect_post; [done|]. quiet_chain.
Qed.

#[local] Ltac id_done := autorewrite with layout in *; cbn [SessionID set_Tainted set_Vault] in *; congruence.

Lemma effect_IngestResult f ev S :
  SessionID S = ieSessionID ev -> runs (ieSessionID ev) S (IngestResult e f ev) (λ _ S' _, effect e S S').
Proof.
  intros Hid. unfold IngestResult. runs_step. runs_step. runs_step.
  destruct (match tagger e with Some t => _ | None => false end).
  - runs_step. destruct (extractResultText _ _).
    { runs_step; [id_done|]. apply effect_quiet. quiet_chain. }
    apply runs_silent_bind; [silent|]. intros [cs st'] Hs.
    pose proof (quiet_candidates _ _ _ _ Hs) as Hq. apply answers_candidates in Hs as [Es _].
    cbn [snd] in Hq, Es.
    pose proof (effect_add e cs st') as Ha. pose proof (SessionID_addTainted e cs st') as Hi.
    destruct (addTainted e cs st') as [added st2]. cbn [snd] in Ha, Hi.
    runs_step; [rewrite SessionID_vaultMint, Hi, Es; id_done|]. runs_step.
    eapply effect_post; [|apply quiet_vaultMint]. eapply effect_pre; [|exact Ha].
    etransitivity; [|exact Hq]. quiet_chain.
  - destruct (untrustedToolResults e).
    + runs_step. runs_step; [id_done|]. runs_step. apply effect_quiet. quiet_chain.
    + runs_step; [id_done|]. apply effect_quiet. quiet_chain.
Qed.

Lemma effect_Evaluate ev S :
  SessionID S = ieSessionID ev ->
  runs (ieSessionID ev) S (EvaluateRequest e sink ev) (λ _ S' _, effect e S S').
Proof.
  intros Hid. unfold EvaluateRequest. do 3 runs_step. destruct (negb _).
  { runs_step; [id_done|]. runs_step. apply effect_quiet. quiet_chain. }
  runs_step. apply runs_silent_bind; [silent|]. intros [args fwd] _. runs_step.
  destruct (CheckOverlapLimited _ _ _ _ _) as [[o ab] k]. cbn [fst].
  destruct (classifyTrip _ _ _ _ _ _) as [[v c]|].
  - destruct (proxyAction e v) as [allow ac]. runs_step; [id_done|]. runs_step. runs_step. runs_step.
    apply effect_quiet. quiet_chain.
  - runs_step; [id_done|]. runs_step. apply effect_quiet. quiet_chain.
Qed.

Lemma effect_deny ev S :
  runs (seSessionID ev) S (ingestLSMDeny sink audit ev) (λ _ S' _, effect e S S').
Proof.
  unfold ingestLSMDeny, recordUnattributedSyscall, emit_audit. destruct (seSessionID ev) as [|c s].
  { runs_step. runs_step. by apply effect_quiet. }
  runs_step. destruct (decide _).
  - runs_step. runs_step. runs_step. by apply effect_quiet.
  - runs_step. by apply effect_quiet.
Qed.

(** The overlap step of the two ingest functions. *)
Lemma silent_overlap (b : bool) ev st :
  silent (if b then mret (None, ContainerAbortNone, st) else egress_overlap e ev st).
Proof. destruct b; silent. Qed.

Lemma answers_maybe_overlap (b : bool) ev st r :
  answers (if b then mret (None, ContainerAbortNone, st) else egress_overlap e ev st) r ->
  quiet e st r.2 /\ SessionID r.2 = SessionID st.
Proof.
  intros Ha. destruct b; [by apply answers_ret in Ha as ->|]. split; [by eapply answers_overlap|].
  unfold egress_overlap in Ha. apply answers_bind in Ha as (now & _ & Ha).
  apply answers_bind in Ha as ([p st'] & [n En]%answers_tick & Ha). cbn [fst] in En.
  apply answers_bind in Ha as ([o ab] & _ & ->%answers_ret). cbn [snd].
  pose proof (SessionID_egress e n now ev st) as Hs. by rewrite <- En in Hs.
Qed.

Lemma effect_Syscall ev S :
  SessionID S = seSessionID ev ->
  runs (seSessionID ev) S (IngestSyscall e sink audit ev) (λ _ S' _, effect e S S').
Proof.
  intros Hid. unfold IngestSyscall. destruct (decide _); [apply effect_deny|].
  destruct (seSessionID ev) as [|c s] eqn:E.
  { unfold recordUnattributedSyscall, emit_audit. runs_step. runs_step. by apply effect_quiet. }
  do 3 runs_step. cbv zeta. set (st1 := if Lit _ then _ else _).
  assert (quiet e S st1 /\ SessionID st1 = c :: s) as [Hq Hst1]
    by (unfold st1; destruct (Lit _); split; try id_done; quiet_chain).
  apply runs_silent_bind; [apply silent_overlap|].
  intros [[o ab] st2] [Hq2 Hst2]%answers_maybe_overlap. cbn [snd] in Hq2, Hst2.
  destruct (classifyTrip _ _ _ _ _ _) as [[v cf]|].
  - apply effect_finish; [congruence|]. apply effect_quiet. by transitivity st1.
  - runs_step; [congruence|]. runs_step. apply effect_quiet. by transitivity st1.
Qed.

Lemma effect_Sensor ev S :
  SessionID S = seSessionID ev ->
  runs (seSessionID ev) S (IngestSyscallSensor e sink audit ev) (λ _ S' _, effect e S S').
Proof.
  intros Hid. unfold IngestSyscallSensor. destruct (decide _); [apply effect_deny|].
  destruct (seSessionID ev) as [|c s] eqn:E.
  { unfold recordUnattributedSyscall, emit_audit. runs_step. runs_step. by apply effect_quiet. }
  do 2 runs_step. destruct (decide _).
  - apply runs_silent_bind; [silent|]. intros st' [He Hi]%answers_seed.
    runs_step; [id_done|]. runs_step. eapply effect_pre; [|exact He]. quiet_chain.
  - runs_step. cbv zeta. apply runs_silent_bind; [apply silent_overlap|].
    intros [[o ab] st2] [Hq2 Hst2]%answers_maybe_overlap. cbn [snd] in Hq2, Hst2.
    assert (quiet e S st2) as Hq by (etransitivity; [|exact Hq2]; quiet_chain).
    destruct (classifyTrip _ _ _ _ _ _) as [[v cf]|].
    + apply effect_finish; [id_done|]. by apply effect_quiet.
    + runs_step; [id_done|]. runs_step. by apply effect_quiet.
Qed.

Lemma perform_effect c S :
  SessionID S = session_of c ->
  runs (session_of c) S (perform e sink audit c) (λ _ S' _, effect e S S').
Proof.
  intros Hid. destruct c as [f ev|ev|ev|ev|id tv|id source seq|id d|ev|id frame]; cbn [perform session_of] in *.
  - by apply effect_IngestResult.
  - by apply runs_drop, effect_Evaluate.
  - by apply runs_drop, effect_Syscall.
  - by apply runs_drop, effect_Sensor.
  - unfold RegisterRemoteTaint. destruct (_ || _); [runs_step; by apply effect_quiet|].
    runs_step. runs_step. runs_step. runs_step. runs_step; [destruct (Lit _); id_done|].
    eapply effect_pre; [|apply effect_add]. destruct (Lit _); quiet_chain.
  - unfold RegisterRemoteUntrusted. destruct (bool_decide _); [runs_step; by apply effect_quiet|].
    runs_step. runs_step. destruct (Lit _).
    + runs_step; [id_done|]. apply effect_quiet. quiet_chain.
    + runs_step. runs_step; [id_done|]. apply effect_quiet.
      etransitivity; [apply quiet_touch|by apply quiet_same].
  - unfold RewindLegClocks. destruct (_ || _); [runs_step; by apply effect_quiet|].
    runs_step. runs_step; [done|]. apply effect_quiet. by apply quiet_same.
  - apply runs_drop. unfold RedactEvent. runs_step. runs_step. by apply effect_quiet.
  - apply runs_drop. unfold VaultRewriteFrame. destruct (_ || _); [runs_step; by apply effect_quiet|].
    runs_step. apply runs_silent; [silent|]. intros _. by apply effect_quiet.
Qed.

(** *** Sessions that a call creates *)

(** The world with the session created. *)
Definition created (id : bytes) (w : World) : World := {|
  store := (GetOrCreate (tick w) (clock (tick w)) id (store w)).2; tick := tick w; out := out w |}.

Lemma bind_created {A} id (f : SessionState -> M A) w :
  (get_or_create id ≫= f) w = (get_or_create id ≫= f) (created id w).
Proof.
  unfold mbind, M_bind, get_or_create, created. cbn [store tick out].
  pose proof (GetOrCreate_lookup (tick w) (clock (tick w)) id (store w)) as Hl.
  rewrite (GetOrCreate_hit _ _ _ _ _ Hl). by destruct (GetOrCreate _ _ _ _).
Qed.

Lemma drop_bind {A} (m m' : M A) w w' : m w = m' w' -> (m ≫= λ _, mret ()) w = (m' ≫= λ _, mret ()) w'.
Proof. unfold mbind, M_bind. by intros ->. Qed.

(** The answer is dropped, the store stays. *)
Lemma drop_store {A} (m : M A) w : store (m w).2 = store w -> store ((m ≫= λ _, mret ()) w).2 = store w.
Proof. unfold mbind, M_bind. by destruct (m w). Qed.

Lemma deny_store ev w : store (ingestLSMDeny sink audit ev w).2 = store w.
Proof.
  unfold ingestLSMDeny, recordUnattributedSyscall, emit_audit, get_session.
  destruct (seSessionID ev) as [|c s]; unfold mbind, M_bind; [by destruct audit|].
  destruct (Get (c :: s) (store w)) as [st|]; [|done]. destruct (decide _); [|done].
  pose proof (silent_buildDeny st ev w) as [E _]. destruct (buildLSMDenyEvidence st ev w) as [rec w'].
  by destruct sink.
Qed.

(** A call on a session that does not exist leaves the store alone or creates it first. *)
Lemma perform_new c w :
  store w !! session_of c = None ->
  store (perform e sink audit c w).2 = store w \/
  perform e sink audit c w = perform e sink audit c (created (session_of c) w).
Proof.
  intros Hw. destruct c as [f ev|ev|ev|ev|id tv|id source seq|id d|ev|id frame]; cbn [perform session_of] in *.
  - right. apply bind_created.
  - right. apply drop_bind, bind_created.
  - unfold IngestSyscall. destruct (decide _); [left; apply drop_store, deny_store|].
    destruct (seSessionID ev); [left; by destruct audit|]. right. apply drop_bind, bind_created.
  - unfold IngestSyscallSensor. destruct (decide _); [left; apply drop_store, deny_store|].
    destruct (seSessionID ev); [left; by destruct audit|]. right. apply drop_bind, bind_created.
  - unfold RegisterRemoteTaint. destruct (_ || _); [by left|]. right. apply bind_created.
  - unfold RegisterRemoteUntrusted. destruct (bool_decide _); [by left|]. right. apply bind_created.
  - left. unfold RewindLegClocks. destruct (_ || _); [done|].
    unfold mbind, M_bind, get_session, Get. by rewrite Hw.
  - left. unfold RedactEvent, mbind, M_bind, get_session, Get. by rewrite Hw.
  - left. unfold VaultRewriteFrame. destruct (_ || _); [done|].
    unfold mbind, M_bind, get_session, Get. by rewrite Hw.
Qed.

(** What a call makes of any session, as a relation between the two worlds. *)
Lemma perform_session c w id S' :
  store_ok (store w) -> store (perform e sink audit c w).2 !! id = Some S' ->
  exists S, effect e S S' /\ (store w !! id = Some S \/
    store w !! id = None /\ exists now, S = new_session id now).
Proof.
  intros Hw HS'. destruct (perform_confined e sink audit c w Hw) as (_ & Ho & _).
  destruct (decide (id = session_of c)) as [->|Hne].
  2: { destruct (Ho id Hne) as [E|(_ & _ & E)]; [|congruence]. rewrite E in HS'.
       exists S'. split; [by apply effect_quiet|by left]. }
  destruct (store w !! session_of c) as [S|] eqn:E.
  { destruct (perform_effect c S (proj2 Hw _ _ E) w E) as (S2 & l & E2 & _ & He).
    rewrite E2 in HS'. injection HS' as <-. exists S. split; [done|by left]. }
  destruct (perform_new c w E) as [Es|Ec]; [rewrite Es in HS'; congruence|].
  pose proof (GetOrCreate_lookup (tick w) (clock (tick w)) (session_of c) (store w)) as Hl.
  set (S := (GetOrCreate (tick w) (clock (tick w)) (session_of c) (store w)).1) in *.
  assert (S = new_session (session_of c) (clock (tick w))) as Hn by (unfold S, GetOrCreate; by rewrite E).
  destruct (perform_effect c S ltac:(by rewrite Hn) (created (session_of c) w) Hl) as (S2 & l & E2 & _ & He).
  rewrite <- Ec, HS' in E2. injection E2 as <-. exists S. split; [done|right]. by eauto.
Qed.

Definition sessions_ok (w : World) : Prop :=
  store_ok (store w) /\ map_Forall (λ _ st, session_ok e st) (store w).

Lemma perform_sessions_ok c w : sessions_ok w -> sessions_ok (perform e sink audit c w).2.
Proof.
  intros [Hw Hs]. split; [apply (perform_confined e sink audit c w Hw)|].
  intros id S' HS'. destruct (perform_session c w id S' Hw HS') as (S & He & [E|[_ [now ->]]]).
  - eapply effect_ok; [done|]. by apply (Hs id).
  - eapply effect_ok; [done|apply new_session_ok].
Qed.

End operations.
