(* ===== verification/EngineTheorems.v ===== *)
(** * What the engine guarantees

    Isolation of sessions, the meaning of every decision, and that a registered secret does
    not leave through a tool call. *)

From S2P Require Import Prelude Go GoTime Config GoStrings Encodings Json Model Store Tagger.
From S2P Require Import Egress EgressTheorems Regex Taint TaintTheorems Overlap OverlapTheorems Container.
From S2P Require Import Match Carried Engine EngineFacts Demo EngineRuns EngineInvariants.

Section externals.

Context `{Compressors} `{MathLog2} `{Floats} `{Archives} `{Clock} `{MapOrder} `{UnicodeLower}.

(** ** Runs *)

Fixpoint perform_all (e : Engine) (sink audit : bool) (cs : list call) : M () :=
  match cs with
  | [] => mret ()
  | c :: cs => _ ← perform e sink audit c; perform_all e sink audit cs
  end.

Definition start : World := {| store := NewSessionStore; tick := 0; out := [] |}.

(** The world after the calls [cs]. *)
Definition after (e : Engine) (sink audit : bool) (cs : list call) (w : World) : World :=
  (perform_all e sink audit cs w).2.

Lemma after_ok e sink audit cs w : store_ok (store w) -> store_ok (store (after e sink audit cs w)).
Proof.
  unfold after. revert w. induction cs as [|c cs IH]; intros w Hw; [done|]. cbn [perform_all].
  destruct (perform_confined e sink audit c w Hw) as [Hok _].
  unfold mbind, M_bind. destruct (perform e sink audit c w) as [a w']. by apply IH.
Qed.

(** ** The record of a trip *)

Lemma buildEvidence_fields st ev v a c o w :
  let rec := (buildEvidence st ev v a c o w).1 in
  erVerdict rec = v /\ erAction rec = a /\ ValueOverlap rec = o /\ erLegs rec = Legs st /\
  erVariant rec = VariantA /\ erSessionID rec = SessionID st.
Proof.
  unfold buildEvidence, mbind, M_bind. destruct (timeline_items _ _ _ _ w) as [items w1].
  destruct (time_now w1) as [now w2]. done.
Qed.

Lemma buildB_fields st ev v a c o w :
  let rec := (buildEvidenceVariantB st ev v a c o w).1 in
  erVerdict rec = v /\ erAction rec = a /\ ValueOverlap rec = o /\ erLegs rec = Legs st /\
  erVariant rec = VariantB /\ erSessionID rec = SessionID st.
Proof.
  unfold buildEvidenceVariantB, mbind, M_bind. destruct (timeline_items _ _ _ _ w) as [items w1].
  destruct (time_now w1) as [now w2]. done.
Qed.

Lemma on_buildEvidence_fields id st ev v a c o :
  on_session id (λ rec, erVerdict rec = v /\ erAction rec = a /\ ValueOverlap rec = o /\ erLegs rec = Legs st)
    (buildEvidence st ev v a c o).
Proof.
  intros w Hw. destruct (on_buildEvidence id st ev v a c o w Hw) as (Hh & Hl & _).
  destruct (buildEvidence_fields st ev v a c o w) as (? & ? & ? & ? & _). done.
Qed.

Lemma on_buildB_fields id st ev v a c o :
  on_session id (λ rec, erVerdict rec = v /\ erAction rec = a /\ ValueOverlap rec = o /\ erLegs rec = Legs st)
    (buildEvidenceVariantB st ev v a c o).
Proof.
  intros w Hw. destruct (on_buildB id st ev v a c o w Hw) as (Hh & Hl & _).
  destruct (buildB_fields st ev v a c o w) as (? & ? & ? & ? & _). done.
Qed.

(** ** The meaning of a decision *)

(** What a verdict says about the evidence: EXFIL comes with the tainted value that was
    found, SUSPICIOUS with three lit legs. *)
Definition justified (v : verdict) (rec : EvidenceRecord) : Prop :=
  erVerdict rec = v /\
  match v with
  | NoVerdict => False
  | VerdictExfil => is_Some (ValueOverlap rec)
  | VerdictSuspicious => ValueOverlap rec = None /\ AllLit (erLegs rec) = true
  end.

Lemma classify_justified e st o payload chan ab v c :
  classifyTrip e st o payload chan ab = Some (v, c) ->
  match v with
  | NoVerdict => False
  | VerdictExfil => is_Some o
  | VerdictSuspicious => o = None /\ AllLit (Legs st) = true
  end.
Proof.
  unfold classifyTrip. destruct o as [h|]; [intros [= <- _]; by exists h|].
  destruct (AllLit (Legs st)); [|done]. cbn [negb].
  destruct (negb chan); [by intros [= <- _]|].
  destruct (CheckContentBind (UntrustedExcerpts st) payload (contentBindMinLen e));
    [by intros [= <- _]|].
  destruct (negb (bool_decide (ab = ContainerAbortNone))); by intros [= <- _].
Qed.

Lemma justified_intro e st o payload chan ab v c rec :
  classifyTrip e st o payload chan ab = Some (v, c) ->
  erVerdict rec = v -> ValueOverlap rec = o -> erLegs rec = Legs st -> justified v rec.
Proof.
  intros Hc Hv Ho Hl. split; [done|]. apply classify_justified in Hc. rewrite Ho, Hl. done.
Qed.

(** A decision of EvaluateRequest. *)
Definition request_decision_ok (e : Engine) (ev : InterceptedEvent) (d : Decision) : Prop :=
  (Allow d = false -> dVerdict d = VerdictExfil /\ dAction d = ActionPrevented /\
     mode e ≠ gostr "monitor" /\ ForwardArgs d = None) /\
  (dVerdict d ≠ NoVerdict -> exists rec, Evidence d = Some rec /\ justified (dVerdict d) rec) /\
  (dVerdict d = VerdictExfil -> mode e ≠ gostr "monitor" -> Allow d = false) /\
  (ForwardArgs d ≠ None -> Allow d = true /\ vaultEnabled e = true /\
     is_Some (vaultToolAuthorized e (ieToolName ev))) /\
  (dVerdict d ≠ NoVerdict -> is_external_sink e ev = true).

Lemma on_detokenized_auth e id ev st :
  on_session id (λ r, r.2 ≠ None -> vaultEnabled e = true /\ is_Some (vaultToolAuthorized e (ieToolName ev)))
    (detokenized e ev st).
Proof.
  unfold detokenized. destruct (vaultEnabled e); cbn [negb]; [|by apply on_ret].
  destruct (vaultToolAuthorized e (ieToolName ev)) as [ac|]; [|by apply on_ret].
  on_step. apply on_ret. intros _. split; [done|by exists ac].
Qed.

Lemma proxyAction_spec e v :
  ((proxyAction e v).1 = false -> v = VerdictExfil /\ mode e ≠ gostr "monitor" /\
     (proxyAction e v).2 = ActionPrevented) /\
  (v = VerdictExfil -> mode e ≠ gostr "monitor" -> (proxyAction e v).1 = false).
Proof.
  unfold proxyAction. destruct (decide (v = VerdictExfil)) as [->|Hv]; [|done].
  case_bool_decide as Hm; done.
Qed.

Lemma evaluate_decision e sink ev w :
  store_ok (store w) -> request_decision_ok e ev (EvaluateRequest e sink ev w).1.
Proof.
  intros Hw. unfold EvaluateRequest, mbind at 1, M_bind at 1, get_or_create.
  pose proof (GetOrCreate_ok (tick w) (clock (tick w)) (ieSessionID ev) (store w) Hw) as Hok.
  pose proof (GetOrCreate_lookup (tick w) (clock (tick w)) (ieSessionID ev) (store w)) as Hl.
  destruct (GetOrCreate _ _ _ _) as [st s]. cbn [fst snd] in *.
  match goal with |- _ _ _ (?m _).1 =>
    assert (on_session (ieSessionID ev) (request_decision_ok e ev) m) as Hm end.
  2: { apply Hm. split; [done|by exists st]. }
  pose proof (proj2 Hok _ _ Hl) as Hid. cbn beta in Hid. do 2 on_step.
  destruct (is_external_sink e ev) eqn:Es; cbn [negb].
  2: { on_step; [by autorewrite with layout|]. on_step. by split_and!. }
  on_step. eapply on_bind; [apply on_detokenized_auth|]. intros [args fwd] Hfwd. cbn [snd] in Hfwd.
  on_step. destruct (CheckOverlapLimited _ _ _ _ _) as [[o ab] k]. cbn [fst].
  destruct (classifyTrip _ _ _ _ _ _) as [[v c]|] eqn:Ec.
  2: { on_step; [by autorewrite with layout|]. on_step. split_and!; try done. intros Hf. by destruct (Hfwd Hf). }
  destruct (proxyAction_spec e v) as [Hp1 Hp2]. destruct (proxyAction e v) as [allow ac]. cbn [fst snd] in *.
  on_step; [by autorewrite with layout|].
  eapply on_bind; [apply on_buildEvidence_fields|]. intros rec (Hv & _ & Ho & Hlegs).
  eapply on_bind; [apply on_emit_if|intros [] _]. on_step.
  assert (justified v rec) as Hj by (eapply justified_intro; [exact Ec|done|done|done]).
  split_and!; cbn [Allow dVerdict dAction ForwardArgs Evidence].
  - intros ->. destruct (Hp1 eq_refl) as (? & ? & ?). done.
  - intros _. by exists rec.
  - done.
  - destruct allow; [|done]. intros Hf. by destruct (Hfwd Hf).
  - done.
Qed.

(** A decision about a kernel event that is not a report of the LSM hook. *)
Definition syscall_decision_ok (ev : SyscallEvent) (d : Decision) : Prop :=
  (Allow d = false -> dVerdict d = VerdictExfil /\ dAction d = ActionContained) /\
  (dVerdict d = VerdictExfil -> Allow d = false) /\
  (dVerdict d = VerdictSuspicious -> dAction d = ActionDetectedOnly) /\
  (dVerdict d ≠ NoVerdict -> exists rec, Evidence d = Some rec /\ justified (dVerdict d) rec) /\
  (seSyscall ev = openat -> dVerdict d ≠ VerdictExfil) /\
  ForwardArgs d = None.

Lemma allowed_ok ev : syscall_decision_ok ev allowed.
Proof. by split_and!. Qed.

(** What the overlap step answers for an openat is always nothing. *)
Lemma on_overlap_openat e id (b : bool) ev st :
  SessionID st = id -> (seSyscall ev = openat -> b = true) ->
  on_session id (λ r, SessionID r.2 = id /\ (seSyscall ev = openat -> r.1.1 = None))
    (if b then mret (None, ContainerAbortNone, st) else egress_overlap e ev st).
Proof.
  intros Hid Hb. destruct b; [by on_step|].
  eapply on_weaken; [by apply on_egress_overlap|]. intros r Hr. split; [done|]. by intros E%Hb.
Qed.

Lemma on_finish_decision e sink id st ev o chan payload ab v c reason :
  SessionID st = id -> classifyTrip e st o payload chan ab = Some (v, c) ->
  (seSyscall ev = openat -> o = None) ->
  on_session id (syscall_decision_ok ev) (finishVariantBSyscallTrip sink st ev v c o reason).
Proof.
  intros Hid Hc Ho. unfold finishVariantBSyscallTrip. destruct (variantBAction v) as [allow ac] eqn:Ea.
  on_step; [done|]. eapply on_bind; [apply on_buildB_fields|]. intros rec (Hv & _ & Hov & Hlegs).
  eapply on_bind; [apply on_emit_if|intros [] _]. on_step.
  assert (justified v rec) as Hj by (eapply justified_intro; [exact Hc|done|done|done]).
  unfold variantBAction in Ea. destruct (decide (v = VerdictExfil)) as [->|Hne]; injection Ea as <- <-.
  - split_and!; try done; cbn; intros; [by exists rec|]. intros _. apply classify_justified in Hc.
    rewrite Ho in Hc by done. by destruct Hc.
  - split_and!; try done; cbn; intros. by exists rec.
Qed.

(** A body whose answer satisfies [Q], run on the session it creates or finds. *)
Lemma run_body {A} (Q : A -> Prop) id (f : SessionState -> M A) w :
  store_ok (store w) -> (forall st, SessionID st = id -> on_session id Q (f st)) ->
  Q ((get_or_create id ≫= f) w).1.
Proof.
  intros Hw Hf. unfold mbind, M_bind, get_or_create.
  pose proof (GetOrCreate_ok (tick w) (clock (tick w)) id (store w) Hw) as Hok.
  pose proof (GetOrCreate_lookup (tick w) (clock (tick w)) id (store w)) as Hl.
  destruct (GetOrCreate _ _ _ _) as [st s]. cbn [fst snd] in *.
  apply (Hf st (proj2 Hok _ _ Hl)). split; [done|by exists st].
Qed.

Lemma syscall_decision e sink audit ev w :
  store_ok (store w) -> seSyscall ev ≠ lsm_deny ->
  syscall_decision_ok ev (IngestSyscall e sink audit ev w).1.
Proof.
  intros Hw Hd. unfold IngestSyscall. rewrite decide_False by done.
  destruct (seSessionID ev) as [|c s] eqn:Es.
  { unfold mbind, M_bind. destruct (recordUnattributedSyscall _ _ _ w). apply allowed_ok. }
  apply (run_body _ (c :: s)); [done|]. intros st Hid. on_step. on_step.
  set (st1 := if Lit _ then _ else _).
  assert (SessionID st1 = c :: s) as Hst1
    by (unfold st1; destruct (Lit _); autorewrite with layout; done).
  eapply on_bind.
  { apply on_overlap_openat; [done|]. intros ->. by rewrite bool_decide_eq_true_2. }
  intros [[o ab] st2] [Hst2 Ho]. cbn [fst snd] in *.
  destruct (classifyTrip _ _ _ _ _ _) as [[v cf]|] eqn:Ec.
  - by eapply on_finish_decision.
  - on_step; [done|]. on_step. apply allowed_ok.
Qed.

Lemma sensor_decision e sink audit ev w :
  store_ok (store w) -> seSyscall ev ≠ lsm_deny ->
  syscall_decision_ok ev (IngestSyscallSensor e sink audit ev w).1.
Proof.
  intros Hw Hd. unfold IngestSyscallSensor. rewrite decide_False by done.
  destruct (seSessionID ev) as [|c s] eqn:Es.
  { unfold mbind, M_bind. destruct (recordUnattributedSyscall _ _ _ w). apply allowed_ok. }
  apply (run_body _ (c :: s)); [done|]. intros st Hid. on_step. destruct (decide _) as [Eo|Hne].
  - eapply on_bind; [by apply on_seed; autorewrite with layout|]. intros st' Hs.
    on_step; [done|]. on_step. apply allowed_ok.
  - on_step. eapply on_bind.
    { apply (on_overlap_openat e (c :: s)); [by autorewrite with layout|]. intros E. congruence. }
    intros [[o ab] st2] [Hst2 Ho]. cbn [fst snd] in *.
    destruct (classifyTrip _ _ _ _ _ _) as [[v cf]|] eqn:Ec.
    + by eapply on_finish_decision.
    + on_step; [done|]. on_step. apply allowed_ok.
Qed.

(** ** Taint is not lost on the way to the check *)

Lemma Tainted_touch e now seq label st : Tainted (touchSession e now seq label st) = Tainted st.
Proof.
  unfold touchSession, pruneLegs. destruct (seq =? 0), (decayed _ _ _ _); try done;
    by destruct (_ && negb _).
Qed.

Lemma Tainted_stash e n ev st : Tainted (stashSensitiveReadPath e n ev st) = Tainted st.
Proof.
  unfold stashSensitiveReadPath. destruct (tagger e); [|done]. destruct (negb _); [done|].
  by destruct (List.find _ _).
Qed.

Lemma Tainted_setSink now ev st : Tainted (setExternalSinkInvoked now ev st) = Tainted st.
Proof. unfold setExternalSinkInvoked. by destruct (Lit _). Qed.

(** A form of a tainted value in the string is a hit. *)
Lemma checkOverlapString_hit tainted tv v s :
  tv ∈ tainted -> v ∈ forms_of tv ++ Chunks tv -> vValue v ≠ [] -> infix (vValue v) s ->
  exists h, checkOverlapString tainted s = Some h.
Proof.
  intros Hin Hv Hne Hi. unfold checkOverlapString.
  destruct s as [|c s].
  { apply infix_length in Hi. destruct (vValue v); [done|cbn in Hi; lia]. }
  apply (first_some_is_Some _ _ tv Hin). unfold matchTaintedValue, first_form.
  assert (negb (bool_decide (vValue v = [])) && Contains (c :: s) (vValue v) = true) as Hp.
  { rewrite (proj2 (Contains_spec _ _) Hi). by rewrite bool_decide_eq_false_2. }
  apply elem_of_app in Hv as [Hv|Hv].
  - destruct (find_is_Some (λ v, negb (bool_decide (vValue v = [])) && Contains (c :: s) (vValue v)) _ v Hv Hp)
      as [y ->]. by eexists.
  - destruct (List.find _ (forms_of tv)); [by eexists|].
    destruct (find_is_Some (λ v, negb (bool_decide (vValue v = [])) && Contains (c :: s) (vValue v)) _ v Hv Hp)
      as [y ->]. by eexists.
Qed.

(** The string passes come first: a hit there is the answer. *)
Lemma CheckOverlap_string depth n tainted args lim h :
  checkOverlapString tainted args = Some h ->
  CheckOverlapLimited depth n tainted args lim = (Some (found_in (gostr "sink args") h), ContainerAbortNone, n).
Proof. intros E. unfold CheckOverlapLimited, args_hit. by rewrite E. Qed.

Lemma CheckPayload_string depth n tainted payload lim h :
  checkOverlapString tainted payload = Some h ->
  CheckOverlapPayloadLimited depth n tainted payload lim =
    (Some (found_in (gostr "egress payload") h), ContainerAbortNone, n).
Proof. intros E. unfold CheckOverlapPayloadLimited, payload_hit. by rewrite E. Qed.

(** ** Reachable worlds *)

Lemma start_ok : store_ok (store start).
Proof. apply NewSessionStore_ok. Qed.

Lemma reachable_ok e sink audit cs : store_ok (store (after e sink audit cs start)).
Proof. apply after_ok, start_ok. Qed.

Lemma after_sessions_ok e sink audit cs w :
  sessions_ok e w -> sessions_ok e (after e sink audit cs w).
Proof.
  unfold after. revert w. induction cs as [|c cs IH]; intros w Hw; [done|]. cbn [perform_all].
  pose proof (perform_sessions_ok e sink audit c w Hw) as Hok.
  unfold mbind, M_bind. destruct (perform e sink audit c w) as [a w']. by apply IH.
Qed.

Lemma start_sessions_ok e : sessions_ok e start.
Proof. split; [apply start_ok|apply map_Forall_empty]. Qed.

(** C33: sessions are isolated: in any reachable state a call changes only the session it names.
    Another session is left exactly as it was, or is the one dropped because the call had to
    create its own session in a full store. The store never holds more than maxSessions
    sessions, and what was already emitted is never retracted. *)
Theorem sessions_isolated (e : Engine) (sink audit : bool) (cs : list call) (c : call) :
  let w := after e sink audit cs start in
  let w' := (perform e sink audit c w).2 in
  (forall id, id ≠ session_of c -> store w' !! id = store w !! id \/
     (maxSessions <= size (store w))%nat /\ store w !! session_of c = None /\ store w' !! id = None) /\
  (size (store w') <= maxSessions)%nat /\
  exists l, out w' = out w ++ l.
Proof.
  intros w w'. destruct (perform_confined e sink audit c w (reachable_ok e sink audit cs)) as ([Hsz _] & Ho & Hl).
  done.
Qed.

(** C35: the memory of every reachable session is bounded: its tainted values are pairwise
    different by hash, at most 1024 and at most 1 MiB together unless a single one is larger;
    at most 8 untrusted excerpts of at most 4 KiB are kept, and the fragment buffer stays
    within its configured chunks and bytes. *)
Theorem session_memory_bounded (e : Engine) (sink audit : bool) (cs : list call) (id : bytes) (st : SessionState) :
  store (after e sink audit cs start) !! id = Some st ->
  NoDup (map Hash (Tainted st)) /\
  (len (Tainted st) <= 1 \/
   len (Tainted st) <= maxTaintedPerSession /\ value_bytes (Tainted st) <= maxTaintedBytesPerSession) /\
  (length (UntrustedExcerpts st) <= maxUntrustedExcerpts)%nat /\
  Forall (λ x, (length x <= maxUntrustedExcerpt)%nat) (UntrustedExcerpts st) /\
  len (FragmentChunks st) <= or_default (fragmentMaxChunks e) defaultFragmentChunks /\
  fragmentBytes (FragmentChunks st) <= or_default (fragmentMaxBytes e) defaultFragmentBytes.
Proof.
  intros Hst. destruct (proj2 (after_sessions_ok e sink audit cs _ (start_sessions_ok e)) id st Hst)
    as ([Hn Ho] & [Hf1 Hf2] & [Hx1 Hx2] & _).
  split_and!; try done. unfold over_caps in Ho. apply andb_false_iff in Ho as [Ho%Z.ltb_ge|Ho]; [by left|].
  apply orb_false_iff in Ho as [?%Z.ltb_ge ?%Z.ltb_ge]. by right.
Qed.

(** C34: a registered secret is not forgotten: whatever call comes next, a session keeps all its
    tainted values, except that past the caps the oldest are shed, one by one and only while
    the cap is exceeded; or the whole session is evicted from a full store, which only a call
    for another session does. *)
Theorem taint_persists (e : Engine) (sink audit : bool) (cs : list call) (c : call) (id : bytes) (st : SessionState) :
  let w := after e sink audit cs start in
  let w' := (perform e sink audit c w).2 in
  store w !! id = Some st ->
  (exists st' added k, store w' !! id = Some st' /\
     Tainted st' = drop k (Tainted st ++ added) /\
     forall j, (j < k)%nat -> over_caps (drop j (Tainted st ++ added)) = true) \/
  id ≠ session_of c /\ (maxSessions <= size (store w))%nat /\ store w' !! id = None.
Proof.
  intros w w' Hst. pose proof (reachable_ok e sink audit cs) as Hw. fold w in Hw.
  destruct (decide (id = session_of c)) as [->|Hne].
  - left. destruct (perform_effect e sink audit c st (proj2 Hw _ _ Hst) w Hst) as (st' & l & Hs' & _ & He).
    fold w' in Hs'. apply effect_taint in He as [E|[vs E]].
    + exists st', [], 0%nat. rewrite app_nil_r. split_and!; [done|done|lia].
    + destruct (shed_taint_drop (Tainted st ++ added_to e (Tainted st) vs)) as [_ (k & Hk & Hj)].
      exists st', (added_to e (Tainted st) vs), k. by rewrite E.
  - destruct (perform_confined e sink audit c w Hw) as (_ & Ho & _).
    destruct (Ho id Hne) as [E|(Hsz & _ & E)]; [left|right; done].
    exists st, [], 0%nat. rewrite app_nil_r. split_and!; [by rewrite <- Hst|done|lia].
Qed.

End externals.

(** ** Witnesses *)

Example session_memory_bounded_witness :
  exists st, store (after demo_proxy true true [read_ticket "s1"; read_message "s1"] start) !! gostr "s1" = Some st /\
    (length (UntrustedExcerpts st) <= 8)%nat.
Proof.
  destruct (store (after demo_proxy true true [read_ticket "s1"; read_message "s1"] start) !! gostr "s1")
    as [st|] eqn:E; [|vm_compute in E; discriminate E].
  exists st. split; [reflexivity|].
  exact (proj1 (proj2 (proj2 (session_memory_bounded demo_proxy true true _ _ st E)))).
Defined.

Example taint_persists_witness :
  exists st, store (after demo_proxy true true [read_ticket "s1"] start) !! gostr "s1" = Some st /\
    ((exists st' added k, store (perform demo_proxy true true (read_message "s1")
         (after demo_proxy true true [read_ticket "s1"] start)).2 !! gostr "s1" = Some st' /\
       Tainted st' = drop k (Tainted st ++ added)) \/ gostr "s1" ≠ gostr "s1").
Proof.
  destruct (store (after demo_proxy true true [read_ticket "s1"] start) !! gostr "s1")
    as [st|] eqn:E; [|vm_compute in E; discriminate E].
  exists st. split; [reflexivity|].
  destruct (taint_persists demo_proxy true true [read_ticket "s1"] (read_message "s1") (gostr "s1") st E)
    as [(st' & added & k & H1 & H2 & _)|[Hne _]].
  - left. exists st', added, k. exact (conj H1 H2).
  - right. exact Hne.
Defined.
