(* ===== verification/VaultTheorems.v ===== *)
(** * Theorems about the token vault

    Replacing the secrets of the vault in a frame by their tokens leaves none of them, and
    replacing the tokens by the secrets gives the frame back, as long as no secret overlaps a
    token: what this asks of them is [apart]. *)

From S2P Require Import Prelude Go GoTime Config GoStrings Encodings EncodingFacts Json Model Store Tagger.
From S2P Require Import Egress Regex Taint Overlap Container Match Engine EngineFacts Demo EngineInvariants EngineTheorems.

(** ** Strings that do not overlap *)

(** A non-empty end of [a] is a beginning of [b]. *)
Fixpoint touches (a b : bytes) : bool :=
  match a with [] => false | _ :: a' => HasPrefix b a || touches a' b end.

Definition apart (R d : bytes) : bool := negb (Contains d R) && negb (Contains R d) && negb (touches R d) && negb (touches d R).

(** No proper end of [d] is a beginning of it. *)
Definition unbordered (d : bytes) : bool := match d with [] => false | _ :: d' => negb (touches d' d) end.

Lemma touches_spec u v w : v ≠ [] -> touches (u ++ v) (v ++ w) = true.
Proof.
  intros Hv. induction u as [|c u IH]; cbn [app].
  - destruct v as [|c v]; [done|]. cbn [touches app]. apply orb_true_iff. left. apply (HasPrefix_app (c :: v)).
  - cbn [touches]. by rewrite IH, orb_true_r.
Qed.

Lemma touches_split a b : touches a b = true -> exists u v w, v ≠ [] /\ a = u ++ v /\ b = v ++ w.
Proof.
  induction a as [|c a IH]; cbn [touches]; [done|]. intros [[w ->]%HasPrefix_spec|(u & v & w & Hv & -> & ->)%IH]%orb_true_iff.
  - by exists [], (c :: a), w.
  - by exists (c :: u), v, w.
Qed.

(** A beginning of a concatenation begins its first part or starts with it. *)
Lemma prefix_app (R a b t : bytes) : a ++ b = R ++ t -> (exists s, a = R ++ s) \/ exists v, v ≠ [] /\ R = a ++ v /\ exists s, b = v ++ s.
Proof.
  revert a. induction R as [|c R IH]; intros [|x a] E; [left; by exists []|left; by exists (x :: a)| |].
  - right. exists (c :: R). cbn in E. split; [done|]. split; [done|]. by exists t.
  - injection E as -> E. destruct (IH a E) as [[s ->]|(v & Hv & -> & s & ->)]; [left; by exists s|right].
    exists v. split; [done|]. split; [done|]. by exists s.
Qed.

Lemma HasPrefix_longer s t p : HasPrefix s p = true -> HasPrefix (s ++ t) p = true.
Proof. intros [u ->]%HasPrefix_spec. apply HasPrefix_spec. exists (u ++ t). by rewrite app_assoc. Qed.

Lemma HasPrefix_shorter s t p : HasPrefix (s ++ t) p = false -> HasPrefix s p = false.
Proof. intros Hp. destruct (HasPrefix s p) eqn:E; [|done]. by rewrite HasPrefix_longer in Hp. Qed.

Section apart.

Context (R d : bytes) (HR : R ≠ []) (Hapart : apart R d = true).

Lemma apart_spec : (~ infix R d) /\ (~ infix d R) /\ (forall u v w, v ≠ [] -> R = u ++ v -> d ≠ v ++ w) /\
  (forall u v w, v ≠ [] -> d = u ++ v -> R ≠ v ++ w).
Proof.
  unfold apart in Hapart. rewrite !andb_true_iff, !negb_true_iff in Hapart. destruct Hapart as (((H1 & H2) & H3) & H4).
  split_and!.
  - intros E%Contains_spec. congruence.
  - intros E%Contains_spec. congruence.
  - intros u v w Hv -> ->. by rewrite touches_spec in H3.
  - intros u v w Hv -> ->. by rewrite touches_spec in H4.
Qed.

(** No occurrence of [R] starts before [d] and reaches into it, *)
Lemma no_reach a b : a ≠ [] -> HasPrefix (a ++ d ++ b) R = HasPrefix a R.
Proof.
  intros Ha. destruct (HasPrefix a R) eqn:E; [by apply HasPrefix_longer|].
  destruct (HasPrefix (a ++ d ++ b) R) eqn:E'; [|done]. apply HasPrefix_spec in E' as [t Ht]. exfalso.
  destruct (prefix_app _ _ _ _ Ht) as [[s Hs]|(v & Hv & HRv & s & Hs)].
  { apply not_true_iff_false in E. apply E, HasPrefix_spec. by exists s. }
  destruct apart_spec as (_ & H2 & H3 & _). destruct (prefix_app v d b s Hs) as [[s' Hs']|(v' & _ & Hv' & _)].
  - by eapply (H3 a v s').
  - apply H2. exists a, v'. by rewrite HRv, Hv'.
Qed.

(** nor starts inside of it. *)
Lemma no_start u c v b : d = u ++ c :: v -> HasPrefix (c :: v ++ b) R = false.
Proof.
  intros Hs. destruct (HasPrefix (c :: v ++ b) R) eqn:E; [|done]. apply HasPrefix_spec in E as [t Ht]. exfalso.
  destruct apart_spec as (H1 & _ & _ & H4). change (c :: v ++ b) with ((c :: v) ++ b) in Ht.
  destruct (prefix_app _ _ _ _ Ht) as [[s Hs']|(w & _ & Hw & _)].
  - apply H1. exists u, s. by rewrite Hs, Hs'.
  - by eapply (H4 u (c :: v) w).
Qed.

Lemma replace_inside u v b x : d = u ++ v -> ReplaceAll (v ++ b) R x = v ++ ReplaceAll b R x.
Proof.
  revert u. induction v as [|c v IH]; intros u Hs; [done|]. cbn [app].
  rewrite ReplaceAll_miss by (by eapply no_start). f_equal. apply (IH (u ++ [c])). by rewrite <- app_assoc.
Qed.

Lemma replace_around a b x : ReplaceAll (a ++ d ++ b) R x = ReplaceAll a R x ++ d ++ ReplaceAll b R x.
Proof.
  induction a as [a IH] using (induction_ltof1 _ length). unfold ltof in IH. destruct (decide (a = [])) as [->|Ha].
  { by apply (replace_inside [] d b x). }
  destruct (HasPrefix a R) eqn:E.
  - apply HasPrefix_spec in E as [t ->]. rewrite <- app_assoc, !ReplaceAll_hit by done.
    rewrite IH; [by rewrite <- app_assoc|]. rewrite length_app. destruct R; [done|]. cbn. lia.
  - pose proof (no_reach a b Ha) as E'. rewrite E in E'. destruct a as [|c a]; [done|]. cbn [app] in *.
    rewrite !ReplaceAll_miss by done. cbn [app]. f_equal. apply IH. cbn. lia.
Qed.

Lemma contains_around a b : Contains (a ++ d ++ b) R = Contains a R || Contains b R.
Proof.
  assert (forall u v, d = u ++ v -> Contains (v ++ b) R = Contains b R) as Hin.
  { intros u v. revert u. induction v as [|c v IH]; intros u Hs; [done|]. cbn [app Contains].
    rewrite (no_start u) by done. apply (IH (u ++ [c])). by rewrite <- app_assoc. }
  assert (Contains [] R = false) as Hnil by (by destruct R).
  induction a as [|c a IH]; [rewrite Hnil; by apply (Hin [] d)|].
  pose proof (no_reach (c :: a) b ltac:(done)) as E. cbn [app Contains] in *. by rewrite E, IH, orb_assoc.
Qed.

End apart.

(** A string without borders is found wherever it stands. *)
Lemma replace_found d a b x :
  unbordered d = true -> ReplaceAll (a ++ d ++ b) d x = ReplaceAll a d x ++ x ++ ReplaceAll b d x.
Proof.
  intros Hu. assert (d ≠ []) as Hd by (by destruct d). induction a as [a IH] using (induction_ltof1 _ length). unfold ltof in IH.
  destruct (decide (a = [])) as [->|Ha]; [by apply (ReplaceAll_hit d b x)|]. destruct (HasPrefix a d) eqn:E.
  - apply HasPrefix_spec in E as [t ->]. rewrite <- app_assoc, !ReplaceAll_hit by done.
    rewrite IH; [by rewrite <- app_assoc|]. rewrite length_app. destruct d; [done|]. cbn. lia.
  - assert (HasPrefix (a ++ d ++ b) d = false) as E'.
    { destruct (HasPrefix (a ++ d ++ b) d) eqn:E'; [|done]. apply HasPrefix_spec in E' as [t Ht]. exfalso.
      destruct (prefix_app _ _ _ _ Ht) as [[s Hs]|(v & Hv & Hdv & s & Hs)].
      { apply not_true_iff_false in E. apply E, HasPrefix_spec. by exists s. }
      destruct (prefix_app v d b s Hs) as [[s' Hs']|(v' & Hv' & Hdv' & _)].
      - destruct a as [|c a]; [done|]. pose proof (touches_spec a v s' Hv) as Ht'. rewrite <- Hs' in Ht'.
        unfold unbordered in Hu. rewrite Hdv in Hu, Ht'. cbn [app] in Hu, Ht'. by rewrite Ht' in Hu.
      - apply (f_equal length) in Hdv, Hdv'. rewrite length_app in *. destruct a, v'; cbn in *; done || lia. }
    destruct a as [|c a]; [done|]. cbn [app] in *. rewrite !ReplaceAll_miss by done. cbn [app]. f_equal. apply IH. cbn. lia.
Qed.

Lemma apart_sym R d : apart R d = apart d R.
Proof. unfold apart. destruct (Contains d R), (Contains R d), (touches R d), (touches d R); reflexivity. Qed.

(** ** Frames in pieces: stretches of text with tokens between them *)

Inductive pieces := Last (t : bytes) | Then (t d r : bytes) (ps : pieces).

(** Each token [d] that stands for [r] as [f] has it. *)
Fixpoint render (f : bytes -> bytes -> bytes) (ps : pieces) : bytes :=
  match ps with Last t => t | Then t d r ps => t ++ f d r ++ render f ps end.

Abbreviation shown := (render (λ d _, d)).
Abbreviation meant := (render (λ _ r, r)).

Fixpoint pieces_ok (P : bytes -> Prop) (Q : bytes -> bytes -> Prop) (ps : pieces) : Prop :=
  match ps with Last t => P t | Then t d r ps => P t /\ Q d r /\ pieces_ok P Q ps end.

Fixpoint glue (ps : pieces) (d r : bytes) (qs : pieces) : pieces :=
  match ps with Last t => Then t d r qs | Then t d' r' ps => Then t d' r' (glue ps d r qs) end.

Lemma render_glue f ps d r qs : render f (glue ps d r qs) = render f ps ++ f d r ++ render f qs.
Proof. induction ps as [t|t d' r' ps IH]; cbn; [done|]. by rewrite IH, <- !app_assoc. Qed.

Lemma ok_glue P Q ps d r qs : pieces_ok P Q ps -> Q d r -> pieces_ok P Q qs -> pieces_ok P Q (glue ps d r qs).
Proof. induction ps as [t|t d' r' ps IH]; cbn; [done|]. intros (? & ? & ?) ? ?. split_and!; auto. Qed.

Lemma ok_weaken (P P' : bytes -> Prop) (Q Q' : bytes -> bytes -> Prop) ps :
  (forall t, P t -> P' t) -> (forall d r, Q d r -> Q' d r) -> pieces_ok P Q ps -> pieces_ok P' Q' ps.
Proof. intros HP HQ. induction ps as [t|t d r ps IH]; cbn; [auto|]. intros (? & ? & ?). auto. Qed.

(** The occurrence that is replaced first. *)
Lemma first_occurrence t R d : R ≠ [] -> Contains t R = true ->
  exists a b, t = a ++ R ++ b /\ Contains a R = false /\ ReplaceAll t R d = a ++ d ++ ReplaceAll b R d.
Proof.
  intros HR. induction t as [|c t IH]; [by destruct R|]. destruct (HasPrefix (c :: t) R) eqn:E.
  - intros _. apply HasPrefix_spec in E as [b ->]. exists [], b. split; [done|]. split; [by destruct R|]. by rewrite ReplaceAll_hit.
  - cbn [Contains]. rewrite E. cbn [orb]. intros (a & b & -> & Ha & Hr)%IH. exists (c :: a), b. split; [done|].
    split; [cbn [Contains]; by rewrite (HasPrefix_shorter (c :: a) (R ++ b)), Ha|]. by rewrite ReplaceAll_miss, Hr.
Qed.

Lemma tokenize_text R d t : R ≠ [] ->
  exists ps, shown ps = ReplaceAll t R d /\ meant ps = t /\
    pieces_ok (λ s, infix s t /\ Contains s R = false) (λ d' r', d' = d /\ r' = R) ps.
Proof.
  intros HR. induction t as [t IH] using (induction_ltof1 _ length). unfold ltof in IH. destruct (Contains t R) eqn:E.
  - destruct (first_occurrence t R d HR E) as (a & b & -> & Ha & ->). destruct (IH b) as (ps & Hs & Hm & Hok).
    { rewrite !length_app. destruct R; [done|]. cbn. lia. }
    exists (Then a d R ps). cbn. rewrite Hs, Hm. do 2 (split; [done|]). split; [split; [apply infix_app_r, infix_refl|done]|]. split; [done|].
    eapply ok_weaken; [|intros ? ? Hq0; exact Hq0|exact Hok]. intros s [Hi ?]. split; [|done]. by apply infix_app_l, infix_app_l.
  - exists (Last t). split; [by rewrite ReplaceAll_absent|]. split; [done|]. split; [apply infix_refl|done].
Qed.

Section vault.

Context (V : gmap bytes VaultEntry) (Hok : map_Forall vault_entry_ok V).

(** A token of the vault. *)
Definition of_vault (d r : bytes) : Prop := exists entry, V !! d = Some entry /\ Real entry = r.

Context (Hapart : forall d r d' r', of_vault d r -> of_vault d' r' -> apart r d' = true).

Lemma of_vault_real d r : of_vault d r -> d = VaultDummy r /\ r ≠ [].
Proof. intros (entry & E & <-). destruct (Hok _ _ E) as (? & ? & _). done. Qed.

Lemma tokenize_pieces (P : bytes -> Prop) d r ps :
  (forall s t, infix s t -> P t -> P s) -> of_vault d r -> pieces_ok P of_vault ps ->
  exists qs, shown qs = ReplaceAll (shown ps) r d /\ meant qs = meant ps /\
    pieces_ok (λ s, P s /\ Contains s r = false) of_vault qs.
Proof.
  intros HP Hv. destruct (of_vault_real d r Hv) as [_ Hr].
  assert (forall t, P t -> exists qs, shown qs = ReplaceAll t r d /\ meant qs = t /\
    pieces_ok (λ s, P s /\ Contains s r = false) of_vault qs) as Htext.
  { intros t Ht. destruct (tokenize_text r d t Hr) as (qs & Hs & Hm & Hq). exists qs. do 2 (split; [done|]).
    eapply ok_weaken; [| |exact Hq]; [intros s [Hi ?]; split; [by eapply HP|done]|intros d' r' [-> ->]; done]. }
  induction ps as [t|t d' r' ps IH]; cbn; [apply Htext|]. intros (Ht & Hq & Hps).
  destruct (Htext t Ht) as (qs1 & Hs1 & Hm1 & Hq1). destruct (IH Hps) as (qs2 & Hs2 & Hm2 & Hq2).
  exists (glue qs1 d' r' qs2). rewrite !render_glue, Hs1, Hs2, Hm1, Hm2. split; [|split; [done|by apply ok_glue]].
  symmetry. apply replace_around; [done|]. by apply (Hapart d r d' r').
Qed.

Lemma tokenized (P : bytes -> Prop) l ps :
  (forall s t, infix s t -> P t -> P s) -> (forall kv, kv ∈ l -> of_vault kv.1 (Real kv.2)) -> pieces_ok P of_vault ps ->
  exists qs, shown qs = foldl replace_real (shown ps) l /\ meant qs = meant ps /\
    pieces_ok (λ s, P s /\ forall kv, kv ∈ l -> Contains s (Real kv.2) = false) of_vault qs.
Proof.
  revert P ps. induction l as [|kv l IH]; intros P ps HP Hl Hps.
  { exists ps. do 2 (split; [done|]). eapply ok_weaken; [|intros ? ? Hq0; exact Hq0|exact Hps]. intros t Ht. split; [done|]. intros kv []%elem_of_nil. }
  destruct (tokenize_pieces P kv.1 (Real kv.2) ps HP (Hl kv ltac:(by left)) Hps) as (qs & Hs & Hm & Hq).
  destruct (IH (λ s, P s /\ Contains s (Real kv.2) = false) qs) as (qs' & Hs' & Hm' & Hq').
  - intros s t Hi [Ht Hc]. split; [by eapply HP|]. apply not_true_iff_false. intros Hs0%Contains_spec.
    apply not_true_iff_false in Hc. apply Hc, Contains_spec. by eapply infix_trans.
  - intros kv' Hin. apply Hl. by right.
  - done.
  - exists qs'. split; [|split; [congruence|]].
    + rewrite Hs', Hs. cbn [foldl]. f_equal. unfold replace_real.
      destruct (of_vault_real _ _ (Hl kv ltac:(by left))) as [_ Hr]. rewrite bool_decide_eq_false_2 by done. cbn [orb].
      destruct (Contains (shown ps) (Real kv.2)) eqn:E; [done|]. by rewrite ReplaceAll_absent.
    + eapply ok_weaken; [|intros ? ? Hq0; exact Hq0|exact Hq']. intros s [[? ?] Hn]. split; [done|]. intros kv' [->|?]%elem_of_cons; auto.
Qed.

(** No secret is left over when none is in the texts. *)
Lemma shown_clean ps d r : of_vault d r -> pieces_ok (λ s, Contains s r = false) of_vault ps -> Contains (shown ps) r = false.
Proof.
  intros Hv. destruct (of_vault_real d r Hv) as [_ Hr]. induction ps as [t|t d' r' ps IH]; cbn; [done|]. intros (Ht & Hq & Hps).
  rewrite contains_around; [by rewrite Ht, IH|done|by eapply Hapart].
Qed.

(** ** Tokens *)

Definition token_prefix : bytes := gostr "ilk.vault.".

Lemma VaultDummy_eq r : exists h, VaultDummy r = token_prefix ++ h /\ length h = 16%nat /\ (x69 ∉ h).
Proof.
  exists (take 16 (HashValue r)). split; [done|]. split; [rewrite length_take, length_HashValue; done|].
  intros Hin. apply (hex_encode_no_i (Sum256 r)). rewrite <- (take_drop 16 (hex_encode (Sum256 r))). apply elem_of_app. by left.
Qed.

(** What starts like a token does so at its beginning only. *)
Lemma token_end u v h : token_prefix ++ h = u ++ x69 :: v -> (x69 ∉ h) -> u = [].
Proof.
  intros E Hh. destruct u as [|c u]; [done|]. exfalso.
  assert (x69 ∈ gostr "lk.vault." ++ h) as Hin.
  { injection E as _ E. change (gostr "lk.vault." ++ h = u ++ x69 :: v) in E. rewrite E. apply elem_of_app. right. by left. }
  apply elem_of_app in Hin as [Hin|?]; [|done]. assert (bool_decide (x69 ∈ gostr "lk.vault.") = false) as Hno by (vm_compute; reflexivity).
  by apply bool_decide_eq_false in Hno.
Qed.

Lemma token_head r v w : v ≠ [] -> VaultDummy r = v ++ w -> exists v', v = x69 :: v'.
Proof. destruct v as [|c v]; [done|]. intros _ E. exists v. by injection E as ->. Qed.

Lemma token_unbordered r : unbordered (VaultDummy r) = true.
Proof.
  apply negb_true_iff, not_true_iff_false. intros (u & v & w & Hv & Hu & Hw)%touches_split.
  destruct (token_head r v w Hv Hw) as [v' ->]. destruct (VaultDummy_eq r) as (h & Hh & _ & Hn).
  assert (x69 :: u = []) as Hnil; [|done]. eapply (token_end _ v' h); [|done]. rewrite <- Hh. cbn [app]. by rewrite <- Hu.
Qed.

Lemma tokens_apart r r' : VaultDummy r ≠ VaultDummy r' -> apart (VaultDummy r) (VaultDummy r') = true.
Proof.
  assert (forall r, length (VaultDummy r) = 26%nat) as Hlen.
  { intros r0. destruct (VaultDummy_eq r0) as (h & -> & Hh & _). rewrite length_app, Hh. reflexivity. }
  assert (forall r r', VaultDummy r ≠ VaultDummy r' ->
    Contains (VaultDummy r) (VaultDummy r') = false /\ touches (VaultDummy r) (VaultDummy r') = false) as Hhalf.
  { intros r0 r1 Hne. pose proof (Hlen r0) as L0. pose proof (Hlen r1) as L1. split; apply not_true_iff_false.
    - intros (a & b & E)%Contains_spec. apply Hne. pose proof (f_equal length E) as El. rewrite !length_app, L0, L1 in El.
      destruct a, b; cbn [length] in El; try lia. by rewrite E, app_nil_r.
    - intros (u & v & w & Hv & Hu & Hw)%touches_split. destruct (token_head r1 v w Hv Hw) as [v' ->].
      destruct (VaultDummy_eq r0) as (h & Hh & _ & Hn). rewrite Hh in Hu. apply token_end in Hu as Hnil; [|done].
      rewrite Hnil in Hu. cbn [app] in Hu. rewrite <- Hh in Hu. apply Hne. rewrite <- Hu in Hw. pose proof (f_equal length Hw) as Hl.
      rewrite length_app, L0, L1 in Hl. destruct w; [by rewrite Hw, app_nil_r|cbn [length] in Hl; lia]. }
  intros Hne. unfold apart. destruct (Hhalf r r' Hne) as [-> ->]. by destruct (Hhalf r' r (not_eq_sym Hne)) as [-> ->].
Qed.

(** ** Back to the secrets *)

(** The tokens in [D] stand for their secrets again. *)
Definition restored (D : list bytes) (d r : bytes) : bytes := if decide (d ∈ D) then r else d.

Lemma restore_one D d r ps :
  of_vault d r -> (d ∉ D) -> pieces_ok (λ s, Contains s d = false) of_vault ps ->
  ReplaceAll (render (restored D) ps) d r = render (restored (d :: D)) ps.
Proof.
  intros Hv Hd. destruct (of_vault_real d r Hv) as [Ed _].
  induction ps as [t|t d' r' ps IH]; cbn; [by apply ReplaceAll_absent|]. intros (Ht & Hq & Hps). rewrite <- IH by done.
  destruct (of_vault_real d' r' Hq) as [Ed' _]. unfold restored at 1 3. destruct (decide (d' = d)) as [->|Hne].
  - rewrite decide_False, (decide_True (P := d ∈ d :: D)) by (done || by left).
    assert (r' = r) as -> by (destruct Hv as (? & E1 & <-), Hq as (? & E2 & <-); congruence).
    rewrite replace_found by (rewrite Ed; apply token_unbordered). by rewrite (ReplaceAll_absent t).
  - assert (apart d (if decide (d' ∈ D) then r' else d') = true) as Ha.
    { case_decide; [rewrite apart_sym; by eapply Hapart|]. rewrite Ed, Ed'. apply tokens_apart. congruence. }
    rewrite replace_around; [|by rewrite Ed|done]. rewrite (ReplaceAll_absent t) by done. do 2 f_equal.
    destruct (decide (d' ∈ D)); [rewrite decide_True by (by right); done|]. rewrite decide_False; [done|].
    rewrite elem_of_cons. tauto.
Qed.

Lemma restore_all allow l D ps :
  (forall kv, kv ∈ l -> of_vault kv.1 (Real kv.2) /\ allow (vClass kv.2) = true) -> NoDup l.*1 -> (forall d, d ∈ l.*1 -> d ∉ D) ->
  pieces_ok (λ s, forall kv, kv ∈ l -> Contains s kv.1 = false) of_vault ps ->
  foldl (replace_dummy allow) (render (restored D) ps) l = render (restored (reverse l.*1 ++ D)) ps.
Proof.
  revert D. induction l as [|kv l IH]; intros D Hl Hn HD Hps; [done|]. cbn [foldl fmap list_fmap] in *.
  apply NoDup_cons in Hn as [Hkv Hn]. destruct (Hl kv ltac:(by left)) as [Hv Ha].
  assert (replace_dummy allow (render (restored D) ps) kv = render (restored (kv.1 :: D)) ps) as ->.
  { rewrite <- (restore_one D kv.1 (Real kv.2)); [|done|apply HD; by left|].
    - unfold replace_dummy. rewrite Ha. cbn [negb]. destruct (of_vault_real _ _ Hv) as [E _].
      rewrite bool_decide_eq_false_2 by (by rewrite E). cbn [orb].
      destruct (Contains _ kv.1) eqn:Ec; [done|]. by rewrite ReplaceAll_absent.
    - eapply ok_weaken; [|intros ? ? Hq0; exact Hq0|exact Hps]. intros s Hs. apply Hs. by left. }
  rewrite IH.
  - by rewrite reverse_cons, <- app_assoc.
  - intros kv' Hin. apply Hl. by right.
  - done.
  - intros d Hin. rewrite not_elem_of_cons. split; [intros ->; done|apply HD; by right].
  - eapply ok_weaken; [|intros ? ? Hq0; exact Hq0|exact Hps]. intros s Hs kv' Hin. apply Hs. by right.
Qed.

Lemma render_all D ps : (forall d r, of_vault d r -> d ∈ D) -> pieces_ok (λ _, True) of_vault ps -> render (restored D) ps = meant ps.
Proof.
  intros HD. induction ps as [t|t d r ps IH]; cbn; [done|]. intros (_ & Hq & Hps). rewrite IH by done.
  unfold restored. by rewrite decide_True by (by eapply HD).
Qed.

End vault.

(** ** Properties *)

Section properties.

Context `{Compressors} `{MathLog2} `{Floats} `{Archives} `{Clock} `{MapOrder} `{UnicodeLower}.

Lemma replace_dummies_nil allow (l : list (bytes * VaultEntry)) : foldl (replace_dummy allow) [] l = [].
Proof.
  induction l as [|kv l IH]; [done|]. cbn [foldl]. assert (replace_dummy allow [] kv = []) as ->; [|exact IH].
  unfold replace_dummy. by repeat case_match.
Qed.

(** Both directions, for any vault of the engine. *)
Lemma vault_inverse (V : gmap bytes VaultEntry) (n : nat) (frame : bytes) :
  map_Forall vault_entry_ok V ->
  (forall d entry d' entry', V !! d = Some entry -> V !! d' = Some entry' -> apart (Real entry) d' = true) ->
  let f := vaultReplaceReals n frame V in
  (forall d entry, V !! d = Some entry -> ~ infix (Real entry) f) /\
  ((forall d entry, V !! d = Some entry -> ~ infix d frame) ->
   forall n' allow, allow VaultSecretClassExtracted = true -> vaultDetokenize n' f V allow = frame).
Proof.
  intros Hok Hap f.
  assert (forall d r d' r', of_vault V d r -> of_vault V d' r' -> apart r d' = true) as Hapart
    by (intros d r d' r' (en & E & <-) (en' & E' & <-); by eapply Hap).
  assert (forall m kv, kv ∈ entries m V -> of_vault V kv.1 (Real kv.2)) as Hin
    by (intros m [d en] He%elem_of_entries; by exists en).
  destruct (tokenized V Hok Hapart (λ s, infix s frame) (entries n V) (Last frame)) as (ps & Hs & Hm & Hps).
  - intros s t Hst. by apply infix_trans.
  - apply Hin.
  - apply infix_refl.
  - change (shown ps = f) in Hs. change (meant ps = frame) in Hm. split.
    + intros d entry E Hi%Contains_spec. rewrite <- Hs in Hi.
      rewrite (shown_clean V Hok Hapart ps d (Real entry)) in Hi; [done|by exists entry|].
      eapply ok_weaken; [|intros ? ? Hq0; exact Hq0|exact Hps]. intros s [_ Hc]. apply (Hc (d, entry)). by apply elem_of_entries.
    + intros Hno n' allow Hal. rewrite <- Hs.
      assert (pieces_ok (λ s, forall kv, kv ∈ entries n' V -> Contains s kv.1 = false) (of_vault V) ps) as Hps'.
      { eapply ok_weaken; [|intros ? ? Hq0; exact Hq0|exact Hps]. intros s [Hi _] [d en] He%elem_of_entries.
        apply not_true_iff_false. intros Hc%Contains_spec. apply (Hno d en He). by eapply infix_trans. }
      assert (NoDup (entries n' V).*1) as Hnd by (unfold entries; rewrite range_perm; apply NoDup_fst_map_to_list).
      pose proof (restore_all V Hok Hapart allow (entries n' V) [] ps) as Hr. rewrite app_nil_r in Hr.
      assert (forall qs, render (restored []) qs = shown qs) as Hnone by (intros qs; induction qs as [|t d r qs IH]; cbn; [done|by rewrite IH]).
      rewrite Hnone, render_all with (V := V) in Hr.
      * unfold vaultDetokenize. rewrite <- Hm, <- Hr.
        -- destruct (shown ps); [by rewrite replace_dummies_nil|done].
        -- intros [d en] He. split; [by eapply Hin|]. apply elem_of_entries in He. destruct (Hok _ _ He) as (_ & _ & Hc).
           cbn [snd]. by rewrite Hc.
        -- done.
        -- intros d _. apply not_elem_of_nil.
        -- done.
      * intros d r (en & E & _). rewrite elem_of_reverse. apply list_elem_of_fmap. exists (d, en). split; [done|]. by apply elem_of_entries.
      * eapply ok_weaken; [|intros ? ? Hq0; exact Hq0|exact Hps]. done.
Qed.

(** C18: what the vault takes out of a frame it puts back, and leaves nothing in. In any reachable state, for a session
    whose vaulted secrets do not overlap the tokens, the frame an agent gets contains none of these secrets, and when the
    original frame had no token in it, detokenizing for a tool that may have the secrets gives it back byte by byte,
    in whatever orders the two loops visit the vault. *)
Theorem vault_hides_and_restores (e : Engine) (sink audit : bool) (cs : list call) (id frame : bytes) (st : SessionState) :
  let w := after e sink audit cs start in
  let f := (VaultRewriteFrame e id frame w).1 in
  store w !! id = Some st -> vaultEnabled e = true -> id ≠ [] ->
  (forall d entry d' entry', Vault st !! d = Some entry -> Vault st !! d' = Some entry' -> apart (Real entry) d' = true) ->
  (forall d entry, Vault st !! d = Some entry -> ~ infix (Real entry) f) /\
  ((forall d entry, Vault st !! d = Some entry -> ~ infix d frame) ->
   forall n allow, allow VaultSecretClassExtracted = true -> vaultDetokenize n f (Vault st) allow = frame).
Proof.
  intros w f Hst Hen Hid Hap. destruct (after_sessions_ok e sink audit cs _ (start_sessions_ok e)) as [_ Hall].
  destruct (Hall id st Hst) as (_ & _ & _ & Hv). destruct (decide (frame = [])) as [->|Hne].
  - assert (f = []) as -> by (unfold f, VaultRewriteFrame; by rewrite (bool_decide_eq_true_2 ([] = [])), orb_true_r). split; [|done].
    intros d entry E (a & b & Hab). destruct (Hv d entry E) as (_ & Hr & _). apply Hr. by destruct a, (Real entry).
  - assert (exists n, f = vaultReplaceReals n frame (Vault st)) as [n ->].
    { unfold f, VaultRewriteFrame. rewrite Hen, !bool_decide_eq_false_2 by done. cbn [negb orb].
      unfold mbind, M_bind, get_session, Get. rewrite Hst. by eexists. }
    by apply vault_inverse.
Qed.

End properties.

(** ** Witness: the ticket with the key, read with the vault on *)

Definition demo_vault : Engine := {|
  tagger := Some demo_tagger; mode := gostr "block"; untrustedToolResults := true; legTTL := 30 * Minute; decayAfterCalls := 32;
  contentBindMinLen := 16; fragmentMaxChunks := 16; fragmentMaxBytes := 65536; chunkMatchBytes := 32; chunkMatchMinLen := 64;
  egressReassemblyEnabled := true; egressFragmentMaxChunks := 16; egressFragmentMaxBytes := 4096; egressFragmentMaxAge := 10 * Second;
  egressMaxFlows := 32; maxDecodeDepth := DefaultMaxDecodeDepth; vaultEnabled := true; vaultAuthorize := []; sensitivePaths := [];
  containerLimits := DefaultContainerLimits |}.

Abbreviation vault_world := (after demo_vault true true [read_ticket "s1"] start).
Definition vaulted_state : SessionState := default (new_session [] 0) (store vault_world !! gostr "s1").
Definition vault_frame : bytes := gostr "the key is " ++ demo_secret ++ gostr ", keep " ++ demo_secret.

Lemma vaulted_stored : store vault_world !! gostr "s1" = Some vaulted_state.
Proof. vm_compute. reflexivity. Qed.

Lemma vaulted_entries : map_to_list (Vault vaulted_state) = [(VaultDummy demo_secret, {| Real := demo_secret; vClass := VaultSecretClassExtracted |})].
Proof. vm_compute. reflexivity. Qed.

Lemma vaulted_entry d entry : Vault vaulted_state !! d = Some entry -> d = VaultDummy demo_secret /\ Real entry = demo_secret.
Proof. rewrite <- elem_of_map_to_list, vaulted_entries, list_elem_of_singleton. by intros [= -> ->]. Qed.

Lemma vaulted_apart : apart demo_secret (VaultDummy demo_secret) = true.
Proof. vm_compute. reflexivity. Qed.

Lemma vault_frame_plain : ~ infix (VaultDummy demo_secret) vault_frame.
Proof.
  assert (Contains vault_frame (VaultDummy demo_secret) = false) as Hc by (vm_compute; reflexivity).
  intros Hi. apply (not_true_iff_false (Contains vault_frame (VaultDummy demo_secret))); [exact Hc|]. exact (proj2 (Contains_spec _ _) Hi).
Qed.

Example vault_hides_and_restores_witness :
  vaultDetokenize 0 (VaultRewriteFrame demo_vault (gostr "s1") vault_frame vault_world).1 (Vault vaulted_state) (λ _, true) = vault_frame.
Proof.
  destruct (vault_hides_and_restores demo_vault true true [read_ticket "s1"] (gostr "s1") vault_frame vaulted_state vaulted_stored)
    as [_ Hback].
  - reflexivity.
  - discriminate.
  - intros d entry d' entry' E E'. destruct (vaulted_entry d entry E) as [_ ->]. destruct (vaulted_entry d' entry' E') as [-> _].
    exact vaulted_apart.
  - apply Hback; [|reflexivity]. intros d entry E Hi. destruct (vaulted_entry d entry E) as [-> _].
    exact (vault_frame_plain Hi).
Defined.
