(* ===== verification/Exfil.v ===== *)
(** * From the check to the verdict: tool calls

    What EvaluateRequest does in one equation, and what follows: a registered secret in the
    arguments of a sink call is blocked, an EXFIL verdict is proof, a soft verdict never
    blocks; and, from the result that is read to the call that is refused, that a Stripe key
    a sensitive source shows is taken up and does not get out. *)

From S2P Require Import Prelude Go GoTime Config GoStrings Encodings Json Model Store Tagger.
From S2P Require Import Egress EgressTheorems Regex Taint TaintTheorems Overlap OverlapTheorems Container.
From S2P Require Import Match Carried Engine EngineFacts Demo EngineRuns EngineInvariants EngineTheorems.

Section externals.

Context `{Compressors} `{MathLog2} `{Floats} `{Archives} `{Clock} `{MapOrder} `{UnicodeLower}.
Context (e : Engine) (sink : bool).
Implicit Types (S : SessionState).

(** The arguments as they would be sent: with the tokens of the vault, in its [n]th order, replaced
    for a tool it authorizes. *)
Definition to_send (n : nat) (tool args : bytes) (vault : gmap bytes VaultEntry) : bytes :=
  if vaultEnabled e then
    match vaultToolAuthorized e tool with Some allowClass => vaultDetokenize n args vault allowClass | None => args end
  else args.

(** The arguments that are scanned, and those forwarded instead of the original ones. *)
Definition scanned (ev : InterceptedEvent) S (args : bytes) (fwd : option bytes) : Prop :=
  (exists n, args = to_send n (ieToolName ev) (ieToolArgs ev) (Vault S)) /\
  fwd = if decide (args = ieToolArgs ev) then None else Some args.

(** The decision and outputs of a call on a sink, from the session [S1] that has its sink leg
    lit: no trip, or a trip with its evidence. *)
Inductive sink_outcome (ev : InterceptedEvent) S1 : Decision -> SessionState -> list output -> Prop :=
  | sink_passes args fwd tick o ab n :
      scanned ev S1 args fwd ->
      CheckOverlapLimited (decode_depth e) tick (Tainted S1) args (containerLimits e) = (o, ab, n) ->
      classifyTrip e S1 o args true ab = None ->
      sink_outcome ev S1 (with_forward fwd allowed) S1 []
  | sink_trips args fwd tick o ab n v c allow a rec reason :
      scanned ev S1 args fwd ->
      CheckOverlapLimited (decode_depth e) tick (Tainted S1) args (containerLimits e) = (o, ab, n) ->
      classifyTrip e S1 o args true ab = Some (v, c) -> proxyAction e v = (allow, a) ->
      answers (buildEvidence (trip c S1) ev v a c o) rec ->
      sink_outcome ev S1
        {| Allow := allow; dVerdict := v; dAction := a; Reason := reason; Evidence := Some rec;
           ForwardArgs := if allow then fwd else None |}
        (trip c S1) (if sink then [EmitEvidence rec] else []).

(** The session after a call was noted: touched, with a sensitive path remembered. *)
Definition noted (ev : InterceptedEvent) S S1 : Prop :=
  exists now n, S1 = stashSensitiveReadPath e n ev
    (touchSession e now (ieSeq ev) (ieToolName ev ++ gostr " called") S).

Definition request_outcome (ev : InterceptedEvent) S (d : Decision) S' (l : list output) : Prop :=
  exists S0, noted ev S S0 /\
  if is_external_sink e ev then
    exists now, sink_outcome ev (setExternalSinkInvoked now ev S0) d S' l
  else d = allowed /\ S' = S0 /\ l = [].

Lemma answers_detokenized ev S r :
  answers (detokenized e ev S) r -> scanned ev S r.1 r.2.
Proof.
  unfold detokenized, scanned, to_send. destruct (vaultEnabled e); cbn [negb].
  2: { intros ->%answers_ret. cbn [fst snd]. rewrite decide_True by done. split; [by exists 0%nat|done]. }
  destruct (vaultToolAuthorized e (ieToolName ev)) as [ac|].
  2: { intros ->%answers_ret. cbn [fst snd]. rewrite decide_True by done. split; [by exists 0%nat|done]. }
  intros (detok & [n ->]%answers_iterate & ->%answers_ret)%answers_bind.
  case_bool_decide as Hd; cbn [fst snd].
  - rewrite decide_True by done. split; [by exists n|done].
  - rewrite decide_False by done. split; [by exists n|done].
Qed.

Lemma noted_id ev S S1 : noted ev S S1 -> SessionID S1 = SessionID S.
Proof. intros (now & n & ->). by autorewrite with layout. Qed.

(** The whole of EvaluateRequest. *)
Lemma evaluate_runs ev w :
  store_ok (store w) ->
  exists S S' l, (store w !! ieSessionID ev = Some S \/
      store w !! ieSessionID ev = None /\ exists now, S = new_session (ieSessionID ev) now) /\
    store (EvaluateRequest e sink ev w).2 !! ieSessionID ev = Some S' /\
    out (EvaluateRequest e sink ev w).2 = out w ++ l /\
    request_outcome ev S (EvaluateRequest e sink ev w).1 S' l.
Proof.
  intros Hw. apply (runs_any _ _ (request_outcome ev)); [done|]. intros S Hid. cbv beta.
  apply runs_silent_bind; [silent|]. intros st [now ->]%answers_touch.
  apply runs_silent_bind; [silent|]. intros st [n ->]%answers_iterate.
  set (S0 := stashSensitiveReadPath _ _ _ _).
  assert (noted ev S S0) as Hn by (by exists now, n). pose proof (noted_id _ _ _ Hn) as Hid0.
  destruct (is_external_sink e ev) eqn:Es; cbn [negb].
  2: { runs_step; [congruence|]. runs_step. exists S0. by rewrite Es. }
  apply runs_silent_bind; [silent|]. intros now2 _. cbv zeta.
  set (S1 := setExternalSinkInvoked now2 ev S0).
  assert (SessionID S1 = ieSessionID ev) as Hid1 by (unfold S1; rewrite SessionID_setSink; congruence).
  apply runs_silent_bind; [silent|]. intros [args fwd] Hs%answers_detokenized.
  apply runs_silent_bind; [silent|]. intros [o ab] [t Ht]%answers_tick.
  destruct (CheckOverlapLimited (decode_depth e) t (Tainted S1) args (containerLimits e))
    as [[o' ab'] n'] eqn:Ec. injection Ht as -> ->.
  destruct (classifyTrip e S1 o' args true ab') as [[v c]|] eqn:Ev.
  - destruct (proxyAction e v) as [allow a] eqn:Ea. runs_step; [done|].
    apply runs_silent_bind; [silent|]. intros rec Hr. runs_step. runs_step.
    exists S0. split; [done|]. rewrite Es. exists now2. rewrite app_nil_r. by eapply sink_trips.
  - runs_step; [done|]. runs_step. exists S0. split; [done|]. rewrite Es. exists now2. by eapply sink_passes.
Qed.

(** ** What the outcome says *)

Lemma noted_Tainted ev S S1 : noted ev S S1 -> Tainted S1 = Tainted S.
Proof. intros (now & n & ->). by rewrite Tainted_stash, Tainted_touch. Qed.

Lemma noted_Vault ev S S1 : noted ev S S1 -> Vault S1 = Vault S.
Proof.
  intros (now & n & ->). unfold stashSensitiveReadPath, touchSession, pruneLegs.
  destruct (tagger e), (negb _); try destruct (List.find _ _);
    destruct (decayed _ _ _ (UntrustedContentPresent _)), (ieSeq ev =? 0);
    try destruct (bool_decide _ && _); done.
Qed.

Lemma Vault_setSink now ev S : Vault (setExternalSinkInvoked now ev S) = Vault S.
Proof. unfold setExternalSinkInvoked. by destruct (Lit _). Qed.

Lemma answers_buildEvidence st ev v a c o rec :
  answers (buildEvidence st ev v a c o) rec ->
  erVerdict rec = v /\ erAction rec = a /\ ValueOverlap rec = o /\ erLegs rec = Legs st /\
  erVariant rec = VariantA /\ erSessionID rec = SessionID st.
Proof. intros [w <-]. apply buildEvidence_fields. Qed.

(** What is scanned is what would be sent, from a vault that is the same. *)
Lemma scanned_sent ev S S' args fwd (P : bytes -> Prop) :
  Vault S' = Vault S -> (forall n, P (to_send n (ieToolName ev) (ieToolArgs ev) (Vault S))) ->
  scanned ev S' args fwd -> P args.
Proof. intros HV HP [[n ->] _]. by rewrite HV. Qed.

End externals.

Section properties.

Context `{Compressors} `{MathLog2} `{Floats} `{Archives} `{Clock} `{MapOrder} `{UnicodeLower}.

(** What an engine in a well-formed state makes of a sink call that carries a tainted value. *)
Lemma exfil_judged (e : Engine) (sink : bool) (w : World) (ev : InterceptedEvent)
    (st : SessionState) (tv : TaintedValue) (v : TaintedVariant) :
  let d := (EvaluateRequest e sink ev w).1 in
  let w' := (EvaluateRequest e sink ev w).2 in
  store_ok (store w) ->
  store w !! ieSessionID ev = Some st -> tv ∈ Tainted st ->
  v ∈ forms_of tv ++ Chunks tv -> vValue v ≠ [] ->
  (forall n, infix (vValue v) (to_send e n (ieToolName ev) (ieToolArgs ev) (Vault st))) ->
  is_external_sink e ev = true ->
  dVerdict d = VerdictExfil /\ Allow d = bool_decide (mode e = gostr "monitor") /\
  (Allow d = false -> ForwardArgs d = None) /\
  exists rec h st', Evidence d = Some rec /\ ValueOverlap rec = Some h /\
    TaintedHash h ∈ map Hash (Tainted st) /\
    store w' !! ieSessionID ev = Some st' /\ Status st' = Tripped /\
    out w' = out w ++ (if sink then [EmitEvidence rec] else []).
Proof.
  intros d w' Hok Hst Htv Hv Hne Hi Hs.
  destruct (evaluate_runs e sink ev w Hok) as (S & S' & l & HS & HS' & Hl & HO).
  destruct HS as [HS|[HS _]]; [|congruence]. rewrite HS in Hst. injection Hst as ->.
  fold d w' in HS', Hl, HO. destruct HO as (S0 & Hn & HO). rewrite Hs in HO. destruct HO as [now HO].
  set (S1 := setExternalSinkInvoked now ev S0) in *.
  assert (Tainted S1 = Tainted st) as HT by (unfold S1; by rewrite Tainted_setSink, (noted_Tainted e ev st S0 Hn)).
  assert (Vault S1 = Vault st) as HV by (unfold S1; by rewrite Vault_setSink, (noted_Vault e ev st S0 Hn)).
  destruct HO as [args fwd tick o ab n Hsc Hc Ht|args fwd tick o ab n v' c allow a rec reason Hsc Hc Ht Ha Hr].
  all: apply (scanned_sent e ev st S1 args fwd (infix (vValue v)) HV Hi) in Hsc as Hia.
  all: destruct (checkOverlapString_hit (Tainted st) tv v args Htv Hv Hne Hia) as [h Hh].
  all: rewrite HT, (CheckOverlap_string _ _ _ _ _ _ Hh) in Hc; injection Hc as <- <- <-.
  { done. }
  injection Ht as <- <-. apply answers_buildEvidence in Hr as (_ & _ & Ho & _ & _ & _).
  unfold proxyAction in Ha. rewrite decide_True in Ha by done.
  assert (allow = bool_decide (mode e = gostr "monitor")) as ->
    by (destruct (bool_decide (mode e = gostr "monitor")); by injection Ha).
  split_and!; [done|done|cbn; by intros ->|].
  exists rec, (found_in (gostr "sink args") h), (trip conf_exfil S1). split_and!; try done.
  apply checkOverlapString_proves with (lim := containerLimits e) in Hh as (t & Hin & Hh & _).
  cbn. rewrite Hh. by apply list_elem_of_fmap_2.
Qed.

(** C2: registered secret bytes do not leave through a tool call. In any reachable state, when
    the session holds a tainted value and the arguments of a call to an external sink, as they
    would be sent (with the tokens of the vault replaced when the vault authorizes the tool,
    as they came otherwise), contain one of its encodings or chunks, the verdict is EXFIL: the
    call is refused (in block mode), no detokenized arguments are handed out with a refusal,
    the session is tripped and exactly one evidence record, naming a registered value, is
    emitted. *)
Theorem exfil_blocked (e : Engine) (sink audit : bool) (cs : list call) (ev : InterceptedEvent)
    (st : SessionState) (tv : TaintedValue) (v : TaintedVariant) :
  let w := after e sink audit cs start in
  let d := (EvaluateRequest e sink ev w).1 in
  let w' := (EvaluateRequest e sink ev w).2 in
  store w !! ieSessionID ev = Some st -> tv ∈ Tainted st ->
  v ∈ forms_of tv ++ Chunks tv -> vValue v ≠ [] ->
  (forall n, infix (vValue v) (to_send e n (ieToolName ev) (ieToolArgs ev) (Vault st))) ->
  is_external_sink e ev = true ->
  dVerdict d = VerdictExfil /\ Allow d = bool_decide (mode e = gostr "monitor") /\
  (Allow d = false -> ForwardArgs d = None) /\
  exists rec h st', Evidence d = Some rec /\ ValueOverlap rec = Some h /\
    TaintedHash h ∈ map Hash (Tainted st) /\
    store w' !! ieSessionID ev = Some st' /\ Status st' = Tripped /\
    out w' = out w ++ (if sink then [EmitEvidence rec] else []).
Proof. intros w d w'. apply exfil_judged, reachable_ok. Qed.

(** C5: EXFIL means proof. An EXFIL verdict on a tool call is only ever given when the bytes
    that would be sent (the arguments, or their detokenized form) carry bytes of a value
    registered as tainted in that very session: one of its encodings or chunks, directly or
    under JSON, base64, hexadecimal or archive layers; and the evidence names that value. *)
Theorem exfil_request_is_proof (e : Engine) (sink audit : bool) (cs : list call) (ev : InterceptedEvent) :
  let w := after e sink audit cs start in
  let d := (EvaluateRequest e sink ev w).1 in
  dVerdict d = VerdictExfil ->
  exists st tv args rec h, store w !! ieSessionID ev = Some st /\ tv ∈ Tainted st /\
    (args = ieToolArgs ev \/ vaultEnabled e = true /\ exists n allowClass,
       vaultToolAuthorized e (ieToolName ev) = Some allowClass /\
       args = vaultDetokenize n (ieToolArgs ev) (Vault st) allowClass) /\
    carries (containerLimits e) tv args /\
    Evidence d = Some rec /\ ValueOverlap rec = Some h /\ TaintedHash h = Hash tv /\ ohPreview h = Preview tv.
Proof.
  intros w d Hd.
  destruct (evaluate_runs e sink ev w (reachable_ok e sink audit cs)) as (S & S' & l & HS & _ & _ & HO).
  fold d in HO. destruct HO as (S0 & Hn & HO).
  destruct (is_external_sink e ev); [|by destruct HO as (E & _); rewrite E in Hd].
  destruct HO as [now HO]. set (S1 := setExternalSinkInvoked now ev S0) in *.
  assert (Tainted S1 = Tainted S) as HT by (unfold S1; by rewrite Tainted_setSink, (noted_Tainted e ev S S0 Hn)).
  assert (Vault S1 = Vault S) as HV by (unfold S1; by rewrite Vault_setSink, (noted_Vault e ev S S0 Hn)).
  destruct HO as [|args fwd tick o ab n v' c allow a rec reason Hsc Hc Ht Ha Hr]; [done|]. cbn in Hd. subst v'.
  apply classify_justified in Ht as [h ->]. rewrite HT in Hc.
  pose proof (CheckOverlap_proves (containerLimits e) (decode_depth e) tick (Tainted S) args h ltac:(by rewrite Hc))
    as (tv & Hin & Hh & Hp & Hcar).
  apply answers_buildEvidence in Hr as (_ & _ & Ho & _).
  destruct HS as [HS|(_ & now' & ->)]; [|by apply elem_of_nil in Hin].
  exists S, tv, args, rec, h. split_and!; try done.
  destruct Hsc as [[m ->] _]. rewrite HV. unfold to_send. destruct (vaultEnabled e); [|by left].
  destruct (vaultToolAuthorized e (ieToolName ev)) as [ac|]; [|by left]. right. split; [done|]. by exists m, ac.
Qed.

(** A decision on a tool call is what its verdict says. Only EXFIL refuses a call, as
    prevented and not in monitor mode; SUSPICIOUS requires all three legs lit and always lets
    the call through; every verdict carries its evidence, with the value found or with the
    lit legs; only sinks get verdicts; and detokenized arguments are handed out only for
    an allowed call of a tool the vault authorizes. *)
Theorem request_decision_sound (e : Engine) (sink audit : bool) (cs : list call) (ev : InterceptedEvent) :
  let d := (EvaluateRequest e sink ev (after e sink audit cs start)).1 in
  (Allow d = false -> dVerdict d = VerdictExfil /\ dAction d = ActionPrevented /\
     mode e ≠ gostr "monitor" /\ ForwardArgs d = None) /\
  (dVerdict d = VerdictExfil -> mode e ≠ gostr "monitor" -> Allow d = false) /\
  (dVerdict d = VerdictSuspicious -> Allow d = true /\
     exists rec, Evidence d = Some rec /\ ValueOverlap rec = None /\ AllLit (erLegs rec) = true) /\
  (dVerdict d ≠ NoVerdict -> is_external_sink e ev = true /\
     exists rec, Evidence d = Some rec /\ justified (dVerdict d) rec) /\
  (ForwardArgs d ≠ None -> Allow d = true /\ vaultEnabled e = true /\
     is_Some (vaultToolAuthorized e (ieToolName ev))).
Proof.
  intros d. destruct (evaluate_decision e sink ev _ (reachable_ok e sink audit cs)) as (H1' & H2' & H3' & H4' & H5').
  fold d in H1', H2', H3', H4', H5'. split_and!; try done.
  - intros Hv. destruct (H2' ltac:(by rewrite Hv)) as (rec & Hr & Hj). rewrite Hv in Hj. split.
    + destruct (Allow d) eqn:E; [done|]. destruct (H1' eq_refl) as [E' _]. congruence.
    + exists rec. destruct Hj as (_ & ? & ?). done.
  - intros Hv. split; [by apply H5'|by apply H2'].
Qed.

End properties.

(** ** From the result that is read to the call that is refused *)

Section reading.

Context {CO : Compressors} {ML : MathLog2} {FL : Floats} {AR : Archives} {CL : Clock} {MO : MapOrder} {UL : UnicodeLower}.

(** The values a session holds. *)
Definition held (w : World) (id : bytes) : list TaintedValue :=
  match store w !! id with Some st => Tainted st | None => [] end.

(** The vault of a session. *)
Definition vault_of (w : World) (id : bytes) : gmap bytes VaultEntry :=
  match store w !! id with Some st => Vault st | None => ∅ end.

(** The text of a result shows the key between bytes that are not of a word. *)
Definition key_shown (ev : InterceptedEvent) (key : bytes) : Prop :=
  forall n, exists a b, extractResultText n (ieResult ev) = a ++ key ++ b /\ open_end (last a) /\ open_end (head b).

(** No other value extracted from the result has the key's hash. *)
Definition key_apart (ev : InterceptedEvent) (key : bytes) : Prop :=
  forall n now source seq c, c ∈ ExtractTaintedValues now (extractResultText n (ieResult ev)) source seq ->
  Hash c = HashValue key -> Value c = key.

(** The first candidate with a hash that is new is the one that is added. *)
Lemma unique_from_first seen cs rest c :
  c ∈ cs -> Hash c ∉ seen -> exists c', c' ∈ cs /\ Hash c' = Hash c /\ c' ∈ unique_from seen (cs ++ rest).
Proof.
  revert seen. induction cs as [|x cs IH]; intros seen Hc Hs; [by apply elem_of_nil in Hc|]. cbn [app unique_from].
  destruct (decide (Hash x = Hash c)) as [E|Hne].
  - exists x. split; [by left|]. split; [done|]. rewrite bool_decide_eq_false_2 by (by rewrite E). by left.
  - apply elem_of_cons in Hc as [->|Hc]; [done|]. case_bool_decide as Hx.
    + destruct (IH seen Hc Hs) as (c' & ? & ? & ?). exists c'. by split_and!; [right|..].
    + destruct (IH (Hash x :: seen) Hc) as (c' & ? & ? & ?); [by intros [?|?]%elem_of_cons|].
      exists c'. by split_and!; [right|..|right].
Qed.

(** What is added keeps its value and its encodings. *)
Lemma added_kept e value source seq now l cs :
  value ≠ [] -> new_taint value (CanonicalEncodings value) source seq now ∈ unique_from (map Hash l) cs ->
  exists tv, tv ∈ added_to e l cs /\ Value tv = value /\ forms_of tv = CanonicalEncodings value.
Proof.
  intros Hv Hin. set (c := new_taint _ _ _ _ _) in *.
  destruct (with_chunks_same e (with_variants c)) as (_ & E1 & E2). exists (with_chunks e (with_variants c)). split_and!.
  - unfold added_to, attachChunksAll, appendUniqueTainted. apply list_elem_of_fmap_2, list_elem_of_fmap_2. exact Hin.
  - by rewrite E1, Value_with_variants.
  - unfold forms_of. rewrite E1, E2, Value_with_variants. unfold with_variants, c. cbn [new_taint Variants Value].
    by destruct value.
Qed.

(** Reading a result of a sensitive source: the session takes up what is extracted from its
    text, ahead of whatever else it takes up. *)
Lemma ingest_adds e t f ev w :
  store_ok (store w) -> tagger e = Some t -> IsSensitiveSource t (ieToolName ev) (ieServerID ev) = true ->
  (forall n, extractResultText n (ieResult ev) ≠ []) ->
  exists n now source seq rest,
    let cs := ExtractTaintedValues now (extractResultText n (ieResult ev)) source seq ++ rest in
    let l := held w (ieSessionID ev) in
    held (IngestResult e f ev w).2 (ieSessionID ev) =
      if decide (added_to e l cs = []) then l else shed_taint (l ++ added_to e l cs).
Proof.
  intros Hw Ht Hsens Hne.
  set (Q := λ S (_ : ()) S' (_ : list output), exists n now source seq rest,
    let cs := ExtractTaintedValues now (extractResultText n (ieResult ev)) source seq ++ rest in
    Tainted S' = if decide (added_to e (Tainted S) cs = []) then Tainted S else shed_taint (Tainted S ++ added_to e (Tainted S) cs)).
  assert (exists S S' l, (store w !! ieSessionID ev = Some S \/
      store w !! ieSessionID ev = None /\ exists now, S = new_session (ieSessionID ev) now) /\
    store (IngestResult e f ev w).2 !! ieSessionID ev = Some S' /\
    out (IngestResult e f ev w).2 = out w ++ l /\ Q S (IngestResult e f ev w).1 S' l) as (S & S' & l & HS & HS' & _ & HQ).
  { apply (runs_any _ _ Q); [done|]. intros S Hid. cbv beta. rewrite Ht, Hsens.
    runs_step. runs_step. runs_step.
    destruct (extractResultText _ _) eqn:E; [by apply Hne in E|]. rewrite <- E.
    apply runs_silent_bind; [silent|]. intros [cs st'] Hs.
    pose proof (quiet_candidates e _ _ _ _ Hs) as [HT _]. apply answers_candidates in Hs as [Es (now & rest & Hcs)].
    cbn [fst snd] in HT, Es, Hcs. subst cs. rewrite addTainted_eq.
    assert (Tainted st' = Tainted S) as HT'.
    { rewrite HT. etransitivity; [apply (quiet_setSensitive e)|]. apply Tainted_touch. }
    assert (SessionID st' = ieSessionID ev) as Hid'.
    { rewrite Es. autorewrite with layout. cbn [SessionID]. autorewrite with layout. done. }
    rewrite HT'. runs_step.
    - rewrite SessionID_vaultMint. by destruct (decide _).
    - runs_step. eexists _, now, _, _, rest. cbv zeta. etransitivity; [apply (quiet_vaultMint e)|].
      destruct (decide (added_to e _ _ = [])) as [E'|E']; cbn [snd Tainted set_Tainted]; [rewrite decide_True by exact E'; exact HT'|by rewrite decide_False by exact E']. }
  destruct HQ as (n & now & source & seq & rest & HT). exists n, now, source, seq, rest.
  assert (held w (ieSessionID ev) = Tainted S) as -> by (unfold held; destruct HS as [-> | [-> (? & ->)]]; done).
  unfold held. by rewrite HS'.
Qed.

(** A key that stands alone in the text of a sensitive result. *)
Lemma key_taken_up e t f ev key w :
  store_ok (store w) -> tagger e = Some t -> IsSensitiveSource t (ieToolName ev) (ieServerID ev) = true ->
  stripe_shaped key -> key_shown ev key -> key_apart ev key ->
  HashValue key ∉ map Hash (held w (ieSessionID ev)) ->
  exists added tv, tv ∈ added /\ Value tv = key /\ forms_of tv = CanonicalEncodings key /\
    held (IngestResult e f ev w).2 (ieSessionID ev) = shed_taint (held w (ieSessionID ev) ++ added).
Proof.
  intros Hw Ht Hsens Hk Hshown Hapart Hnew.
  assert (key ≠ []) as Hne by (destruct (ss_text _ Hk) as (? & ? & ? & ? & -> & _); done).
  destruct (ingest_adds e t f ev w Hw Ht Hsens) as (n & now & source & seq & rest & Hheld).
  { intros n. destruct (Hshown n) as (a & b & -> & _). by intros [_ [? _]%app_nil]%app_nil. }
  cbv zeta in Hheld. set (cs := ExtractTaintedValues _ _ _ _) in *. set (l := held w _) in *.
  destruct (Hshown n) as (a & b & Et & Ha & Hb).
  pose proof (stripe_extracted now a key b source seq Hk Ha Hb) as Hin. rewrite <- Et in Hin.
  destruct (unique_from_first (map Hash l) cs rest _ Hin Hnew) as (c & Hc & Eh & Hu).
  pose proof (Hapart _ _ _ _ _ Hc Eh) as Ev. apply extracted_value in Hc as [Ec _]. rewrite Ev in Ec. rewrite Ec in Hu.
  destruct (added_kept e _ _ _ _ l _ Hne Hu) as (tv & Htv & Hval & Hforms).
  exists (added_to e l (cs ++ rest)), tv. split_and!; try done. rewrite Hheld.
  rewrite decide_False; [done|]. intros E. rewrite E in Htv. by apply elem_of_nil in Htv.
Qed.

(** C3: what is read does not get out. When the result of a sensitive source shows a Stripe key
    between bytes that are not of a word, and neither a value the session holds nor another value in the
    result has its SHA-256, the session takes the key up: it is held afterwards,
    unless the session is over its caps and sheds it. And whatever calls come in between, as
    long as it is held a call to an external sink whose arguments, as they would be sent, contain
    any of its encodings gets the verdict EXFIL and is refused (in block mode). *)
Theorem read_key_refused (e : Engine) (t : Tagger) (sink audit : bool) (before between : list call)
    (f : bool * bool) (ev : InterceptedEvent) (key : bytes) :
  let w := after e sink audit before start in
  let w1 := after e sink audit [CallIngestResult f ev] w in
  let w2 := after e sink audit between w1 in
  let id := ieSessionID ev in
  tagger e = Some t -> IsSensitiveSource t (ieToolName ev) (ieServerID ev) = true ->
  stripe_shaped key -> key_shown ev key -> key_apart ev key -> HashValue key ∉ map Hash (held w id) ->
  exists added tv, tv ∈ added /\ Value tv = key /\
    held w1 id = shed_taint (held w id ++ added) /\
    (over_caps (held w id ++ added) = false -> tv ∈ held w1 id) /\
    (tv ∈ held w2 id -> forall send v,
       ieSessionID send = id -> is_external_sink e send = true ->
       v ∈ CanonicalEncodings key -> vValue v ≠ [] ->
       (forall n, infix (vValue v) (to_send e n (ieToolName send) (ieToolArgs send) (vault_of w2 id))) ->
       let d := (EvaluateRequest e sink send w2).1 in
       dVerdict d = VerdictExfil /\ Allow d = bool_decide (mode e = gostr "monitor") /\
       (Allow d = false -> ForwardArgs d = None)).
Proof.
  intros w w1 w2 id Ht Hsens Hk Hshown Hapart Hnew.
  pose proof (reachable_ok e sink audit before : store_ok (store w)) as Hw.
  destruct (key_taken_up e t f ev key w Hw Ht Hsens Hk Hshown Hapart Hnew) as (added & tv & Hin & Hval & Hforms & Hheld).
  assert (held w1 id = held (IngestResult e f ev w).2 id) as E1.
  { unfold w1, after, perform_all, mbind, M_bind. cbn [perform]. by destruct (IngestResult e f ev w). }
  change (ieSessionID ev) with id in Hheld.
  exists added, tv. split_and!; try done.
  - by rewrite E1, Hheld.
  - intros Hc. rewrite E1, Hheld, (shed_within_caps _ Hc). apply elem_of_app. by right.
  - intros Htv send v Hid Hs Hv Hne Hi. unfold held in Htv. unfold vault_of in Hi. rewrite <- Hid in Htv, Hi.
    destruct (store w2 !! ieSessionID send) as [st|] eqn:Est; [|by apply elem_of_nil in Htv].
    assert (store_ok (store w2)) as Hw2 by (by apply after_ok, after_ok).
    destruct (exfil_judged e sink w2 send st tv v Hw2 Est Htv) as (? & ? & ? & _); try done.
    rewrite Hforms. apply elem_of_app. by left.
Qed.

End reading.

(** ** Witnesses: a ticket with a key was read, and the key is sent in base64 *)

Definition demo_calls : list call := [read_ticket "s1"; read_message "s1"].
Abbreviation demo_world := (after demo_proxy true true demo_calls start).
Definition demo_form : TaintedVariant := variant FormBase64 (b64_encode demo_secret).
Definition demo_send : InterceptedEvent := send_message "s1" (b64_encode demo_secret).

(** An engine with the vault on, which hands secrets to the messenger. *)
Definition demo_trusting : Engine := {|
  tagger := Some demo_tagger; mode := gostr "block"; untrustedToolResults := true; legTTL := 30 * Minute; decayAfterCalls := 32;
  contentBindMinLen := 16; fragmentMaxChunks := 16; fragmentMaxBytes := 65536; chunkMatchBytes := 32; chunkMatchMinLen := 64;
  egressReassemblyEnabled := true; egressFragmentMaxChunks := 16; egressFragmentMaxBytes := 4096; egressFragmentMaxAge := 10 * Second;
  egressMaxFlows := 32; maxDecodeDepth := DefaultMaxDecodeDepth; vaultEnabled := true;
  vaultAuthorize := [{| va_Tool := gostr "send"; va_SecretClasses := [] |}]; sensitivePaths := [];
  containerLimits := DefaultContainerLimits |}.

Abbreviation trusting_world := (after demo_trusting true true demo_calls start).
Definition trusting_state : SessionState := default (new_session [] 0) (store trusting_world !! gostr "s1").
Definition trusting_tainted : TaintedValue := default (new_taint [] [] [] 0 0) (head (Tainted trusting_state)).
Definition secret_form : TaintedVariant := variant FormLiteral demo_secret.

(** The token the agent was given for the key is about to be sent. *)
Definition send_token : InterceptedEvent := send_message "s1" (VaultDummy demo_secret).

Lemma trusting_stored : store trusting_world !! ieSessionID send_token = Some trusting_state.
Proof. vm_compute. reflexivity. Qed.

Lemma trusting_held : trusting_tainted ∈ Tainted trusting_state.
Proof. apply list_elem_of_In. vm_compute. left. reflexivity. Qed.

Lemma trusting_form_held : secret_form ∈ forms_of trusting_tainted ++ Chunks trusting_tainted.
Proof. apply list_elem_of_In. vm_compute. left. reflexivity. Qed.

Lemma trusting_sent n :
  to_send demo_trusting n (ieToolName send_token) (ieToolArgs send_token) (Vault trusting_state) = [x22] ++ demo_secret ++ [x22].
Proof. vm_compute. reflexivity. Qed.

Example exfil_blocked_witness :
  Allow (EvaluateRequest demo_trusting true send_token trusting_world).1 = false /\
  ForwardArgs (EvaluateRequest demo_trusting true send_token trusting_world).1 = None.
Proof.
  destruct (exfil_blocked demo_trusting true true demo_calls send_token trusting_state trusting_tainted secret_form
    trusting_stored trusting_held trusting_form_held) as (_ & Ha & Hf & _).
  - vm_compute. discriminate.
  - intros n. rewrite trusting_sent. exact (ex_intro _ [x22] (ex_intro _ [x22] eq_refl)).
  - vm_compute. reflexivity.
  - assert (Allow (EvaluateRequest demo_trusting true send_token trusting_world).1 = false) as E
      by (rewrite Ha; vm_compute; reflexivity).
    split; [exact E|exact (Hf E)].
Defined.

Lemma demo_exfil : dVerdict (EvaluateRequest demo_proxy true demo_send demo_world).1 = VerdictExfil.
Proof. vm_compute. reflexivity. Qed.

Example exfil_request_is_proof_witness :
  exists st tv, store demo_world !! ieSessionID demo_send = Some st /\
    tv ∈ Tainted st.
Proof.
  destruct (exfil_request_is_proof demo_proxy true true demo_calls demo_send demo_exfil)
    as (st & tv & _ & _ & _ & Hst & Htv & _).
  exact (ex_intro _ st (ex_intro _ tv (conj Hst Htv))).
Defined.

(** *** The ticket itself: its key is taken up *)

Definition demo_read : InterceptedEvent :=
  frame (gostr "s1") (gostr "tickets") (gostr "get_ticket") []
    ([x22] ++ gostr "the key is " ++ demo_secret ++ gostr "." ++ [x22]) 1.

Definition demo_text : bytes := gostr "the key is " ++ demo_secret ++ [x2e; x0a].

Lemma demo_stripe : stripe_shaped demo_secret.
Proof.
  constructor. exists x2d, "live"%string, x2d, (gostr "0123456789abcdef").
  split_and!; [reflexivity|by left|by left|by left|repeat constructor|cbn; lia].
Qed.

Lemma demo_text_read n : extractResultText n (ieResult demo_read) = demo_text.
Proof. vm_compute. reflexivity. Qed.

Lemma demo_shown : key_shown demo_read demo_secret.
Proof. intros n. exists (gostr "the key is "), [x2e; x0a]. rewrite demo_text_read. by split_and!. Qed.

Lemma demo_apart : key_apart demo_read demo_secret.
Proof.
  intros n now source seq c Hc _. rewrite demo_text_read in Hc. apply extracted_value in Hc as [_ (pat & Hp & Hv)].
  assert (concat (map (λ pat, FindAllSubmatch pat demo_text) secretPatterns) = [demo_secret]) as E by (vm_compute; reflexivity).
  apply list_elem_of_singleton. rewrite <- E. apply list_elem_of_In, in_concat. exists (FindAllSubmatch pat demo_text).
  split; [apply (in_map (λ p, FindAllSubmatch p demo_text))|]; by apply list_elem_of_In.
Qed.

Abbreviation demo_before := (after demo_proxy true true [] start).
Abbreviation demo_after_read := (after demo_proxy true true [CallIngestResult (false, false) demo_read] demo_before).
Abbreviation demo_later := (after demo_proxy true true [read_message "s1"] demo_after_read).

Lemma demo_nothing_held : HashValue demo_secret ∉ map Hash (held demo_before (ieSessionID demo_read)).
Proof. vm_compute. apply not_elem_of_nil. Qed.

Example read_key_refused_witness :
  exists added tv, tv ∈ added /\ Value tv = demo_secret /\
    held demo_after_read (ieSessionID demo_read) = shed_taint (held demo_before (ieSessionID demo_read) ++ added) /\
    (tv ∈ held demo_later (ieSessionID demo_read) ->
       dVerdict (EvaluateRequest demo_proxy true demo_send demo_later).1 = VerdictExfil).
Proof.
  destruct (read_key_refused demo_proxy demo_tagger true true [] [read_message "s1"] (false, false) demo_read
    demo_secret eq_refl eq_refl demo_stripe demo_shown demo_apart demo_nothing_held)
    as (added & tv & Hin & Hval & Hheld & _ & Hrun).
  exists added, tv. split; [exact Hin|]. split; [exact Hval|]. split; [exact Hheld|].
  intros Htv. refine (proj1 (Hrun Htv demo_send demo_form _ _ _ _ _)).
  - reflexivity.
  - vm_compute. reflexivity.
  - apply list_elem_of_In. vm_compute. right. left. reflexivity.
  - vm_compute. discriminate.
  - intros n. apply Contains_spec. vm_compute. reflexivity.
Defined.

(** Everything together, run: what is held after the ticket was read is the key, and it is
    still held when the messenger has answered. *)
Example demo_key_held :
  map Value (held demo_after_read (gostr "s1")) = [demo_secret] /\
  map Value (held demo_later (gostr "s1")) = [demo_secret].
Proof. vm_compute. split; reflexivity. Qed.
