(* ===== verification/ExfilKernel.v ===== *)
(** * From the check to the verdict: kernel events

    What IngestSyscall and IngestSyscallSensor make of an egress event, and what follows: a
    secret that leaves in pieces is contained at its last piece, an EXFIL verdict is proof,
    a soft verdict never kills. *)

From S2P Require Import Prelude Go GoTime Config GoStrings Encodings Json Model Store Tagger.
From S2P Require Import Egress EgressTheorems Regex Taint TaintTheorems Overlap OverlapTheorems Container.
From S2P Require Import Match Carried Engine EngineFacts Demo EngineRuns EngineInvariants EngineTheorems.

Section externals.

Context `{Compressors} `{MathLog2} `{Floats} `{Archives} `{Clock} `{MapOrder} `{UnicodeLower}.
Context (e : Engine) (sink : bool).
Implicit Types (S : SessionState) (ev : SyscallEvent).

(** ** The outcome of an egress event *)

(** Touched, with its sink leg possibly lit. *)
Definition noted_egress S S1 : Prop :=
  exists now, S1 = touchSession e now 0 [] S \/ exists leg, S1 = light_sink leg (touchSession e now 0 [] S).

Inductive scanned_payload ev S1 : option OverlapHit -> ContainerAbortReason -> SessionState -> Prop :=
  | not_scanned : seSyscall ev = openat \/ sePayloadExcerpt ev = [] -> scanned_payload ev S1 None ContainerAbortNone S1
  | payload_scanned n now tick payload S2 o ab k :
      sePayloadExcerpt ev ≠ [] ->
      egressCandidatePayload e n now ev S1 = (payload, S2) ->
      CheckOverlapPayloadLimited (decode_depth e) tick (Tainted S2) payload (containerLimits e) = (o, ab, k) ->
      scanned_payload ev S1 o ab S2.

Inductive kernel_decision ev S2 (o : option OverlapHit) ab : Decision -> SessionState -> list output -> Prop :=
  | egress_passes :
      classifyTrip e S2 o (sePayloadExcerpt ev) (negb (is_connect ev)) ab = None ->
      kernel_decision ev S2 o ab allowed S2 []
  | egress_trips v c allow a rec reason :
      classifyTrip e S2 o (sePayloadExcerpt ev) (negb (is_connect ev)) ab = Some (v, c) ->
      variantBAction v = (allow, a) -> answers (buildEvidenceVariantB (trip c S2) ev v a c o) rec ->
      kernel_decision ev S2 o ab
        {| Allow := allow; dVerdict := v; dAction := a; Reason := reason; Evidence := Some rec;
           ForwardArgs := None |}
        (trip c S2) (if sink then [EmitEvidence rec] else []).

Definition egress_outcome ev S (d : Decision) S' (l : list output) : Prop :=
  exists S1 S2 o ab, noted_egress S S1 /\ scanned_payload ev S1 o ab S2 /\ kernel_decision ev S2 o ab d S' l.

Lemma noted_same S S1 : noted_egress S S1 ->
  SessionID S1 = SessionID S /\ Tainted S1 = Tainted S /\
  EgressFlows S1 = EgressFlows S /\ EgressPIDFlows S1 = EgressPIDFlows S.
Proof.
  assert (forall now, EgressFlows (touchSession e now 0 [] S) = EgressFlows S /\
    EgressPIDFlows (touchSession e now 0 [] S) = EgressPIDFlows S) as Hf.
  { intros now. unfold touchSession, pruneLegs. by destruct (decayed _ _ _ _). }
  intros (now & [->|[leg ->]]); cbn [SessionID Tainted light_sink set_Legs EgressFlows EgressPIDFlows];
    rewrite SessionID_touch, Tainted_touch; by destruct (Hf now).
Qed.

Lemma candidate_Tainted n now ev S :
  Tainted (egressCandidatePayload e n now ev S).2 = Tainted S /\
  SessionID (egressCandidatePayload e n now ev S).2 = SessionID S.
Proof. split; [by apply (quiet_egress e)|apply SessionID_egress]. Qed.

(** The window and the buffers depend on the session's buffers only. *)
Lemma candidate_flows n now ev S S' :
  EgressFlows S = EgressFlows S' -> EgressPIDFlows S = EgressPIDFlows S' ->
  (egressCandidatePayload e n now ev S).1 = (egressCandidatePayload e n now ev S').1 /\
  EgressPIDFlows (egressCandidatePayload e n now ev S).2 = EgressPIDFlows (egressCandidatePayload e n now ev S').2.
Proof.
  intros E1 E2. unfold egressCandidatePayload, appendEgressFlowFragment. rewrite E1, E2.
  destruct (_ || _); [done|]. destruct (normalizedEgressFragment ev); [done|].
  destruct (egressReassemblyEnabled e); [|done].
  by destruct (egressFlowKey ev), (appendFlow _ _ _ _ _ _ _ _), (appendFlow _ _ _ _ _ _ _ _).
Qed.

Lemma scanned_same ev S1 o ab S2 : scanned_payload ev S1 o ab S2 ->
  Tainted S2 = Tainted S1 /\ SessionID S2 = SessionID S1.
Proof.
  intros [|n now tick payload S2' o' ab' k _ Hp _]; [done|].
  pose proof (candidate_Tainted n now ev S1) as Hc. by rewrite Hp in Hc.
Qed.

Lemma answers_egress_overlap (b : bool) ev S1 r :
  (b = true <-> seSyscall ev = openat \/ sePayloadExcerpt ev = []) ->
  answers (if b then mret (None, ContainerAbortNone, S1) else egress_overlap e ev S1) r ->
  scanned_payload ev S1 r.1.1 r.1.2 r.2.
Proof.
  intros Hb. destruct b; [intros ->%answers_ret; by apply not_scanned, Hb|]. unfold egress_overlap.
  intros (now & _ & Ha)%answers_bind.
  apply answers_bind in Ha as ([p S2] & [n En]%answers_tick & Ha). cbn [fst] in En.
  apply answers_bind in Ha as ([o ab] & [t Et]%answers_tick & ->%answers_ret). cbn [fst snd].
  destruct (CheckOverlapPayloadLimited (decode_depth e) t (Tainted S2) p (containerLimits e))
    as [[o' ab'] k] eqn:Ec. injection Et as -> ->.
  apply (payload_scanned ev S1 n now t p S2 o' ab' k); [|done|done].
  intros E. destruct Hb as [_ Hb]. discriminate Hb. by right.
Qed.

(** The end of both ingest functions. *)
Lemma finish_runs id X ev S2 o ab reason :
  SessionID S2 = id ->
  runs id X
    (match classifyTrip e S2 o (sePayloadExcerpt ev) (negb (is_connect ev)) ab with
     | None => _ ← put_session S2; mret allowed
     | Some (v, c) => finishVariantBSyscallTrip sink S2 ev v c o (reason v)
     end) (kernel_decision ev S2 o ab).
Proof.
  intros Hid. destruct (classifyTrip e S2 o _ _ ab) as [[v c]|] eqn:Ev.
  - unfold finishVariantBSyscallTrip. destruct (variantBAction v) as [allow a] eqn:Ea.
    runs_step; [done|]. apply runs_silent_bind; [silent|]. intros rec Hr. runs_step. runs_step.
    rewrite app_nil_r. by apply egress_trips.
  - runs_step; [done|]. runs_step. by apply egress_passes.
Qed.

Definition run_of (id : bytes) (w : World) (r : Decision * World) (Q : SessionState -> Decision -> SessionState -> list output -> Prop) : Prop :=
  exists S S' l, (store w !! id = Some S \/ store w !! id = None /\ exists now, S = new_session id now) /\
    store r.2 !! id = Some S' /\ out r.2 = out w ++ l /\ Q S r.1 S' l.

Lemma syscall_runs audit ev w :
  store_ok (store w) -> seSyscall ev ≠ lsm_deny -> seSessionID ev ≠ [] ->
  run_of (seSessionID ev) w (IngestSyscall e sink audit ev w) (egress_outcome ev).
Proof.
  intros Hw Hd Hne. unfold IngestSyscall. rewrite decide_False by done.
  destruct (seSessionID ev) as [|ch s] eqn:E; [done|].
  apply (runs_any _ _ (egress_outcome ev)); [done|]. intros S Hid. cbv beta.
  apply runs_silent_bind; [silent|]. intros st [now ->]%answers_touch.
  apply runs_silent_bind; [silent|]. intros now2 _. cbv zeta. set (S1 := if Lit _ then _ else _).
  assert (noted_egress S S1) as Hn.
  { exists now. unfold S1. destruct (Lit _); [by left|right; by eexists]. }
  apply runs_silent_bind; [apply silent_overlap|]. intros [[o ab] S2] Ha.
  apply answers_egress_overlap in Ha.
  2: { rewrite orb_true_iff, !bool_decide_eq_true. done. }
  cbn [fst snd] in Ha. pose proof (scanned_same _ _ _ _ _ Ha) as [_ Hi].
  pose proof (noted_same _ _ Hn) as (Hi1 & _).
  eapply runs_weaken; [|apply finish_runs; congruence].
  cbv beta. intros d S' l Hk. by exists S1, S2, o, ab.
Qed.

Lemma sensor_runs audit ev w :
  store_ok (store w) -> seSyscall ev ≠ lsm_deny -> seSyscall ev ≠ openat -> seSessionID ev ≠ [] ->
  run_of (seSessionID ev) w (IngestSyscallSensor e sink audit ev w) (egress_outcome ev).
Proof.
  intros Hw Hd Ho Hne. unfold IngestSyscallSensor. rewrite decide_False by done.
  destruct (seSessionID ev) as [|ch s] eqn:E; [done|].
  apply (runs_any _ _ (egress_outcome ev)); [done|]. intros S Hid. cbv beta.
  apply runs_silent_bind; [silent|]. intros st [now ->]%answers_touch. rewrite decide_False by done.
  apply runs_silent_bind; [silent|]. intros now2 _. cbv zeta. set (S1 := light_sink _ _).
  assert (noted_egress S S1) as Hn by (exists now; right; by eexists).
  apply runs_silent_bind; [apply silent_overlap|]. intros [[o ab] S2] Ha.
  apply answers_egress_overlap in Ha.
  2: { rewrite bool_decide_eq_true. tauto. }
  cbn [fst snd] in Ha. pose proof (scanned_same _ _ _ _ _ Ha) as [_ Hi].
  pose proof (noted_same _ _ Hn) as (Hi1 & _).
  eapply runs_weaken; [|apply finish_runs; congruence].
  cbv beta. intros d S' l Hk. by exists S1, S2, o, ab.
Qed.

(** ** A payload sent in pieces *)

(** An egress event of the session [id], stamped by the kernel inside the window. *)
Definition egress_of (id : bytes) (t0 t1 : Z) (D : gset bytes) ev : Prop :=
  seSessionID ev = id /\ seSyscall ev ≠ lsm_deny /\ seSyscall ev ≠ openat /\
  t0 <= seTSMono ev <= t1 /\ Itoa (sePID ev) ∈ D.

(** The fragments the events of process [p] leave in the buffers. *)
Definition sent_parts (p : Z) (evs : list SyscallEvent) : list bytes :=
  map normalizedEgressFragment (List.filter (λ ev, (sePID ev =? p) && buffered ev) evs).

Lemma sent_parts_app p a b : sent_parts p (a ++ b) = sent_parts p a ++ sent_parts p b.
Proof. unfold sent_parts. by rewrite List.filter_app, map_app. Qed.

Lemma pieces_sent p n now ev : pieces p [{| ei_n := n; ei_now := now; ei_ev := ev |}] = sent_parts p [ev].
Proof. unfold pieces, sent_parts, sent_by. cbn [List.filter ei_ev]. by destruct (_ && _). Qed.

Lemma egress_of_window id t0 t1 D ev n now :
  0 < t0 -> egress_of id t0 t1 D ev -> in_window t0 t1 D {| ei_n := n; ei_now := now; ei_ev := ev |}.
Proof.
  intros Ht (_ & _ & _ & Hts & HD). split; [|done]. unfold event_time, egressEventTime. cbn [ei_ev].
  by rewrite (proj2 (Z.ltb_lt 0 (seTSMono ev))) by lia.
Qed.

Lemma holds_parts_flows t0 t1 D p parts S S' :
  EgressPIDFlows S' = EgressPIDFlows S -> holds_parts t0 t1 D p parts S -> holds_parts t0 t1 D p parts S'.
Proof. unfold holds_parts. by intros ->. Qed.

Section window.

Context (audit : bool) (id : bytes) (t0 t1 : Z) (D : gset bytes) (p : Z).
Context (Hid : id ≠ []) (Hre : egressReassemblyEnabled e = true).
Context (Ht0 : 0 < t0) (Hwin : t1 - t0 <= maxAge e) (Ht1 : t1 < 2 ^ 62) (Hage : maxAge e < 2 ^ 62).
Context (HD : Z.of_nat (size D) <= max_flows e).

(** One event: the taint stays, the fragment is appended. *)
Lemma sensor_step parts ev w S :
  store_ok (store w) -> store w !! id = Some S -> egress_of id t0 t1 D ev ->
  holds_parts t0 t1 D p parts S -> within (flow_chunks e) (flow_bytes e) (parts ++ sent_parts p [ev]) ->
  exists S', store (IngestSyscallSensor e sink audit ev w).2 !! id = Some S' /\
    Tainted S' = Tainted S /\ holds_parts t0 t1 D p (parts ++ sent_parts p [ev]) S'.
Proof.
  intros Hw HS Hev Hp Hin. pose proof Hev as (Ei & Hl & Ho & _).
  destruct (sensor_runs audit ev w Hw Hl Ho ltac:(congruence))
    as (S0 & S' & l & HS0 & HS' & _ & S1 & S2 & o & ab & Hn & Hsc & Hk).
  rewrite Ei in HS0, HS'. destruct HS0 as [HS0|[HS0 _]]; [|congruence].
  rewrite HS in HS0. injection HS0 as <-. exists S'. split; [done|].
  pose proof (noted_same _ _ Hn) as (_ & HT1 & _ & HF1).
  pose proof (scanned_same _ _ _ _ _ Hsc) as [HT2 _].
  assert (Tainted S' = Tainted S2 /\ EgressPIDFlows S' = EgressPIDFlows S2) as [HT HF] by (by destruct Hk).
  split; [congruence|]. apply (holds_parts_flows t0 t1 D p _ S2); [done|].
  apply (holds_parts_flows t0 t1 D p _ S S1) in Hp; [|done].
  destruct Hsc as [Hns|n now tick payload S2 o ab k Hne Hc _].
  - assert (buffered ev = false) as Hb.
    { unfold buffered. destruct Hns as [E|E]; [done|]. rewrite E, (bool_decide_eq_true_2 ([] = [])) by done.
      cbn [negb]. by rewrite andb_false_r. }
    unfold sent_parts. cbn [List.filter]. rewrite Hb, andb_false_r. cbn [map]. by rewrite app_nil_r.
  - set (x := {| ei_n := n; ei_now := now; ei_ev := ev |}).
    rewrite <- (pieces_sent p n now) in Hin |- *. fold x in Hin |- *.
    pose proof (holds_step e t0 t1 D p Hre Ht0 Hwin Ht1 Hage HD parts S1 x) as Hs.
    unfold egress_step in Hs. cbn [ei_n ei_now ei_ev x] in Hs. rewrite Hc in Hs. cbn [snd] in Hs.
    apply Hs; [|done|done]. by eapply egress_of_window.
Qed.

Lemma sensor_run evs parts w S :
  store_ok (store w) -> store w !! id = Some S -> Forall (egress_of id t0 t1 D) evs ->
  holds_parts t0 t1 D p parts S -> within (flow_chunks e) (flow_bytes e) (parts ++ sent_parts p evs) ->
  let w' := after e sink audit (map CallIngestSyscallSensor evs) w in
  store_ok (store w') /\ exists S', store w' !! id = Some S' /\
    Tainted S' = Tainted S /\ holds_parts t0 t1 D p (parts ++ sent_parts p evs) S'.
Proof.
  intros Hw HS Hevs. revert parts w S Hw HS. induction Hevs as [|ev evs Hev _ IH]; intros parts w S Hw HS Hp Hin.
  { split; [done|]. exists S. unfold sent_parts. cbn. by rewrite app_nil_r. }
  change (ev :: evs) with ([ev] ++ evs) in Hin |- *. rewrite sent_parts_app, app_assoc in Hin |- *.
  destruct (sensor_step parts ev w S Hw HS Hev Hp) as (S1 & HS1 & HT & Hp1).
  { by apply within_prefix in Hin. }
  pose proof (perform_confined e sink audit (CallIngestSyscallSensor ev) w Hw) as [Hw1 _].
  unfold after. cbn [app map perform_all perform] in *.
  unfold mbind, M_bind in *. destruct (IngestSyscallSensor e sink audit ev w) as [d w1]. cbn [snd fst mret M_ret] in *.
  destruct (IH _ w1 S1 Hw1 HS1 Hp1 Hin) as (Hok & S' & HS' & HT' & Hp'). split; [done|].
  exists S'. split_and!; [done|congruence|done].
Qed.

(** At the last fragment the whole payload is scanned. *)
Lemma sensor_last parts ev w S tv v :
  store_ok (store w) -> store w !! id = Some S -> egress_of id t0 t1 D ev -> sePID ev = p ->
  buffered ev = true -> holds_parts t0 t1 D p parts S ->
  within (flow_chunks e) (flow_bytes e) (parts ++ sent_parts p [ev]) ->
  tv ∈ Tainted S -> v ∈ forms_of tv ++ Chunks tv -> vValue v ≠ [] ->
  infix (vValue v) (mjoin (parts ++ sent_parts p [ev])) ->
  let d := (IngestSyscallSensor e sink audit ev w).1 in
  dVerdict d = VerdictExfil /\ Allow d = false /\ dAction d = ActionContained /\
  exists rec, Evidence d = Some rec /\ justified VerdictExfil rec.
Proof.
  intros Hw HS Hev Hpid Hb Hp Hin Htv Hv Hne Hi d. pose proof Hev as (Ei & Hl & Ho & _).
  destruct (sensor_runs audit ev w Hw Hl Ho ltac:(congruence))
    as (S0 & S' & l & HS0 & _ & _ & S1 & S2 & o & ab & Hn & Hsc & Hk).
  fold d in Hk. rewrite Ei in HS0. destruct HS0 as [HS0|[HS0 _]]; [|congruence].
  rewrite HS in HS0. injection HS0 as <-.
  pose proof (noted_same _ _ Hn) as (_ & HT1 & _ & HF1).
  pose proof (scanned_same _ _ _ _ _ Hsc) as [HT2 _].
  apply (holds_parts_flows t0 t1 D p _ S S1) in Hp; [|done].
  assert (exists h, o = Some h) as [h ->].
  { destruct Hsc as [[E|E]|n now tick payload S2 o ab k _ Hc Hcheck].
    - unfold buffered in Hb. by rewrite E in Hb.
    - unfold buffered in Hb. rewrite E, andb_comm, (bool_decide_eq_true_2 ([] = [])) in Hb by done.
      cbn [negb] in Hb. by rewrite !andb_false_r in Hb.
    - set (x := {| ei_n := n; ei_now := now; ei_ev := ev |}).
      rewrite <- (pieces_sent p n now) in Hin, Hi. fold x in Hin, Hi.
      pose proof (holds_last e t0 t1 D p Hre Ht0 Hwin Ht1 Hage parts S1 x
        ltac:(by eapply egress_of_window) ltac:(unfold sent_by; cbn [ei_ev x]; by rewrite Hpid, Z.eqb_refl, Hb)
        Hp Hin) as Hwindow.
      cbn [ei_n ei_now ei_ev x] in Hwindow. rewrite Hc in Hwindow. cbn [fst] in Hwindow.
      destruct (checkOverlapString_hit (Tainted S2) tv v payload ltac:(congruence) Hv Hne
        ltac:(by eapply infix_trans)) as [h Hh].
      rewrite (CheckPayload_string _ _ _ _ _ _ Hh) in Hcheck. injection Hcheck as <- _ _. by eexists. }
  destruct Hk as [Hc|v' c allow a rec reason Hc Ha Hr]; [done|].
  pose proof Hc as Hc'. injection Hc as <- <-. unfold variantBAction in Ha. rewrite decide_True in Ha by done.
  injection Ha as <- <-. split_and!; try done. exists rec. split; [done|].
  destruct Hr as [w0 <-]. destruct (buildB_fields (trip conf_exfil S2) ev VerdictExfil ActionContained conf_exfil (Some h) w0)
    as (? & ? & ? & _). split; [done|by exists h].
Qed.

End window.

End externals.

Section properties.

Context `{Compressors} `{MathLog2} `{Floats} `{Archives} `{Clock} `{MapOrder} `{UnicodeLower}.

(** An event that no session claims is let through. *)
Lemma unattributed_allowed e sink audit ev w :
  seSyscall ev ≠ lsm_deny -> seSessionID ev = [] ->
  (IngestSyscall e sink audit ev w).1 = allowed /\ (IngestSyscallSensor e sink audit ev w).1 = allowed.
Proof.
  intros Hl E. unfold IngestSyscall, IngestSyscallSensor. rewrite !decide_False by done. rewrite !E.
  by destruct audit.
Qed.

(** C4: a secret sent in pieces is contained. In any reachable state where a session holds a
    tainted value, let its processes write, send and query in any interleaving inside one
    window. If the fragments of one process, whatever destinations they went to, together
    contain an encoding or chunk of the value, then the event that brings the last of them is
    judged EXFIL with the action contained_by_kill and an evidence record, as long as the
    fragments fit the buffers and no more processes are active than flows are kept. *)
Theorem split_exfil_contained (e : Engine) (sink audit : bool) (cs : list call)
    (evs : list SyscallEvent) (ev : SyscallEvent) (st : SessionState) (tv : TaintedValue) (v : TaintedVariant)
    (t0 t1 : Z) (D : gset bytes) :
  let w := after e sink audit cs start in
  let d := (IngestSyscallSensor e sink audit ev (after e sink audit (map CallIngestSyscallSensor evs) w)).1 in
  let parts := sent_parts (sePID ev) (evs ++ [ev]) in
  seSessionID ev ≠ [] -> store w !! seSessionID ev = Some st ->
  tv ∈ Tainted st -> v ∈ forms_of tv ++ Chunks tv -> vValue v ≠ [] -> infix (vValue v) (mjoin parts) ->
  egressReassemblyEnabled e = true -> 0 < t0 -> t1 - t0 <= maxAge e -> t1 < 2 ^ 62 -> maxAge e < 2 ^ 62 ->
  Z.of_nat (size D) <= max_flows e -> dom (EgressPIDFlows st) ⊆ D ->
  Forall (egress_of (seSessionID ev) t0 t1 D) (evs ++ [ev]) -> buffered ev = true ->
  within (flow_chunks e) (flow_bytes e) parts ->
  dVerdict d = VerdictExfil /\ Allow d = false /\ dAction d = ActionContained /\
  exists rec, Evidence d = Some rec /\ justified VerdictExfil rec.
Proof.
  intros w d parts Hid Hst Htv Hv Hne Hi Hre Ht0 Hwin Ht1 Hage HD Hdom [Hevs Hev]%Forall_app Hb Hin.
  apply Forall_inv in Hev. unfold parts in Hi, Hin. rewrite sent_parts_app in Hi, Hin.
  destruct (sensor_run e sink audit (seSessionID ev) t0 t1 D (sePID ev) Hid Hre Ht0 Hwin Ht1 Hage HD evs [] w st
    (reachable_ok e sink audit cs) Hst Hevs ltac:(by split; [|left]) ltac:(by apply within_prefix in Hin))
    as (Hok & S' & HS' & HT & Hp).
  eapply (sensor_last e sink audit (seSessionID ev)); try done. by rewrite HT.
Qed.

(** An EXFIL answer is proof. *)
Lemma kernel_proof e sink audit ev d w :
  store_ok (store w) ->
  d = (IngestSyscall e sink audit ev w).1 \/ d = (IngestSyscallSensor e sink audit ev w).1 ->
  seSyscall ev ≠ lsm_deny -> dVerdict d = VerdictExfil ->
  seSyscall ev ≠ openat /\
  exists st tv n now rec h, store w !! seSessionID ev = Some st /\ tv ∈ Tainted st /\
    carries (containerLimits e) tv (egressCandidatePayload e n now ev st).1 /\
    Evidence d = Some rec /\ ValueOverlap rec = Some h /\ TaintedHash h = Hash tv /\ ohPreview h = Preview tv.
Proof.
  intros Hw Hd Hl Hv.
  assert (exists S S' l, (store w !! seSessionID ev = Some S \/
      store w !! seSessionID ev = None /\ exists now, S = new_session (seSessionID ev) now) /\
      egress_outcome e sink ev S d S' l) as (S & S' & l & HS & S1 & S2 & o & ab & Hn & Hsc & Hk).
  { assert (seSessionID ev ≠ []) as Hid.
    { intros E. destruct (unattributed_allowed e sink audit ev w Hl E) as [E1 E2].
      destruct Hd as [-> | ->]; [by rewrite E1 in Hv|by rewrite E2 in Hv]. }
    destruct Hd as [->|Hd].
    - destruct (syscall_runs e sink audit ev w Hw Hl Hid) as (S & S' & l & ? & _ & _ & ?). by exists S, S', l.
    - destruct (decide (seSyscall ev = openat)) as [Eo|Ho].
      + exfalso. destruct (sensor_decision e sink audit ev w Hw Hl) as (_ & _ & _ & _ & Hopen & _).
        rewrite <- Hd in Hopen. by apply Hopen.
      + subst d. destruct (sensor_runs e sink audit ev w Hw Hl Ho Hid) as (S & S' & l & ? & _ & _ & ?).
        by exists S, S', l. }
  pose proof (noted_same _ _ _ Hn) as (_ & HT1 & HE & HP).
  pose proof (scanned_same _ _ _ _ _ _ Hsc) as [HT2 _].
  destruct Hk as [|v c allow a rec reason Hc Ha Hr]; [done|]. cbn in Hv. subst v.
  apply classify_justified in Hc as [h ->].
  destruct Hr as [w0 <-]. destruct (buildB_fields (trip c S2) ev VerdictExfil a c (Some h) w0) as (_ & _ & Ho & _).
  inversion Hsc as [|n now tick payload S2' o' ab' k Hne Hp Hcheck]; subst.
  pose proof (CheckPayload_proves (containerLimits e) (decode_depth e) tick (Tainted S2) payload h
    ltac:(by rewrite Hcheck)) as (tv & Hin & Hh & Hpre & Hcar).
  rewrite HT2, HT1 in Hin.
  destruct HS as [HS|(_ & now' & ->)]; [|by apply elem_of_nil in Hin].
  pose proof (candidate_flows e n now ev S1 S HE HP) as [Ec _]. rewrite Hp in Ec. cbn [fst] in Ec. subst payload.
  split.
  - intros Eo. destruct Hd as [Hd|Hd].
    + destruct (syscall_decision e sink audit ev w Hw Hl) as (_ & _ & _ & _ & Hopen & _).
      rewrite <- Hd in Hopen. by apply (Hopen Eo).
    + destruct (sensor_decision e sink audit ev w Hw Hl) as (_ & _ & _ & _ & Hopen & _).
      rewrite <- Hd in Hopen. by apply (Hopen Eo).
  - exists S, tv, n, now. eexists _, h. by split_and!.
Qed.

(** EXFIL means proof on the kernel plane too: neither ingest function answers EXFIL to an
    event other than a report of the LSM hook unless the payload scanned, the event's own or
    its reassembled window, carries bytes of a value registered as tainted in the event's
    session; never for an openat; and the evidence names that value. *)
Theorem kernel_exfil_is_proof (e : Engine) (sink audit : bool) (cs : list call) (ev : SyscallEvent) (d : Decision) :
  let w := after e sink audit cs start in
  d = (IngestSyscall e sink audit ev w).1 \/ d = (IngestSyscallSensor e sink audit ev w).1 ->
  seSyscall ev ≠ lsm_deny -> dVerdict d = VerdictExfil ->
  seSyscall ev ≠ openat /\
  exists st tv n now rec h, store w !! seSessionID ev = Some st /\ tv ∈ Tainted st /\
    carries (containerLimits e) tv (egressCandidatePayload e n now ev st).1 /\
    Evidence d = Some rec /\ ValueOverlap rec = Some h /\ TaintedHash h = Hash tv /\ ohPreview h = Preview tv.
Proof. intros w. apply kernel_proof, reachable_ok. Qed.

(** A decision on a kernel event is what its verdict says, on both planes: only EXFIL
    disallows, always as contained_by_kill; SUSPICIOUS is detected_only, with all three legs
    lit and no value found; nothing is ever forwarded. *)
Theorem kernel_decision_sound (e : Engine) (sink audit : bool) (cs : list call) (ev : SyscallEvent) (d : Decision) :
  let w := after e sink audit cs start in
  d = (IngestSyscall e sink audit ev w).1 \/ d = (IngestSyscallSensor e sink audit ev w).1 ->
  seSyscall ev ≠ lsm_deny ->
  (Allow d = false <-> dVerdict d = VerdictExfil) /\
  (dVerdict d = VerdictExfil -> dAction d = ActionContained /\
     exists rec, Evidence d = Some rec /\ is_Some (ValueOverlap rec)) /\
  (dVerdict d = VerdictSuspicious -> dAction d = ActionDetectedOnly /\
     exists rec, Evidence d = Some rec /\ ValueOverlap rec = None /\ AllLit (erLegs rec) = true) /\
  ForwardArgs d = None.
Proof.
  intros w Hd Hl. pose proof (reachable_ok e sink audit cs) as Hw. fold w in Hw.
  assert (syscall_decision_ok ev d) as (H1' & H2' & H3' & H4' & _ & H6').
  { destruct Hd as [-> | ->]; [by apply syscall_decision|by apply sensor_decision]. }
  split_and!; [split; [by intros [? _]%H1'|done]| | |done].
  - intros E. split; [by apply H1', H2'|]. destruct (H4' ltac:(by rewrite E)) as (rec & ? & Hj).
    exists rec. rewrite E in Hj. by destruct Hj.
  - intros E. split; [by apply H3'|]. destruct (H4' ltac:(by rewrite E)) as (rec & ? & Hj).
    exists rec. rewrite E in Hj. destruct Hj as (_ & ? & ?). done.
Qed.

End properties.

(** ** Witnesses: the key is written to a socket in three parts *)

Definition kernel_calls : list call := [read_ticket "s1"].
Abbreviation kernel_world := (after demo_proxy true true kernel_calls start).
Definition kernel_state : SessionState := default (new_session [] 0) (store kernel_world !! gostr "s1").
Definition kernel_tainted : TaintedValue := default (new_taint [] [] [] 0 0) (head (Tainted kernel_state)).
Definition kernel_form : TaintedVariant := variant FormLiteral demo_secret.

Definition kernel_events : list SyscallEvent :=
  [write_event "s1" 7 1000 (gostr "sk-live-"); write_event "s1" 9 1500 (gostr "noise");
   write_event "s1" 7 2000 (gostr "0123456789")].
Definition kernel_last : SyscallEvent := write_event "s1" 7 3000 (gostr "abcdef").

Lemma kernel_stored : store kernel_world !! seSessionID kernel_last = Some kernel_state.
Proof. vm_compute. reflexivity. Qed.

Lemma kernel_held : kernel_tainted ∈ Tainted kernel_state.
Proof. apply list_elem_of_In. vm_compute. left. reflexivity. Qed.

Lemma kernel_form_held : kernel_form ∈ forms_of kernel_tainted ++ Chunks kernel_tainted.
Proof. apply list_elem_of_In. vm_compute. left. reflexivity. Qed.

Lemma kernel_egress (pid t : Z) payload :
  (pid = 7 \/ pid = 9) -> 1000 <= t <= 3000 ->
  egress_of (seSessionID kernel_last) 1000 3000 pids79 (write_event "s1" pid t payload).
Proof.
  intros Hp Ht. split_and!; [reflexivity|discriminate|discriminate|cbn; lia..|]. apply elem_of_list_to_set. cbn [sePID write_event].
  destruct Hp as [-> | ->]; [by left|right; by left].
Qed.

Lemma kernel_flows : dom (EgressPIDFlows kernel_state) = ∅.
Proof. vm_compute. reflexivity. Qed.

Example split_exfil_contained_witness :
  let w1 := after demo_proxy true true (map CallIngestSyscallSensor kernel_events) kernel_world in
  dAction (IngestSyscallSensor demo_proxy true true kernel_last w1).1 = ActionContained.
Proof.
  refine (proj1 (proj2 (proj2 (split_exfil_contained demo_proxy true true kernel_calls kernel_events kernel_last
    kernel_state kernel_tainted kernel_form 1000 3000 pids79 _ kernel_stored kernel_held kernel_form_held
    _ _ _ _ _ _ _ _ _ _ _ _)))).
  - discriminate.
  - discriminate.
  - apply Contains_spec. vm_compute. reflexivity.
  - reflexivity.
  - reflexivity.
  - vm_compute. discriminate.
  - reflexivity.
  - reflexivity.
  - vm_compute. discriminate.
  - rewrite kernel_flows. set_solver.
  - repeat (apply Forall_cons; split; [apply kernel_egress; [tauto|lia]|]). by apply Forall_nil.
  - reflexivity.
  - split; vm_compute; discriminate.
Defined.

Definition kernel_whole : SyscallEvent := write_event "s1" 7 1000 (gostr "key=" ++ demo_secret).

Lemma kernel_exfil : dVerdict (IngestSyscall demo_proxy true true kernel_whole kernel_world).1 = VerdictExfil.
Proof. vm_compute. reflexivity. Qed.

Example kernel_exfil_is_proof_witness :
  exists st tv, store kernel_world !! seSessionID kernel_whole = Some st /\ tv ∈ Tainted st.
Proof.
  assert (seSyscall kernel_whole ≠ lsm_deny) as Hl by discriminate.
  destruct (kernel_exfil_is_proof demo_proxy true true kernel_calls kernel_whole _ (or_introl eq_refl) Hl kernel_exfil)
    as (_ & st & tv & _ & _ & _ & _ & Hst & Htv & _).
  exact (ex_intro _ st (ex_intro _ tv (conj Hst Htv))).
Defined.

Example kernel_decision_sound_witness :
  ForwardArgs (IngestSyscall demo_proxy true true kernel_whole kernel_world).1 = None.
Proof.
  assert (seSyscall kernel_whole ≠ lsm_deny) as Hl by discriminate.
  exact (proj2 (proj2 (proj2 (kernel_decision_sound demo_proxy true true kernel_calls kernel_whole _
    (or_introl eq_refl) Hl)))).
Defined.
