(* ===== verification/NetIP.v ===== *)
(** * net.ParseIP and net.IP.String

    The text of IP addresses as the sensor compares it: an address is the 4 or 16 bytes
    of a net.IP. *)

From S2P Require Import Prelude Go GoTime GoStrings Encodings EncodingFacts.

(** ** Parsing *)

(** parseIPv4Fields: [first] at the start of the field, [dot] right after a dot; [val] and
    [digits] describe the octet being read, [octets] those read. *)
Fixpoint parse_v4 (first dot : bool) (val digits : Z) (octets : bytes) (s : bytes) : option bytes :=
  match s with
  | [] => if (length octets <? 3)%nat then None else Some (octets ++ [Z_byte val])
  | c :: s =>
      if is_digit c then
        if (digits =? 1) && (val =? 0) then None
        else
          let val := val * 10 + (byte_Z c - 48) in
          if 255 <? val then None else parse_v4 false false val (digits + 1) octets s
      else if Byte.eqb c x2e then
        if first || bool_decide (s = []) || dot then None
        else if (length octets =? 3)%nat then None
        else parse_v4 false true 0 0 (octets ++ [Z_byte val]) s
      else None
  end.

Definition parseIPv4 (s : bytes) : option bytes := parse_v4 true false 0 0 [] s.

(** The hex number a group starts with: its digits read, its value, the rest. *)
Fixpoint hex_group (off : nat) (acc : Z) (s : bytes) : option (nat * Z * bytes) :=
  match s with
  | [] => Some (off, acc, [])
  | c :: s' =>
      match from_hex c with
      | None => Some (off, acc, s)
      | Some d =>
          let acc := u32 (acc * 16) + d in
          if (3 <? off)%nat then None else if 65535 <? acc then None else hex_group (S off) acc s'
      end
  end.

Definition group_bytes (z : Z) : bytes := [Z_byte (z / 256); Z_byte z].

(** The loop of parseIPv6 over [s], with the bytes so far and the position of the ellipsis;
    the fuel 8 of an empty [ip] is its bound [i < 16]. *)
Fixpoint parse_v6 (fuel : nat) (ip : bytes) (ellipsis : option nat) (s : bytes)
    : option (bytes * option nat) :=
  match fuel with
  | O => if bool_decide (s = []) then Some (ip, ellipsis) else None
  | S fuel =>
      '(off, acc, rest) ← hex_group 0 0 s;
      if (off =? 0)%nat then None
      else if HasPrefix rest [x2e] then
        if bool_decide (ellipsis = None) && negb (length ip =? 12)%nat then None
        else if (16 <? length ip + 4)%nat then None
        else v4 ← parseIPv4 s; Some (ip ++ v4, ellipsis)
      else
        let ip := ip ++ group_bytes acc in
        match rest with
        | [] => Some (ip, ellipsis)
        | c :: s =>
            if negb (Byte.eqb c x3a) then None
            else
              match s with
              | [] => None
              | c :: s' =>
                  if Byte.eqb c x3a then
                    match ellipsis with
                    | Some _ => None
                    | None =>
                        match s' with
                        | [] => Some (ip, Some (length ip))
                        | _ => parse_v6 fuel ip (Some (length ip)) s'
                        end
                    end
                  else parse_v6 fuel ip ellipsis s
              end
        end
  end.

(** The end of parseIPv6: the ellipsis stands for at least one group of zeros. *)
Definition expand (ip : bytes) (ellipsis : option nat) : option bytes :=
  if (length ip <? 16)%nat then
    k ← ellipsis; Some (take k ip ++ replicate (16 - length ip) x00 ++ drop k ip)
  else if ellipsis is Some _ then None else Some ip.

(** A zone, which net.ParseIP does not accept, starts at a percent sign. *)
Definition parseIPv6 (s : bytes) : option bytes :=
  if Contains s [x25] then None
  else
    match s with
    | [x3a; x3a] => Some (replicate 16 x00)
    | x3a :: x3a :: s => '(ip, ell) ← parse_v6 8 [] (Some 0%nat) s; expand ip ell
    | _ => '(ip, ell) ← parse_v6 8 [] None s; expand ip ell
    end.

Definition mapped (v4 : bytes) : bytes := replicate 10 x00 ++ [xff; xff] ++ v4.

(** [net.ParseIP(s)], nil is [None]: 16 bytes, the family chosen by the first dot, colon or
    percent sign. *)
Fixpoint parse_family (s t : bytes) : option bytes :=
  match t with
  | [] => None
  | c :: t =>
      if Byte.eqb c x2e then mapped <$> parseIPv4 s
      else if Byte.eqb c x3a then parseIPv6 s
      else if Byte.eqb c x25 then None
      else parse_family s t
  end.

Definition ParseIP (s : bytes) : option bytes := parse_family s s.

(** ** Formatting *)

(** appendHex *)
Definition hex_text (x : Z) : bytes :=
  (if 0x1000 <=? x then [hex_digit (x / 0x1000)] else []) ++
  (if 0x100 <=? x then [hex_digit (x / 0x100 mod 16)] else []) ++
  (if 0x10 <=? x then [hex_digit (x / 0x10 mod 16)] else []) ++
  [hex_digit (x mod 16)].

Fixpoint groups (ip : bytes) : list Z :=
  match ip with
  | a :: b :: ip => byte_Z a * 256 + byte_Z b :: groups ip
  | _ => []
  end.

Fixpoint zeros (gs : list Z) : nat :=
  match gs with g :: gs => if g =? 0 then S (zeros gs) else 0 | [] => 0 end.

(** The first of the longest runs of at least two zero groups: its start and its length;
    [i] is the position of [gs]. *)
Fixpoint zero_run (i : nat) (best : option (nat * nat)) (gs : list Z) : option (nat * nat) :=
  match gs with
  | [] => best
  | g :: gs' =>
      let l := zeros gs in
      let longest := match best with Some (_, m) => m | None => 0%nat end in
      zero_run (S i) (if (2 <=? l)%nat && (longest <? l)%nat then Some (i, l) else best) gs'
  end.

Definition join_groups (gs : list Z) : bytes := Join (map hex_text gs) [x3a].

Definition text_v6 (gs : list Z) : bytes :=
  match zero_run 0 None gs with
  | None => join_groups gs
  | Some (i, l) => join_groups (take i gs) ++ [x3a; x3a] ++ join_groups (drop (i + l) gs)
  end.

Definition text_v4 (ip : bytes) : bytes := Join (map (λ b, Itoa (byte_Z b)) ip) [x2e].

Definition To4 (ip : bytes) : option bytes :=
  if (length ip =? 4)%nat then Some ip
  else if bool_decide (length ip = 16%nat) && bool_decide (take 12 ip = mapped [])
  then Some (drop 12 ip) else None.

(** [ip.String()] of 4 or 16 bytes. *)
Definition IP_String (ip : bytes) : bytes :=
  match To4 ip with Some v4 => text_v4 v4 | None => text_v6 (groups ip) end.

Example parse_texts :
  (λ s, IP_String <$> ParseIP (gostr s)) <$>
    ["127.0.0.1"; "::1"; "2001:DB8::0:1"; "::ffff:10.0.0.1"; "fe80::1%eth0"; "api.example.com"; "1.2.3"; "01.2.3.4";
     "::"; "1:0:0:2:0:0:0:3"; "1:2:3:4:5:6:7::"; "1:2:3:4:5:6:7:8:9"; "1::2::3"; "64:ff9b::192.0.2.33"]%string =
  [Some (gostr "127.0.0.1"); Some (gostr "::1"); Some (gostr "2001:db8::1"); Some (gostr "10.0.0.1"); None; None; None; None;
   Some (gostr "::"); Some (gostr "1:0:0:2::3"); Some (gostr "1:2:3:4:5:6:7:0"); None; None; Some (gostr "64:ff9b::c000:221")].
Proof. vm_compute. reflexivity. Qed.

(** ** The text determines the address *)

(** *** IPv4 *)

(** What the digits [t] add to the octet being read. *)
Fixpoint read_octet (val digits : Z) (t : bytes) : option (Z * Z) :=
  match t with
  | [] => Some (val, digits)
  | c :: t =>
      if negb (is_digit c) || ((digits =? 1) && (val =? 0)) || (255 <? val * 10 + (byte_Z c - 48)) then None
      else read_octet (val * 10 + (byte_Z c - 48)) (digits + 1) t
  end.

Lemma parse_digits first dot val k octets c t s r :
  read_octet val k (c :: t) = Some r ->
  parse_v4 first dot val k octets ((c :: t) ++ s) = parse_v4 false false r.1 r.2 octets s.
Proof.
  revert first dot val k c. induction t as [|c' t IH]; intros first dot val k c.
  - cbn. destruct (is_digit c), ((k =? 1) && (val =? 0)), (255 <? _); try done. by intros [= <-].
  - intros Hr. cbn [read_octet] in Hr. change ((c :: c' :: t) ++ s) with (c :: (c' :: t) ++ s). cbn [parse_v4].
    destruct (is_digit c), ((k =? 1) && (val =? 0)), (255 <? _); try done. by apply IH.
Qed.

Lemma read_text (b : byte) : exists k, read_octet 0 0 (Itoa (byte_Z b)) = Some (byte_Z b, k).
Proof.
  destruct (read_octet 0 0 (Itoa (byte_Z b))) as [[z k]|] eqn:E; [exists k; repeat f_equal|];
    revert E; destruct b; vm_compute; congruence.
Qed.

Lemma parse_octet first dot octets (b : byte) (s : bytes) :
  exists k, parse_v4 first dot 0 0 octets (Itoa (byte_Z b) ++ s) = parse_v4 false false (byte_Z b) k octets s.
Proof.
  destruct (read_text b) as [k Hk], (Itoa (byte_Z b)) as [|c t] eqn:E; [by destruct (Itoa_nonempty (byte_Z b))|].
  exists k. exact (parse_digits first dot 0 0 octets c t s _ Hk).
Qed.

Lemma parse_dot k octets (b : byte) (s : bytes) :
  s ≠ [] -> (length octets < 3)%nat ->
  parse_v4 false false (byte_Z b) k octets (x2e :: s) = parse_v4 false true 0 0 (octets ++ [b]) s.
Proof.
  intros Hs Ho. cbn [parse_v4]. change (is_digit x2e) with false. change (Byte.eqb x2e x2e) with true.
  cbn [orb]. rewrite bool_decide_eq_false_2, (proj2 (Nat.eqb_neq _ _)), Z_byte_Z by (done || lia). done.
Qed.

Lemma parse_text_v4 (ip : bytes) : length ip = 4%nat -> parseIPv4 (text_v4 ip) = Some ip.
Proof.
  intros Hl. destruct ip as [|a [|b [|c [|d [|]]]]]; try discriminate. unfold text_v4, parseIPv4. cbn [map Join app].
  repeat (match goal with |- parse_v4 ?f ?dt 0 0 ?o (Itoa (byte_Z ?x) ++ ?s) = _ =>
            destruct (parse_octet f dt o x s) as [? ->] end;
          rewrite parse_dot; [|by destruct (Itoa _) eqn:?; [edestruct Itoa_nonempty|]|cbn; lia]).
  cbn [app]. rewrite <- (app_nil_r (Itoa (byte_Z d))).
  destruct (parse_octet false true [a; b; c] d []) as [k ->]. cbn. by rewrite Z_byte_Z.
Qed.

(** *** IPv6 *)

Definition group_ok (g : Z) : Prop := 0 <= g < 65536.

Definition no_hex_head (s : bytes) : Prop := match s with [] => True | c :: _ => from_hex c = None end.

Lemma hex_group_text g s :
  group_ok g -> no_hex_head s ->
  exists n, hex_group 0 0 (hex_text g ++ s) = Some (S n, g, s).
Proof.
  intros [H0 H1] Hs.
  assert (forall off acc, hex_group off acc s = Some (off, acc, s)) as Hend.
  { intros off acc. destruct s as [|c s]; [done|]. cbn [hex_group]. by rewrite Hs. }
  assert (forall z rest off acc, 0 <= z < 16 -> (off <= 3)%nat -> 0 <= acc < 4096 ->
    hex_group off acc (hex_digit z :: rest) = hex_group (S off) (acc * 16 + z) rest) as Hd.
  { intros z rest off acc Hz Ho Ha. cbn [hex_group]. rewrite from_hex_digit by done.
    rewrite (proj2 (Nat.ltb_ge 3 off)) by lia. unfold u32. rewrite Z.mod_small by lia.
    by rewrite (proj2 (Z.ltb_ge 65535 _)) by lia. }
  unfold hex_text.
  destruct (Z.leb_spec 0x1000 g), (Z.leb_spec 0x100 g), (Z.leb_spec 0x10 g); try lia; cbn [app];
    rewrite ?Hd by (try lia; Z.div_mod_to_equations; lia); rewrite Hend; eexists; repeat f_equal;
    Z.div_mod_to_equations; lia.
Qed.

Lemma group_bytes_of a b : group_bytes (byte_Z a * 256 + byte_Z b) = [a; b].
Proof.
  pose proof (byte_Z_bound a). pose proof (byte_Z_bound b). unfold group_bytes.
  rewrite Z.div_add_l, (Z.div_small (byte_Z b)), Z.add_0_r, Z_byte_Z by lia. repeat f_equal.
  rewrite <- (Z_byte_Z b) at 2. unfold Z_byte. by rewrite Z.add_comm, Z.mod_add by lia.
Qed.

Lemma groups_bytes (ip : bytes) n : length ip = (2 * n)%nat -> mjoin (map group_bytes (groups ip)) = ip.
Proof.
  revert ip. induction n as [|n IH]; intros ip Hl.
  { by destruct ip. }
  destruct ip as [|a [|b ip]]; try (cbn in Hl; lia). cbn -[group_bytes]. rewrite group_bytes_of, IH by (cbn in Hl; lia).
  done.
Qed.

Lemma groups_ok (ip : bytes) n : length ip = (2 * n)%nat -> length (groups ip) = n /\ Forall group_ok (groups ip).
Proof.
  revert ip. induction n as [|n IH]; intros ip Hl.
  { by destruct ip. }
  destruct ip as [|a [|b ip]]; try (cbn in Hl; lia). destruct (IH ip ltac:(cbn in Hl; lia)) as [Hn Hf].
  cbn. split; [lia|]. constructor; [|done].
  pose proof (byte_Z_bound a). pose proof (byte_Z_bound b). unfold group_ok. lia.
Qed.

(** The groups of [gs], each but the last followed by a colon, as parse_v6 reads them. *)
Definition bytes_of (gs : list Z) : bytes := mjoin (map group_bytes gs).

Lemma bytes_of_cons g gs : bytes_of (g :: gs) = group_bytes g ++ bytes_of gs.
Proof. done. Qed.

Lemma length_bytes_of gs : length (bytes_of gs) = (2 * length gs)%nat.
Proof. induction gs; [done|]. rewrite bytes_of_cons, length_app. cbn [length group_bytes]. lia. Qed.

Lemma join_groups_cons g g' gs : join_groups (g :: g' :: gs) = hex_text g ++ x3a :: join_groups (g' :: gs).
Proof. done. Qed.

Lemma text_head gs s : gs ≠ [] -> Forall group_ok gs -> exists c t, join_groups gs ++ s = c :: t /\ is_Some (from_hex c).
Proof.
  intros Hne Hf. destruct gs as [|g gs]; [done|]. pose proof (Forall_inv Hf) as Hg.
  assert (exists c t, hex_text g = c :: t /\ is_Some (from_hex c)) as (c & t & E & Hc).
  { destruct (hex_group_text g [] Hg I) as [n Hn]. rewrite app_nil_r in Hn.
    destruct (hex_text g) as [|c t]; [done|]. exists c, t. split; [done|]. cbn [hex_group] in Hn. by destruct (from_hex c). }
  destruct gs as [|g' gs]; [exists c, (t ++ s)|exists c, ((t ++ x3a :: join_groups (g' :: gs)) ++ s)]; split; try done.
  - unfold join_groups. cbn [map Join]. by rewrite E.
  - rewrite join_groups_cons, E. by rewrite <- !app_assoc.
Qed.

Lemma not_colon c : is_Some (from_hex c) -> Byte.eqb c x3a = false.
Proof. destruct (Byte.eqb c x3a) eqn:E; [|done]. apply byte_eqb_spec in E as ->. by intros [? [=]]. Qed.

(** One turn of the loop at a group that a colon and a further group follow. *)
Lemma parse_v6_step fuel ip ell g s c t :
  group_ok g -> s = c :: t -> is_Some (from_hex c) ->
  parse_v6 (S fuel) ip ell (hex_text g ++ x3a :: s) = parse_v6 fuel (ip ++ group_bytes g) ell s.
Proof.
  intros Hg -> Hc. cbn [parse_v6]. destruct (hex_group_text g (x3a :: c :: t) Hg eq_refl) as [n ->].
  cbn -[parse_v6 group_bytes]. by rewrite not_colon.
Qed.

Lemma parse_v6_end fuel ip ell gs :
  gs ≠ [] -> Forall group_ok gs -> (length gs <= fuel)%nat ->
  parse_v6 fuel ip ell (join_groups gs) = Some (ip ++ bytes_of gs, ell).
Proof.
  intros Hne Hf. revert fuel ip. induction Hf as [|g gs Hg Hgs IH]; intros fuel ip Hn; [done|].
  destruct fuel as [|fuel]; [cbn in Hn; lia|]. destruct gs as [|g' gs].
  - unfold join_groups. cbn [map Join parse_v6]. rewrite <- (app_nil_r (hex_text g)).
    destruct (hex_group_text g [] Hg I) as [n ->]. cbn -[group_bytes]. unfold bytes_of. cbn -[group_bytes]. by rewrite app_nil_r.
  - rewrite join_groups_cons. destruct (text_head (g' :: gs) [] ltac:(done) Hgs) as (c & t & E & Hc).
    rewrite app_nil_r in E. rewrite (parse_v6_step _ _ _ _ _ c t Hg E Hc), IH by (done || cbn in *; lia).
    by rewrite (bytes_of_cons g), app_assoc.
Qed.

(** Up to an ellipsis, at the end or before further groups. *)
Lemma parse_v6_ellipsis fuel ip gs s :
  gs ≠ [] -> Forall group_ok gs -> (length gs <= fuel)%nat ->
  parse_v6 fuel ip None (join_groups gs ++ x3a :: x3a :: s) =
  let ip' := ip ++ bytes_of gs in
  if bool_decide (s = []) then Some (ip', Some (length ip'))
  else parse_v6 (fuel - length gs) ip' (Some (length ip')) s.
Proof.
  intros Hne Hf. revert fuel ip. induction Hf as [|g gs Hg Hgs IH]; intros fuel ip Hn; [done|].
  destruct fuel as [|fuel]; [cbn in Hn; lia|]. destruct gs as [|g' gs].
  - unfold join_groups. cbn [map Join parse_v6].
    destruct (hex_group_text g (x3a :: x3a :: s) Hg eq_refl) as [n ->]. cbn -[group_bytes parse_v6].
    unfold bytes_of. cbn -[group_bytes parse_v6]. rewrite app_nil_r, Nat.sub_0_r. by destruct s.
  - rewrite join_groups_cons, <- app_assoc. cbn [app].
    destruct (text_head (g' :: gs) (x3a :: x3a :: s) ltac:(done) Hgs) as (c & t & E & Hc).
    rewrite (parse_v6_step _ _ _ _ _ c t Hg E Hc), IH by (done || cbn in *; lia).
    by rewrite (bytes_of_cons g), app_assoc.
Qed.

(** The run an ellipsis stands for. *)
Definition run_ok (gs : list Z) (run : option (nat * nat)) : Prop :=
  match run with
  | None => True
  | Some (i, l) => (1 <= l)%nat /\ exists a b, gs = a ++ replicate l 0 ++ b /\ length a = i
  end.

Lemma zeros_prefix gs : exists b, gs = replicate (zeros gs) 0 ++ b.
Proof.
  induction gs as [|g gs [b IH]]; [by exists []|]. cbn [zeros].
  destruct (Z.eqb_spec g 0) as [->|_]; [exists b; cbn; by rewrite <- IH|by exists (g :: gs)].
Qed.

Lemma zero_run_ok pre gs best :
  run_ok (pre ++ gs) best -> run_ok (pre ++ gs) (zero_run (length pre) best gs).
Proof.
  revert pre best. induction gs as [|g gs IH]; intros pre best Hb; [done|]. cbn [zero_run].
  specialize (IH (pre ++ [g])). rewrite length_app, Nat.add_1_r, <- app_assoc in IH. apply IH.
  destruct (_ && _) eqn:E; [|done]. apply andb_true_iff in E as [E _]. apply Nat.leb_le in E.
  destruct (zeros_prefix (g :: gs)) as [b Hz]. split; [lia|]. exists pre, b. split; [|done]. f_equal. exact Hz.
Qed.

Lemma bytes_of_app a b : bytes_of (a ++ b) = bytes_of a ++ bytes_of b.
Proof. unfold bytes_of. by rewrite map_app, join_app. Qed.

Lemma bytes_of_zeros l : bytes_of (replicate l 0) = replicate (2 * l) x00.
Proof.
  induction l as [|l IH]; [done|]. cbn [replicate]. rewrite bytes_of_cons, IH.
  replace (2 * S l)%nat with (S (S (2 * l))) by lia. done.
Qed.

Lemma no_percent (s : bytes) : forallb (λ c, negb (Byte.eqb c x25)) s = true -> Contains s [x25] = false.
Proof.
  induction s as [|c s IH]; [done|]. cbn [forallb Contains HasPrefix].
  intros [Hc Hs]%andb_true_iff. rewrite IH, andb_true_r, orb_false_r by done.
  destruct (Byte.eqb x25 c) eqn:E; [|done]. apply byte_eqb_spec in E as <-. done.
Qed.

(** Hex digits and colons. *)
Definition v6_char (c : byte) : bool := Byte.eqb c x3a || bool_decide (is_Some (from_hex c)).

Lemma v6_char_plain c : v6_char c = true -> Byte.eqb c x2e = false /\ Byte.eqb c x25 = false.
Proof. by destruct c. Qed.

Lemma hex_text_chars g : group_ok g -> forallb v6_char (hex_text g) = true.
Proof.
  intros [H0 H1]. assert (forall z, 0 <= z < 16 -> v6_char (hex_digit z) = true) as Hd.
  { intros z Hz. unfold v6_char. rewrite from_hex_digit by done. by rewrite orb_true_r. }
  unfold hex_text. destruct (Z.leb_spec 0x1000 g), (Z.leb_spec 0x100 g), (Z.leb_spec 0x10 g); try lia;
    cbn [app forallb]; rewrite !Hd by (Z.div_mod_to_equations; lia); done.
Qed.

Lemma join_groups_chars gs : Forall group_ok gs -> forallb v6_char (join_groups gs) = true.
Proof.
  induction 1 as [|g gs Hg Hgs IH]; [done|]. destruct gs as [|g' gs].
  - unfold join_groups. cbn [map Join]. by apply hex_text_chars.
  - rewrite join_groups_cons, forallb_app, hex_text_chars by done. exact IH.
Qed.

Lemma parse_family_v6 s t : forallb v6_char t = true -> Contains t [x3a] = true -> parse_family s t = parseIPv6 s.
Proof.
  induction t as [|c t IH]; [done|]. cbn [forallb parse_family Contains HasPrefix]. intros [Hc Ht]%andb_true_iff Hin.
  destruct (v6_char_plain c Hc) as [-> ->]. destruct (Byte.eqb c x3a) eqn:E; [done|].
  apply IH; [done|]. destruct (Byte.eqb x3a c) eqn:E'; [|done]. apply byte_eqb_spec in E' as <-. done.
Qed.

Lemma Contains_mid a c b : Contains (a ++ c :: b) [c] = true.
Proof. apply Contains_spec. by exists a, b. Qed.

Lemma parse_v6_plain c t :
  is_Some (from_hex c) -> Contains (c :: t) [x25] = false ->
  parseIPv6 (c :: t) = ('(ip, ell) ← parse_v6 8 [] None (c :: t); expand ip ell).
Proof. intros Hc Hp. unfold parseIPv6. rewrite Hp. destruct c; try reflexivity. by destruct Hc. Qed.

Lemma expand_full ip : length ip = 16%nat -> expand ip None = Some ip.
Proof. intros E. unfold expand. by rewrite E. Qed.

Lemma expand_run a b l :
  (length a + (l + length b) = 8)%nat -> (1 <= l)%nat ->
  expand (bytes_of a ++ bytes_of b) (Some (length (bytes_of a))) = Some (bytes_of (a ++ replicate l 0 ++ b)).
Proof.
  intros Hl H1. unfold expand. rewrite length_app. pose proof (length_bytes_of a). pose proof (length_bytes_of b).
  rewrite (proj2 (Nat.ltb_lt _ 16)) by lia. cbn [mbind option_bind].
  rewrite take_app_length, drop_app_length, !bytes_of_app, bytes_of_zeros.
  by replace (16 - (length (bytes_of a) + length (bytes_of b)))%nat with (2 * l)%nat by lia.
Qed.

Lemma parse_text_v6 gs :
  length gs = 8%nat -> Forall group_ok gs -> ParseIP (text_v6 gs) = Some (bytes_of gs).
Proof.
  intros Hl Hf. unfold ParseIP, text_v6. pose proof (zero_run_ok [] gs None I) as Hr. cbn [length app] in Hr.
  destruct (zero_run 0 None gs) as [[i l]|].
  - destruct Hr as [H1 (a & b & -> & <-)]. rewrite take_app_length, drop_app_add.
    replace (drop l (replicate l 0 ++ b)) with b by (rewrite <- (length_replicate l 0) at 1; by rewrite drop_app_length).
    rewrite !length_app, length_replicate in Hl.
    apply Forall_app in Hf as [Ha [_ Hb]%Forall_app].
    assert (forallb v6_char (join_groups a ++ [x3a; x3a] ++ join_groups b) = true) as Hch
      by (rewrite !forallb_app, !join_groups_chars; done).
    rewrite parse_family_v6; [|done|apply (Contains_mid _ x3a (x3a :: join_groups b))].
    assert (Contains (join_groups a ++ [x3a; x3a] ++ join_groups b) [x25] = false) as Hp.
    { apply no_percent. rewrite forallb_forall in Hch |- *. intros c Hc. destruct (v6_char_plain c (Hch c Hc)) as [_ ->]. done. }
    destruct (decide (a = [])) as [->|Ha'].
    + change (join_groups []) with ([] : bytes) in *. cbn [app length] in *. destruct (decide (b = [])) as [->|Hb'].
      * rewrite app_nil_r, bytes_of_zeros. replace l with 8%nat by (cbn in Hl; lia). reflexivity.
      * destruct (text_head b [] Hb' Hb) as (c & t & E & Hc). rewrite app_nil_r in E.
        unfold parseIPv6. rewrite Hp, E, <- E. cbn -[parse_v6 expand].
        rewrite parse_v6_end by (done || lia). cbn -[expand]. exact (expand_run [] b l Hl H1).
    + destruct (text_head a ([x3a; x3a] ++ join_groups b) Ha' Ha) as (c & t & E & Hc).
      rewrite E in Hp |- *. rewrite parse_v6_plain, <- E by done. cbn [app].
      rewrite parse_v6_ellipsis by (done || lia). cbn zeta. case_bool_decide as Eb.
      * destruct (decide (b = [])) as [->|Hb'].
        -- pose proof (expand_run a [] l Hl H1) as He. change (bytes_of []) with ([] : bytes) in He.
           by rewrite app_nil_r in He.
        -- destruct (text_head b [] Hb' Hb) as (? & ? & E' & _). rewrite app_nil_r in E'. congruence.
      * rewrite parse_v6_end; [|by intros ->|done|lia]. cbn -[expand]. exact (expand_run a b l Hl H1).
  - assert (gs ≠ []) as Hne by (by intros ->). pose proof (join_groups_chars gs Hf) as Hch.
    rewrite parse_family_v6; [|done|].
    2: { destruct gs as [|g [|g' gs]]; [done|done|]. rewrite join_groups_cons. apply Contains_mid. }
    destruct (text_head gs [] Hne Hf) as (c & t & E & Hc). rewrite app_nil_r in E.
    rewrite E, parse_v6_plain, <- E; [|done|].
    + rewrite parse_v6_end by (done || lia). cbn -[expand]. apply expand_full. rewrite length_bytes_of. lia.
    + rewrite <- E. apply no_percent. rewrite forallb_forall in Hch |- *. intros c' Hc'.
      destruct (v6_char_plain c' (Hch c' Hc')) as [_ ->]. done.
Qed.

(** The two texts of an address are parsed back to its 16 bytes. *)
Definition As16 (ip : bytes) : bytes := if (length ip =? 4)%nat then mapped ip else ip.

Lemma ParseIP_v4 ip : length ip = 4%nat -> ParseIP (text_v4 ip) = Some (mapped ip).
Proof.
  intros Hl. assert (forall s t : bytes, forallb (λ c, is_digit c || Byte.eqb c x2e) t = true -> Contains t [x2e] = true ->
    parse_family s t = mapped <$> parseIPv4 s) as Hf.
  { intros s t. induction t as [|c t IH]; [done|]. cbn [forallb parse_family Contains HasPrefix].
    intros [Hc Ht]%andb_true_iff Hin. destruct (Byte.eqb c x2e) eqn:E; [done|]. rewrite orb_false_r in Hc.
    assert (Byte.eqb c x3a = false /\ Byte.eqb c x25 = false) as [-> ->] by (by destruct c).
    apply IH; [done|]. destruct (Byte.eqb x2e c) eqn:E'; [|done]. apply byte_eqb_spec in E' as <-. done. }
  unfold ParseIP. rewrite Hf; [by rewrite parse_text_v4| |].
  - assert (forall b, forallb (λ c, is_digit c || Byte.eqb c x2e) (Itoa (byte_Z b)) = true) as Hb.
    { intros b. destruct b; vm_compute; reflexivity. }
    destruct ip as [|a [|b [|c [|d [|]]]]]; try discriminate. unfold text_v4. cbn [map Join].
    rewrite !forallb_app, !Hb. done.
  - destruct ip as [|a [|b [|c [|d [|]]]]]; try discriminate. unfold text_v4. cbn [map Join]. apply Contains_mid.
Qed.

Lemma ParseIP_String ip : length ip = 4%nat \/ length ip = 16%nat -> ParseIP (IP_String ip) = Some (As16 ip).
Proof.
  intros Hl. unfold IP_String, To4, As16. destruct Hl as [Hl|Hl]; rewrite Hl; cbn [Nat.eqb].
  - by apply ParseIP_v4.
  - case_bool_decide; [|done]. cbn [andb]. case_bool_decide as Hm.
    + rewrite ParseIP_v4 by (rewrite length_drop; lia). f_equal.
      rewrite <- (take_drop 12 ip) at 2. rewrite Hm. unfold mapped. by rewrite app_nil_r, <- app_assoc.
    + destruct (groups_ok ip 8 Hl) as [Hg Hf]. rewrite parse_text_v6 by done. f_equal. by apply (groups_bytes ip 8).
Qed.

(** The texts of two addresses are equal only when the addresses are. *)
Lemma IP_String_inj ip ip' :
  length ip = 4%nat \/ length ip = 16%nat -> length ip' = 4%nat \/ length ip' = 16%nat ->
  IP_String ip = IP_String ip' -> As16 ip = As16 ip'.
Proof. intros H1 H2 E. apply (f_equal ParseIP) in E. rewrite !ParseIP_String in E by done. by injection E. Qed.

(** An IPv4 address reads the same in its mapped form. *)
Lemma IP_String_As16 ip : length ip = 4%nat \/ length ip = 16%nat -> IP_String (As16 ip) = IP_String ip.
Proof.
  intros Hl. unfold As16. destruct (Nat.eqb_spec (length ip) 4) as [E|]; [|done].
  destruct ip as [|a [|b [|c [|d [|]]]]]; try discriminate. reflexivity.
Qed.
