(* ===== verification/Sensor.v ===== *)
(** * internal/ebpf/sensor.go: from kernel events to containment

    The sensor turns the decoded records of the two ring buffers into events for its
    handler, remembers the destinations a process is about to write to, and contains a
    process whose data movement is proven: SIGKILL, then a quarantine of its PID and cgroup
    in the BPF maps.  Each handler runs to completion before the next one here; in the
    program the two read loops run them concurrently.  Log lines are left out. *)

From S2P Require Import Prelude Go GoTime GoStrings NetIP Kernel Loader LoaderMaps ProbeSpec Model Match.

(** ** loader.go: the text of a destination and of a command name *)

Definition afInet : Z := 2.
Definition afInet6 : Z := 10.

Definition destIPString (family : Z) (addr : bytes) : bytes :=
  if family =? afInet then IP_String (take 4 addr)
  else if family =? afInet6 then IP_String addr
  else [].

Definition ce_DestIPString (ev : ConnectEvent) : bytes := destIPString (ce_Family ev) (ce_DestAddr ev).
Definition se_DestIPString (ev : SendtoEvent) : bytes := destIPString (se_Family ev) (se_DestAddr ev).

(** ** State *)

Definition SuspiciousConnectTTL : Z := 5 * Second.
Definition staleFDTTL : Z := 10 * Minute.
Definition anyFD : Z := -1.
Definition maxFDsPerPID : nat := 256.

Record pendingConnect := { destIP : bytes; destPort : Z; armed_at : Z }.

(** The destinations armed for a process, by file descriptor or [anyFD]. *)
Abbreviation fds := (gmap Z pendingConnect).

(** What the sensor is built with: its handler, a function on a world of its own that
    answers [None] when it panics, and the two optional hooks. *)
Record Hooks (W : Type) := {
  handler : option (SyscallEvent -> W -> option Decision * W);
  killResolver : option (Z -> Z -> W -> list Z);
  OnHandlerPanic : option (W -> W)
}.
Arguments handler {W}.
Arguments killResolver {W}.
Arguments OnHandlerPanic {W}.

(** A nil set of owned entries is the empty one. [signals] are the targets of
    [syscall.Kill(_, SIGKILL)] so far, [reads] the clock readings and map iterations. *)
Record Sensor (W : Type) := {
  loader : Loader;
  allowlist : gset bytes;
  prefixes : list bytes;
  suspiciousByPID : gmap Z fds;
  failClosedActive : bool;
  fcPIDs : gset Z;
  fcCgroups : gset Z;
  signals : list Z;
  reads : nat;
  world : W
}.
Arguments loader {W}.
Arguments allowlist {W}.
Arguments prefixes {W}.
Arguments suspiciousByPID {W}.
Arguments failClosedActive {W}.
Arguments fcPIDs {W}.
Arguments fcCgroups {W}.
Arguments signals {W}.
Arguments reads {W}.
Arguments world {W}.

(** The instants the sensor reads from the clock, and the orders in which it visits a map
    with integer keys. *)
Class SensorClock := sensor_clock : nat -> Z.

Class KeyOrder := {
  key_order : forall {A : Type}, nat -> list (Z * A) -> list (Z * A);
  key_order_perm : forall {A : Type} n (l : list (Z * A)), key_order n l ≡ₚ l
}.

#[export] Program Instance listed_keys : KeyOrder := {| key_order _ _ l := l |}.
Next Obligation. done. Qed.

Section sensor.

Context {W : Type}.
Implicit Types (s : Sensor W).

(** A method of the sensor; state written before an error is kept. *)
Definition SM (A : Type) : Type := Sensor W -> go A * Sensor W.

#[export] Instance SM_ret : MRet SM := λ A a s, (Ret a, s).
#[export] Instance SM_bind : MBind SM := λ A B f m s,
  match m s with
  | (Ret a, s) => f a s
  | (Err e, s) => (Err e, s)
  | (Panic, s) => (Panic, s)
  end.

Definition serror {A} (e : error) : SM A := λ s, (Err e, s).

(** The error of [m] as a value: nil is [None]. *)
Definition sattempt {A} (m : SM A) : SM (option error) := λ s,
  match m s with
  | (Ret _, s) => (Ret None, s)
  | (Err e, s) => (Ret (Some e), s)
  | (Panic, s) => (Panic, s)
  end.

Definition get {A} (f : Sensor W -> A) : SM A := λ s, (Ret (f s), s).
Definition modify (f : Sensor W -> Sensor W) : SM unit := λ s, (Ret tt, f s).

Definition set_loader (l : Loader) s : Sensor W := {|
  loader := l; allowlist := allowlist s; prefixes := prefixes s; suspiciousByPID := suspiciousByPID s;
  failClosedActive := failClosedActive s; fcPIDs := fcPIDs s; fcCgroups := fcCgroups s;
  signals := signals s; reads := reads s; world := world s |}.
Definition set_config (allow : gset bytes) (paths : list bytes) s : Sensor W := {|
  loader := loader s; allowlist := allow; prefixes := paths; suspiciousByPID := suspiciousByPID s;
  failClosedActive := failClosedActive s; fcPIDs := fcPIDs s; fcCgroups := fcCgroups s;
  signals := signals s; reads := reads s; world := world s |}.
Definition set_suspicious (m : gmap Z fds) s : Sensor W := {|
  loader := loader s; allowlist := allowlist s; prefixes := prefixes s; suspiciousByPID := m;
  failClosedActive := failClosedActive s; fcPIDs := fcPIDs s; fcCgroups := fcCgroups s;
  signals := signals s; reads := reads s; world := world s |}.
Definition set_failclosed (active : bool) (pids cgroups : gset Z) s : Sensor W := {|
  loader := loader s; allowlist := allowlist s; prefixes := prefixes s; suspiciousByPID := suspiciousByPID s;
  failClosedActive := active; fcPIDs := pids; fcCgroups := cgroups;
  signals := signals s; reads := reads s; world := world s |}.
Definition set_signals (l : list Z) s : Sensor W := {|
  loader := loader s; allowlist := allowlist s; prefixes := prefixes s; suspiciousByPID := suspiciousByPID s;
  failClosedActive := failClosedActive s; fcPIDs := fcPIDs s; fcCgroups := fcCgroups s;
  signals := l; reads := reads s; world := world s |}.
Definition set_reads (n : nat) s : Sensor W := {|
  loader := loader s; allowlist := allowlist s; prefixes := prefixes s; suspiciousByPID := suspiciousByPID s;
  failClosedActive := failClosedActive s; fcPIDs := fcPIDs s; fcCgroups := fcCgroups s;
  signals := signals s; reads := n; world := world s |}.
Definition set_world (w : W) s : Sensor W := {|
  loader := loader s; allowlist := allowlist s; prefixes := prefixes s; suspiciousByPID := suspiciousByPID s;
  failClosedActive := failClosedActive s; fcPIDs := fcPIDs s; fcCgroups := fcCgroups s;
  signals := signals s; reads := reads s; world := w |}.

(** A call of the loader. *)
Definition on_loader {A} (m : LoaderMaps.M A) : SM A := λ s,
  let '(r, l) := m (loader s) in (r, set_loader l s).

(** [for _, x := range xs { if err := f(x); err != nil { return err } }] *)
Fixpoint for_each {A} (f : A -> SM unit) (xs : list A) : SM unit :=
  match xs with [] => mret tt | x :: xs => _ ← f x; for_each f xs end.

(** ** Configuration *)

(** The entries that are no IP addresses are dropped with a warning. *)
Definition buildAllowlist (entries : list bytes) : gset bytes :=
  list_to_set (List.filter (λ e, bool_decide (is_Some (ParseIP e))) entries).

Definition destIPNormalized (ip : bytes) : bytes :=
  match ParseIP ip with Some parsed => IP_String parsed | None => ip end.

Definition isAllowlisted (ip : bytes) s : bool :=
  bool_decide (ip ∈ allowlist s) || bool_decide (destIPNormalized ip ∈ allowlist s).

Definition UpdateAllowlist (allowedIPs : list bytes) : SM unit :=
  modify (λ s, set_config (buildAllowlist allowedIPs) (prefixes s) s).

Definition UpdateSensitivePaths (paths : list bytes) : SM unit :=
  modify (λ s, set_config (allowlist s) paths s).

Definition NewSensor (l : Loader) (allowedIPs sensitivePaths : list bytes) (w : W) : Sensor W := {|
  loader := l; allowlist := buildAllowlist allowedIPs; prefixes := sensitivePaths; suspiciousByPID := ∅;
  failClosedActive := false; fcPIDs := ∅; fcCgroups := ∅; signals := []; reads := 0; world := w |}.

(** ** Destinations of writes *)

Section clock.

Context `{SensorClock} `{KeyOrder}.

(** [time.Now()] *)
Definition now : SM Z := λ s, (Ret (sensor_clock (reads s)), set_reads (S (reads s)) s).

Definition in_order {A} (m : gmap Z A) : SM (list (Z * A)) := λ s,
  (Ret (key_order (reads s) (map_to_list m)), set_reads (S (reads s)) s).

Definition ttlFor (fd : Z) : Z := if fd =? anyFD then SuspiciousConnectTTL else staleFDTTL.

Definition expired (t fd : Z) (pc : pendingConnect) : bool := ttlFor fd <? time_sub t (armed_at pc).

(** [suspiciousByPID[pid]], nil being empty. *)
Definition fds_of (pid : Z) s : fds := default ∅ (suspiciousByPID s !! pid).

Definition store_fds (pid : Z) (m : fds) : SM unit :=
  modify (λ s, set_suspicious (<[pid := m]> (suspiciousByPID s)) s).

(** Reap the expired entries of [m], each against its own reading of the clock. *)
Fixpoint reap (m : fds) (es : list (Z * pendingConnect)) : SM fds :=
  match es with
  | [] => mret m
  | (k, v) :: es => t ← now; reap (if expired t k v then delete k m else m) es
  end.

Definition arm (pid fd : Z) (ip : bytes) (port : Z) : SM unit :=
  m ← get (fds_of pid);
  _ ← store_fds pid m;
  m ← (if bool_decide (m !! fd = None) && (maxFDsPerPID <=? size m)%nat
       then es ← in_order m; reap m es else mret m);
  _ ← store_fds pid m;
  if bool_decide (m !! fd = None) && (maxFDsPerPID <=? size m)%nat then mret tt
  else t ← now; store_fds pid (<[fd := {| destIP := ip; destPort := port; armed_at := t |}]> m).

Fixpoint armed_in (pid : Z) (keys : list Z) : SM (option pendingConnect) :=
  match keys with
  | [] => mret None
  | k :: keys =>
      m ← get (fds_of pid);
      match m !! k with
      | None => armed_in pid keys
      | Some pc =>
          t ← now;
          if expired t k pc then _ ← store_fds pid (delete k m); armed_in pid keys
          else mret (Some pc)
      end
  end.

Definition armed (pid fd : Z) : SM (option pendingConnect) := armed_in pid [fd; anyFD].

(** ** Containment *)

Definition LSMEnforced : SM bool := on_loader LoaderMaps.LSMEnforced.

Context `{BpfMap}.

Definition Quarantine (cgroupID pid : Z) : SM unit :=
  enforced ← LSMEnforced;
  if negb enforced then serror not_attached else on_loader (LoaderMaps.Quarantine pid cgroupID).

(** Both signals are sent whatever the first one answers. *)
Definition KillProcess (pid : Z) : SM unit := modify (λ s, set_signals (signals s ++ [- pid; pid]) s).

Context (hooks : Hooks W).

Definition containPIDs (cgroupID bpfPID : Z) : SM unit :=
  targets ← get (λ s,
    match killResolver hooks with
    | None => [bpfPID]
    | Some resolve => match resolve cgroupID bpfPID (world s) with [] => [bpfPID] | resolved => resolved end
    end);
  for_each KillProcess targets.

(** ** Fail-closed *)

Definition noteFailClosedWatch (pid cgroupID : Z) : SM unit :=
  active ← get failClosedActive;
  enforced ← LSMEnforced;
  if negb active || negb enforced then mret tt else
  _ ← (if 0 <? pid then
         err ← sattempt (on_loader (LoaderMaps.Quarantine pid 0));
         match err with
         | None => modify (λ s, set_failclosed (failClosedActive s) ({[pid]} ∪ fcPIDs s) (fcCgroups s) s)
         | Some _ => mret tt
         end
       else mret tt);
  if negb (cgroupID =? 0) then
    err ← sattempt (on_loader (LoaderMaps.Quarantine 0 cgroupID));
    match err with
    | None => modify (λ s, set_failclosed (failClosedActive s) (fcPIDs s) ({[cgroupID]} ∪ fcCgroups s) s)
    | Some _ => mret tt
    end
  else mret tt.

Definition clearFailClosedBookkeeping (pid cgroupID : Z) : SM unit :=
  modify (λ s, set_failclosed (failClosedActive s)
    (if 0 <? pid then fcPIDs s ∖ {[pid]} else fcPIDs s)
    (if negb (cgroupID =? 0) then fcCgroups s ∖ {[cgroupID]} else fcCgroups s) s).

(** The keys of a set, in the order an iteration visits them. *)
Definition keys_of (x : gset Z) : SM (list Z) :=
  es ← in_order (gset_to_gmap tt x); mret es.*1.

Definition SetFailClosedActive (active : bool) : SM unit :=
  current ← get failClosedActive;
  if Bool.eqb active current then mret tt
  else if active then
    enforced ← LSMEnforced;
    if negb enforced then serror (Errorf "fail-closed: LSM hook not attached" []) else
    already ← on_loader ListQuarantined;
    _ ← on_loader QuarantineAllWatched;
    watched ← on_loader ListWatched;
    modify (set_failclosed true (list_to_set watched.1 ∖ list_to_set already.1)
              (list_to_set watched.2 ∖ list_to_set already.2))
  else
    pids ← get fcPIDs; cgroups ← get fcCgroups;
    pids ← keys_of pids; cgroups ← keys_of cgroups;
    _ ← sattempt (on_loader (UnquarantineWatched pids cgroups));
    modify (set_failclosed false ∅ ∅).

(** ** What is watched *)

Definition AddPIDs (pids : list Z) : SM unit :=
  for_each (λ pid, _ ← on_loader (AddPID pid); noteFailClosedWatch pid 0) pids.

Definition RemovePIDs (pids : list Z) : SM unit :=
  for_each (λ pid,
    _ ← on_loader (RemovePID pid);
    _ ← sattempt (on_loader (Unquarantine pid 0));
    _ ← clearFailClosedBookkeeping pid 0;
    modify (λ s, set_suspicious (delete pid (suspiciousByPID s)) s)) pids.

Definition AddCgroupIDs (ids : list Z) : SM unit :=
  for_each (λ id, if id =? 0 then mret tt else
    _ ← on_loader (AddCgroupID id); noteFailClosedWatch 0 id) ids.

Definition RemoveCgroupIDs (ids : list Z) : SM unit :=
  for_each (λ id, if id =? 0 then mret tt else
    _ ← on_loader (RemoveCgroupID id);
    _ ← sattempt (on_loader (Unquarantine 0 id));
    clearFailClosedBookkeeping 0 id) ids.

(** ** Handlers *)

(** The decision of the handler; one that panics lets the event through. *)
Definition callHandler (ev : SyscallEvent) : SM Decision := λ s,
  match handler hooks with
  | None =>
      (Ret {| Allow := false; dVerdict := NoVerdict; dAction := NoAction; Reason := []; Evidence := None;
              ForwardArgs := None |}, s)
  | Some h =>
      match h ev (world s) with
      | (Some d, w) => (Ret d, set_world w s)
      | (None, w) =>
          let w := match OnHandlerPanic hooks with Some f => f w | None => w end in
          (Ret allowed, set_world w s)
      end
  end.

(** [containPIDs] and [Quarantine], its error dropped. *)
Definition contain (cgroupID pid : Z) : SM unit :=
  _ ← containPIDs cgroupID pid; _ ← sattempt (Quarantine cgroupID pid); mret tt.

Definition connect_event (raw : ConnectEvent) (ip : bytes) : SyscallEvent := {|
  seTSMono := i64 (ce_TSNs raw); sePID := ce_PID raw; seTID := ce_TID raw; seComm := nullTerm (ce_Comm raw);
  seSyscall := gostr "connect"; seDestIP := ip; seDestPort := ce_DestPort raw; seAllowlisted := false;
  sePath := []; sePayloadExcerpt := []; seSessionID := []; seCgroupID := ce_CgroupID raw; sePod := None;
  seFileContents := [] |}.

Definition handleConnect (raw : ConnectEvent) : SM unit :=
  let ip := ce_DestIPString raw in
  exempt ← get (isAllowlisted ip);
  if exempt : bool then mret tt else
  let pid := ce_PID raw in
  _ ← arm pid (ce_FD raw) ip (ce_DestPort raw);
  match handler hooks with
  | None => mret tt
  | Some _ =>
      decision ← callHandler (connect_event raw ip);
      if decide (dAction decision = ActionContained) then contain (ce_CgroupID raw) pid else mret tt
  end.

Definition write_syscall (raw : WriteEvent) : bytes :=
  match we_Syscall raw with [] => gostr "write" | name => name end.

Definition written_event (raw : WriteEvent) (pc : pendingConnect) : SyscallEvent := {|
  seTSMono := i64 (we_TSNs raw); sePID := we_PID raw; seTID := we_TID raw; seComm := nullTerm (we_Comm raw);
  seSyscall := write_syscall raw; seDestIP := destIP pc; seDestPort := destPort pc; seAllowlisted := false;
  sePath := []; sePayloadExcerpt := we_Payload raw; seSessionID := []; seCgroupID := we_CgroupID raw;
  sePod := None; seFileContents := [] |}.

Definition handleWrite (raw : WriteEvent) : SM unit :=
  let pid := we_PID raw in
  pc ← armed pid (we_FD raw);
  match pc with
  | None => mret tt
  | Some pc =>
      match handler hooks with
      | None => mret tt
      | Some _ =>
          decision ← callHandler (written_event raw pc);
          if decide (dAction decision = ActionContained) then contain (we_CgroupID raw) pid else mret tt
      end
  end.

Definition sendto_syscall (raw : SendtoEvent) : bytes :=
  if se_DestPort raw =? 53 then gostr "dns"
  else match se_Syscall raw with [] => gostr "sendto" | name => name end.

Definition sendto_event (raw : SendtoEvent) (ip : bytes) : SyscallEvent := {|
  seTSMono := i64 (se_TSNs raw); sePID := se_PID raw; seTID := se_TID raw; seComm := nullTerm (se_Comm raw);
  seSyscall := sendto_syscall raw; seDestIP := ip; seDestPort := se_DestPort raw; seAllowlisted := false;
  sePath := []; sePayloadExcerpt := se_Payload raw; seSessionID := []; seCgroupID := se_CgroupID raw;
  sePod := None; seFileContents := [] |}.

Definition handleSendto (raw : SendtoEvent) : SM unit :=
  let ip := se_DestIPString raw in
  exempt ← get (isAllowlisted ip);
  if bool_decide (ip = []) || exempt then mret tt else
  let pid := se_PID raw in
  _ ← arm pid anyFD ip (se_DestPort raw);
  match handler hooks with
  | None => mret tt
  | Some _ =>
      decision ← callHandler (sendto_event raw ip);
      if decide (dAction decision = ActionContained) then
        if decide (dVerdict decision = VerdictExfil) then contain (se_CgroupID raw) pid else mret tt
      else mret tt
  end.

Definition lsm_deny_event (raw : LSMDenyEvent) : SyscallEvent := {|
  seTSMono := i64 (le_TSNs raw); sePID := le_PID raw; seTID := le_TID raw; seComm := nullTerm (le_Comm raw);
  seSyscall := gostr "lsm_deny"; seDestIP := []; seDestPort := 0; seAllowlisted := false; sePath := [];
  sePayloadExcerpt := []; seSessionID := []; seCgroupID := le_CgroupID raw; sePod := None;
  seFileContents := [] |}.

Definition handleLSMDeny (raw : LSMDenyEvent) : SM unit :=
  match handler hooks with
  | None => mret tt
  | Some _ => _ ← callHandler (lsm_deny_event raw); mret tt
  end.

Definition openat_event (raw : OpenatEvent) : SyscallEvent := {|
  seTSMono := i64 (oe_TSNs raw); sePID := oe_PID raw; seTID := oe_TID raw; seComm := nullTerm (oe_Comm raw);
  seSyscall := gostr "openat"; seDestIP := []; seDestPort := 0; seAllowlisted := false; sePath := oe_Path raw;
  sePayloadExcerpt := []; seSessionID := []; seCgroupID := oe_CgroupID raw; sePod := None;
  seFileContents := [] |}.

Context `{UnicodeLower}.

Definition matchesSensitivePath (path : bytes) s : bool := IsSensitiveResourcePath path (prefixes s).

Definition handleOpenat (raw : OpenatEvent) : SM unit :=
  sensitive ← get (matchesSensitivePath (oe_Path raw));
  if negb sensitive then mret tt else
  match handler hooks with
  | None => mret tt
  | Some _ =>
      decision ← callHandler (openat_event raw);
      if decide (dAction decision = ActionContained) then containPIDs (oe_CgroupID raw) (oe_PID raw) else mret tt
  end.

(** ** The read loops *)

Definition when {A} (o : option A) (f : A -> SM unit) : SM unit :=
  match o with Some a => f a | None => mret tt end.

Definition dispatch_routine (raw : RingEvent) : SM unit :=
  _ ← when (re_Connect raw) handleConnect;
  when (re_Openat raw) handleOpenat.

Definition dispatch_critical (raw : RingEvent) : SM unit :=
  _ ← when (re_Write raw) handleWrite;
  _ ← when (re_Writev raw) handleWrite;
  _ ← when (re_Sendto raw) handleSendto;
  _ ← when (re_Sendmsg raw) handleSendto;
  when (re_LSMDeny raw) handleLSMDeny.

(** One turn of a read loop on the record the reader answers; a record that does not decode
    is logged and skipped. *)
Definition turn (dispatch : RingEvent -> SM unit) (record : bytes) : SM unit :=
  match decodeRingEvent record with
  | Ret raw => dispatch raw
  | Err _ => mret tt
  | Panic => λ s, (Panic, s)
  end.

Definition readLoopRoutine : bytes -> SM unit := turn dispatch_routine.
Definition readLoopCritical : bytes -> SM unit := turn dispatch_critical.

Definition readLoop (k : ring) : bytes -> SM unit :=
  match k with Routine => readLoopRoutine | Critical => readLoopCritical end.

(** The records the two loops handle, in the order they finish. *)
Definition run_loops : list (ring * bytes) -> SM unit := for_each (λ x, readLoop x.1 x.2).

End clock.

End sensor.
