(* ===== verification/SensorTheorems.v ===== *)
(** * Theorems about the sensor

    The destination a connect arms is the one a later write is reported with; what one
    record can change; which addresses the allowlist exempts. *)

From S2P Require Import Prelude Go GoTime GoStrings NetIP CLayout Vmlinux Kernel Probes KernelAbi ProbeFacts Loader Model.
From S2P Require Import LoaderMaps LoaderTheorems ProbeSpec KernelTheorems Match Sensor.

(** ** What a method leaves alone *)

Section keeps.

Context {W : Type}.
Implicit Types (s : Sensor W).

(** [m] relates the state it starts from to the one it leaves, however it ends. *)
Definition keeps {A} (R : relation (Sensor W)) (m : SM (W := W) A) : Prop := forall s, R s (m s).2.

Context (R : relation (Sensor W)) `{!PreOrder R}.

Lemma keeps_ret {A} (a : A) : keeps R (mret a).
Proof. intros s. reflexivity. Qed.

Lemma keeps_error {A} (e : error) : keeps R (serror (A := A) e).
Proof. intros s. reflexivity. Qed.

Lemma keeps_get {A} (f : Sensor W -> A) : keeps R (get f).
Proof. intros s. reflexivity. Qed.

Lemma keeps_bind {A B} (m : SM A) (f : A -> SM B) : keeps R m -> (forall a, keeps R (f a)) -> keeps R (m ≫= f).
Proof.
  intros Hm Hf s. unfold mbind, SM_bind. specialize (Hm s). destruct (m s) as [[a|e|] s']; cbn in *; [|done..].
  etrans; [exact Hm|apply Hf].
Qed.

Lemma keeps_attempt {A} (m : SM A) : keeps R m -> keeps R (sattempt m).
Proof. intros Hm s. unfold sattempt. specialize (Hm s). by destruct (m s) as [[]]. Qed.

Lemma keeps_modify f : (forall s, R s (f s)) -> keeps R (modify f).
Proof. intros Hf s. apply Hf. Qed.

Lemma keeps_for_each {A} (f : A -> SM unit) xs : (forall x, keeps R (f x)) -> keeps R (for_each f xs).
Proof. intros Hf. induction xs as [|x xs IH]; cbn [for_each]; [apply keeps_ret|by apply keeps_bind]. Qed.

Lemma keeps_on_loader {A} (m : LoaderMaps.M A) : (forall s l, R s (set_loader l s)) -> keeps R (on_loader m).
Proof. intros Hl s. unfold on_loader. destruct (m (loader s)). apply Hl. Qed.

Lemma keeps_when {A} (o : option A) (f : A -> SM unit) : (forall a, keeps R (f a)) -> keeps R (when o f).
Proof. intros Hf. destruct o; [apply Hf|apply keeps_ret]. Qed.

End keeps.

Create HintDb keeps.
#[export] Hint Resolve keeps_ret keeps_error keeps_get : keeps.

(** Follow the structure of a method down to what changes the state. *)
Ltac keeps := repeat first
  [ progress auto with keeps typeclass_instances
  | match goal with
    | |- keeps _ (_ ≫= _) => apply keeps_bind; [apply _| |intros ?]
    | |- keeps _ (sattempt _) => apply keeps_attempt
    | |- keeps _ (for_each _ _) => apply keeps_for_each; [apply _|intros ?]
    | |- keeps _ (when _ _) => apply keeps_when; [apply _|intros ?]
    | |- keeps _ (match ?x with _ => _ end) => destruct x
    end ].

Section sensor.

Context {W : Type} `{SensorClock} `{KeyOrder} `{BpfMap} `{UnicodeLower} (hooks : Hooks W).
Implicit Types (s : Sensor W) (pc : pendingConnect).

(** ** Correlation of writes with connects *)

(** The configuration, the loader, the signals and the world stay; time goes on. *)
Definition only_arms s s' : Prop :=
  loader s' = loader s /\ allowlist s' = allowlist s /\ prefixes s' = prefixes s /\ signals s' = signals s /\
  failClosedActive s' = failClosedActive s /\ fcPIDs s' = fcPIDs s /\ fcCgroups s' = fcCgroups s /\ world s' = world s.

#[local] Instance only_arms_preorder : PreOrder only_arms.
Proof. split; [done|]. unfold only_arms. intros ? ? ? ? ?. destruct_and!. split_and!; congruence. Qed.

Lemma arms_now : keeps only_arms now.
Proof. by intros s. Qed.

Lemma arms_store pid m : keeps only_arms (store_fds pid m).
Proof. by intros s. Qed.

Lemma arms_order {A} (m : gmap Z A) : keeps only_arms (in_order m).
Proof. by intros s. Qed.

#[local] Hint Resolve arms_now arms_store arms_order : keeps.

Lemma arms_reap m es : keeps only_arms (reap m es).
Proof. revert m. induction es as [|[k v] es IH]; intros m; cbn [reap]; keeps. Qed.

#[local] Hint Resolve arms_reap : keeps.

Lemma arms_arm pid fd ip port : keeps only_arms (arm pid fd ip port).
Proof. unfold arm. keeps. Qed.

Lemma arms_armed_in pid keys : keeps only_arms (armed_in pid keys).
Proof. induction keys; cbn [armed_in]; keeps. Qed.

Definition is_armed (pid fd : Z) pc s : Prop := fds_of pid s !! fd = Some pc.

(** None of the clock's first [N] readings expires [pc] on [fd]. *)
Definition fresh (N : nat) (fd : Z) pc : Prop := forall n, (n < N)%nat -> expired (sensor_clock n) fd pc = false.

(** Time goes on, and up to the [N]th reading an arming stays. *)
Definition stays_armed (N : nat) (pid fd : Z) pc s s' : Prop :=
  (reads s <= reads s')%nat /\
  ((reads s' <= N)%nat -> is_armed pid fd pc s -> is_armed pid fd pc s').

#[local] Instance stays_preorder N pid fd pc : PreOrder (stays_armed N pid fd pc).
Proof. split; [by intros s|]. intros s1 s2 s3 [L1 K1] [L2 K2]. split; [lia|]. intros HN Ha. apply K2, K1; [done|lia|done]. Qed.

Lemma fds_store pid pid' m s :
  fds_of pid (set_suspicious (<[pid' := m]> (suspiciousByPID s)) s) = if decide (pid' = pid) then m else fds_of pid s.
Proof.
  unfold fds_of. cbn [suspiciousByPID set_suspicious]. case_decide as E; [subst; by rewrite lookup_insert_eq|].
  by rewrite lookup_insert_ne.
Qed.

Lemma reap_spec N m es s :
  exists m', reap m es s = (Ret m', set_reads (length es + reads s) s) /\
    forall fd pc, fresh N fd pc -> (length es + reads s <= N)%nat ->
      m !! fd = Some pc -> (forall v, (fd, v) ∈ es -> v = pc) -> m' !! fd = Some pc.
Proof.
  revert m s. induction es as [|[k v] es IH]; intros m s; cbn [reap length].
  { exists m. split; [by destruct s|done]. }
  unfold mbind, SM_bind, now. cbn [fst snd].
  destruct (IH (if expired (sensor_clock (reads s)) k v then delete k m else m) (set_reads (S (reads s)) s)) as (m' & E & Hm').
  exists m'. split.
  { rewrite E. f_equal. unfold set_reads. cbn. f_equal. lia. }
  intros fd pc Hf HN Hm Hes. apply Hm'; [done|cbn; lia| |].
  - destruct (decide (k = fd)) as [->|Hne].
    + rewrite (Hes v) by (by left). by rewrite Hf by lia.
    + destruct (expired _ _ _); [by rewrite lookup_delete_ne|done].
  - intros v' Hv'. apply Hes. by right.
Qed.

(** [arm] in one equation: the map it starts its last step from. *)
Lemma arm_spec N pid fd ip port s :
  exists m k,
    (m = fds_of pid s /\ k = O \/ (maxFDsPerPID <= size (fds_of pid s))%nat /\ fds_of pid s !! fd = None /\
       forall fd' pc, fresh N fd' pc -> (k + reads s <= N)%nat -> fds_of pid s !! fd' = Some pc -> m !! fd' = Some pc) /\
    (arm pid fd ip port s).2 =
      if bool_decide (m !! fd = None) && (maxFDsPerPID <=? size m)%nat
      then set_reads (k + reads s) (set_suspicious (<[pid := m]> (suspiciousByPID s)) s)
      else set_reads (S (k + reads s))
             (set_suspicious (<[pid := <[fd := {| destIP := ip; destPort := port;
                                                  armed_at := sensor_clock (k + reads s) |}]> m]> (suspiciousByPID s)) s).
Proof.
  unfold arm, get, store_fds, modify, mbind, SM_bind. cbn [fst snd].
  destruct (bool_decide (fds_of pid s !! fd = None) && (maxFDsPerPID <=? size (fds_of pid s))%nat) eqn:Hfull.
  - apply andb_true_iff in Hfull as [Hnone%bool_decide_eq_true Hsize%Nat.leb_le].
    unfold in_order. cbn [fst snd].
    match goal with |- context [reap ?m ?es ?st] => destruct (reap_spec N m es st) as (m' & -> & Hm'); set (L := length es) in * end.
    exists m', (L + 1)%nat. cbn [reads set_reads set_suspicious] in Hm'. split.
    + right. split_and!; [done..|]. intros fd' pc Hf HN Hl. apply Hm'; [done|lia|done|].
      intros v Hv. rewrite key_order_perm, elem_of_map_to_list in Hv. congruence.
    + cbn [suspiciousByPID set_suspicious set_reads reads].
      replace (L + S (reads s))%nat with (L + 1 + reads s)%nat by lia.
      destruct (_ && _); cbn; unfold set_reads, set_suspicious; cbn; by rewrite !insert_insert_eq.
  - exists (fds_of pid s), 0%nat. split; [by left|]. cbn [mret SM_ret fst snd]. rewrite Hfull. cbn.
    unfold set_reads, set_suspicious; cbn. by rewrite !insert_insert_eq.
Qed.

Lemma stays_arm N pid fd pc pid' fd' ip port :
  fresh N fd pc -> (pid', fd') ≠ (pid, fd) -> keeps (stays_armed N pid fd pc) (arm pid' fd' ip port).
Proof.
  intros Hf Hne s. destruct (arm_spec N pid' fd' ip port s) as (m & k & Hm & ->).
  assert (forall m', (pid' = pid -> fds_of pid s !! fd = Some pc -> m' !! fd = Some pc) -> fds_of pid s !! fd = Some pc ->
    (if decide (pid' = pid) then m' else fds_of pid s) !! fd = Some pc) as Hif by (intros; case_decide; auto).
  unfold stays_armed, is_armed. destruct (_ && _); cbn [reads set_reads set_suspicious]; (split; [lia|]); intros HN Ha;
    unfold fds_of; cbn [suspiciousByPID set_reads set_suspicious];
    change (default ∅ (<[pid' := ?m]> (suspiciousByPID s) !! pid)) with
      (fds_of pid (set_suspicious (<[pid' := m]> (suspiciousByPID s)) s)); rewrite fds_store; apply Hif; try done;
    intros -> _; (destruct Hm as [[-> ->]|(_ & _ & Hm)]; [|specialize (Hm fd pc Hf ltac:(lia) Ha)]);
    first [done|by rewrite lookup_insert_ne by congruence].
Qed.

Lemma stays_armed_in N pid fd pc pid' keys :
  fresh N fd pc -> keeps (stays_armed N pid fd pc) (armed_in pid' keys).
Proof.
  intros Hf. induction keys as [|k keys IH]; cbn [armed_in]; [by apply keeps_ret, _|].
  intros s. unfold mbind, SM_bind, get. destruct (fds_of pid' s !! k) as [pc'|] eqn:E; [|apply IH].
  unfold now. cbn [fst snd]. destruct (expired (sensor_clock (reads s)) k pc') eqn:Ex; [|by split; [cbn; lia|]].
  unfold store_fds, modify. cbn [fst snd].
  etrans; [|apply IH]. split; [cbn; lia|]. intros HN Ha. unfold is_armed. cbn [set_reads] in *.
  match goal with |- fds_of pid ?st !! fd = _ =>
    change (fds_of pid st) with (fds_of pid (set_suspicious (<[pid' := delete k (fds_of pid' s)]> (suspiciousByPID s)) s)) end.
  rewrite fds_store. case_decide as Ep; [subst pid'|done].
  destruct (decide (k = fd)) as [->|]; [|by rewrite lookup_delete_ne].
  unfold is_armed in Ha. rewrite Ha in E. injection E as <-. cbn in HN. by rewrite Hf in Ex by lia.
Qed.

(** *** Through the handlers *)

Lemma stays_modify N pid fd pc (f : Sensor W -> Sensor W) :
  (forall s, reads (f s) = reads s /\ suspiciousByPID (f s) = suspiciousByPID s) -> keeps (stays_armed N pid fd pc) (modify f).
Proof.
  intros Hf s. destruct (Hf s) as [E1 E2]. split; [cbn; lia|]. unfold is_armed, fds_of. cbn. by rewrite E2.
Qed.

Lemma stays_loader N pid fd pc {A} (m : LoaderMaps.M A) : keeps (stays_armed N pid fd pc) (on_loader m).
Proof. apply keeps_on_loader. by intros s l. Qed.

Lemma stays_call N pid fd pc ev : keeps (stays_armed N pid fd pc) (callHandler hooks ev).
Proof. intros s. unfold callHandler. destruct (handler hooks) as [h|]; [|done]. by destruct (h ev (world s)) as [[d|] w]. Qed.

#[local] Hint Resolve stays_loader stays_call : keeps.

Lemma stays_contain N pid fd pc cg p : keeps (stays_armed N pid fd pc) (contain hooks cg p).
Proof. unfold contain, containPIDs, KillProcess, Quarantine, LSMEnforced. keeps; by apply stays_modify. Qed.

#[local] Hint Resolve stays_contain : keeps.

(** The record is no connect on [fd] by [pid]. *)
Definition no_connect_on (pid fd : Z) (record : bytes) : Prop :=
  forall raw c, decodeRingEvent record = Ret raw -> re_Connect raw = Some c -> (ce_PID c, ce_FD c) ≠ (pid, fd).

Lemma stays_read N pid fd pc k record :
  fresh N fd pc -> fd ≠ anyFD -> no_connect_on pid fd record -> keeps (stays_armed N pid fd pc) (readLoop hooks k record).
Proof.
  intros Hf Hany Hnc. pose proof (λ p keys, stays_armed_in N pid fd pc p keys Hf) as Harmed.
  assert (forall p ip port, keeps (stays_armed N pid fd pc) (arm p anyFD ip port)) as Hsend
    by (intros; apply stays_arm; [done|congruence]).
  unfold readLoop, readLoopRoutine, readLoopCritical, turn.
  destruct k, (decodeRingEvent record) as [raw|err|] eqn:Er; try (by intros s).
  - unfold dispatch_routine, handleOpenat, containPIDs, KillProcess.
    apply keeps_bind; [apply _| |]; [|intros _; keeps; by apply stays_modify].
    destruct (re_Connect raw) as [c|] eqn:Ec; [|apply keeps_ret, _].
    pose proof (Hnc raw c Er Ec) as Hne. cbn [when]. unfold handleConnect.
    pose proof (stays_arm N pid fd pc (ce_PID c) (ce_FD c) (ce_DestIPString c) (ce_DestPort c) Hf Hne). keeps.
  - unfold dispatch_critical, handleWrite, handleSendto, handleLSMDeny, armed. keeps.
Qed.

Lemma stays_run N pid fd pc es :
  fresh N fd pc -> fd ≠ anyFD -> Forall (λ x : ring * bytes, no_connect_on pid fd x.2) es ->
  keeps (stays_armed N pid fd pc) (run_loops hooks es).
Proof.
  intros Hf Hany. unfold run_loops. induction 1 as [|x es Hx Hes IH]; cbn [for_each]; [apply keeps_ret, _|].
  apply keeps_bind; [apply _|by apply stays_read|done].
Qed.

(** *** The destination of a write *)

(** A lookup that the fresh arming of the descriptor answers. *)
Lemma armed_fresh N pid fd pc s :
  is_armed pid fd pc s -> fresh N fd pc -> (reads s < N)%nat ->
  armed pid fd s = (Ret (Some pc), set_reads (S (reads s)) s).
Proof.
  intros Ha Hf HN. unfold armed, armed_in, mbind, SM_bind, get, now. unfold is_armed in Ha. rewrite Ha. cbn [fst snd].
  by rewrite Hf.
Qed.

(** The world after the handler was called with [ev]. *)
Definition told ev (w : W) : W :=
  match handler hooks with
  | None => w
  | Some h =>
      match h ev w with
      | (Some _, w) => w
      | (None, w) => match OnHandlerPanic hooks with Some f => f w | None => w end
      end
  end.

Lemma callHandler_world ev s : (callHandler hooks ev s).2 = set_world (told ev (world s)) s.
Proof.
  unfold callHandler, told. destruct (handler hooks) as [h|]; [by destruct (h ev (world s)) as [[d|] w]|by destruct s].
Qed.

(** Nothing after the handler's call changes the world. *)
Definition same_world s s' : Prop := world s' = world s.

#[local] Instance same_world_preorder : PreOrder same_world.
Proof. split; [done|]. unfold same_world. intros ? ? ? ? ?. congruence. Qed.

Lemma same_world_contain cg pid : keeps same_world (contain hooks cg pid).
Proof.
  unfold contain, containPIDs, KillProcess, Quarantine, LSMEnforced. keeps;
    first [by apply keeps_modify|by apply keeps_on_loader].
Qed.

Lemma write_told raw pc s :
  armed (we_PID raw) (we_FD raw) s = (Ret (Some pc), set_reads (S (reads s)) s) ->
  world (handleWrite hooks raw s).2 = told (written_event raw pc) (world s).
Proof.
  intros Ha. unfold handleWrite, mbind at 1, SM_bind at 1. rewrite Ha. unfold told at 1.
  destruct (handler hooks) as [h|] eqn:Eh; [|done].
  unfold mbind, SM_bind. set (s1 := set_reads _ s).
  pose proof (callHandler_world (written_event raw pc) s1) as Hw.
  assert (world (callHandler hooks (written_event raw pc) s1).2 = told (written_event raw pc) (world s)) as Hw'
    by (by rewrite Hw).
  unfold told in Hw' at 1. rewrite Eh in Hw'.
  destruct (callHandler hooks (written_event raw pc) s1) as [[d|e|] s2]; cbn [snd] in *; [|done..].
  rewrite <- Hw'. case_decide; [|done]. apply same_world_contain.
Qed.

(** ** Containment *)

Definition targets_of (cg pid : Z) (w : W) : list Z :=
  match killResolver hooks with
  | None => [pid]
  | Some resolve => match resolve cg pid w with [] => [pid] | resolved => resolved end
  end.

(** SIGKILL to each process and to the group it leads. *)
Definition kills (pids : list Z) : list Z := flat_map (λ p, [- p; p]) pids.

Lemma kill_all pids s : for_each KillProcess pids s = (Ret tt, set_signals (signals s ++ kills pids) s).
Proof.
  revert s. induction pids as [|p pids IH]; intros s; cbn [for_each kills flat_map].
  { rewrite app_nil_r. by destruct s. }
  unfold mbind, SM_bind, KillProcess, modify. cbn [fst snd]. rewrite IH. f_equal.
  unfold set_signals. cbn. by rewrite <- app_assoc.
Qed.

Lemma containPIDs_spec cg pid s :
  containPIDs hooks cg pid s = (Ret tt, set_signals (signals s ++ kills (targets_of cg pid (world s))) s).
Proof. unfold containPIDs, get, mbind, SM_bind. cbn [fst snd]. apply kill_all. Qed.

Lemma contain_spec cg pid s :
  (contain hooks cg pid s).2 =
    set_loader (if lsmLink (loader s) then (LoaderMaps.Quarantine pid cg (loader s)).2 else loader s)
      (set_signals (signals s ++ kills (targets_of cg pid (world s))) s).
Proof.
  unfold contain, mbind, SM_bind. rewrite containPIDs_spec. cbn [fst snd].
  unfold sattempt, Quarantine, LSMEnforced, on_loader, LoaderMaps.LSMEnforced, mbind, SM_bind.
  cbn [fst snd set_signals set_loader loader].
  destruct (lsmLink (loader s)) eqn:El; cbn [negb]; [|by destruct s].
  cbn [loader set_loader]. by destruct (LoaderMaps.Quarantine pid cg (loader s)) as [[u|e|] l'].
Qed.

(** A write whose event the handler answers with ActionContained. *)
Lemma write_contained raw pc s s1 h d w :
  armed (we_PID raw) (we_FD raw) s = (Ret (Some pc), s1) ->
  handler hooks = Some h -> h (written_event raw pc) (world s1) = (Some d, w) -> dAction d = ActionContained ->
  (handleWrite hooks raw s).2 = (contain hooks (we_CgroupID raw) (we_PID raw) (set_world w s1)).2.
Proof.
  intros Ha Eh Ed Hd. unfold handleWrite, mbind at 1, SM_bind at 1. rewrite Ha, Eh.
  unfold mbind, SM_bind, callHandler. rewrite Eh, Ed. by rewrite decide_True.
Qed.

(** No signal is sent and the maps stay. *)
Definition forceless s s' : Prop := signals s' = signals s /\ loader s' = loader s.

Lemma forceless_arms s s' : only_arms s s' -> forceless s s'.
Proof. unfold only_arms, forceless. tauto. Qed.

(** One event: the handler may be called, on an event that [P] describes, and a process is
    contained only on its answer. *)
Definition event_cases (P : SyscallEvent -> Prop) s s' : Prop :=
  forceless s s' /\ (world s' = world s \/ exists ev, P ev /\ world s' = told ev (world s)) \/
  exists h ev d w, P ev /\ handler hooks = Some h /\ h ev (world s) = (Some d, w) /\
    dAction d = ActionContained /\ world s' = w.

Lemma cases_weaken (P Q : SyscallEvent -> Prop) s s' :
  (forall ev, P ev -> Q ev) -> event_cases P s s' -> event_cases Q s s'.
Proof.
  intros HPQ [[Hf Hw]|(h & ev & d & w & HP & Hr)]; [left; split; [done|]|right; exists h, ev, d, w; auto].
  destruct Hw as [Hw|(ev & HP & Hw)]; [by left|right; exists ev; auto].
Qed.

Lemma call_cases (P : SyscallEvent -> Prop) (ev : SyscallEvent) (f : Decision -> SM unit) s0 s :
  P ev -> only_arms s0 s ->
  (forall d s, dAction d ≠ ActionContained -> f d s = (Ret tt, s)) -> (forall d, keeps same_world (f d)) ->
  event_cases P s0
    (match handler hooks with None => mret tt | Some _ => d ← callHandler hooks ev; f d end s).2.
Proof.
  intros HP Ha Hf Hw. pose proof (forceless_arms _ _ Ha) as [Hs Hl]. destruct Ha as (_ & _ & _ & _ & _ & _ & _ & Ew).
  destruct (handler hooks) as [h|] eqn:Eh; [|by left; split; [|left]].
  unfold mbind, SM_bind, callHandler, told, event_cases. rewrite !Eh.
  destruct (h ev (world s)) as [[d|] w] eqn:Ed.
  - destruct (decide (dAction d = ActionContained)) as [Hd|Hd].
    + right. exists h, ev, d, w. rewrite <- Ew. split_and!; [done..|]. apply (Hw d).
    + rewrite Hf by done. left. split; [by split|]. right. exists ev. split; [done|]. unfold told. by rewrite Eh, <- Ew, Ed.
  - rewrite Hf by done. left. split; [by split|]. right. exists ev. split; [done|]. unfold told. by rewrite Eh, <- Ew, Ed.
Qed.

Lemma handled_cases (P : SyscallEvent -> Prop) (ev : SyscallEvent) cg pid s0 s :
  P ev -> only_arms s0 s ->
  event_cases P s0
    (match handler hooks with
     | None => mret tt
     | Some _ => d ← callHandler hooks ev;
                 if decide (dAction d = ActionContained) then contain hooks cg pid else mret tt
     end s).2.
Proof.
  intros HP Ha. apply call_cases; [done..|intros d s1 Hd; by rewrite decide_False|].
  intros d. case_decide; [apply same_world_contain|apply keeps_ret, _].
Qed.

Lemma arm_ret pid fd ip port s : exists s', arm pid fd ip port s = (Ret tt, s') /\ only_arms s s'.
Proof.
  pose proof (arms_arm pid fd ip port s) as Ha.
  destruct (arm pid fd ip port s) as [r s'] eqn:E. exists s'. split; [|done]. f_equal. revert E.
  unfold arm, get, store_fds, modify, in_order, now, mbind, SM_bind. cbn [fst snd].
  destruct (_ && _); [|cbn [mret SM_ret]; destruct (_ && _); by intros [= <- _]].
  match goal with |- context [reap ?m ?es ?st] => destruct (reap_spec 0 m es st) as (m' & -> & _) end.
  destruct (_ && _); by intros [= <- _].
Qed.

Lemma armed_ret pid fd s : exists o s', armed pid fd s = (Ret o, s') /\ only_arms s s'.
Proof.
  unfold armed. generalize [fd; anyFD]. intros keys. pose proof (arms_armed_in pid keys s) as Ha.
  destruct (armed_in pid keys s) as [r s'] eqn:E. cbn [snd] in Ha.
  assert (exists o, r = Ret o) as [o ->]; [|by exists o, s'].
  clear Ha. revert s E. induction keys as [|k keys IH]; intros s; cbn [armed_in].
  { intros [= <- _]. by eexists. }
  unfold mbind, SM_bind, get, now, store_fds, modify. cbn [fst snd].
  destruct (fds_of pid s !! k); [|apply IH]. destruct (expired _ _ _); [apply IH|]. intros [= <- _]. by eexists.
Qed.

Lemma connect_cases raw s : event_cases (λ ev, ev = connect_event raw (ce_DestIPString raw)) s (handleConnect hooks raw s).2.
Proof.
  unfold handleConnect, get, mbind at 1, SM_bind at 1. cbn [fst snd].
  destruct (isAllowlisted _ s); [by left; split; [|left]|].
  unfold mbind at 1, SM_bind at 1. destruct (arm_ret (ce_PID raw) (ce_FD raw) (ce_DestIPString raw) (ce_DestPort raw) s)
    as (s' & -> & Ha). by apply handled_cases.
Qed.

Lemma write_cases raw s : event_cases (λ ev, exists pc, ev = written_event raw pc) s (handleWrite hooks raw s).2.
Proof.
  unfold handleWrite, mbind at 1, SM_bind at 1. destruct (armed_ret (we_PID raw) (we_FD raw) s) as (o & s' & -> & Ha).
  destruct o as [pc|]; [apply handled_cases; [by exists pc|done]|]. pose proof (forceless_arms _ _ Ha).
  left. split; [done|]. left. cbn. unfold only_arms in Ha. tauto.
Qed.

Lemma sendto_cases raw s : event_cases (λ ev, ev = sendto_event raw (se_DestIPString raw)) s (handleSendto hooks raw s).2.
Proof.
  unfold handleSendto, get, mbind at 1, SM_bind at 1. cbn [fst snd].
  destruct (_ || _); [by left; split; [|left]|].
  unfold mbind at 1, SM_bind at 1. destruct (arm_ret (se_PID raw) anyFD (se_DestIPString raw) (se_DestPort raw) s)
    as (s' & -> & Ha). apply call_cases; [done..|intros d s1 Hd; by rewrite decide_False|].
  intros d. repeat case_decide; first [apply same_world_contain|apply keeps_ret, _].
Qed.

Lemma openat_cases raw s : event_cases (λ ev, ev = openat_event raw) s (handleOpenat hooks raw s).2.
Proof.
  unfold handleOpenat, get, mbind at 1, SM_bind at 1. cbn [fst snd].
  destruct (negb _); [by left; split; [|left]|].
  apply call_cases; [done..|intros d s1 Hd; by rewrite decide_False|].
  intros d. case_decide; [|apply keeps_ret, _]. intros s1. by rewrite containPIDs_spec.
Qed.

Lemma deny_cases raw s : event_cases (λ ev, ev = lsm_deny_event raw) s (handleLSMDeny hooks raw s).2.
Proof. unfold handleLSMDeny. apply (call_cases _ _ (λ _, mret tt)); [done..|]. intros d. apply keeps_ret, _. Qed.

Lemma ret_bind {A} (f : unit -> SM A) s : (mret tt ≫= f) s = f tt s.
Proof. done. Qed.

Lemma cases_bind P (m : SM unit) (f : unit -> SM unit) s :
  event_cases P s (m s).2 -> (forall s', (f tt s').2 = s') -> event_cases P s ((m ≫= f) s).2.
Proof. intros Hm Hf. unfold mbind, SM_bind. destruct (m s) as [[[]|e|] s']; [by rewrite Hf|done..]. Qed.

(** The event is the one the record decodes to. *)
Definition reported (record : bytes) (ev : SyscallEvent) : Prop :=
  exists raw, decodeRingEvent record = Ret raw /\
    ((exists c, re_Connect raw = Some c /\ ev = connect_event c (ce_DestIPString c)) \/
     (exists w pc, (re_Write raw = Some w \/ re_Writev raw = Some w) /\ ev = written_event w pc) \/
     (exists t, (re_Sendto raw = Some t \/ re_Sendmsg raw = Some t) /\ ev = sendto_event t (se_DestIPString t)) \/
     (exists o, re_Openat raw = Some o /\ ev = openat_event o) \/
     (exists l, re_LSMDeny raw = Some l /\ ev = lsm_deny_event l)).

Lemma read_cases k record s : event_cases (reported record) s (readLoop hooks k record s).2.
Proof.
  pose proof (decode_kind record) as Hk. unfold safe_event in Hk.
  assert (event_cases (reported record) s s) as Hnone by (by left; split; [|left]).
  destruct k; cbv [readLoop readLoopRoutine readLoopCritical turn];
    (destruct (decodeRingEvent record) as [raw|err|] eqn:Er; [|done..]);
    destruct raw as [[c|] [w|] [wv|] [t|] [m|] [o|] [l|]], Hk as [k' Hk]; cbn in Hk; try discriminate Hk;
    cbv [dispatch_routine dispatch_critical when re_Connect re_Write re_Writev re_Sendto re_Sendmsg re_Openat re_LSMDeny];
    rewrite ?ret_bind; try exact Hnone;
    (eapply cases_weaken;
     [|first [apply openat_cases|apply deny_cases
             |apply cases_bind; [first [apply connect_cases|apply write_cases|apply sendto_cases]|done]]]);
    cbv beta; intros ev Hev; (eexists; split; [exact Er|]); cbn; naive_solver.
Qed.

End sensor.

(** C23: a write is reported with the destination its descriptor was connected to. Let a
    monitored process connect a descriptor to an address that is not exempt, with fewer than
    256 descriptors armed; let the two read loops then handle any records in any order, none
    of them a connect of that process on that descriptor. As long as the clock has not moved
    ten minutes past the connect, a write on the descriptor is handed to the handler with the
    payload captured and the address and port of the connect. *)
Theorem write_correlated {W : Type} `{SensorClock} `{KeyOrder} `{BpfMap} `{UnicodeLower} (hooks : Hooks W)
    (s0 : Sensor W) (c : ConnectEvent) (records : list (ring * bytes)) (raw : WriteEvent) :
  let pc := {| destIP := ce_DestIPString c; destPort := ce_DestPort c; armed_at := sensor_clock (reads s0) |} in
  let s1 := (handleConnect hooks c s0).2 in
  let s2 := (run_loops hooks records s1).2 in
  let s3 := (handleWrite hooks raw s2).2 in
  isAllowlisted (ce_DestIPString c) s0 = false -> (size (fds_of (ce_PID c) s0) < maxFDsPerPID)%nat ->
  we_PID raw = ce_PID c -> we_FD raw = ce_FD c -> 0 <= ce_FD c ->
  Forall (λ x : ring * bytes, no_connect_on (ce_PID c) (ce_FD c) x.2) records ->
  (forall n, (n <= reads s2)%nat -> time_sub (sensor_clock n) (sensor_clock (reads s0)) <= staleFDTTL) ->
  world s3 = told hooks (written_event raw pc) (world s2).
Proof.
  intros pc s1 s2 s3 Hallow Hsize Hpid Hfd Hnn Hrec Hclock.
  assert (ce_FD c ≠ anyFD) as Hany by (unfold anyFD; lia).
  assert (fresh (S (reads s2)) (ce_FD c) pc) as Hfresh.
  { intros n Hn. unfold expired, ttlFor. rewrite (proj2 (Z.eqb_neq _ _) Hany). apply Z.ltb_ge, Hclock. lia. }
  assert (is_armed (ce_PID c) (ce_FD c) pc s1) as Ha.
  { assert (is_armed (ce_PID c) (ce_FD c) pc (arm (ce_PID c) (ce_FD c) (ce_DestIPString c) (ce_DestPort c) s0).2 /\
            exists s', arm (ce_PID c) (ce_FD c) (ce_DestIPString c) (ce_DestPort c) s0 = (Ret tt, s')) as [Harm [s' Es]].
    { unfold arm, get, store_fds, modify, now, mbind, SM_bind. cbn [fst snd].
      rewrite (proj2 (Nat.leb_gt _ _) Hsize), !andb_false_r. cbn [fst snd mret SM_ret].
      rewrite (proj2 (Nat.leb_gt _ _) Hsize), !andb_false_r. split; [|by eexists].
      unfold is_armed, fds_of at 1. cbn [snd suspiciousByPID set_suspicious set_reads reads]. rewrite lookup_insert_eq. cbn [default].
      apply lookup_insert_eq. }
    rewrite Es in Harm. cbn [snd] in Harm. unfold s1, handleConnect, get, mbind, SM_bind. cbn [fst snd]. rewrite Hallow, Es.
    unfold is_armed in *. destruct (handler hooks); [|done].
    pose proof (callHandler_world hooks (connect_event c (ce_DestIPString c)) s') as Hw.
    destruct (callHandler hooks _ s') as [[d|e|] s'']; cbn [snd] in Hw; subst s''; [|done..].
    case_decide; [|done].
    assert (keeps (λ a b : Sensor W, suspiciousByPID b = suspiciousByPID a) (contain hooks (ce_CgroupID c) (ce_PID c))) as Hk.
    { assert (PreOrder (λ a b : Sensor W, suspiciousByPID b = suspiciousByPID a)) by (split; [done|congruence]).
      unfold contain, containPIDs, KillProcess, Quarantine, LSMEnforced. keeps;
        first [by apply keeps_modify|by apply keeps_on_loader]. }
    unfold fds_of in *. by rewrite Hk. }
  destruct (stays_run hooks (S (reads s2)) (ce_PID c) (ce_FD c) pc records Hfresh Hany Hrec s1) as [_ Hstay].
  fold s2 in Hstay. apply write_told. rewrite Hpid, Hfd.
  by apply (armed_fresh (S (reads s2))); [apply Hstay; [lia|]| |lia].
Qed.


(** ** The allowlist *)

(** The address of a sockaddr: its family and the 16 bytes of the record. *)
Definition dest_address (family : Z) (addr : bytes) : bytes := if family =? afInet then take 4 addr else addr.

Lemma dest_length family addr :
  length addr = 16%nat -> family = afInet \/ family = afInet6 ->
  (length (dest_address family addr) = 4%nat \/ length (dest_address family addr) = 16%nat) /\
  destIPString family addr = IP_String (dest_address family addr).
Proof.
  intros Hl [-> | ->]; unfold dest_address, destIPString; rewrite ?Z.eqb_refl.
  - rewrite length_take. split; [left; lia|done].
  - by split; [right|].
Qed.

Lemma allowlist_text {W : Type} family addr entries (s : Sensor W) :
  length addr = 16%nat -> family = afInet \/ family = afInet6 ->
  isAllowlisted (destIPString family addr) (UpdateAllowlist entries s).2 =
  bool_decide (destIPString family addr ∈ entries).
Proof.
  intros Hl Hfam. destruct (dest_length family addr Hl Hfam) as [Hlen ->].
  unfold isAllowlisted, destIPNormalized, UpdateAllowlist. cbn [modify snd allowlist set_config].
  rewrite ParseIP_String, IP_String_As16, orb_diag by done. apply bool_decide_ext.
  unfold buildAllowlist. rewrite elem_of_list_to_set, list_elem_of_In, filter_In, <- list_elem_of_In, bool_decide_eq_true.
  rewrite ParseIP_String by done. split; [by intros []|]. split; [done|by eexists].
Qed.

(** C32: the allowlist exempts the addresses it names and no other. After UpdateAllowlist, the
    destination of a connect is exempt exactly when its canonical text is an entry; so a list
    of canonical texts exempts exactly the addresses whose texts they are, an IPv4 address and
    its mapped IPv6 form being one. *)
Theorem allowlist_exact {W : Type} (c : ConnectEvent) (entries : list bytes) (ips : list bytes) (s : Sensor W) :
  length (ce_DestAddr c) = 16%nat -> ce_Family c = afInet \/ ce_Family c = afInet6 ->
  Forall (λ ip : bytes, length ip = 4%nat \/ length ip = 16%nat) ips ->
  (isAllowlisted (ce_DestIPString c) (UpdateAllowlist entries s).2 = true <-> ce_DestIPString c ∈ entries) /\
  (isAllowlisted (ce_DestIPString c) (UpdateAllowlist (map IP_String ips) s).2 = true <->
   As16 (dest_address (ce_Family c) (ce_DestAddr c)) ∈ map As16 ips).
Proof.
  intros Hl Hfam Hips. unfold ce_DestIPString. rewrite !allowlist_text, !bool_decide_eq_true by done. split; [done|].
  destruct (dest_length _ _ Hl Hfam) as [Hlen ->]. rewrite !list_elem_of_In, !in_map_iff. rewrite Forall_forall in Hips.
  split; intros (ip & E & Hin); exists ip; (split; [|done]); pose proof (Hips ip ltac:(by apply list_elem_of_In)).
  - by apply IP_String_inj.
  - apply (f_equal IP_String) in E. by rewrite !IP_String_As16 in E.
Qed.

(** ** A sensor that keeps what it is told *)

Section demo.

#[local] Existing Instance bounded_maps.
#[local] Instance demo_sensor_clock : SensorClock := λ n, 1000 * Z.of_nat n.
#[local] Instance demo_ascii : UnicodeLower := λ r, r.

(** The handler lets everything through and collects the events. *)
Definition spy : Hooks (list SyscallEvent) := {|
  handler := Some (λ ev seen, (Some allowed, seen ++ [ev])); killResolver := None; OnHandlerPanic := None |}.

Definition spy_sensor : Sensor (list SyscallEvent) := NewSensor demo_loader [gostr "10.0.0.1"] [] [].

(** 203.0.113.7 and 10.0.0.1 as the probes deliver them. *)
Definition demo_addr : bytes := [xcb; x00; x71; x07] ++ replicate 12 x00.

Definition demo_connect (pid fd : Z) : ConnectEvent := {|
  ce_TSNs := 1; ce_PID := pid; ce_TID := pid; ce_Family := 2; ce_DestAddr := demo_addr; ce_DestPort := 443;
  ce_FD := fd; ce_CgroupID := 1; ce_Comm := gostr "curl" ++ replicate 12 x00 |}.

Definition demo_write (pid fd : Z) (payload : bytes) : WriteEvent := {|
  we_TSNs := 2; we_PID := pid; we_TID := pid; we_FD := fd; we_Len := Z.of_nat (length payload); we_CgroupID := 1;
  we_Comm := gostr "curl" ++ replicate 12 x00; we_Payload := payload; we_Syscall := gostr "write" |}.

(** The record of a connect on descriptor 6 by the same process, which is no connect on 5. *)
Definition demo_record : bytes :=
  le_bytes 4 1 ++ le_bytes 4 0 ++ le_bytes 8 9 ++ le_bytes 4 77 ++ le_bytes 4 77 ++ [x02] ++ demo_addr ++ [x00] ++
  le_bytes 2 80 ++ le_bytes 4 6 ++ le_bytes 8 1 ++ gostr "curl" ++ replicate 12 x00.

Lemma demo_record_elsewhere : Forall (λ x : ring * bytes, no_connect_on 77 5 x.2) [(Routine, demo_record)].
Proof.
  repeat constructor. intros raw c Hd Hc. cbn [snd] in Hd.
  assert (decodeRingEvent demo_record = Ret raw) as Hd' by exact Hd. vm_compute in Hd'. injection Hd' as <-.
  injection Hc as <-. cbn. congruence.
Qed.

Abbreviation spied := (run_loops spy [(Routine, demo_record)] (handleConnect spy (demo_connect 77 5) spy_sensor).2).2.

Lemma demo_reads : reads spied = 2%nat.
Proof. vm_compute. reflexivity. Qed.

Lemma demo_not_exempt : isAllowlisted (ce_DestIPString (demo_connect 77 5)) spy_sensor = false.
Proof. vm_compute. reflexivity. Qed.

Lemma demo_room : (size (fds_of (ce_PID (demo_connect 77 5)) spy_sensor) < maxFDsPerPID)%nat.
Proof. apply Nat.ltb_lt. vm_compute. reflexivity. Qed.

Lemma demo_in_time n :
  (n <= reads spied)%nat -> time_sub (sensor_clock n) (sensor_clock (reads spy_sensor)) <= staleFDTTL.
Proof. rewrite demo_reads. intros Hn. do 3 (destruct n as [|n]; [vm_compute; discriminate|]). lia. Qed.

Lemma demo_fd : 0 <= ce_FD (demo_connect 77 5).
Proof. discriminate. Qed.

Lemma demo_told :
  map (λ ev, (seDestIP ev, sePayloadExcerpt ev))
    (told spy (written_event (demo_write 77 5 (gostr "hello")) {| destIP := ce_DestIPString (demo_connect 77 5);
       destPort := ce_DestPort (demo_connect 77 5); armed_at := sensor_clock (reads spy_sensor) |}) (world spied)) =
  [(gostr "203.0.113.7", []); (gostr "203.0.113.7", []); (gostr "203.0.113.7", gostr "hello")].
Proof. vm_compute. reflexivity. Qed.

Example write_correlated_witness :
  map (λ ev, (seDestIP ev, sePayloadExcerpt ev)) (world (handleWrite spy (demo_write 77 5 (gostr "hello")) spied).2) =
  [(gostr "203.0.113.7", []); (gostr "203.0.113.7", []); (gostr "203.0.113.7", gostr "hello")].
Proof.
  pose proof (write_correlated spy spy_sensor (demo_connect 77 5) [(Routine, demo_record)]
    (demo_write 77 5 (gostr "hello")) demo_not_exempt demo_room eq_refl eq_refl demo_fd demo_record_elsewhere demo_in_time) as Hw.
  cbv zeta in Hw. rewrite Hw. exact demo_told.
Defined.

Example allowlist_exact_witness :
  isAllowlisted (ce_DestIPString (demo_connect 77 5)) (UpdateAllowlist (map IP_String [[xcb; x00; x71; x07]]) spy_sensor).2 = true.
Proof.
  refine (proj2 (proj2 (allowlist_exact (demo_connect 77 5) [] [[xcb; x00; x71; x07]] spy_sensor _ _ _)) _).
  - reflexivity.
  - left. reflexivity.
  - repeat constructor.
  - left.
Defined.

(** An entry that is a valid IP address but not in canonical form is kept and exempts
    nothing, the address it denotes included. *)
Example noncanonical_entry_is_dead :
  let s := (UpdateAllowlist [gostr "2001:DB8::1"] spy_sensor).2 in
  gostr "2001:DB8::1" ∈ allowlist s /\
  ParseIP (gostr "2001:DB8::1") = ParseIP (gostr "2001:db8::1") /\
  destIPString afInet6 ([x20; x01; x0d; xb8] ++ replicate 11 x00 ++ [x01]) = gostr "2001:db8::1" /\
  isAllowlisted (gostr "2001:db8::1") s = false.
Proof.
  cbv zeta. split; [refine (bool_decide_unpack _ _); vm_compute; exact I|]. split; [vm_compute; reflexivity|].
  split; vm_compute; reflexivity.
Qed.

End demo.
