(* ===== verification/FailClosedTheorems.v ===== *)
(** * Fail-closed quarantine

    What engaging fail-closed puts into the blocklists, what clearing it lifts, and what
    becomes of the quarantines made in between. *)

From S2P Require Import Prelude Go GoTime GoStrings NetIP CLayout Vmlinux Kernel Probes KernelAbi ProbeFacts Loader Model.
From S2P Require Import LoaderMaps LoaderTheorems ProbeSpec KernelTheorems Match Sensor SensorTheorems.

(** ** Fail-closed: what the blocklists hold *)

Definition pid_keys (st : kmaps) : gset Z := dom (lsm_blocklist_pid st).
Definition cg_keys (st : kmaps) : gset Z := dom (lsm_blocklist_cgroup st).

(** The keys a call on [pid] and [cg] touches. *)
Definition pid_key (pid : Z) : gset Z := if 0 <? pid then {[u32 pid]} else ∅.
Definition cg_key (cg : Z) : gset Z := if negb (cg =? 0) then {[cg]} else ∅.

Lemma blocked_keys tk st : blocked tk st = bool_decide (cur_pid tk ∈ pid_keys st) || bool_decide (cgroup_id tk ∈ cg_keys st).
Proof. unfold blocked, pid_keys, cg_keys. f_equal; apply bool_decide_ext; by rewrite elem_of_dom. Qed.

Lemma quarantine_keys pid cg st :
  pid_keys (quarantine_maps pid cg st) = pid_key pid ∪ pid_keys st /\
  cg_keys (quarantine_maps pid cg st) = cg_key cg ∪ cg_keys st.
Proof.
  unfold quarantine_maps, put_maps, pid_keys, cg_keys, pid_key, cg_key.
  destruct (0 <? pid), (negb (cg =? 0)); cbn; rewrite ?dom_insert_L; set_solver.
Qed.

Lemma unquarantine_keys pid cg st :
  pid_keys (unquarantine_maps pid cg st) = pid_keys st ∖ pid_key pid /\
  cg_keys (unquarantine_maps pid cg st) = cg_keys st ∖ cg_key cg.
Proof.
  unfold unquarantine_maps, delete_maps, pid_keys, cg_keys, pid_key, cg_key.
  destruct (0 <? pid), (negb (cg =? 0)); cbn; rewrite ?dom_delete_L; set_solver.
Qed.

Definition pids_keys (ps : list Z) : gset Z := ⋃ (pid_key <$> ps).
Definition cgs_keys (cs : list Z) : gset Z := ⋃ (cg_key <$> cs).

Lemma foldl_keys (g : Z -> kmaps -> kmaps) (keys : kmaps -> gset Z) (key : Z -> gset Z) xs st :
  (forall x st, keys (g x st) = key x ∪ keys st) -> keys (foldl (λ st x, g x st) st xs) = ⋃ (key <$> xs) ∪ keys st.
Proof. intros Hg. revert st. induction xs as [|x xs IH]; intros st; cbn; [set_solver|]. rewrite IH, Hg. set_solver. Qed.

Lemma foldl_keys_minus (g : Z -> kmaps -> kmaps) (keys : kmaps -> gset Z) (key : Z -> gset Z) xs st :
  (forall x st, keys (g x st) = keys st ∖ key x) -> keys (foldl (λ st x, g x st) st xs) = keys st ∖ ⋃ (key <$> xs).
Proof. intros Hg. revert st. induction xs as [|x xs IH]; intros st; cbn; [set_solver|]. rewrite IH, Hg. set_solver. Qed.

Lemma foldl_same (g : Z -> kmaps -> kmaps) (keys : kmaps -> gset Z) xs st :
  (forall x st, keys (g x st) = keys st) -> keys (foldl (λ st x, g x st) st xs) = keys st.
Proof. intros Hg. revert st. induction xs as [|x xs IH]; intros st; cbn; [done|]. by rewrite IH, Hg. Qed.

Lemma quarantine_all_keys ps cs st :
  pid_keys (quarantine_all ps cs st) = pids_keys ps ∪ pid_keys st /\
  cg_keys (quarantine_all ps cs st) = cgs_keys cs ∪ cg_keys st.
Proof.
  assert (forall x st, pid_keys (quarantine_maps 0 x st) = pid_keys st) as Hp
    by (intros x st'; destruct (quarantine_keys 0 x st') as [-> _]; unfold pid_key; set_solver).
  assert (forall x st, cg_keys (quarantine_maps x 0 st) = cg_keys st) as Hc
    by (intros x st'; destruct (quarantine_keys x 0 st') as [_ ->]; unfold cg_key; set_solver).
  unfold quarantine_all. split.
  - rewrite (foldl_same (λ x st, quarantine_maps 0 x st) pid_keys cs) by done.
    apply (foldl_keys (λ x st, quarantine_maps x 0 st) pid_keys pid_key). intros. apply quarantine_keys.
  - rewrite (foldl_keys (λ x st, quarantine_maps 0 x st) cg_keys cg_key) by (intros; apply quarantine_keys).
    by rewrite (foldl_same (λ x st, quarantine_maps x 0 st) cg_keys ps).
Qed.

Section failclosed.

Context `{BpfMapOk}.

Definition unquarantine_all (ps cs : list Z) (st : kmaps) : kmaps :=
  foldl (λ st c, unquarantine_maps 0 c st) (foldl (λ st p, unquarantine_maps p 0 st) st ps) cs.

Lemma unquarantine_all_keys ps cs st :
  pid_keys (unquarantine_all ps cs st) = pid_keys st ∖ pids_keys ps /\
  cg_keys (unquarantine_all ps cs st) = cg_keys st ∖ cgs_keys cs.
Proof.
  assert (forall x st, pid_keys (unquarantine_maps 0 x st) = pid_keys st) as Hp
    by (intros x st'; destruct (unquarantine_keys 0 x st') as [-> _]; unfold pid_key; set_solver).
  assert (forall x st, cg_keys (unquarantine_maps x 0 st) = cg_keys st) as Hc
    by (intros x st'; destruct (unquarantine_keys x 0 st') as [_ ->]; unfold cg_key; set_solver).
  unfold unquarantine_all. split.
  - rewrite (foldl_same (λ x st, unquarantine_maps 0 x st) pid_keys cs) by done.
    apply (foldl_keys_minus (λ x st, unquarantine_maps x 0 st) pid_keys pid_key). intros. apply unquarantine_keys.
  - rewrite (foldl_keys_minus (λ x st, unquarantine_maps 0 x st) cg_keys cg_key) by (intros; apply unquarantine_keys).
    by rewrite (foldl_same (λ x st, unquarantine_maps x 0 st) cg_keys ps).
Qed.

Lemma unquarantine_maps_ok pid cg st : blocklists_ok st -> blocklists_ok (unquarantine_maps pid cg st).
Proof.
  unfold blocklists_ok, unquarantine_maps, delete_maps. intros [Hp Hc].
  destruct (0 <? pid), (negb (cg =? 0)); cbn; split; first [done|by apply map_Forall_delete].
Qed.

Lemma each_unquarantine (f : Z -> LoaderMaps.M unit) (g : Z -> kmaps -> kmaps) xs l :
  all_loaded l -> lsmLink l = true ->
  (forall x l, all_loaded l -> lsmLink l = true -> f x l = (Ret tt, with_maps (g x (maps l)) l)) ->
  each f xs l = (Ret tt, with_maps (foldl (λ st x, g x st) (maps l) xs) l).
Proof.
  intros Hall Hl Hf. revert l Hall Hl. induction xs as [|x xs IH]; intros l Hall Hl; cbn [each foldl].
  { by rewrite with_maps_id. }
  unfold attempt, mbind, LoaderMaps.M_bind. rewrite Hf by done. by rewrite IH.
Qed.

Lemma UnquarantineWatched_ret ps cs l :
  all_loaded l -> lsmLink l = true ->
  UnquarantineWatched ps cs l = (Ret tt, with_maps (unquarantine_all ps cs (maps l)) l).
Proof.
  intros Hall Hl. unfold UnquarantineWatched, mbind, LoaderMaps.M_bind, LoaderMaps.LSMEnforced. rewrite Hl. cbn [negb].
  rewrite (each_unquarantine _ (λ p st, unquarantine_maps p 0 st)) by (done || intros; by apply Unquarantine_ret).
  by rewrite (each_unquarantine _ (λ c st, unquarantine_maps 0 c st)) by (done || intros; by apply Unquarantine_ret).
Qed.

(** *** User space writes ones *)

(** The operation of the loader leaves blocklists of ones behind. *)
Definition writes_ones {A} (m : LoaderMaps.M A) : Prop := forall l, blocklists_ok (maps l) -> blocklists_ok (maps (m l).2).

Lemma ones_ret {A} (a : A) : writes_ones (mret a).
Proof. by intros l. Qed.

Lemma ones_fail {A} (err : error) : writes_ones (fail (A := A) err).
Proof. by intros l. Qed.

Lemma ones_bind {A B} (m : LoaderMaps.M A) (f : A -> LoaderMaps.M B) :
  writes_ones m -> (forall a, writes_ones (f a)) -> writes_ones (m ≫= f).
Proof.
  intros Hm Hf l Hl. unfold mbind, LoaderMaps.M_bind. specialize (Hm l Hl). destruct (m l) as [[a|err|] l']; [|done..].
  by apply Hf.
Qed.

Lemma ones_attempt m : writes_ones m -> writes_ones (attempt m).
Proof. intros Hm l Hl. unfold attempt. specialize (Hm l Hl). by destruct (m l) as [[]]. Qed.

Lemma ones_put id k v :
  (id = LsmBlocklistPid \/ id = LsmBlocklistCgroup -> v = 1) -> writes_ones (map_put id k v).
Proof.
  intros Hv l Hl. unfold map_put. destruct (objs l id); [|done]. destruct (put_err _ _ _ _); [done|].
  destruct Hl as [Hp Hc]. destruct id; cbn; split; try done; apply map_Forall_insert_2; auto.
Qed.

Lemma ones_delete id k : writes_ones (map_delete id k).
Proof.
  intros l Hl. unfold map_delete. destruct (objs l id); [|done]. destruct (delete_err _ _); [done|].
  destruct Hl as [Hp Hc]. destruct id; cbn; split; try done; by apply map_Forall_delete.
Qed.

Lemma ones_each f xs : (forall x, writes_ones (f x)) -> writes_ones (each f xs).
Proof. intros Hf. induction xs; cbn [each]; [apply ones_ret|]. apply ones_bind; [by apply ones_attempt|done]. Qed.

Lemma ones_collect f xs : (forall x, writes_ones (f x)) -> writes_ones (collect f xs).
Proof.
  intros Hf. induction xs; cbn [collect]; [apply ones_ret|]. apply ones_bind; [by apply ones_attempt|]. intros err.
  apply ones_bind; [done|]. intros. apply ones_ret.
Qed.

Lemma ones_same {A} (m : LoaderMaps.M A) : (forall l, (m l).2 = l) -> writes_ones m.
Proof. intros Hm l Hl. by rewrite Hm. Qed.

Lemma ones_keys id : writes_ones (list_keys id).
Proof.
  apply ones_same. intros l. unfold list_keys, loaded, map_keys, mbind, LoaderMaps.M_bind. cbn.
  destruct (objs l id) eqn:Eo; cbn; [|done]. rewrite Eo. by destruct (iterate _) as [es [err|]].
Qed.

Create HintDb ones.

#[local] Hint Resolve ones_ret ones_fail ones_delete ones_keys : ones.

#[local] Ltac ones := repeat first
  [ progress auto with ones
  | match goal with
    | |- writes_ones (_ ≫= _) => apply ones_bind; [|intros ?]
    | |- writes_ones (attempt _) => apply ones_attempt
    | |- writes_ones (each _ _) => apply ones_each; intros ?
    | |- writes_ones (collect _ _) => apply ones_collect; intros ?
    | |- writes_ones (map_put _ _ _) => apply ones_put; intros [|]; congruence
    | |- writes_ones (match ?x with _ => _ end) => destruct x
    | |- writes_ones (LoaderMaps.LSMEnforced) => by apply ones_same
    | |- writes_ones (loaded _) => by apply ones_same
    end ].

Lemma ones_Quarantine pid cg : writes_ones (LoaderMaps.Quarantine pid cg).
Proof. unfold LoaderMaps.Quarantine, put_when, join. ones. Qed.

Lemma ones_Unquarantine pid cg : writes_ones (Unquarantine pid cg).
Proof. unfold Unquarantine, delete_when. ones. Qed.

#[local] Hint Resolve ones_Quarantine ones_Unquarantine : ones.

Lemma ones_QuarantineAllWatched : writes_ones QuarantineAllWatched.
Proof. unfold QuarantineAllWatched, ListWatched, join. ones. Qed.

Lemma ones_UnquarantineWatched ps cs : writes_ones (UnquarantineWatched ps cs).
Proof. unfold UnquarantineWatched. ones. Qed.

Lemma ones_ListQuarantined : writes_ones ListQuarantined.
Proof. unfold ListQuarantined. ones. Qed.

Lemma ones_ListWatched : writes_ones ListWatched.
Proof. unfold ListWatched. ones. Qed.

Lemma ones_watch pid : writes_ones (AddPID pid) /\ writes_ones (RemovePID pid) /\ writes_ones (AddCgroupID pid) /\ writes_ones (RemoveCgroupID pid).
Proof. unfold AddPID, RemovePID, AddCgroupID, RemoveCgroupID. split_and!; ones. Qed.

(** *** The lists of keys *)

Lemma list_keys_set id l ks l' :
  list_keys id l = (Ret ks, l') -> objs l id = true -> list_to_set ks =@{gset Z} dom (get_map id (maps l)).
Proof.
  intros Hk Hid. apply set_eq. intros k.
  rewrite elem_of_list_to_set, elem_of_dom, (list_keys_elem _ _ _ _ k Hk Hid). done.
Qed.

Lemma ListQuarantined_ret l r l' :
  ListQuarantined l = (Ret r, l') -> all_loaded l ->
  l' = l /\ list_to_set r.1 = pid_keys (maps l) /\ list_to_set r.2 = cg_keys (maps l).
Proof.
  unfold ListQuarantined, mbind, LoaderMaps.M_bind, LoaderMaps.LSMEnforced. intros Hq Hall.
  destruct (lsmLink l); [|done]. cbn [negb] in Hq.
  destruct (list_keys LsmBlocklistPid l) as [[ps| |] l1] eqn:E1; try done.
  destruct (list_keys_ret _ _ _ _ E1 (Hall _)) as [-> _].
  destruct (list_keys LsmBlocklistCgroup l) as [[cs| |] l2] eqn:E2; try done.
  destruct (list_keys_ret _ _ _ _ E2 (Hall _)) as [-> _]. injection Hq as <- <-.
  split_and!; [done|exact (list_keys_set _ _ _ _ E1 (Hall _))|exact (list_keys_set _ _ _ _ E2 (Hall _))].
Qed.

Lemma ListWatched_sets l r l' :
  ListWatched l = (Ret r, l') -> all_loaded l ->
  l' = l /\ list_to_set r.1 =@{gset Z} dom (pid_filter (maps l)) /\ list_to_set r.2 =@{gset Z} dom (cgroup_filter (maps l)).
Proof.
  intros Hw Hall. destruct r as [ps cs]. apply ListWatched_ret in Hw as (-> & E1 & E2); [|done].
  split_and!; [done|exact (list_keys_set _ _ _ _ E1 (Hall _))|exact (list_keys_set _ _ _ _ E2 (Hall _))].
Qed.

Lemma quarantine_all_filters ps cs st :
  pid_filter (quarantine_all ps cs st) = pid_filter st /\ cgroup_filter (quarantine_all ps cs st) = cgroup_filter st.
Proof.
  assert (forall p c st, pid_filter (quarantine_maps p c st) = pid_filter st /\
    cgroup_filter (quarantine_maps p c st) = cgroup_filter st) as Hq.
  { intros p c st'. unfold quarantine_maps, put_maps. by destruct (0 <? p), (negb (c =? 0)). }
  assert (forall (g : Z -> kmaps -> kmaps) xs st, (forall x st, pid_filter (g x st) = pid_filter st /\
    cgroup_filter (g x st) = cgroup_filter st) ->
    pid_filter (foldl (λ st x, g x st) st xs) = pid_filter st /\ cgroup_filter (foldl (λ st x, g x st) st xs) = cgroup_filter st) as Hf.
  { intros g xs. induction xs as [|x xs IH]; intros st' Hg; [done|]. cbn. destruct (Hg x st') as [<- <-]. by apply IH. }
  unfold quarantine_all. destruct (Hf (quarantine_maps 0) cs (foldl (λ st p, quarantine_maps p 0 st) st ps) (Hq 0)) as [-> ->].
  by apply (Hf (λ p st, quarantine_maps p 0 st)).
Qed.

(** The keys of a BPF map whose key type is __u32. *)
Definition keys32 (m : gmap Z Z) : Prop := forall k, k ∈ dom m -> 0 <= k < 2 ^ 32.

Lemma pids_keys_32 (ps : list Z) x :
  (forall p, p ∈ ps -> 0 <= p < 2 ^ 32) -> x ≠ 0 -> x ∈ pids_keys ps <-> x ∈ ps.
Proof.
  intros Hps Hx. unfold pids_keys. rewrite elem_of_union_list. setoid_rewrite list_elem_of_fmap. split.
  - intros (X & (p & -> & Hp) & Hin). unfold pid_key in Hin. destruct (0 <? p); [|set_solver].
    apply elem_of_singleton in Hin. specialize (Hps p Hp). unfold u32 in Hin. rewrite Z.mod_small in Hin by lia. by subst.
  - intros Hp. exists (pid_key x). split; [by exists x|]. unfold pid_key. specialize (Hps x Hp).
    rewrite (proj2 (Z.ltb_lt 0 x)) by lia. unfold u32. rewrite Z.mod_small by lia. set_solver.
Qed.

Lemma cgs_keys_nz (cs : list Z) x : x ≠ 0 -> x ∈ cgs_keys cs <-> x ∈ cs.
Proof.
  intros Hx. unfold cgs_keys. rewrite elem_of_union_list. setoid_rewrite list_elem_of_fmap. split.
  - intros (X & (c & -> & Hc) & Hin). unfold cg_key in Hin. destruct (negb (c =? 0)); [|set_solver].
    apply elem_of_singleton in Hin. by subst.
  - intros Hc. exists (cg_key x). split; [by exists x|]. unfold cg_key. rewrite (proj2 (Z.eqb_neq x 0)) by done. set_solver.
Qed.

(** *** Engaging and clearing *)

Context {W : Type} `{KeyOrder}.
Implicit Types (s : Sensor W).

Lemma engage_ret s s1 :
  all_loaded (loader s) -> failClosedActive s = false -> SetFailClosedActive true s = (Ret tt, s1) ->
  let st := maps (loader s) in
  lsmLink (loader s) = true /\ failClosedActive s1 = true /\
  fcPIDs s1 = dom (pid_filter st) ∖ pid_keys st /\ fcCgroups s1 = dom (cgroup_filter st) ∖ cg_keys st /\
  exists ps cs, list_to_set ps = dom (pid_filter st) /\ list_to_set cs = dom (cgroup_filter st) /\
    loader s1 = with_maps (quarantine_all ps cs st) (loader s).
Proof.
  intros Hall Hact Hs st. unfold SetFailClosedActive, get, mbind, SM_bind, LSMEnforced, on_loader in Hs.
  unfold LoaderMaps.LSMEnforced in Hs. cbn [fst snd] in Hs. rewrite Hact in Hs. cbn [Bool.eqb] in Hs.
  destruct (lsmLink (loader s)) eqn:El; [|done]. cbn [negb loader set_loader] in Hs.
  destruct (ListQuarantined (loader s)) as [[already| |] l1] eqn:Eq; try done.
  destruct (ListQuarantined_ret _ _ _ Eq Hall) as (-> & Hap & Hac). cbn [loader set_loader] in Hs.
  destruct (QuarantineAllWatched (loader s)) as [[[]| |] l2] eqn:Ea; try done.
  destruct (QuarantineAllWatched_ret _ _ Ea Hall) as (ps & cs & Ep & Ec & ->). cbn [loader set_loader] in Hs.
  destruct (ListWatched _) as [[watched| |] l3] eqn:Ew; try done.
  destruct (ListWatched_sets _ _ _ Ew Hall) as (-> & Hwp & Hwc). cbn [loader set_loader maps with_maps] in Hwp, Hwc.
  destruct (quarantine_all_filters ps cs (maps (loader s))) as [Hfp Hfc].
  unfold modify in Hs. injection Hs as <-. cbn -[dom pid_keys cg_keys].
  split_and!; [done..| | |].
  - by rewrite Hap, Hwp, Hfp.
  - by rewrite Hac, Hwc, Hfc.
  - exists ps, cs. split_and!; [exact (list_keys_set _ _ _ _ Ep (Hall _))|exact (list_keys_set _ _ _ _ Ec (Hall _))|done].
Qed.

Lemma clear_ret s :
  all_loaded (loader s) -> lsmLink (loader s) = true -> failClosedActive s = true ->
  exists ps cs s', list_to_set ps = fcPIDs s /\ list_to_set cs = fcCgroups s /\
    SetFailClosedActive false s = (Ret tt, s') /\ failClosedActive s' = false /\ fcPIDs s' = ∅ /\ fcCgroups s' = ∅ /\
    loader s' = with_maps (unquarantine_all ps cs (maps (loader s))) (loader s).
Proof.
  intros Hall Hl Hact. unfold SetFailClosedActive, get, keys_of, in_order, mbind, SM_bind. cbn [fst snd mret SM_ret].
  rewrite Hact. cbn [Bool.eqb]. cbn [fst snd reads set_reads].
  assert (forall n (x : gset Z), list_to_set (key_order n (map_to_list (gset_to_gmap tt x))).*1 = x) as Hord.
  { intros n x. apply set_eq. intros k. rewrite elem_of_list_to_set, key_order_perm, list_elem_of_fmap. split.
    - intros ([k' []] & -> & Hk). rewrite elem_of_map_to_list, lookup_gset_to_gmap_Some in Hk. apply Hk.
    - intros Hk. exists (k, tt). rewrite elem_of_map_to_list, lookup_gset_to_gmap_Some. done. }
  eexists _, _, _. split; [apply (Hord (reads s))|]. split; [apply (Hord (S (reads s)))|].
  unfold sattempt, on_loader. cbn [loader set_reads]. rewrite UnquarantineWatched_ret by done. cbn [modify].
  split; [reflexivity|]. done.
Qed.

Lemma bind_inv {A B} (m : SM A) (f : A -> SM B) s b s' :
  (m ≫= f) s = (Ret b, s') -> exists a s1, m s = (Ret a, s1) /\ f a s1 = (Ret b, s').
Proof. unfold mbind, SM_bind. destruct (m s) as [[a|e|] s1]; try done. by exists a, s1. Qed.

Lemma sensor_quarantine_ret cg pid s s' :
  Quarantine cg pid s = (Ret tt, s') -> s' = set_loader (with_maps (quarantine_maps pid cg (maps (loader s))) (loader s)) s.
Proof.
  unfold Quarantine, LSMEnforced, LoaderMaps.LSMEnforced. intros (b & s1 & [= <- <-] & Hq)%bind_inv.
  destruct (lsmLink (loader s)); [|done]. cbn [negb] in Hq. unfold on_loader in Hq. cbn [loader set_loader] in Hq.
  destruct (LoaderMaps.Quarantine pid cg (loader s)) as [[[]| |] l'] eqn:Eq; try done.
  apply Quarantine_ret in Eq as [_ ->]. by injection Hq as <-.
Qed.

Lemma quarantines_ret qs s s' :
  for_each (λ q : Z * Z, Quarantine q.1 q.2) qs s = (Ret tt, s') ->
  s' = set_loader (with_maps (foldl (λ st q, quarantine_maps q.2 q.1 st) (maps (loader s)) qs) (loader s)) s.
Proof.
  revert s. induction qs as [|[cg pid] qs IH]; intros s; cbn [for_each foldl fst snd].
  { intros [= <-]. rewrite with_maps_id. by destruct s. }
  intros ([] & s1 & ->%sensor_quarantine_ret & ->%IH)%bind_inv. done.
Qed.

End failclosed.

(** The two halves of an existential over quarantines. *)
Lemma exists_split (I P Q : Z * Z -> Prop) (W1 W2 K1 K2 : Prop) :
  {K1} + {~ K1} -> {K2} + {~ K2} -> {W1} + {~ W1} -> {W2} + {~ W2} ->
  ((exists cg pid, I (cg, pid) /\ P (cg, pid)) \/ W1 \/ K1) /\ ~ (W1 /\ ~ K1) \/
  ((exists cg pid, I (cg, pid) /\ Q (cg, pid)) \/ W2 \/ K2) /\ ~ (W2 /\ ~ K2) <->
  (K1 \/ K2) \/ exists cg pid, I (cg, pid) /\ (P (cg, pid) /\ ~ (W1 /\ ~ K1) \/ Q (cg, pid) /\ ~ (W2 /\ ~ K2)).
Proof.
  intros D1 D2 D3 D4.
  assert ((exists cg pid, I (cg, pid) /\ (P (cg, pid) /\ ~ (W1 /\ ~ K1) \/ Q (cg, pid) /\ ~ (W2 /\ ~ K2))) <->
    (exists cg pid, I (cg, pid) /\ P (cg, pid)) /\ ~ (W1 /\ ~ K1) \/ (exists cg pid, I (cg, pid) /\ Q (cg, pid)) /\ ~ (W2 /\ ~ K2))
    as -> by firstorder.
  generalize (exists cg pid, I (cg, pid) /\ P (cg, pid)) (exists cg pid, I (cg, pid) /\ Q (cg, pid)). intros X Y.
  destruct D1, D2, D3, D4; tauto.
Qed.

(** C17: clearing fail-closed gives back exactly what engaging it took. Engage it on a sensor
    where it is off, let any successful quarantines follow, and clear it: the clear succeeds,
    nothing stays owned, and the LSM hook denies the connects of a task exactly when it denied
    them before, or when one of the quarantines names its PID or its cgroup and fail-closed did
    not own that entry. *)
Theorem fail_closed_clears_exactly {W U : Type} `{BpfMapOk} `{KeyOrder} `{Helpers U} (s s1 s2 : Sensor W)
    (quarantines : list (Z * Z)) (tk : task) :
  let st := maps (loader s) in
  let s3 := (SetFailClosedActive false s2).2 in
  all_loaded (loader s) -> blocklists_ok st -> keys32 (pid_filter st) -> failClosedActive s = false ->
  cur_pid tk ≠ 0 -> cgroup_id tk ≠ 0 ->
  SetFailClosedActive true s = (Ret tt, s1) ->
  for_each (λ q, Quarantine q.1 q.2) quarantines s1 = (Ret tt, s2) ->
  (SetFailClosedActive false s2).1 = Ret tt /\ failClosedActive s3 = false /\ fcPIDs s3 = ∅ /\ fcCgroups s3 = ∅ /\
  (verdict tk (maps (loader s3)) = - EPERM <->
    verdict tk st = - EPERM \/
    exists cg pid, (cg, pid) ∈ quarantines /\
      (cur_pid tk ∈ pid_key pid /\ cur_pid tk ∉ fcPIDs s1 \/ cgroup_id tk ∈ cg_key cg /\ cgroup_id tk ∉ fcCgroups s1)).
Proof.
  intros st s3 Hall Hok H32 Hact Hpid Hcg He Hq.
  destruct (engage_ret s s1 Hall Hact He) as (Hl & Hact1 & Hfp & Hfc & ps & cs & Hps & Hcs & Hl1).
  apply quarantines_ret in Hq. rewrite Hl1 in Hq. cbn [maps with_maps] in Hq. fold st in Hps, Hcs, Hfp, Hfc, Hq.
  set (st2 := foldl _ _ quarantines) in Hq.
  destruct (clear_ret s2) as (ps' & cs' & s' & Hps' & Hcs' & Es & Ha3 & Hp3 & Hc3 & Hl3); [by rewrite Hq..|].
  unfold s3. rewrite Es. cbn [fst snd]. split_and!; [done..|].
  rewrite Hq in Hps', Hcs', Hl3. cbn [loader set_loader fcPIDs fcCgroups maps with_maps] in Hps', Hcs', Hl3.
  assert (Hok2 : blocklists_ok st2).
  { unfold st2. clear -Hok. assert (blocklists_ok (quarantine_all ps cs st)) as Hb by by apply quarantine_all_ok.
    revert Hb. generalize (quarantine_all ps cs st). induction quarantines as [|q qs IH]; intros x Hb; [done|].
    cbn. apply IH. by apply quarantine_maps_ok. }
  assert (blocklists_ok (unquarantine_all ps' cs' st2)) as Hok3.
  { unfold unquarantine_all. repeat (apply foldl_ok; [by intros; apply unquarantine_maps_ok|]). done. }
  rewrite Hl3. cbn [maps with_maps]. rewrite !verdict_blocked by done.
  assert (forall b : bool, (if b then - EPERM else 0) = - EPERM <-> b = true) as Hif by (by intros []).
  rewrite !Hif, !blocked_keys, !orb_true_iff, !bool_decide_eq_true.
  destruct (unquarantine_all_keys ps' cs' st2) as [-> ->].
  assert (forall x, x ∈ pid_keys st2 <-> (exists cg pid, (cg, pid) ∈ quarantines /\ x ∈ pid_key pid) \/
            x ∈ pids_keys ps \/ x ∈ pid_keys st) as Hk2.
  { intros x. unfold st2. destruct (quarantine_all_keys ps cs st) as [Hk _]. rewrite <- elem_of_union, <- Hk.
    generalize (quarantine_all ps cs st). clear. induction quarantines as [|[cg pid] qs IH]; intros m; cbn.
    { split; [by right|]. intros [(? & ? & []%not_elem_of_nil & _)|]; done. }
    rewrite IH. destruct (quarantine_keys pid cg m) as [-> _]. rewrite elem_of_union. setoid_rewrite elem_of_cons. naive_solver. }
  assert (forall x, x ∈ cg_keys st2 <-> (exists cg pid, (cg, pid) ∈ quarantines /\ x ∈ cg_key cg) \/
            x ∈ cgs_keys cs \/ x ∈ cg_keys st) as Hc2.
  { intros x. unfold st2. destruct (quarantine_all_keys ps cs st) as [_ Hk]. rewrite <- elem_of_union, <- Hk.
    generalize (quarantine_all ps cs st). clear. induction quarantines as [|[cg pid] qs IH]; intros m; cbn.
    { split; [by right|]. intros [(? & ? & []%not_elem_of_nil & _)|]; done. }
    rewrite IH. destruct (quarantine_keys pid cg m) as [_ ->]. rewrite elem_of_union. setoid_rewrite elem_of_cons. naive_solver. }
  rewrite !elem_of_difference, Hk2, Hc2.
  assert (forall x, x ∈ ps <-> x ∈ dom (pid_filter st)) as Eps by (intros x; by rewrite <- Hps, elem_of_list_to_set).
  assert (forall x, x ∈ cs <-> x ∈ dom (cgroup_filter st)) as Ecs by (intros x; by rewrite <- Hcs, elem_of_list_to_set).
  assert (forall x, x ∈ ps' <-> x ∈ fcPIDs s1) as Eps' by (intros x; by rewrite <- Hps', elem_of_list_to_set).
  assert (forall x, x ∈ cs' <-> x ∈ fcCgroups s1) as Ecs' by (intros x; by rewrite <- Hcs', elem_of_list_to_set).
  rewrite (pids_keys_32 ps), (pids_keys_32 ps'), (cgs_keys_nz cs), (cgs_keys_nz cs'), Eps, Ecs, Eps', Ecs'; try done.
  - rewrite Hfp, Hfc. setoid_rewrite elem_of_difference.
    apply (exists_split (λ q, q ∈ quarantines) (λ q, cur_pid tk ∈ pid_key q.2) (λ q, cgroup_id tk ∈ cg_key q.1)); apply decide, _.
  - intros p Hp. rewrite Eps', Hfp in Hp. apply H32. set_solver.
  - intros p Hp. apply H32. by rewrite <- Eps.
Qed.

(** ** On a concrete sensor *)

Section demo.

#[local] Existing Instance bounded_maps.
#[local] Existing Instance bounded_maps_ok.
#[local] Instance demo_helpers : Helpers (gmap Z byte) := concrete_helpers 3.

Definition idle_sensor : Sensor unit := NewSensor demo_loader [] [] tt.
Definition engaged_sensor : Sensor unit := (SetFailClosedActive true idle_sensor).2.

Lemma demo_keys32 : keys32 (pid_filter (maps demo_loader)).
Proof.
  intros k. cbn [pid_filter maps demo_loader]. rewrite dom_insert_L, dom_singleton_L, elem_of_union, !elem_of_singleton. lia.
Qed.

(** Process 9 was quarantined before, 5 is quarantined while fail-closed is engaged; both
    stay denied, the watched 77 is free again. *)
Example fail_closed_clears_exactly_witness :
  let s2 := (for_each (λ q, Quarantine q.1 q.2) [(0, 5)] engaged_sensor).2 in
  let s3 := (SetFailClosedActive false s2).2 in
  verdict (demo_tk 77 4242) (maps (loader engaged_sensor)) = - EPERM /\
  verdict (demo_tk 5 1) (maps (loader s3)) = - EPERM /\ verdict (demo_tk 77 4242) (maps (loader s3)) ≠ - EPERM.
Proof.
  cbv zeta. split; [vm_compute; reflexivity|].
  pose proof (λ tk, fail_closed_clears_exactly idle_sensor engaged_sensor
    (for_each (λ q, Quarantine q.1 q.2) [(0, 5)] engaged_sensor).2 [(0, 5)] tk (λ _, eq_refl) demo_blocklists_ok
    demo_keys32 eq_refl) as Hx. split.
  - destruct (Hx (demo_tk 5 1)) as (_ & _ & _ & _ & Hv); [vm_compute; discriminate..|reflexivity|reflexivity|].
    apply Hv. right. exists 0, 5. split; [by left|]. left. split; refine (bool_decide_unpack _ _); vm_compute; exact I.
  - destruct (Hx (demo_tk 77 4242)) as (_ & _ & _ & _ & Hv); [vm_compute; discriminate..|reflexivity|reflexivity|].
    rewrite Hv. intros [E|(cg & pid & Hin & Hc)]; [vm_compute in E; discriminate E|].
    apply elem_of_cons in Hin as [[= -> ->]|Hin]; [|by apply elem_of_nil in Hin].
    destruct Hc as [[Hc _]|[Hc _]]; revert Hc; refine (bool_decide_unpack (_ ∉ _) _); vm_compute; exact I.
Defined.

(** A quarantine made while fail-closed is engaged, of a process it owns, is lifted with it. *)
Example exfil_block_lifted :
  let s2 := (Quarantine 0 77 engaged_sensor).2 in
  (Quarantine 0 77 engaged_sensor).1 = Ret tt /\
  verdict (demo_tk 77 1) (maps (loader s2)) = - EPERM /\
  verdict (demo_tk 77 1) (maps (loader (SetFailClosedActive false s2).2)) = 0.
Proof. cbv zeta. split; [vm_compute; reflexivity|]. split; vm_compute; reflexivity. Qed.

(** A process that is already quarantined and joins the watched set while fail-closed is
    engaged becomes owned, and is released with it. *)
Example readded_block_lifted :
  let s2 := (AddPIDs [9] engaged_sensor).2 in
  verdict (demo_tk 9 1) (maps (loader idle_sensor)) = - EPERM /\ 9 ∈ fcPIDs s2 /\
  verdict (demo_tk 9 1) (maps (loader (SetFailClosedActive false s2).2)) = 0.
Proof.
  cbv zeta. split; [vm_compute; reflexivity|].
  split; [refine (bool_decide_unpack _ _); vm_compute; exact I|vm_compute; reflexivity].
Qed.

End demo.
