(* ===== verification/Attribution.v ===== *)
(** * internal/proxy/pid_registry.go and internal/k8s/attribution.go

    Which session a kernel event belongs to: the proxy's registry of its children, and the
    sensor's registry of pods by process and by cgroup.  A process is keyed by its PID and
    its start time, since PIDs are reused.  [alive] is what [syscall.Kill(pid, 0)] answers
    when a lookup runs. *)

From S2P Require Import Prelude GoStrings Model.

(** PID and StartTimeNs. *)
Abbreviation ProcessKey := (Z * Z)%type.

(** ** What the two registries share *)

Section shared.

Context {A : Type}.
Implicit Types (entries : gmap ProcessKey A) (byPID : gmap Z (list ProcessKey)) (keys : list ProcessKey).

(** The keys of [keys] that are not [key], nil deleting the PID. *)
Definition filterPIDKeys (key : ProcessKey) byPID : gmap Z (list ProcessKey) :=
  match filter (λ k, k ≠ key) (default [] (byPID !! key.1)) with
  | [] => delete key.1 byPID
  | filtered => <[key.1 := filtered]> byPID
  end.

(** The loop of Lookup over the keys of a PID. *)
Fixpoint pick (live : bool) (fallback : option A) entries keys : option A :=
  match keys with
  | [] => fallback
  | key :: keys =>
      match entries !! key with
      | None => pick live fallback entries keys
      | Some e => if live then Some e else pick live (match fallback with None => Some e | _ => fallback end) entries keys
      end
  end.

Definition lookup_pid (alive : Z -> bool) (pid : Z) entries byPID : option A :=
  pick (alive pid) None entries (default [] (byPID !! pid)).

Definition append_key (key : ProcessKey) byPID : gmap Z (list ProcessKey) :=
  <[key.1 := default [] (byPID !! key.1) ++ [key]]> byPID.

(** Every entry is listed under its PID, and nothing else is. *)
Definition indexed entries byPID : Prop :=
  forall key pid, (key ∈ default [] (byPID !! pid)) <-> key.1 = pid /\ is_Some (entries !! key).

Lemma indexed_empty : indexed ∅ ∅.
Proof. intros key pid. rewrite !lookup_empty. cbn. split; [by intros ?%not_elem_of_nil|]. by intros [_ [? [=]]]. Qed.

Lemma filterPIDKeys_elem key byPID k pid :
  k ∈ default [] (filterPIDKeys key byPID !! pid) <->
  k ∈ default [] (byPID !! pid) /\ (pid = key.1 -> k ≠ key).
Proof.
  assert (forall k, k ∈ filter (λ k, k ≠ key) (default [] (byPID !! key.1)) <->
    k ∈ default [] (byPID !! key.1) /\ k ≠ key) as Hf by (intros; rewrite list_elem_of_filter; tauto).
  unfold filterPIDKeys. destruct (decide (pid = key.1)) as [->|Hne].
  - specialize (Hf k). destruct (filter _ _) as [|k0 l] eqn:E.
    + rewrite lookup_delete_eq. cbn. rewrite Hf. naive_solver.
    + rewrite lookup_insert_eq. cbn [from_option id]. rewrite Hf. naive_solver.
  - destruct (filter _ _) as [|k0 l]; [rewrite lookup_delete_ne by done|rewrite lookup_insert_ne by done]; naive_solver.
Qed.

Lemma indexed_delete key entries byPID :
  indexed entries byPID -> indexed (delete key entries) (filterPIDKeys key byPID).
Proof.
  intros Hi k pid. rewrite filterPIDKeys_elem, (Hi k pid), lookup_delete_is_Some.
  split; [|naive_solver]. intros [[<- Hs] Hk]. split_and!; [done| |done]. intros <-. by apply Hk.
Qed.

Lemma indexed_append key e entries byPID :
  indexed entries byPID -> indexed (<[key := e]> entries) (append_key key byPID).
Proof.
  intros Hi k pid. unfold append_key. rewrite lookup_insert_is_Some. destruct (decide (pid = key.1)) as [->|Hne].
  - rewrite lookup_insert_eq. cbn [from_option id]. rewrite elem_of_app, (Hi k), list_elem_of_singleton.
    split; [|destruct (decide (key = k)); naive_solver]. intros [[? ?]| ->]; [|by split; [|left]].
    split; [done|]. destruct (decide (key = k)); [by left|by right].
  - rewrite lookup_insert_ne, (Hi k) by done. split; [|naive_solver].
    intros [<- Hs]. split; [done|]. right. split; [congruence|done].
Qed.

Lemma indexed_insert key e entries byPID :
  is_Some (entries !! key) -> indexed entries byPID -> indexed (<[key := e]> entries) byPID.
Proof.
  intros Hs Hi k pid. rewrite (Hi k pid), lookup_insert_is_Some.
  destruct (decide (key = k)) as [<-|]; naive_solver.
Qed.

Lemma pick_spec live fallback entries keys :
  match pick live fallback entries keys with
  | Some e => fallback = Some e \/ exists key, key ∈ keys /\ entries !! key = Some e
  | None => fallback = None /\ forall key, key ∈ keys -> entries !! key = None
  end.
Proof.
  revert fallback. induction keys as [|key keys IH]; intros fallback; cbn [pick].
  { destruct fallback; [by left|]. split; [done|]. by intros ? ?%not_elem_of_nil. }
  destruct (entries !! key) as [e|] eqn:E.
  - destruct live; [right; exists key; split; [left|done]|].
    specialize (IH (match fallback with None => Some e | _ => fallback end)).
    destruct (pick _ _ entries keys) as [e'|].
    + destruct IH as [IH|(k & Hk & He)]; [|right; exists k; split; [by right|done]].
      destruct fallback; [by left|]. injection IH as <-. right. exists key. split; [left|done].
    + destruct IH as [IH _]. by destruct fallback.
  - specialize (IH fallback). destruct (pick _ _ entries keys) as [e'|].
    + destruct IH as [IH|(k & Hk & He)]; [by left|right; exists k; split; [by right|done]].
    + destruct IH as [IH Hk]. split; [done|]. intros k [->|?]%elem_of_cons; auto.
Qed.

(** A lookup answers an entry of that PID, and fails only when there is none. *)
Lemma lookup_pid_spec alive pid entries byPID :
  indexed entries byPID ->
  match lookup_pid alive pid entries byPID with
  | Some e => exists key, key.1 = pid /\ entries !! key = Some e
  | None => forall key, key.1 = pid -> entries !! key = None
  end.
Proof.
  intros Hi. unfold lookup_pid. pose proof (pick_spec (alive pid) None entries (default [] (byPID !! pid))) as Hp.
  destruct (pick _ _ _ _) as [e|].
  - destruct Hp as [[=]|(key & Hk & He)]. exists key. by apply Hi in Hk as [? _].
  - destruct Hp as [_ Hp]. intros key Hk. destruct (entries !! key) eqn:E; [|done].
    rewrite <- E. apply Hp, Hi. by split; [|eexists].
Qed.

End shared.

(** ** The proxy's registry *)

Record PIDEntry := { peSessionID : bytes; peServerID : bytes }.

Record PIDRegistry := { rEntries : gmap ProcessKey PIDEntry; rByPID : gmap Z (list ProcessKey) }.

Definition NewPIDRegistry : PIDRegistry := {| rEntries := ∅; rByPID := ∅ |}.

Definition Register (pid startTimeNs : Z) (sessionID serverID : bytes) (r : PIDRegistry) : PIDRegistry :=
  let key := (pid, startTimeNs) in
  {| rEntries := <[key := {| peSessionID := sessionID; peServerID := serverID |}]> (rEntries r);
     rByPID := append_key key (rByPID r) |}.

Definition Unregister (pid startTimeNs : Z) (r : PIDRegistry) : PIDRegistry :=
  let key := (pid, startTimeNs) in
  {| rEntries := delete key (rEntries r); rByPID := filterPIDKeys key (rByPID r) |}.

Definition PIDLookup (alive : Z -> bool) (pid : Z) (r : PIDRegistry) : option PIDEntry :=
  lookup_pid alive pid (rEntries r) (rByPID r).

(** ** The sensor's registry *)

Record PodInfo := { piUID : bytes; piNamespace : bytes; piName : bytes; piNodeName : bytes }.

Definition SessionIDForPod (podUID : bytes) : bytes := gostr "k8s:" ++ podUID.

Record Attribution := { aSessionID : bytes; aPod : PodContext; aContainerID : bytes }.

Record PodAttribution := {
  aEntries : gmap ProcessKey Attribution;
  aByPID : gmap Z (list ProcessKey);
  aByPod : gmap bytes (list ProcessKey);
  aByCgroup : gmap Z bytes;
  aPodInfo : gmap bytes PodInfo
}.

Definition NewPodAttribution : PodAttribution :=
  {| aEntries := ∅; aByPID := ∅; aByPod := ∅; aByCgroup := ∅; aPodInfo := ∅ |}.

Definition pod_context (info : PodInfo) : PodContext := {|
  Namespace := piNamespace info; PodName := piName info; PodUID := piUID info; NodeName := piNodeName info |}.

Definition appendUnique (pids : list Z) (pid : Z) : list Z :=
  if existsb (Z.eqb pid) pids then pids else pids ++ [pid].

(** The entries, their index and a list of PIDs, as the loops update them. *)
Definition index : Type := gmap ProcessKey Attribution * gmap Z (list ProcessKey) * list Z.

Definition drop_key (x : index) (key : ProcessKey) : index :=
  let '(entries, byPID, pids) := x in (delete key entries, filterPIDKeys key byPID, appendUnique pids key.1).

Definition UnregisterPod (podUID : bytes) (r : PodAttribution) : list Z * PodAttribution :=
  let '(entries, byPID, pids) := foldl drop_key (aEntries r, aByPID r, []) (default [] (aByPod r !! podUID)) in
  (pids, {| aEntries := entries; aByPID := byPID; aByPod := delete podUID (aByPod r);
            aByCgroup := aByCgroup r; aPodInfo := aPodInfo r |}).

Definition put_key (e : Attribution) (x : index) (key : ProcessKey) : index :=
  let '(entries, byPID, added) := x in
  match entries !! key with
  | Some _ => (<[key := e]> entries, byPID, added)
  | None => (<[key := e]> entries, append_key key byPID, appendUnique added key.1)
  end.

Definition SyncPod (pod : PodInfo) (containerID : bytes) (keys : list ProcessKey) (r : PodAttribution)
    : list Z * list Z * PodAttribution :=
  let oldKeys := default [] (aByPod r !! piUID pod) in
  let '(entries, byPID, removed) := foldl drop_key (aEntries r, aByPID r, []) (filter (λ k, k ∉ keys) oldKeys) in
  let e := {| aSessionID := SessionIDForPod (piUID pod); aPod := pod_context pod; aContainerID := containerID |} in
  let '(entries, byPID, added) := foldl (put_key e) (entries, byPID, []) keys in
  let byPod := match keys with [] => delete (piUID pod) (aByPod r) | _ => <[piUID pod := keys]> (aByPod r) end in
  (added, removed, {| aEntries := entries; aByPID := byPID; aByPod := byPod; aByCgroup := aByCgroup r;
                      aPodInfo := aPodInfo r |}).

Definition LookupByCgroup (cgroupID : Z) (r : PodAttribution) : option Attribution :=
  uid ← aByCgroup r !! cgroupID;
  info ← aPodInfo r !! uid;
  Some {| aSessionID := SessionIDForPod (piUID info); aPod := pod_context info; aContainerID := [] |}.

Definition NodePIDsForCgroup (cgroupID : Z) (r : PodAttribution) : list Z :=
  match aByCgroup r !! cgroupID with
  | None => []
  | Some uid => foldl (λ out k, appendUnique out k.1) [] (default [] (aByPod r !! uid))
  end.

(** The old cgroups of the pod are dropped; deleting while iterating leaves no trace of the order. *)
Definition SetPodCgroups (pod : PodInfo) (cgroupIDs : list Z) (r : PodAttribution) : PodAttribution := {|
  aEntries := aEntries r; aByPID := aByPID r; aByPod := aByPod r;
  aByCgroup := foldl (λ m id, if id =? 0 then m else <[id := piUID pod]> m)
                 (filter (λ kv, kv.2 ≠ piUID pod) (aByCgroup r)) cgroupIDs;
  aPodInfo := <[piUID pod := pod]> (aPodInfo r) |}.

Definition PodLookup (alive : Z -> bool) (pid : Z) (r : PodAttribution) : option Attribution :=
  lookup_pid alive pid (aEntries r) (aByPID r).

(** ** Attribution is sound *)

(** The calls on the registry. *)
Inductive pod_call :=
  | CallSyncPod (pod : PodInfo) (containerID : bytes) (keys : list ProcessKey)
  | CallUnregisterPod (podUID : bytes)
  | CallSetPodCgroups (pod : PodInfo) (cgroupIDs : list Z).

Definition perform_pod (c : pod_call) (r : PodAttribution) : PodAttribution :=
  match c with
  | CallSyncPod pod cid keys => (SyncPod pod cid keys r).2
  | CallUnregisterPod uid => (UnregisterPod uid r).2
  | CallSetPodCgroups pod ids => SetPodCgroups pod ids r
  end.

(** The registry after the calls [cs]. *)
Definition pods_after (cs : list pod_call) : PodAttribution := foldl (λ r c, perform_pod c r) NewPodAttribution cs.

(** An attribution names the session of the pod it describes. *)
Definition names_pod (a : Attribution) : Prop := aSessionID a = SessionIDForPod (PodUID (aPod a)).

Definition pods_ok (r : PodAttribution) : Prop :=
  indexed (aEntries r) (aByPID r) /\ map_Forall (λ _ a, names_pod a) (aEntries r) /\
  map_Forall (λ uid info, piUID info = uid) (aPodInfo r).

Definition index_ok (x : index) : Prop := indexed x.1.1 x.1.2 /\ map_Forall (λ _ a, names_pod a) x.1.1.

Lemma drop_keys_ok keys x : index_ok x -> index_ok (foldl drop_key x keys).
Proof.
  revert x. induction keys as [|key keys IH]; intros x Hx; [done|]. cbn. apply IH. destruct x as [[entries byPID] pids], Hx as [Hi Hn].
  split; [by apply indexed_delete|by apply map_Forall_delete].
Qed.

Lemma put_keys_ok e keys x : names_pod e -> index_ok x -> index_ok (foldl (put_key e) x keys).
Proof.
  intros He. revert x. induction keys as [|key keys IH]; intros x Hx; [done|]. cbn. apply IH. destruct x as [[entries byPID] pids], Hx as [Hi Hn].
  unfold put_key. cbn [fst snd] in *. destruct (entries !! key) eqn:E.
  - split; [apply indexed_insert; [by eexists|done]|by apply map_Forall_insert_2].
  - split; [by apply indexed_append|by apply map_Forall_insert_2].
Qed.

Lemma perform_pod_ok c r : pods_ok r -> pods_ok (perform_pod c r).
Proof.
  intros (Hi & Hn & Hp). assert (index_ok (aEntries r, aByPID r, [])) as Hx by done. destruct c as [pod cid keys|uid|pod ids]; cbn.
  - unfold SyncPod. apply (drop_keys_ok (filter (λ k, k ∉ keys) (default [] (aByPod r !! piUID pod)))) in Hx.
    destruct (foldl drop_key _ _) as [[entries byPID] removed].
    set (e := {| aSessionID := _ |}). assert (index_ok (entries, byPID, [])) as Hx' by done.
    apply (put_keys_ok e keys) in Hx'; [|done]. destruct (foldl (put_key e) _ _) as [[entries' byPID'] added].
    by destruct Hx'.
  - unfold UnregisterPod. apply (drop_keys_ok (default [] (aByPod r !! uid))) in Hx.
    destruct (foldl drop_key _ _) as [[entries byPID] removed]. by destruct Hx.
  - split_and!; [done..|]. by apply map_Forall_insert_2.
Qed.

Lemma pods_after_ok cs : pods_ok (pods_after cs).
Proof.
  unfold pods_after. assert (pods_ok NewPodAttribution) as Hr.
  { split_and!; [apply indexed_empty|apply map_Forall_empty..]. }
  revert Hr. generalize NewPodAttribution. induction cs as [|c cs IH]; intros r Hr; [done|]. cbn. by apply IH, perform_pod_ok.
Qed.

(** Attribution is sound. In every state of the sensor's registry an attribution, found by
    cgroup or by PID, names the session of the very pod it describes; a PID resolves exactly
    when some registered process has it, and by cgroup the pod is the one last recorded under
    the UID the cgroup belongs to. *)
Theorem attribution_sound (cs : list pod_call) (alive : Z -> bool) (cgroupID pid : Z) :
  let r := pods_after cs in
  (forall a, LookupByCgroup cgroupID r = Some a \/ PodLookup alive pid r = Some a ->
     aSessionID a = SessionIDForPod (PodUID (aPod a))) /\
  (forall a, LookupByCgroup cgroupID r = Some a -> aByCgroup r !! cgroupID = Some (PodUID (aPod a))) /\
  (is_Some (PodLookup alive pid r) <-> exists key, key.1 = pid /\ is_Some (aEntries r !! key)).
Proof.
  intros r. destruct (pods_after_ok cs) as (Hi & Hn & Hp). fold r in Hi, Hn, Hp.
  assert (forall a, LookupByCgroup cgroupID r = Some a ->
    names_pod a /\ aByCgroup r !! cgroupID = Some (PodUID (aPod a))) as Hcg.
  { intros a Ha. unfold LookupByCgroup in Ha. destruct (aByCgroup r !! cgroupID) as [uid|]; [|done]. cbn in Ha.
    destruct (aPodInfo r !! uid) as [info|] eqn:E; [|done]. injection Ha as <-. split; [done|]. cbn. f_equal.
    symmetry. exact (Hp uid info E). }
  pose proof (lookup_pid_spec alive pid _ _ Hi) as Hl. change (lookup_pid _ _ _ _) with (PodLookup alive pid r) in Hl.
  split_and!.
  - intros a [Ha|Ha]; [by apply Hcg|]. rewrite Ha in Hl. destruct Hl as (key & _ & He). exact (Hn key a He).
  - intros a Ha. by apply Hcg.
  - destruct (PodLookup alive pid r) as [a|]; split.
    + intros _. destruct Hl as (key & ? & ?). exists key. split; [done|by eexists].
    + intros _. by eexists.
    + by intros [? [=]].
    + intros (key & Hk & He). rewrite (Hl key Hk) in He. by destruct He.
Qed.
