(* ===== verification/Proc.v ===== *)
(** * internal/k8s: proc.go, cgroup.go, cgroup_id.go, proc_root.go

    What the sensor reads of /proc: which processes belong to a container, in which cgroup a
    process is, and the files of a container under /proc/PID/root.  What the files of the
    node hold is a parameter of the functions; how a path leads to one, symbolic links
    included, is that of path_resolution(7). *)

From S2P Require Import Prelude Go GoTime GoStrings Encodings Json Regex Attribution.

(** ** Strings *)

(** [strings.Split(s, sep)] for one byte *)
Fixpoint Split (s : bytes) (sep : byte) : list bytes :=
  match s with
  | [] => [[]]
  | c :: s =>
      if Byte.eqb c sep then [] :: Split s sep
      else match Split s sep with e :: l => (c :: e) :: l | [] => [[c]] end
  end.

(** [strings.TrimPrefix(s, p)] *)
Definition TrimPrefix (s p : bytes) : bytes := if HasPrefix s p then drop (length p) s else s.

(** [strings.Fields(s)] *)
Definition space_ahead (s : bytes) : bool := negb (bool_decide (skip_spaces space2 space3 s = s)).

Fixpoint next_field (s : bytes) : bytes * bytes :=
  match s with
  | [] => ([], [])
  | c :: s' => if space_ahead s then ([], s) else let '(w, r) := next_field s' in (c :: w, r)
  end.

Fixpoint fields (n : nat) (s : bytes) : list bytes :=
  match n, skip_spaces space2 space3 s with
  | O, _ | _, [] => []
  | S n, s => let '(w, r) := next_field s in w :: fields n r
  end.

Definition Fields (s : bytes) : list bytes := fields (length s) s.

(** ** path/filepath *)

Definition dot : bytes := [x2e].
Definition dotdot : bytes := [x2e; x2e].

(** One element of a path; [out] holds the elements kept so far, the last one first. *)
Definition clean_step (rooted : bool) (out : list bytes) (el : bytes) : list bytes :=
  if bool_decide (el = []) || bool_decide (el = dot) then out
  else if bool_decide (el = dotdot) then
    match out with
    | [] => if rooted then [] else [dotdot]
    | top :: out' => if bool_decide (top = dotdot) then dotdot :: out else out'
    end
  else el :: out.

Definition clean_elems (rooted : bool) (path : bytes) : list bytes := reverse (foldl (clean_step rooted) [] (Split path x2f)).

(** [filepath.Clean(path)] *)
Definition Clean (path : bytes) : bytes :=
  match path with
  | [] => dot
  | x2f :: _ => x2f :: Join (clean_elems true path) [x2f]
  | _ => match clean_elems false path with [] => dot | l => Join l [x2f] end
  end.

(** [filepath.Join(a, b)], [a] not empty *)
Definition PathJoin (a b : bytes) : bytes := Clean (match b with [] => a | _ => a ++ x2f :: b end).

(** ** cgroup.go *)

Definition hex_class : re := Cls (λ r, is_digit_rune r || ((97 <=? r) && (r <=? 102))).
Definition not_hex : re := Cls (λ r, negb (is_digit_rune r || ((97 <=? r) && (r <=? 102)))).
Definition hex64 : re := Cap (times 64 hex_class Eps).

Definition reContainerd : re := Cat (opt (lit "cri-containerd-")) (Cat hex64 (opt (lit ".scope"))).
Definition reCRIO : re := Cat (lit "crio-") hex64.
Definition reDocker : re := Cat (lit "docker-") hex64.
Definition reGeneric64 : re := Cat (Alt Bol not_hex) (Cat hex64 (Alt not_hex Eol)).

Definition matchContainerID (path : bytes) : bytes :=
  match FindSubmatch reCRIO path with Some id => id | None =>
  match FindSubmatch reDocker path with Some id => id | None =>
  match FindSubmatch reContainerd path with Some id => id | None =>
  if Contains path (gostr "kubepods") || Contains path (gostr "pod") then default [] (FindSubmatch reGeneric64 path) else []
  end end end.

Fixpoint extract_id (lines : list bytes) : bytes :=
  match lines with
  | [] => []
  | line :: lines =>
      match TrimSpace line with
      | [] => extract_id lines
      | line =>
          let path := match LastIndex line [x3a] with Some i => drop (S i) line | None => line end in
          match matchContainerID path with [] => extract_id lines | id => id end
      end
  end.

Definition ExtractContainerID (cgroupData : bytes) : bytes := extract_id (Split cgroupData x0a).

Definition NormalizeContainerID (raw : bytes) : bytes :=
  let raw := TrimSpace raw in
  let raw := match Index raw (gostr "://") with Some i => drop (i + 3) raw | None => raw end in
  match FindSubmatch reGeneric64 (x20 :: raw ++ [x20]) with
  | Some id => id
  | None => if (64 <=? length raw)%nat then take 64 raw else raw
  end.

(** ** cgroup_id.go *)

Fixpoint v2_path (lines : list bytes) : bytes :=
  match lines with
  | [] => []
  | line :: lines =>
      match TrimSpace line with
      | [] => v2_path lines
      | line => if HasPrefix line (gostr "0::") then drop 3 line else v2_path lines
      end
  end.

Definition cgroupV2Path (cgroupData : bytes) : bytes := v2_path (Split cgroupData x0a).

Definition proc_path (procRoot : bytes) (pid : Z) (file : bytes) : bytes := procRoot ++ x2f :: Itoa pid ++ x2f :: file.

(** [readFile] is os.ReadFile, [inode] os.Stat with the inode of the answer. *)
Definition CgroupIDFromPID (readFile : bytes -> option bytes) (inode : bytes -> option Z) (pid : Z) (procRoot cgroupRoot : bytes) : option Z :=
  let procRoot := match procRoot with [] => gostr "/proc" | _ => procRoot end in
  let cgroupRoot := match cgroupRoot with [] => gostr "/sys/fs/cgroup" | _ => cgroupRoot end in
  data ← readFile (proc_path procRoot pid (gostr "cgroup"));
  match cgroupV2Path data with
  | [] => None
  | rel => inode (Clean (PathJoin cgroupRoot (TrimPrefix rel [x2f])))
  end.

(** ** proc.go *)

(** An entry of /proc: its name, whether it is a directory, and what reading its cgroup and stat files gives. *)
Record ProcEntry := { peName : bytes; peIsDir : bool; peCgroup : option bytes; peStat : option bytes }.

(** [None] is an error; the slice after the last parenthesis panics when the text ends there. *)
Definition processStartTimeNs (stat : option bytes) : go (option Z) :=
  match stat with
  | None => Ret None
  | Some s =>
      match LastIndex s [x29] with
      | None => Ret None
      | Some closeParen =>
          if (length s <? closeParen + 2)%nat then Panic
          else Ret (field ← Fields (drop (closeParen + 2) s) !! 19%nat; ticks ← ParseUint field; Some (u64 (ticks * u64 (Second / 100))))
      end
  end.

Definition container_matches (containerIDs : list bytes) (id : bytes) : bool :=
  existsb (λ want, bool_decide (want = id) || HasPrefix want id || HasPrefix id want) containerIDs.

(** One entry of the directory; [now] is what the clock shows if it is asked. *)
Definition scan_entry (containerIDs : list bytes) (now : Z) (e : ProcEntry) : go (option ProcessKey) :=
  if negb (peIsDir e) then Ret None else
  match Atoi (peName e), peCgroup e with
  | Some pid, Some data =>
      match ExtractContainerID data with
      | [] => Ret None
      | id =>
          if container_matches containerIDs id then
            start ← processStartTimeNs (peStat e);
            Ret (Some (pid, default (u64 now) start))
          else Ret None
      end
  | _, _ => Ret None
  end.

Fixpoint scan_entries (containerIDs : list bytes) (now : Z) (entries : list ProcEntry) : go (list ProcessKey) :=
  match entries with
  | [] => Ret []
  | e :: entries =>
      key ← scan_entry containerIDs now e;
      keys ← scan_entries containerIDs now entries;
      Ret (option_list key ++ keys)
  end.

(** [dir] is what os.ReadDir answers. *)
Definition PIDsForContainers (containerIDs : list bytes) (now : Z) (dir : option (list ProcEntry)) : go (list ProcessKey) :=
  match containerIDs with
  | [] => Ret []
  | _ => match dir with None => Err (Errorf "read" []) | Some entries => scan_entries containerIDs now entries end
  end.

(** ** Files and the paths to them *)

(** What is at a place: a file, by what one Read of up to [n] bytes of it gives ([None] is an error
    or no byte at all), a directory, or a symbolic link. *)
Inductive inode :=
  | Regular (read : nat -> option bytes)
  | Directory
  | Link (target : bytes).

(** The names from the root to a place, and what is there. /proc/PID/root, which the system resolves to
    the root of the process without looking at a path, is a directory here. *)
Definition files : Type := list bytes -> option inode.

(** The place a path leads to from another: [.] and empty names stay, [..] goes up, a link is
    replaced by its target, which starts at the root of the reader when it is absolute; at most [links] links are followed. *)
Fixpoint follow (links : nat) (fs : files) : list bytes -> list bytes -> option (list bytes) :=
  fix walk (place path : list bytes) {struct path} : option (list bytes) :=
    match path with
    | [] => Some place
    | el :: path =>
        if bool_decide (el = []) || bool_decide (el = dot) then walk place path
        else if bool_decide (el = dotdot) then walk (removelast place) path
        else
          match fs (place ++ [el]), links with
          | Some Directory, _ => walk (place ++ [el]) path
          | Some (Regular _), _ => match path with [] => Some (place ++ [el]) | _ => None end
          | Some (Link target), S links =>
              follow links fs (if HasPrefix target [x2f] then [] else place) (Split target x2f ++ path)
          | Some (Link _), O | None, _ => None
          end
    end.

Definition max_links : nat := 40.

(** [os.Open] of an absolute path, for reading: a directory opens too, reading it is an error. *)
Definition Open (fs : files) (path : bytes) : option (nat -> option bytes) :=
  place ← follow max_links fs [] (Split path x2f);
  match fs place with Some (Regular read) => Some read | _ => None end.

(** ** proc_root.go *)

Definition maxSeedFileBytes : nat := 64 * 1024.

Definition readFileLimited (fs : files) (path : bytes) (max : nat) : option bytes :=
  read ← Open fs path; take max <$> read (S max).

Fixpoint read_roots (fs : files) (nodePIDs : list Z) (cleaned : bytes) : option bytes :=
  match nodePIDs with
  | [] => None
  | pid :: nodePIDs =>
      if pid <=? 0 then read_roots fs nodePIDs cleaned
      else
        match readFileLimited fs (gostr "/proc/" ++ Itoa pid ++ gostr "/root" ++ cleaned) maxSeedFileBytes with
        | Some data => Some data
        | None => read_roots fs nodePIDs cleaned
        end
  end.

Definition rooted (path : bytes) : bytes := if HasPrefix path [x2f] then path else x2f :: path.

(** [None] is the error. *)
Definition ReadContainerFile (fs : files) (nodePIDs : list Z) (path : bytes) : option bytes :=
  match path with
  | [] => None
  | _ =>
      let cleaned := Clean (rooted path) in
      if negb (HasPrefix cleaned [x2f]) || Contains cleaned dotdot then None
      else read_roots fs nodePIDs cleaned
  end.

(** ** Examples *)

Example clean_ex : map (λ p, Clean (gostr p)) ["/a//b/./../c/"; "/../../etc"; "a/../../b"; ""; "/"]%string =
  map (λ s, gostr s) ["/a/c"; "/etc"; "../b"; "."; "/"]%string.
Proof. vm_compute. reflexivity. Qed.

Example stat_ex :
  processStartTimeNs (Some (gostr "7 (a) b) S 1 2 3 4 5 6 7 8 9 10 11 12 13 14 15 16 17 18 4711 20")) = Ret (Some 47110000000).
Proof. vm_compute. reflexivity. Qed.

Example stat_short : processStartTimeNs (Some (gostr "7 (a)")) = Panic.
Proof. vm_compute. reflexivity. Qed.

Definition demo_id : bytes := mjoin (replicate 8 (gostr "0123abcd")).

Example container_ex :
  ExtractContainerID (gostr "0::/kubepods/pod1/cri-containerd-" ++ demo_id ++ gostr ".scope" ++ [x0a]) = demo_id /\
  NormalizeContainerID (gostr "containerd://" ++ demo_id) = demo_id.
Proof. vm_compute. done. Qed.
