(* ===== verification/ProcTheorems.v ===== *)
(** * Theorems about what the sensor reads of /proc *)

From S2P Require Import Prelude Go GoTime GoStrings Encodings Json JsonFacts Regex Attribution Proc.

(** ** Cleaned paths *)

Lemma Split_no_sep s sep e : e ∈ Split s sep -> sep ∉ e.
Proof.
  revert e. induction s as [|c s IH]; cbn; intros e.
  - intros ->%list_elem_of_singleton. apply not_elem_of_nil.
  - destruct (Byte.eqb c sep) eqn:E.
    + intros [->|He]%elem_of_cons; [apply not_elem_of_nil|auto].
    + assert (sep ≠ c) as Hne by (intros ->; rewrite (proj2 (byte_eqb_spec c c) eq_refl) in E; done).
      destruct (Split s sep) as [|e0 l] eqn:El.
      * intros ->%list_elem_of_singleton. rewrite list_elem_of_singleton. done.
      * intros [->|He]%elem_of_cons; [|apply IH; by right]. rewrite not_elem_of_cons. split; [done|]. apply IH. by left.
Qed.

(** An element a rooted path keeps. *)
Record kept (el : bytes) : Prop := {
  kept_some : el ≠ []; kept_dot : el ≠ dot; kept_dotdot : el ≠ dotdot; kept_slash : x2f ∉ el }.

Lemma clean_step_kept out el : Forall kept out -> (x2f ∉ el) -> Forall kept (clean_step true out el).
Proof.
  intros Ho He. unfold clean_step. case_bool_decide as E1; [done|]. case_bool_decide as E2; [done|]. cbn [orb].
  case_bool_decide as E3; [|by repeat constructor]. destruct out as [|top out]; [done|].
  apply Forall_cons in Ho as [Ht Ho]. rewrite bool_decide_eq_false_2; [done|apply Ht].
Qed.

Lemma clean_elems_kept path : Forall kept (clean_elems true path).
Proof.
  unfold clean_elems. apply Forall_reverse. assert (Forall (λ e, x2f ∉ e) (Split path x2f)) as Hs
    by (apply Forall_forall; intros e; apply Split_no_sep).
  assert (Forall kept []) as Ho by constructor. revert Ho Hs. generalize (@nil bytes) as out.
  induction (Split path x2f) as [|el l IH]; intros out Ho; [done|]. intros [He Hl]%Forall_cons. cbn. apply IH; [|done].
  by apply clean_step_kept.
Qed.

(** ** Files of a container *)

(** A name in a directory of the container: no slash and no two dots in a row. *)
Definition plain (el : bytes) : Prop := el ≠ [] /\ el ≠ dot /\ (x2f ∉ el) /\ ~ infix dotdot el.

(** *** The names of the path that is opened *)

Lemma Split_app a b sep : Split (a ++ sep :: b) sep = Split a sep ++ Split b sep.
Proof.
  induction a as [|c a IH]; cbn [app Split].
  - by rewrite (proj2 (byte_eqb_spec sep sep)).
  - destruct (Byte.eqb c sep); [by rewrite IH|]. rewrite IH. destruct (Split a sep) eqn:E; [|done].
    destruct a as [|d a]; cbn in E; [done|]. destruct (Byte.eqb d sep); [done|]. by destruct (Split a sep).
Qed.

Lemma Split_plain a sep : sep ∉ a -> Split a sep = [a].
Proof.
  induction a as [|c a IH]; [done|]. intros [Hne Hn]%not_elem_of_cons. cbn. rewrite IH by done.
  destruct (Byte.eqb c sep) eqn:E; [|done]. by apply byte_eqb_spec in E.
Qed.

Lemma Split_Join els sep : els ≠ [] -> Forall (λ el, sep ∉ el) els -> Split (Join els [sep]) sep = els.
Proof.
  induction els as [|el els IH]; [done|]. intros _ [He Hels]%Forall_cons. destruct els as [|el' els]; [by apply Split_plain|].
  change (Join (el :: el' :: els) [sep]) with (el ++ sep :: Join (el' :: els) [sep]). rewrite Split_app, Split_plain, IH by done. done.
Qed.

(** Where /proc shows the files of a process. *)
Definition root_of (pid : Z) : list bytes := [gostr "proc"; Itoa pid; gostr "root"].

Lemma Itoa_name pid : 0 < pid -> kept (Itoa pid).
Proof.
  intros Hp. destruct (Itoa_digits pid ltac:(lia)) as [Hd _]. rewrite forallb_forall in Hd.
  assert (forall c, digit c = false -> c ∉ Itoa pid) as Hn by (intros c Hc Hin; apply list_elem_of_In, Hd in Hin; congruence).
  constructor; [apply Itoa_nonempty| | |by apply Hn].
  - intros E. apply (Hn x2e eq_refl). rewrite E. by left.
  - intros E. apply (Hn x2e eq_refl). rewrite E. by left.
Qed.

Lemma root_kept pid : 0 < pid -> Forall kept (root_of pid).
Proof.
  intros Hp. unfold root_of. pose proof (Itoa_name pid Hp) as Hn.
  assert (kept (gostr "proc")) by (constructor; [done..|by apply (bool_decide_unpack _)]).
  assert (kept (gostr "root")) by (constructor; [done..|by apply (bool_decide_unpack _)]).
  by do 3 (apply Forall_cons; split; [done|]).
Qed.

Lemma Split_path pid els :
  0 < pid -> Forall (λ el, x2f ∉ el) els ->
  Split (gostr "/proc/" ++ Itoa pid ++ gostr "/root" ++ x2f :: Join els [x2f]) x2f =
    [] :: root_of pid ++ match els with [] => [[]] | _ => els end.
Proof.
  intros Hp He.
  change (gostr "/proc/" ++ Itoa pid ++ gostr "/root" ++ x2f :: Join els [x2f])
    with ([] ++ x2f :: (gostr "proc" ++ x2f :: (Itoa pid ++ x2f :: (gostr "root" ++ x2f :: Join els [x2f])))).
  rewrite !Split_app. rewrite (Split_plain (Itoa pid)) by apply (Itoa_name pid Hp).
  destruct els as [|el els]; [done|]. by rewrite Split_Join.
Qed.

(** *** Following a path without links *)

(** No place on the way from [place] is a link. *)
Definition no_link (fs : files) (place names : list bytes) : Prop :=
  forall loc target, loc `prefix_of` names -> fs (place ++ loc) ≠ Some (Link target).

(** The directories are there. *)
Fixpoint reaches (fs : files) (place path : list bytes) : bool :=
  match path with
  | [] => true
  | [] :: path => reaches fs place path
  | el :: path =>
      match fs (place ++ [el]) with
      | Some Directory => reaches fs (place ++ [el]) path
      | Some (Regular _) => bool_decide (path = [])
      | _ => false
      end
  end.

Definition names (path : list bytes) : list bytes := filter (λ el, el ≠ []) path.

Lemma names_kept els : Forall kept els -> names els = els.
Proof.
  induction 1 as [|el els He _ IH]; [done|]. unfold names in *. rewrite filter_cons_True by apply He. by rewrite IH.
Qed.

Lemma no_link_cons fs place el els : no_link fs place (el :: els) -> no_link fs (place ++ [el]) els.
Proof. intros Hn loc target Hp. rewrite <- app_assoc. apply Hn. by apply prefix_cons. Qed.

Lemma follow_plain links fs place path :
  Forall (λ el, el = [] \/ kept el) path -> no_link fs place (names path) ->
  follow links fs place path = if reaches fs place path then Some (place ++ names path) else None.
Proof.
  intros Hp. revert place. induction Hp as [|el path He _ IH]; intros place Hn.
  { destruct links; cbn; by rewrite app_nil_r. }
  assert (follow links fs place (el :: path) =
    if bool_decide (el = []) || bool_decide (el = dot) then follow links fs place path
    else if bool_decide (el = dotdot) then follow links fs (removelast place) path
    else match fs (place ++ [el]), links with
      | Some Directory, _ => follow links fs (place ++ [el]) path
      | Some (Regular _), _ => match path with [] => Some (place ++ [el]) | _ => None end
      | Some (Link target), S links => follow links fs (if HasPrefix target [x2f] then [] else place) (Split target x2f ++ path)
      | Some (Link _), O | None, _ => None
      end) as -> by (destruct links; reflexivity).
  destruct He as [->|He]; [exact (IH place Hn)|]. destruct He as [H1 H2 H3 _].
  rewrite !bool_decide_eq_false_2 by done. cbn [orb]. unfold names in Hn |- *. rewrite filter_cons_True in Hn |- * by done.
  assert (forall target, fs (place ++ [el]) ≠ Some (Link target)) as Hl by (intros target; apply Hn; by exists (filter (λ el, el ≠ []) path)).
  apply no_link_cons in Hn. destruct el as [|c el]; [done|]. cbn [reaches].
  destruct (fs (place ++ [c :: el])) as [[read| |target]|]; [| |by destruct (Hl target)|done].
  - destruct path; [by rewrite bool_decide_eq_true_2|]. by rewrite bool_decide_eq_false_2.
  - rewrite IH by done. by rewrite <- app_assoc.
Qed.

Lemma reaches_agree fs fs' place path :
  (forall loc, loc `prefix_of` names path -> fs (place ++ loc) = fs' (place ++ loc)) -> reaches fs place path = reaches fs' place path.
Proof.
  revert place. induction path as [|el path IH]; intros place Ha; [done|]. destruct el as [|c el]; [by apply IH|].
  unfold names in Ha. rewrite filter_cons_True in Ha by done. cbn [reaches].
  rewrite (Ha [c :: el]) by (by exists (names path)). rewrite (IH (place ++ [c :: el])); [done|].
  intros loc Hp. rewrite <- app_assoc. apply Ha. by apply prefix_cons.
Qed.

(** *** What is read *)

(** A place that is looked at: on the way to the root of one of the processes, or below it. *)
Definition looked_at (pids : list Z) (place : list bytes) : Prop :=
  exists pid, pid ∈ pids /\ 0 < pid /\ (place `prefix_of` root_of pid \/ root_of pid `prefix_of` place).

(** No place on the way to [els] in one of the containers is a link. *)
Definition unlinked (fs : files) (pids : list Z) (els : list bytes) : Prop :=
  forall pid, pid ∈ pids -> 0 < pid -> no_link fs [] (root_of pid ++ els).

Lemma names_path pid els :
  0 < pid -> Forall kept els -> names (root_of pid ++ match els with [] => [[]] | _ => els end) = root_of pid ++ els.
Proof.
  intros Hp He. pose proof (root_kept pid Hp) as Hr. unfold names. rewrite filter_app. fold (names (root_of pid)).
  rewrite (names_kept _ Hr). f_equal. destruct els as [|el els]; [done|]. by apply names_kept.
Qed.

Lemma Open_spec fs pid els :
  0 < pid -> Forall kept els -> no_link fs [] (root_of pid ++ els) ->
  Open fs (gostr "/proc/" ++ Itoa pid ++ gostr "/root" ++ x2f :: Join els [x2f]) =
    if reaches fs [] (root_of pid ++ match els with [] => [[]] | _ => els end) then
      match fs (root_of pid ++ els) with Some (Regular read) => Some read | _ => None end
    else None.
Proof.
  intros Hp He Hn. unfold Open. rewrite Split_path by (done || (eapply Forall_impl; [exact He|by intros el []])).
  set (path := root_of pid ++ _). pose proof (root_kept pid Hp) as Hr.
  assert (names ([] :: path) = root_of pid ++ els) as En.
  { unfold names. rewrite filter_cons_False by (intros []; done). by apply names_path. }
  rewrite follow_plain.
  - cbn [reaches]. rewrite En. destruct (reaches fs [] path); done.
  - constructor; [by left|]. apply Forall_app. split; [eapply Forall_impl; [exact Hr|by right]|].
    destruct els as [|el els]; [by repeat constructor; left|]. eapply Forall_impl; [exact He|by right].
  - by rewrite En.
Qed.

Lemma Open_agree fs fs' pids pid els :
  pid ∈ pids -> 0 < pid -> Forall kept els -> (forall place, looked_at pids place -> fs place = fs' place) ->
  no_link fs [] (root_of pid ++ els) ->
  Open fs (gostr "/proc/" ++ Itoa pid ++ gostr "/root" ++ x2f :: Join els [x2f]) =
  Open fs' (gostr "/proc/" ++ Itoa pid ++ gostr "/root" ++ x2f :: Join els [x2f]).
Proof.
  intros Hin Hp He Ha Hn.
  assert (forall loc, loc `prefix_of` root_of pid ++ els -> fs loc = fs' loc) as Hloc.
  { intros loc Hl. apply Ha. exists pid. split; [done|]. split; [done|].
    destruct (prefix_weak_total loc (root_of pid) (root_of pid ++ els)) as [?|?]; [done|by apply prefix_app_r|by left|by right]. }
  rewrite (Open_spec fs) by done. rewrite (Open_spec fs'); [|done|done|].
  - rewrite (reaches_agree fs fs'); [by rewrite (Hloc (root_of pid ++ els))|]. intros loc Hl. apply Hloc. etransitivity; [exact Hl|].
    by rewrite names_path.
  - intros loc target Hl E. cbn [app] in E. rewrite <- (Hloc loc Hl) in E. by apply (Hn loc target Hl).
Qed.

Lemma read_roots_agree fs fs' pids nodePIDs els :
  (forall pid, pid ∈ nodePIDs -> pid ∈ pids) -> Forall kept els -> (forall place, looked_at pids place -> fs place = fs' place) ->
  unlinked fs pids els ->
  read_roots fs nodePIDs (x2f :: Join els [x2f]) = read_roots fs' nodePIDs (x2f :: Join els [x2f]).
Proof.
  intros Hsub He Ha Hn. induction nodePIDs as [|pid nodePIDs IH]; [done|]. cbn [read_roots].
  rewrite IH by (intros; apply Hsub; by right). destruct (Z.leb_spec pid 0); [done|]. assert (pid ∈ pids) as Hin by (apply Hsub; by left).
  unfold readFileLimited. by rewrite (Open_agree fs fs' pids pid els) by (done || by apply Hn).
Qed.

Lemma read_roots_some fs nodePIDs els data :
  Forall kept els -> unlinked fs nodePIDs els -> read_roots fs nodePIDs (x2f :: Join els [x2f]) = Some data ->
  exists pid read all, pid ∈ nodePIDs /\ 0 < pid /\ fs (root_of pid ++ els) = Some (Regular read) /\
    read (S maxSeedFileBytes) = Some all /\ data = take maxSeedFileBytes all.
Proof.
  intros He. induction nodePIDs as [|pid nodePIDs IH]; [done|]. intros Hn. cbn [read_roots].
  assert (unlinked fs nodePIDs els) as Hn' by (intros q ?; apply Hn; by right).
  assert (read_roots fs nodePIDs (x2f :: Join els [x2f]) = Some data -> exists pid' read all, pid' ∈ pid :: nodePIDs /\ 0 < pid' /\
    fs (root_of pid' ++ els) = Some (Regular read) /\ read (S maxSeedFileBytes) = Some all /\ data = take maxSeedFileBytes all) as Hrest.
  { intros (q & r & all & ? & ?)%IH; [|done]. exists q, r, all. split; [by right|done]. }
  destruct (Z.leb_spec pid 0) as [|Hp]; [done|]. unfold readFileLimited.
  rewrite Open_spec by (done || (apply Hn; [by left|done])). destruct (reaches _ _ _); [|done].
  destruct (fs (root_of pid ++ els)) as [[read| |]|] eqn:Ef; [|done..]. cbn [mbind option_bind].
  destruct (read (S maxSeedFileBytes)) as [all|] eqn:Er; [|done]. cbn [fmap option_fmap option_map]. intros [= <-].
  exists pid, read, all. split; [by left|done].
Qed.

(** The path that is looked up in each container. *)
Lemma ReadContainerFile_cases nodePIDs path :
  (forall fs, ReadContainerFile fs nodePIDs path = None) \/
  let els := clean_elems true (rooted path) in
  Forall plain els /\ forall fs, ReadContainerFile fs nodePIDs path = read_roots fs nodePIDs (x2f :: Join els [x2f]).
Proof.
  unfold ReadContainerFile. destruct path as [|c0 s]; [by left|]. set (path := c0 :: s).
  assert (exists t, rooted path = x2f :: t) as [t ->].
  { unfold rooted. destruct (HasPrefix path [x2f]) eqn:E; [|by eexists]. apply HasPrefix_spec in E as [t ->]. by exists t. }
  cbn [Clean]. set (els := clean_elems true (x2f :: t)). destruct (Contains (x2f :: Join els [x2f]) dotdot) eqn:E.
  { left. intros. by rewrite orb_true_r. }
  right. split; [|done]. pose proof (clean_elems_kept (x2f :: t)) as Hk. fold els in Hk.
  rewrite Forall_forall in Hk |- *. intros el Hel. destruct (Hk el Hel) as [? ? ? ?]. split_and!; [done..|].
  intros Hi. apply not_true_iff_false in E. apply E, Contains_spec.
  destruct (Join_infix el els [x2f] Hel) as (a & b & ->). destruct Hi as (u & v & ->).
  exists (x2f :: a ++ u), (v ++ b). cbn. by rewrite <- !app_assoc.
Qed.

(** C25: an openat event cannot make the sensor read outside of its container, as long as no symbolic link is on the way.
    Whatever bytes a monitored process passed as the path, let [els] be the names it comes to when it is
    cleaned. If no place on the way to [els] from the root of a container is a symbolic link, then the
    answer depends on nothing but what is at and below /proc/PID/root of the processes given: two nodes that agree there, and on /proc
    and /proc/PID, give the same answer; and what is answered is the first 64 KiB of the file at [els] in one
    of the containers, all names of [els] being plain. *)
Theorem container_reads_confined (fs fs' : files) (nodePIDs : list Z) (path : bytes) :
  let els := clean_elems true (rooted path) in
  (forall place, looked_at nodePIDs place -> fs place = fs' place) -> unlinked fs nodePIDs els ->
  ReadContainerFile fs nodePIDs path = ReadContainerFile fs' nodePIDs path /\
  forall data, ReadContainerFile fs nodePIDs path = Some data ->
    Forall plain els /\
    exists pid read all, pid ∈ nodePIDs /\ 0 < pid /\ fs (root_of pid ++ els) = Some (Regular read) /\
      read (S maxSeedFileBytes) = Some all /\ data = take maxSeedFileBytes all.
Proof.
  intros els Ha Hn. pose proof (clean_elems_kept (rooted path)) as Hk. fold els in Hk.
  destruct (ReadContainerFile_cases nodePIDs path) as [Hc|[He Hc]]; [by rewrite !Hc|]. fold els in He, Hc. rewrite !Hc. split.
  - by apply (read_roots_agree fs fs' nodePIDs).
  - intros data Hd. split; [done|]. by apply read_roots_some.
Qed.

(** ** Witness and examples *)

(** A node with a file of its own, and a container, that of process 7, with one of the same name; what [extra] is at the
    name [link] in the container. *)
Definition demo_files (host : bytes) (extra : option inode) : files := λ place,
  if bool_decide (place = [gostr "etc"; gostr "shadow"]) then Some (Regular (λ _, Some host))
  else if bool_decide (place = root_of 7 ++ [gostr "etc"; gostr "shadow"]) then Some (Regular (λ _, Some (gostr "the container's own")))
  else if bool_decide (place = root_of 7 ++ [gostr "link"]) then extra
  else if bool_decide (place ∈ [[gostr "etc"]; [gostr "proc"]; [gostr "proc"; gostr "7"]; root_of 7; root_of 7 ++ [gostr "etc"]]) then Some Directory
  else None.

Definition climbing : bytes := gostr "/a/../../etc/shadow".

Lemma demo_agree place : looked_at [7] place -> demo_files (gostr "x") None place = demo_files (gostr "y") None place.
Proof.
  intros (pid & Hin & _ & Hp). apply list_elem_of_singleton in Hin as ->. unfold demo_files.
  rewrite (bool_decide_eq_false_2 (place = [gostr "etc"; gostr "shadow"])); [done|]. intros ->.
  destruct Hp as [[k Hk]|[k Hk]]; vm_compute in Hk; discriminate.
Qed.

Lemma demo_unlinked : unlinked (demo_files (gostr "x") None) [7] (clean_elems true (rooted climbing)).
Proof.
  intros pid _ _ loc target _ E. unfold demo_files in E. cbn [app] in E.
  repeat (case_bool_decide; [discriminate|]). discriminate.
Qed.

Example container_reads_confined_witness :
  ReadContainerFile (demo_files (gostr "x") None) [7] climbing = ReadContainerFile (demo_files (gostr "y") None) [7] climbing.
Proof.
  exact (proj1 (container_reads_confined (demo_files (gostr "x") None) (demo_files (gostr "y") None) [7] climbing demo_agree demo_unlinked)).
Defined.

(** What is read there is the file of the container. *)
Example container_file : ReadContainerFile (demo_files [] None) [0; 7] climbing = Some (gostr "the container's own").
Proof. vm_compute. reflexivity. Qed.

(** An absolute link in the container is followed from the root of the sensor: the node's own file is read. *)
Example link_leaves_container :
  ReadContainerFile (demo_files (gostr "the node's own") (Some (Link (gostr "/etc/shadow")))) [7] (gostr "/link") = Some (gostr "the node's own").
Proof. vm_compute. reflexivity. Qed.

(** A name with two dots in it is refused although the path is rooted. *)
Example dotted_name_refused : ReadContainerFile (λ _, Some (Regular (λ _, Some []))) [7] (gostr "/etc/key..bak") = None.
Proof. vm_compute. reflexivity. Qed.

(** The cgroup path of a process in another namespace leaves the cgroup mount when it is cleaned. *)
Example relative_cgroup_leaves_mount :
  CgroupIDFromPID (λ _, Some (gostr "0::/../../../kubelet.slice/x")) (λ p, if bool_decide (p = gostr "/kubelet.slice/x") then Some 1 else None) 7 [] [] = Some 1.
Proof. vm_compute. reflexivity. Qed.
