(* ===== verification/Watcher.v ===== *)
(** * internal/k8s/watcher.go: pods of the node into the sensor's registry

    Two goroutines work on a watcher: the informer delivers one pod event after the other, the
    ticker rescans all pods. What they do under the watcher's lock is one step; the work that follows
    is a list of jobs, each a step of its own: a scan of /proc that ends in SyncPod, the
    cgroups of the processes found, the two halves of a removal, and each call of a hook, which
    comes after the lock of the registry was released. [hooked] is what the
    hooks were called with, in order. The processes and cgroups a job finds are given with its
    step. *)

From S2P Require Import Prelude Go GoStrings Model Store Attribution Proc.

(** ** Pods as the API server describes them *)

Record Pod := {
  podUID : bytes; podNamespace : bytes; podName : bytes; podNodeName : bytes;
  ContainerStatuses : list bytes; InitContainerStatuses : list (bytes * bool); EphemeralContainerStatuses : list bytes
}.

(** Of a status the container ID; of an init container also whether it is running. *)
Definition add_id (ids : gset bytes) (containerID : bytes) : gset bytes :=
  match containerID with
  | [] => ids
  | _ => match NormalizeContainerID containerID with [] => ids | id => {[ id ]} ∪ ids end
  end.

Definition containerIDsFromPod (pod : Pod) : gset bytes :=
  let ids := foldl add_id ∅ (ContainerStatuses pod) in
  let ids := foldl (λ ids s, if s.2 : bool then add_id ids s.1 else ids) ids (InitContainerStatuses pod) in
  foldl add_id ids (EphemeralContainerStatuses pod).

(** ** State *)

Inductive hook_call :=
  | OnWatch (pids : list Z)
  | OnUnwatch (pids : list Z)
  | OnWatchCgroups (ids : list Z).

Inductive job :=
  | ScanPIDs (info : PodInfo) (ids : gset bytes)
  | CallHook (uid : bytes) (c : hook_call)
  | ResolveCgroups (info : PodInfo) (keys : list ProcessKey)
  | Unregister (uid : bytes)
  | ForgetCgroups (uid : bytes) (pids : list Z).

Record NodeWatcher := {
  wNodeName : bytes; containers : gmap bytes (gset bytes); pods : gmap bytes PodInfo;
  attr : PodAttribution; hooked : list hook_call; informer : list job; ticker : list job
}.

Definition NewNodeWatcher (nodeName : bytes) : NodeWatcher := {|
  wNodeName := nodeName; containers := ∅; pods := ∅; attr := NewPodAttribution; hooked := []; informer := []; ticker := [] |}.

Definition set_attr (r : PodAttribution) (w : NodeWatcher) : NodeWatcher := {|
  wNodeName := wNodeName w; containers := containers w; pods := pods w; attr := r; hooked := hooked w;
  informer := informer w; ticker := ticker w |}.

Definition add_hooked (c : hook_call) (w : NodeWatcher) : NodeWatcher := {|
  wNodeName := wNodeName w; containers := containers w; pods := pods w; attr := attr w; hooked := hooked w ++ [c];
  informer := informer w; ticker := ticker w |}.

(** Whose jobs: those of the informer or those of the ticker. *)
Inductive worker := Informer | Ticker.

Definition jobs (who : worker) (w : NodeWatcher) : list job := match who with Informer => informer w | Ticker => ticker w end.

Definition set_jobs (who : worker) (l : list job) (w : NodeWatcher) : NodeWatcher := {|
  wNodeName := wNodeName w; containers := containers w; pods := pods w; attr := attr w; hooked := hooked w;
  informer := match who with Informer => l | Ticker => informer w end;
  ticker := match who with Informer => ticker w | Ticker => l end |}.

(** ** Events *)

Definition upsertPod (pod : Pod) (w : NodeWatcher) : NodeWatcher :=
  if negb (bool_decide (podNodeName pod = [])) && negb (bool_decide (podNodeName pod = wNodeName w)) then w
  else
    let ids := containerIDsFromPod pod in
    let info := {| piUID := podUID pod; piNamespace := podNamespace pod; piName := podName pod; piNodeName := wNodeName w |} in
    let pods' := <[piUID info := info]> (pods w) in
    if decide (ids = ∅) then
      {| wNodeName := wNodeName w; containers := containers w; pods := pods'; attr := attr w; hooked := hooked w;
         informer := informer w; ticker := ticker w |}
    else
      {| wNodeName := wNodeName w; containers := <[piUID info := ids]> (containers w); pods := pods'; attr := attr w;
         hooked := hooked w; informer := [ScanPIDs info ids]; ticker := ticker w |}.

Definition removePod (uid : bytes) (w : NodeWatcher) : NodeWatcher := {|
  wNodeName := wNodeName w; containers := delete uid (containers w); pods := delete uid (pods w); attr := attr w;
  hooked := hooked w; informer := [Unregister uid]; ticker := ticker w |}.

Section order.

Context `{MapOrder}.

(** The copies made under the lock, in the [n]th order of the map. *)
Definition rescan_job (w : NodeWatcher) (kv : bytes * gset bytes) : option job :=
  info ← pods w !! kv.1; Some (ScanPIDs info kv.2).

Definition rescanAll (n : nat) (w : NodeWatcher) : NodeWatcher :=
  set_jobs Ticker (omap (rescan_job w) (entries n (containers w))) w.

(** The container ID that is recorded: the first one of the [n]th order. *)
Definition some_id (n : nat) (ids : gset bytes) : bytes :=
  match range n (map (λ id, (id, ())) (elements ids)) with (id, _) :: _ => id | [] => [] end.

(** The hooks to call for these PIDs or cgroups of a pod: none when there are none. *)
Definition hook_for {A} (uid : bytes) (hook : list A -> hook_call) (l : list A) : list job :=
  match l with [] => [] | _ => [CallHook uid (hook l)] end.

(** The first half of syncPIDs: what the scan found is registered, the hooks are called after that;
    [None] is an error of the scan. *)
Definition sync_found (n : nat) (info : PodInfo) (ids : gset bytes) (found : option (list ProcessKey)) (w : NodeWatcher)
    : list job * NodeWatcher :=
  match found with
  | None => ([], w)
  | Some keys =>
      let '(added, removed, r) := SyncPod info (some_id n ids) keys (attr w) in
      (hook_for (piUID info) OnUnwatch removed ++ hook_for (piUID info) OnWatch added ++ [ResolveCgroups info keys], set_attr r w)
  end.

(** The cgroups of the keys, without those that fail or are zero, each once. *)
Definition resolve (cgroup : Z -> option Z) (keys : list ProcessKey) : list Z :=
  foldl (λ out key, match cgroup key.1 with Some cg => if cg =? 0 then out else appendUnique out cg | None => out end) [] keys.

(** The second half. *)
Definition sync_cgroups (info : PodInfo) (keys : list ProcessKey) (cgroup : Z -> option Z) (w : NodeWatcher) : list job * NodeWatcher :=
  let cgIDs := resolve cgroup keys in
  (hook_for (piUID info) OnWatchCgroups cgIDs, set_attr (SetPodCgroups info cgIDs (attr w)) w).

Definition no_info (uid : bytes) : PodInfo := {| piUID := uid; piNamespace := []; piName := []; piNodeName := [] |}.

(** What the node shows to a job: the directory and the clock, or the cgroup of a process. *)
Record view := { dir : option (list ProcEntry); clock_now : Z; cgroup_of : Z -> option Z }.

(** [None] is a panic, which ends the program. *)
Definition perform_job (n : nat) (v : view) (j : job) (w : NodeWatcher) : option (list job * NodeWatcher) :=
  match j with
  | ScanPIDs info ids =>
      match PIDsForContainers (elements ids) (clock_now v) (dir v) with
      | Ret keys => Some (sync_found n info ids (Some keys) w)
      | Err _ => Some (sync_found n info ids None w)
      | Panic => None
      end
  | CallHook uid c => Some ([], add_hooked c w)
  | ResolveCgroups info keys => Some (sync_cgroups info keys (cgroup_of v) w)
  | Unregister uid =>
      let '(pids, r) := UnregisterPod uid (attr w) in
      Some ([ForgetCgroups uid pids], set_attr r w)
  | ForgetCgroups uid pids =>
      Some (hook_for uid OnUnwatch pids, set_attr (SetPodCgroups (no_info uid) [] (attr w)) w)
  end.

(** ** Runs *)

Inductive watcher_step :=
  | Upsert (pod : Pod)
  | Remove (uid : bytes)
  | Tick (n : nat)
  | Work (who : worker) (n : nat) (v : view).

(** [None] when the step cannot be taken: the goroutine is at work, or has nothing to do. *)
Definition watcher_do (x : watcher_step) (w : NodeWatcher) : option NodeWatcher :=
  match x with
  | Upsert pod => match informer w with [] => Some (upsertPod pod w) | _ => None end
  | Remove uid => match informer w with [] => Some (removePod uid w) | _ => None end
  | Tick n => match ticker w with [] => Some (rescanAll n w) | _ => None end
  | Work who n v =>
      match jobs who w with
      | [] => None
      | j :: l => '(more, w) ← perform_job n v j w; Some (set_jobs who (more ++ l) w)
      end
  end.

Fixpoint watcher_run (xs : list watcher_step) (w : NodeWatcher) : option NodeWatcher :=
  match xs with [] => Some w | x :: xs => w ← watcher_do x w; watcher_run xs w end.

End order.

(** The PIDs that are watched after the calls of the hooks. *)
Definition hook_pids (watched : gset Z) (c : hook_call) : gset Z :=
  match c with
  | OnWatch pids => list_to_set pids ∪ watched
  | OnUnwatch pids => watched ∖ list_to_set pids
  | OnWatchCgroups _ => watched
  end.

Definition watched_pids (calls : list hook_call) : gset Z := foldl hook_pids ∅ calls.
