(* ===== verification/WatcherTheorems.v ===== *)
(** * Theorems about the pod watcher

    Whatever the informer and the ticker do at the same time, a PID that is watched can be
    attributed; and a pod that was removed leaves nothing behind unless a rescan was
    working on it. *)

From S2P Require Import Prelude Go GoStrings Model Store Attribution Proc Watcher.

(** ** What the registry's operations do to it *)

Implicit Types (r : PodAttribution) (w : NodeWatcher) (k key : ProcessKey).

Lemma drop_keys_spec keys entries byPID pids0 :
  let x := foldl drop_key (entries, byPID, pids0) keys in
  (forall k, x.1.1 !! k = if decide (k ∈ keys) then None else entries !! k) /\
  (forall pid, (pid ∈ x.2) <-> pid ∈ pids0 \/ exists k, k ∈ keys /\ k.1 = pid).
Proof.
  revert entries byPID pids0. induction keys as [|key keys IH]; intros entries byPID pids0; cbn [foldl].
  - split; [done|]. intros pid. cbn. split; [by left|]. intros [?|(k & Hk & _)]; [done|]. by apply not_elem_of_nil in Hk.
  - destruct (IH (delete key entries) (filterPIDKeys key byPID) (appendUnique pids0 key.1)) as [IH1 IH2]. cbn [drop_key]. split.
    + intros k. rewrite IH1. destruct (decide (k ∈ key :: keys)) as [Hk|Hk].
      * case_decide; [done|]. apply elem_of_cons in Hk as [->|?]; [by rewrite lookup_delete_eq|done].
      * apply not_elem_of_cons in Hk as [Hne Hk]. rewrite decide_False, lookup_delete_ne by done. done.
    + intros pid. rewrite IH2. assert (pid ∈ appendUnique pids0 key.1 <-> pid ∈ pids0 \/ pid = key.1) as ->.
      { unfold appendUnique. destruct (existsb (Z.eqb key.1) pids0) eqn:E.
        - split; [by left|]. intros [?| ->]; [done|]. apply existsb_exists in E as (p & Hp%list_elem_of_In & ->%Z.eqb_eq). done.
        - rewrite elem_of_app, list_elem_of_singleton. done. }
      set_solver.
Qed.

Lemma put_keys_spec e keys entries byPID added0 :
  let x := foldl (put_key e) (entries, byPID, added0) keys in
  (forall k, x.1.1 !! k = if decide (k ∈ keys) then Some e else entries !! k) /\
  (forall pid, pid ∈ x.2 -> pid ∈ added0 \/ exists k, k ∈ keys /\ k.1 = pid).
Proof.
  revert entries byPID added0. induction keys as [|key keys IH]; intros entries byPID added0; cbn [foldl].
  - split; [done|]. intros pid. by left.
  - assert (exists byPID' added', put_key e (entries, byPID, added0) key = (<[key := e]> entries, byPID', added') /\
      forall pid, pid ∈ added' -> pid ∈ added0 \/ pid = key.1) as (byPID' & added' & -> & Ha).
    { unfold put_key. destruct (entries !! key); do 2 eexists; (split; [reflexivity|]); [by left|].
      intros pid. unfold appendUnique. destruct (existsb _ _); [by left|]. rewrite elem_of_app, list_elem_of_singleton. done. }
    destruct (IH (<[key := e]> entries) byPID' added') as [IH1 IH2]. split.
    + intros k. rewrite IH1. destruct (decide (k ∈ key :: keys)) as [Hk|Hk].
      * case_decide; [done|]. apply elem_of_cons in Hk as [->|?]; [by rewrite lookup_insert_eq|done].
      * apply not_elem_of_cons in Hk as [Hne Hk]. rewrite decide_False, lookup_insert_ne by done. done.
    + intros pid Hp. apply IH2 in Hp. set_solver.
Qed.

(** One pod's processes replaced. *)
Lemma SyncPod_spec pod cid keys r :
  let '(added, removed, r') := SyncPod pod cid keys r in
  let old := default [] (aByPod r !! piUID pod) in
  (forall k, k ∈ keys -> exists a, aEntries r' !! k = Some a /\ PodUID (aPod a) = piUID pod) /\
  (forall k, (k ∉ keys) -> aEntries r' !! k = if decide (k ∈ old) then None else aEntries r !! k) /\
  (forall pid, (pid ∈ removed) <-> exists k, k ∈ old /\ (k ∉ keys) /\ k.1 = pid) /\
  (forall pid, pid ∈ added -> exists k, k ∈ keys /\ k.1 = pid) /\
  aByPod r' = (match keys with [] => delete (piUID pod) (aByPod r) | _ => <[piUID pod := keys]> (aByPod r) end) /\
  aByCgroup r' = aByCgroup r.
Proof.
  unfold SyncPod. pose proof (drop_keys_spec (filter (λ k, k ∉ keys) (default [] (aByPod r !! piUID pod))) (aEntries r) (aByPID r) []) as Hd.
  destruct (foldl drop_key _ _) as [[entries byPID] removed]. cbn [fst snd] in Hd. destruct Hd as [Hd1 Hd2].
  set (e := {| aSessionID := _ |}). pose proof (put_keys_spec e keys entries byPID []) as Hp.
  destruct (foldl (put_key e) _ _) as [[entries' byPID'] added]. cbn [fst snd] in Hp. destruct Hp as [Hp1 Hp2].
  cbn [aEntries aByPod aByCgroup]. split_and!; [| | | |done|done].
  - intros k Hk. exists e. rewrite Hp1, decide_True by done. done.
  - intros k Hk. rewrite Hp1, decide_False, Hd1 by done. destruct (decide (k ∈ default [] (aByPod r !! piUID pod))) as [Ho|Ho].
    + by rewrite decide_True by (by apply list_elem_of_filter).
    + rewrite decide_False; [done|]. by intros [_ ?]%list_elem_of_filter.
  - intros pid. rewrite Hd2. split.
    + intros [Hn|(k & [? ?]%list_elem_of_filter & ?)]; [by apply not_elem_of_nil in Hn|]. by exists k.
    + intros (k & ? & ? & ?). right. exists k. split; [by apply list_elem_of_filter|done].
  - intros pid [Hn|?]%Hp2; [by apply not_elem_of_nil in Hn|done].
Qed.

Lemma UnregisterPod_spec uid r :
  let '(pids, r') := UnregisterPod uid r in
  let old := default [] (aByPod r !! uid) in
  (forall k, aEntries r' !! k = if decide (k ∈ old) then None else aEntries r !! k) /\
  (forall pid, (pid ∈ pids) <-> exists k, k ∈ old /\ k.1 = pid) /\
  aByPod r' = delete uid (aByPod r) /\ aByCgroup r' = aByCgroup r.
Proof.
  unfold UnregisterPod. pose proof (drop_keys_spec (default [] (aByPod r !! uid)) (aEntries r) (aByPID r) []) as Hd.
  destruct (foldl drop_key _ _) as [[entries byPID] pids]. cbn [fst snd] in Hd. destruct Hd as [Hd1 Hd2].
  cbn [aEntries aByPod aByCgroup]. split_and!; [done| |done|done].
  intros pid. rewrite Hd2. split; [|by right]. intros [Hn|?]; [by apply not_elem_of_nil in Hn|done].
Qed.

(** The cgroups of other pods stay as they were, or become this pod's. *)
Lemma SetPodCgroups_spec pod ids r cg uid :
  aByCgroup (SetPodCgroups pod ids r) !! cg = Some uid -> uid = piUID pod /\ ids ≠ [] \/ uid ≠ piUID pod /\ aByCgroup r !! cg = Some uid.
Proof.
  unfold SetPodCgroups. cbn [aByCgroup]. set (m := filter _ _).
  assert (forall cg uid, m !! cg = Some uid -> uid ≠ piUID pod /\ aByCgroup r !! cg = Some uid) as Hm
    by (intros c u [? ?]%map_lookup_filter_Some; done).
  clearbody m. assert (forall ids', (forall id, id ∈ ids' -> id ∈ ids) -> forall m : gmap Z bytes,
    (forall cg uid, m !! cg = Some uid -> uid = piUID pod /\ ids ≠ [] \/ uid ≠ piUID pod /\ aByCgroup r !! cg = Some uid) ->
    foldl (λ m id, if id =? 0 then m else <[id := piUID pod]> m) m ids' !! cg = Some uid ->
    uid = piUID pod /\ ids ≠ [] \/ uid ≠ piUID pod /\ aByCgroup r !! cg = Some uid) as Hf.
  { induction ids' as [|id ids' IH]; intros Hsub m' Hm'; cbn [foldl]; [apply Hm'|].
    apply IH; [intros id' ?; apply Hsub; by right|]. intros c u. destruct (id =? 0); [apply Hm'|].
    destruct (decide (c = id)) as [->|Hne]; [|rewrite lookup_insert_ne by done; apply Hm'].
    rewrite lookup_insert_eq. intros [= <-]. left. split; [done|]. intros E. assert (id ∈ ids) as Hin by (apply Hsub; by left).
    rewrite E in Hin. by apply not_elem_of_nil in Hin. }
  apply (Hf ids); [done|]. intros c u ?%Hm. by right.
Qed.

(** ** One job *)

#[export] Instance worker_eq_dec : EqDecision worker.
Proof. solve_decision. Defined.

Lemma jobs_set who l w who' : jobs who' (set_jobs who l w) = if decide (who' = who) then l else jobs who' w.
Proof. by destruct who, who'. Qed.

(** Some goroutine has the job [j] before it. *)
Definition has_job (j : job) w : Prop := exists who, j ∈ jobs who w.

Definition job_uid (j : job) : bytes :=
  match j with ScanPIDs info _ | ResolveCgroups info _ => piUID info | CallHook uid _ | Unregister uid | ForgetCgroups uid _ => uid end.

Definition is_scan (j : job) : bool := match j with ScanPIDs _ _ | ResolveCgroups _ _ => true | _ => false end.
Definition is_removal (j : job) : bool := match j with Unregister _ | ForgetCgroups _ _ => true | _ => false end.

Lemma elem_hook_for {A} uid (hook : list A -> hook_call) l j : j ∈ hook_for uid hook l -> j = CallHook uid (hook l).
Proof. destruct l; cbn; [by intros ?%not_elem_of_nil|by intros ->%list_elem_of_singleton]. Qed.

Lemma hook_for_elem {A} uid (hook : list A -> hook_call) l x : x ∈ l -> CallHook uid (hook l) ∈ hook_for uid hook l.
Proof. destruct l; [by intros ?%not_elem_of_nil|]. intros _. by left. Qed.

Abbreviation watched w := (watched_pids (hooked w)).

Lemma watched_app calls calls' : watched_pids (calls ++ calls') = foldl hook_pids (watched_pids calls) calls'.
Proof. unfold watched_pids. by rewrite foldl_app. Qed.

Section order.

Context `{MapOrder}.

(** What a job makes of the registry and of the watched PIDs, and what it leaves to do. *)
Definition job_effect n v (j : job) w (more : list job) w1 : Prop :=
  match j with
  | ScanPIDs info ids =>
      more = [] /\ w1 = w \/
      exists keys added removed, SyncPod info (some_id n ids) keys (attr w) = (added, removed, attr w1) /\
        more = hook_for (piUID info) OnUnwatch removed ++ hook_for (piUID info) OnWatch added ++ [ResolveCgroups info keys] /\
        watched w1 = watched w
  | CallHook uid c => more = [] /\ attr w1 = attr w /\ watched w1 = hook_pids (watched w) c
  | ResolveCgroups info keys =>
      more = hook_for (piUID info) OnWatchCgroups (resolve (cgroup_of v) keys) /\
      attr w1 = SetPodCgroups info (resolve (cgroup_of v) keys) (attr w) /\ watched w1 = watched w
  | Unregister uid =>
      exists pids, UnregisterPod uid (attr w) = (pids, attr w1) /\ more = [ForgetCgroups uid pids] /\ watched w1 = watched w
  | ForgetCgroups uid pids =>
      more = hook_for uid OnUnwatch pids /\ attr w1 = SetPodCgroups (no_info uid) [] (attr w) /\ watched w1 = watched w
  end.

Lemma perform_job_spec n v j w more w1 :
  perform_job n v j w = Some (more, w1) ->
  job_effect n v j w more w1 /\ containers w1 = containers w /\ pods w1 = pods w /\ forall who, jobs who w1 = jobs who w.
Proof.
  destruct j as [info ids|uid c|info keys|uid|uid pids]; cbn [perform_job job_effect].
  - destruct (PIDsForContainers _ _ _) as [keys|err|]; [|intros [= <- <-]; split; [by left|done]|done]. unfold sync_found.
    destruct (SyncPod info (some_id n ids) keys (attr w)) as [[added removed] r] eqn:E. intros [= <- <-]. split; [|done].
    right. by exists keys, added, removed.
  - intros [= <- <-]. split; [|done]. split; [done|]. split; [done|]. cbn [add_hooked hooked]. by rewrite watched_app.
  - intros [= <- <-]. done.
  - destruct (UnregisterPod uid (attr w)) as [pids r] eqn:E. intros [= <- <-]. split; [|done]. by exists pids.
  - intros [= <- <-]. done.
Qed.

(** A job that is no removal leaves none. *)
Lemma job_no_removal n v j w more w1 j' :
  job_effect n v j w more w1 -> is_removal j = false -> j' ∈ more -> is_removal j' = false.
Proof.
  intros He Hj Hin. destruct j as [info ids|uid c|info keys|uid|uid pids]; cbn in He; [..|done|done].
  - destruct He as [[-> _]|(keys & added & removed & _ & -> & _)]; [by apply not_elem_of_nil in Hin|].
    rewrite !elem_of_app, list_elem_of_singleton in Hin. by destruct Hin as [->%elem_hook_for|[->%elem_hook_for| ->]].
  - destruct He as [-> _]. by apply not_elem_of_nil in Hin.
  - destruct He as [-> _]. by apply elem_hook_for in Hin as ->.
Qed.

(** A step of a goroutine on its next job. *)
Lemma work_spec who n v w w' :
  watcher_do (Work who n v) w = Some w' ->
  exists j more w1, j ∈ jobs who w /\ job_effect n v j w more w1 /\ attr w' = attr w1 /\ hooked w' = hooked w1 /\
    containers w' = containers w /\ pods w' = pods w /\
    (forall j', has_job j' w -> j' = j \/ has_job j' w') /\ (forall j', has_job j' w' -> j' ∈ more \/ has_job j' w) /\
    (forall j', j' ∈ more -> has_job j' w') /\ (forall j', j' ∈ ticker w' -> j' ∈ ticker w \/ who = Ticker /\ j' ∈ more).
Proof.
  cbn [watcher_do]. destruct (jobs who w) as [|j l] eqn:Ej; [done|]. destruct (perform_job n v j w) as [[more w1]|] eqn:E; [|done].
  cbn. intros [= <-]. destruct (perform_job_spec _ _ _ _ _ _ E) as (He & Hc & Hp & Hj).
  exists j, more, w1. split; [by left|]. split; [done|]. do 2 (split; [done|]). split; [done|]. split; [done|].
  split_and!.
  - intros j' [who' Hin]. destruct (decide (who' = who)) as [->|Hne].
    + rewrite Ej in Hin. apply elem_of_cons in Hin as [->|Hin]; [by left|right]. exists who. rewrite jobs_set, decide_True by done.
      apply elem_of_app. by right.
    + right. exists who'. by rewrite jobs_set, decide_False, Hj by done.
  - intros j' [who' Hin]. rewrite jobs_set in Hin. case_decide as Hw; [subst who'|].
    + apply elem_of_app in Hin as [?|?]; [by left|right]. exists who. rewrite Ej. by right.
    + right. exists who'. by rewrite <- Hj.
  - intros j' Hin. exists who. rewrite jobs_set, decide_True by done. apply elem_of_app. by left.
  - intros j' Hin. destruct who; [left; pose proof (Hj Ticker) as Ht; cbn in Ht, Hin; by rewrite <- Ht|]. cbn in Ej, Hin. rewrite Ej.
    apply elem_of_app in Hin as [?|?]; [by right|left; by right].
Qed.

(** ** Invariants *)

Record watcher_ok w : Prop := {
  ok_attr : pods_ok (attr w);
  ok_listed k a : aEntries (attr w) !! k = Some a -> k ∈ default [] (aByPod (attr w) !! PodUID (aPod a));
  ok_pods uid info : pods w !! uid = Some info -> piUID info = uid;
  ok_ticker j : j ∈ ticker w -> is_removal j = false }.

(** A process with the PID is registered; a goroutine is about to have the PID taken out of the watch. *)
Definition registered pid w : Prop := exists k, k.1 = pid /\ is_Some (aEntries (attr w) !! k).
Definition takes_out (j : job) (pid : Z) : Prop :=
  match j with ForgetCgroups _ pids | CallHook _ (OnUnwatch pids) => pid ∈ pids | _ => False end.
Definition leaving pid w : Prop := exists j, has_job j w /\ takes_out j pid.

(** Every watched PID has a registered process or is about to be taken out. *)
Definition watch_ok w : Prop := forall pid, pid ∈ watched w -> registered pid w \/ leaving pid w.

Inductive reachable (name : bytes) : NodeWatcher -> Prop :=
  | reachable_new : reachable name (NewNodeWatcher name)
  | reachable_step x w w' : reachable name w -> watcher_do x w = Some w' -> reachable name w'.

(** A PID stays registered until the OnWatch for it was called. *)
Definition prompt w : Prop := forall uid pids pid, has_job (CallHook uid (OnWatch pids)) w -> pid ∈ pids -> registered pid w.

Inductive steady (name : bytes) : NodeWatcher -> Prop :=
  | steady_new : steady name (NewNodeWatcher name)
  | steady_step x w w' : steady name w -> prompt w -> watcher_do x w = Some w' -> steady name w'.

Lemma steady_reachable name w : steady name w -> reachable name w.
Proof. induction 1; by econstructor. Qed.

(** Nobody is at work on a pod for a rescan when it is removed. *)
Definition undisturbed (x : watcher_step) w : Prop :=
  match x with Remove uid => forall j, j ∈ ticker w -> job_uid j ≠ uid | _ => True end.

Inductive calm (name : bytes) : NodeWatcher -> Prop :=
  | calm_new : calm name (NewNodeWatcher name)
  | calm_step x w w' : calm name w -> undisturbed x w -> watcher_do x w = Some w' -> calm name w'.

Lemma calm_reachable name w : calm name w -> reachable name w.
Proof. induction 1; by econstructor. Qed.

(** The registry after a job is the registry after one of its calls, or unchanged. *)
Lemma job_attr n v j w more w1 : job_effect n v j w more w1 -> pods_ok (attr w) -> pods_ok (attr w1).
Proof.
  intros He Hok. destruct j as [info ids|uid c|info keys|uid|uid pids]; cbn in He.
  - destruct He as [[_ ->]|(keys & added & removed & E & _)]; [done|].
    pose proof (perform_pod_ok (CallSyncPod info (some_id n ids) keys) (attr w) Hok) as Hp. cbn in Hp. by rewrite E in Hp.
  - by destruct He as (_ & -> & _).
  - destruct He as (_ & -> & _). by apply (perform_pod_ok (CallSetPodCgroups info _)).
  - destruct He as (pids & E & _). pose proof (perform_pod_ok (CallUnregisterPod uid) (attr w) Hok) as Hp. cbn in Hp. by rewrite E in Hp.
  - destruct He as (_ & -> & _). by apply (perform_pod_ok (CallSetPodCgroups (no_info uid) [])).
Qed.

Lemma job_listed n v j w more w1 :
  job_effect n v j w more w1 ->
  (forall k a, aEntries (attr w) !! k = Some a -> k ∈ default [] (aByPod (attr w) !! PodUID (aPod a))) ->
  forall k a, aEntries (attr w1) !! k = Some a -> k ∈ default [] (aByPod (attr w1) !! PodUID (aPod a)).
Proof.
  intros He Hl k a Ha. destruct j as [info ids|uid c|info keys|uid|uid pids]; cbn in He.
  - destruct He as [[_ ->]|(keys & added & removed & E & _)]; [by apply Hl|].
    pose proof (SyncPod_spec info (some_id n ids) keys (attr w)) as Hs. rewrite E in Hs. destruct Hs as (H1 & H2 & _ & _ & -> & _).
    destruct (decide (k ∈ keys)) as [Hk|Hk].
    + destruct (H1 k Hk) as (a' & Ha' & Hu). rewrite Ha in Ha'. injection Ha' as <-. rewrite Hu.
      destruct keys as [|k0 keys]; [by apply not_elem_of_nil in Hk|]. by rewrite lookup_insert_eq.
    + rewrite (H2 k Hk) in Ha. case_decide as Ho; [done|]. apply Hl in Ha.
      assert (PodUID (aPod a) ≠ piUID info) as Hne by (intros Eu; by rewrite Eu in Ha).
      destruct keys; [by rewrite lookup_delete_ne|by rewrite lookup_insert_ne].
  - destruct He as (_ & E & _). rewrite E in Ha |- *. by apply Hl.
  - destruct He as (_ & E & _). rewrite E in Ha |- *. by apply Hl.
  - destruct He as (pids & E & _). pose proof (UnregisterPod_spec uid (attr w)) as Hs. rewrite E in Hs. destruct Hs as (H1 & _ & -> & _).
    rewrite H1 in Ha. case_decide as Ho; [done|]. apply Hl in Ha. rewrite lookup_delete_ne; [done|]. intros ->. done.
  - destruct He as (_ & E & _). rewrite E in Ha |- *. by apply Hl.
Qed.

(** A watched PID stays registered, or its removal is under way. *)
Lemma job_watched n v j w more w1 pid :
  job_effect n v j w more w1 -> has_job j w -> prompt w -> watch_ok w -> pid ∈ watched w1 ->
  registered pid w1 \/ exists j', takes_out j' pid /\ (j' ∈ more \/ has_job j' w /\ j' ≠ j).
Proof.
  intros He Hj Hpr Hok Hp.
  assert (~ takes_out j pid -> leaving pid w -> exists j', takes_out j' pid /\ (j' ∈ more \/ has_job j' w /\ j' ≠ j)) as Hstill.
  { intros Hn (j' & Hj' & Ht). exists j'. split; [done|]. right. split; [done|]. by intros ->. }
  destruct j as [info ids|uid c|info keys|uid|uid pids]; cbn in He.
  - destruct He as [[_ ->]|(keys & added & removed & E & -> & Ew)]; [destruct (Hok pid Hp); auto|]. rewrite Ew in Hp.
    pose proof (SyncPod_spec info (some_id n ids) keys (attr w)) as Hs. rewrite E in Hs. destruct Hs as (H1 & H2 & H3 & _).
    destruct (Hok pid Hp) as [(k & <- & a & Ha)|?]; [|auto]. destruct (decide (k ∈ keys)) as [Hk|Hk].
    { left. destruct (H1 k Hk) as (a' & ? & _). exists k. split; [done|by eexists]. }
    destruct (decide (k ∈ default [] (aByPod (attr w) !! piUID info))) as [Ho|Ho].
    + assert (k.1 ∈ removed) as Hr by (apply H3; by exists k). right. exists (CallHook (piUID info) (OnUnwatch removed)).
      split; [done|]. left. apply elem_of_app. left. by eapply hook_for_elem.
    + left. exists k. split; [done|]. rewrite (H2 k Hk), decide_False by done. by eexists.
  - destruct He as (-> & Ea & Ew). rewrite Ew in Hp.
    assert (registered pid w -> registered pid w1) as Hreg by (intros (k & ? & ?); exists k; by rewrite Ea).
    destruct c as [pids|pids|ids]; cbn in Hp.
    + apply elem_of_union in Hp as [Hp|Hp]; [|destruct (Hok pid Hp); auto]. left. apply Hreg.
      apply (Hpr uid pids pid Hj). by apply elem_of_list_to_set in Hp.
    + apply elem_of_difference in Hp as [Hp Hn]. rewrite elem_of_list_to_set in Hn. destruct (Hok pid Hp); auto.
    + destruct (Hok pid Hp); auto.
  - destruct He as (_ & E & Ew). rewrite Ew in Hp. destruct (Hok pid Hp) as [(k & ? & ?)|?]; [|auto]. left. exists k. by rewrite E.
  - destruct He as (pids & E & -> & Ew). rewrite Ew in Hp. pose proof (UnregisterPod_spec uid (attr w)) as Hs. rewrite E in Hs.
    destruct Hs as (H1 & H2 & _). destruct (Hok pid Hp) as [(k & <- & a & Ha)|?]; [|auto].
    destruct (decide (k ∈ default [] (aByPod (attr w) !! uid))) as [Ho|Ho].
    + right. exists (ForgetCgroups uid pids). split; [cbn; apply H2; by exists k|]. left. by left.
    + left. exists k. split; [done|]. rewrite H1, decide_False by done. by eexists.
  - destruct He as (-> & E & Ew). rewrite Ew in Hp. destruct (Hok pid Hp) as [(k & ? & ?)|(j' & Hj' & Ht)].
    + left. exists k. by rewrite E.
    + right. destruct (decide (pid ∈ pids)) as [Hin|Hin]; [|apply Hstill; [done|by exists j']].
      exists (CallHook uid (OnUnwatch pids)). split; [done|]. left. by apply (hook_for_elem _ OnUnwatch _ pid).
Qed.

Lemma upsert_cases pod w w' :
  upsertPod pod w = w' -> informer w = [] ->
  attr w' = attr w /\ hooked w' = hooked w /\ ticker w' = ticker w /\
  (forall uid info, pods w' !! uid = Some info -> pods w !! uid = Some info \/ piUID info = uid) /\
  (forall uid, is_Some (containers w !! uid) -> is_Some (containers w' !! uid)) /\
  (forall j, j ∈ informer w' -> exists info ids, j = ScanPIDs info ids /\ is_Some (containers w' !! piUID info)).
Proof.
  intros <- Hi. unfold upsertPod. destruct (_ && _).
  { split_and!; try done; [auto|]. intros j Hj. rewrite Hi in Hj. by apply not_elem_of_nil in Hj. }
  set (info := {| piUID := _ |}). assert (forall uid i, <[piUID info:=info]> (pods w) !! uid = Some i -> pods w !! uid = Some i \/ piUID i = uid) as Hpods.
  { intros uid i. destruct (decide (uid = piUID info)) as [->|Hne].
    - rewrite lookup_insert_eq. intros [= <-]. by right.
    - rewrite lookup_insert_ne by done. by left. }
  case_decide; cbn [attr hooked ticker pods containers informer].
  - split_and!; try done. intros j Hj. rewrite Hi in Hj. by apply not_elem_of_nil in Hj.
  - split_and!; try done.
    + intros uid Hc. apply lookup_insert_is_Some. destruct (decide (piUID info = uid)); [by left|by right].
    + intros j ->%list_elem_of_singleton. eexists _, _. split; [done|]. rewrite lookup_insert_eq. by eexists.
Qed.

(** Every rescan job is about a pod with containers. *)
Lemma rescan_jobs n w j :
  (forall uid info, pods w !! uid = Some info -> piUID info = uid) -> j ∈ omap (rescan_job w) (entries n (containers w)) ->
  exists info ids, j = ScanPIDs info ids /\ is_Some (containers w !! piUID info).
Proof.
  intros Hp ([uid ids] & He & Hj)%list_elem_of_omap. apply elem_of_entries in He. unfold rescan_job in Hj. cbn [fst snd] in Hj.
  destruct (pods w !! uid) as [info|] eqn:E; [|done]. injection Hj as <-. exists info, ids. split; [done|].
  rewrite (Hp uid info E). by eexists.
Qed.

Lemma no_jobs who w j : jobs who w = [] -> ~ j ∈ jobs who w.
Proof. intros ->. apply not_elem_of_nil. Qed.

(** A removal is one of the informer's jobs. *)
Lemma has_job_informer w j : watcher_ok w -> has_job j w -> is_removal j = true -> j ∈ informer w.
Proof. intros Hok [[] Hj] Hs; [done|]. apply (ok_ticker _ Hok) in Hj. congruence. Qed.

Lemma step_ok x w w' : watcher_do x w = Some w' -> watcher_ok w -> watcher_ok w'.
Proof.
  intros Hx Hok. destruct x as [pod|uid|n|who n v].
  - cbn in Hx. destruct (informer w) eqn:Ei; [|done]. injection Hx as Hx.
    destruct (upsert_cases pod w w' Hx Ei) as (Ea & Eh & Et & Hp & _ & Hj). constructor; rewrite ?Ea; try apply Hok.
    + intros uid info [?|?]%Hp; [by apply (ok_pods _ Hok)|done].
    + intros j. rewrite Et. apply (ok_ticker _ Hok).
  - cbn in Hx. destruct (informer w) eqn:Ei; [|done]. injection Hx as <-. constructor; cbn [attr pods ticker removePod]; try apply Hok.
    intros u info [_ ?]%lookup_delete_Some. by apply (ok_pods _ Hok).
  - cbn in Hx. destruct (ticker w) eqn:Et; [|done]. injection Hx as <-. constructor; try apply Hok.
    intros j Hj. by destruct (rescan_jobs n w j (ok_pods _ Hok) Hj) as (info & ids & -> & _).
  - destruct (work_spec who n v w w' Hx) as (j & more & w1 & Hj & He & Ea & Eh & _ & Ep & Hold & Hnew & Hmore & Htick).
    constructor; rewrite ?Ea, ?Ep; try apply Hok.
    + eapply job_attr; [done|apply (ok_attr _ Hok)].
    + eapply job_listed; [done|apply (ok_listed _ Hok)].
    + intros j' [?|[-> Hm]]%Htick; [by apply (ok_ticker _ Hok)|]. eapply job_no_removal; [done| |done]. by apply (ok_ticker _ Hok).
Qed.

Lemma reachable_watcher_ok name w : reachable name w -> watcher_ok w.
Proof.
  induction 1 as [|x w w' _ IH Hx]; [|by eapply step_ok]. constructor; cbn.
  - apply (pods_after_ok []).
  - intros k a. by rewrite lookup_empty.
  - intros uid info. by rewrite lookup_empty.
  - intros j Hj. by apply not_elem_of_nil in Hj.
Qed.

(** What an event that only adds jobs leaves of the watch. *)
Lemma watch_same w w' :
  attr w' = attr w -> hooked w' = hooked w -> (forall j, has_job j w -> has_job j w') -> watch_ok w -> watch_ok w'.
Proof.
  intros Ea Eh Hj Hok pid. rewrite Eh. intros [(k & ? & ?)|(j & ? & ?)]%Hok; [left; exists k; by rewrite Ea|right; exists j; auto].
Qed.

Lemma step_watch x w w' : watcher_do x w = Some w' -> prompt w -> watch_ok w -> watch_ok w'.
Proof.
  intros Hx Hpr Hok. destruct x as [pod|uid|n|who n v].
  - cbn in Hx. destruct (informer w) eqn:Ei; [|done]. injection Hx as Hx.
    destruct (upsert_cases pod w w' Hx Ei) as (Ea & Eh & Et & _). apply (watch_same w); [done..| |done].
    intros j [[] Hj]; [cbn in Hj; rewrite Ei in Hj; by apply not_elem_of_nil in Hj|exists Ticker; cbn in *; by rewrite Et].
  - cbn in Hx. destruct (informer w) eqn:Ei; [|done]. injection Hx as <-. apply (watch_same w); [done..| |done].
    intros j [[] Hj]; [cbn in Hj; rewrite Ei in Hj; by apply not_elem_of_nil in Hj|by exists Ticker].
  - cbn in Hx. destruct (ticker w) eqn:Et; [|done]. injection Hx as <-. apply (watch_same w); [done..| |done].
    intros j [[] Hj]; [by exists Informer|cbn in Hj; rewrite Et in Hj; by apply not_elem_of_nil in Hj].
  - destruct (work_spec who n v w w' Hx) as (j & more & w1 & Hj & He & Ea & Eh & _ & _ & Hold & _ & Hmore & _).
    intros pid Hp. rewrite Eh in Hp. assert (has_job j w) as Hjw by (by exists who).
    destruct (job_watched _ _ _ _ _ _ pid He Hjw Hpr Hok Hp) as [(k & ? & ?)|(j' & Ht & [Hm|[Hm Hne]])].
    + left. exists k. by rewrite Ea.
    + right. exists j'. split; [by apply Hmore|done].
    + right. exists j'. split; [|done]. destruct (Hold _ Hm) as [?|?]; [by exfalso|done].
Qed.

Lemma steady_watch_ok name w : steady name w -> watch_ok w.
Proof.
  induction 1 as [|x w w' _ IH Hpr Hx]; [|by eapply step_watch]. intros pid Hp. by apply not_elem_of_empty in Hp.
Qed.

(** ** Pods that were removed *)

(** What the registry holds of a pod is backed by its containers, or its removal is under way. *)
Record settled w : Prop := {
  se_jobs j : has_job j w -> is_scan j = true -> is_Some (containers w !! job_uid j);
  se_pods uid : is_Some (aByPod (attr w) !! uid) -> is_Some (containers w !! uid) \/ has_job (Unregister uid) w;
  se_cgroups cg uid : aByCgroup (attr w) !! cg = Some uid ->
    is_Some (containers w !! uid) \/ has_job (Unregister uid) w \/ exists pids, has_job (ForgetCgroups uid pids) w }.

(** A job that scans comes from one on the same pod. *)
Lemma job_scan n v j w more w1 j' :
  job_effect n v j w more w1 -> j' ∈ more -> is_scan j' = true -> is_scan j = true /\ job_uid j' = job_uid j.
Proof.
  intros He Hm Hs. destruct j as [info ids|uid c|info keys|uid|uid pids]; cbn in He.
  - destruct He as [[-> _]|(keys & added & removed & _ & -> & _)]; [by apply not_elem_of_nil in Hm|].
    rewrite !elem_of_app, list_elem_of_singleton in Hm. by destruct Hm as [->%elem_hook_for|[->%elem_hook_for| ->]].
  - destruct He as [-> _]. by apply not_elem_of_nil in Hm.
  - destruct He as [-> _]. by apply elem_hook_for in Hm as ->.
  - destruct He as (pids & _ & -> & _). by apply list_elem_of_singleton in Hm as ->.
  - destruct He as [-> _]. by apply elem_hook_for in Hm as ->.
Qed.

Lemma job_pods n v j w more w1 uid :
  job_effect n v j w more w1 -> is_Some (aByPod (attr w1) !! uid) ->
  is_scan j = true /\ job_uid j = uid \/ is_Some (aByPod (attr w) !! uid) /\ j ≠ Unregister uid.
Proof.
  intros He Hu. destruct j as [info ids|u c|info keys|u|u pids]; cbn in He |- *.
  - destruct He as [[_ ->]|(keys & added & removed & E & _)]; [by right|].
    pose proof (SyncPod_spec info (some_id n ids) keys (attr w)) as Hs. rewrite E in Hs. destruct Hs as (_ & _ & _ & _ & Eb & _).
    rewrite Eb in Hu. destruct (decide (piUID info = uid)) as [|Hne]; [by left|right].
    destruct keys; [rewrite lookup_delete_ne in Hu by done|rewrite lookup_insert_ne in Hu by done]; done.
  - destruct He as (_ & E & _). rewrite E in Hu. by right.
  - destruct He as (_ & E & _). rewrite E in Hu. by right.
  - destruct He as (pids & E & _). pose proof (UnregisterPod_spec u (attr w)) as Hs. rewrite E in Hs. destruct Hs as (_ & _ & Eb & _).
    rewrite Eb in Hu. apply lookup_delete_is_Some in Hu as [Hne Hu]. right. split; [done|]. by intros [= ->].
  - destruct He as (_ & E & _). rewrite E in Hu. by right.
Qed.

Lemma job_cgroups n v j w more w1 cg uid :
  job_effect n v j w more w1 -> aByCgroup (attr w1) !! cg = Some uid ->
  is_scan j = true /\ job_uid j = uid \/ aByCgroup (attr w) !! cg = Some uid /\ forall pids, j ≠ ForgetCgroups uid pids.
Proof.
  intros He Hu. destruct j as [info ids|u c|info keys|u|u pids]; cbn in He |- *.
  - destruct He as [[_ ->]|(keys & added & removed & E & _)]; [by right|].
    pose proof (SyncPod_spec info (some_id n ids) keys (attr w)) as Hs. rewrite E in Hs. destruct Hs as (_ & _ & _ & _ & _ & Ec).
    rewrite Ec in Hu. by right.
  - destruct He as (_ & E & _). rewrite E in Hu. by right.
  - destruct He as (_ & E & _). rewrite E in Hu. apply SetPodCgroups_spec in Hu as [[-> _]|[_ ?]]; [by left|by right].
  - destruct He as (pids & E & _). pose proof (UnregisterPod_spec u (attr w)) as Hs. rewrite E in Hs. destruct Hs as (_ & _ & _ & Ec).
    rewrite Ec in Hu. by right.
  - destruct He as (_ & E & _). rewrite E in Hu. apply SetPodCgroups_spec in Hu as [[_ ?]|[Hne ?]]; [done|]. right.
    split; [done|]. by intros l [= -> _].
Qed.

Lemma step_settled x w w' : watcher_do x w = Some w' -> undisturbed x w -> watcher_ok w -> settled w -> settled w'.
Proof.
  intros Hx Hu Hok Hse. destruct x as [pod|uid|n|who n v].
  - cbn in Hx. destruct (informer w) eqn:Ei; [|done]. injection Hx as Hx.
    destruct (upsert_cases pod w w' Hx Ei) as (Ea & _ & Et & _ & Hc & Hj).
    assert (forall j, is_removal j = true -> ~ has_job j w) as Hno.
    { intros j Hs Hj'. apply has_job_informer in Hj'; [|done..]. rewrite Ei in Hj'. by apply not_elem_of_nil in Hj'. }
    constructor; rewrite ?Ea.
    + intros j [[] Hin] Hs; [apply Hj in Hin as (info & ids & -> & ?); done|]. apply Hc, (se_jobs _ Hse); [|done].
      exists Ticker. cbn in *. by rewrite <- Et.
    + intros u [?|Hm]%(se_pods _ Hse); [left; by apply Hc|by apply Hno in Hm].
    + intros cg u [?|[Hm|[l Hm]]]%(se_cgroups _ Hse); [left; by apply Hc|by apply Hno in Hm..].
  - cbn in Hx. destruct (informer w) eqn:Ei; [|done]. injection Hx as <-. cbn in Hu.
    assert (forall j, is_removal j = true -> ~ has_job j w) as Hno.
    { intros j Hs Hj'. apply has_job_informer in Hj'; [|done..]. rewrite Ei in Hj'. by apply not_elem_of_nil in Hj'. }
    assert (forall u, is_Some (containers w !! u) -> is_Some (delete uid (containers w) !! u) \/ u = uid) as Hdel.
    { intros u Hs. destruct (decide (u = uid)) as [|Hne]; [by right|left]. by rewrite lookup_delete_ne by done. }
    assert (has_job (Unregister uid) (removePod uid w)) as Hunreg by (exists Informer; by left).
    constructor; cbn [attr containers removePod].
    + intros j [[] Hin] Hs; cbn in Hin; [apply list_elem_of_singleton in Hin as ->; done|].
      destruct (Hdel (job_uid j)) as [?|E]; [apply (se_jobs _ Hse); [by exists Ticker|done]|done|]. by apply Hu in Hin.
    + intros u [[?| ->]%Hdel|Hm]%(se_pods _ Hse); [by left|by right|by apply Hno in Hm].
    + intros cg u [[?| ->]%Hdel|[Hm|[l Hm]]]%(se_cgroups _ Hse); [by left|right; by left|by apply Hno in Hm..].
  - cbn in Hx. destruct (ticker w) eqn:Et; [|done]. injection Hx as <-.
    assert (forall j, is_removal j = true -> has_job j w -> has_job j (rescanAll n w)) as Hkeep
      by (intros j Hs Hj'; exists Informer; by apply has_job_informer in Hj').
    constructor.
    + intros j [[] Hin] Hs; [apply (se_jobs _ Hse); [by exists Informer|done]|].
      by destruct (rescan_jobs n w j (ok_pods _ Hok) Hin) as (info & ids & -> & ?).
    + intros u [?|Hm]%(se_pods _ Hse); [by left|right; by apply Hkeep].
    + intros cg u [?|[Hm|[l Hm]]]%(se_cgroups _ Hse); [by left|right; left; by apply Hkeep|right; right; exists l; by apply Hkeep].
  - destruct (work_spec who n v w w' Hx) as (j & more & w1 & Hj & He & Ea & _ & Ec & _ & Hold & Hnew & Hmore & _).
    assert (has_job j w) as Hjw by (by exists who). constructor; rewrite ?Ea, ?Ec.
    + intros j' [Hm|?]%Hnew Hs; [|by apply (se_jobs _ Hse)].
      destruct (job_scan _ _ _ _ _ _ j' He Hm Hs) as [Hj' ->]. by apply (se_jobs _ Hse).
    + intros u Hb. destruct (job_pods _ _ _ _ _ _ u He Hb) as [[Hs <-]|[Hb' Hne]]; [left; by apply (se_jobs _ Hse)|].
      destruct (se_pods _ Hse u Hb') as [?|Hm]; [by left|right]. destruct (Hold _ Hm) as [E|?]; [by rewrite E in Hne|done].
    + intros cg u Hb. destruct (job_cgroups _ _ _ _ _ _ cg u He Hb) as [[Hs <-]|[Hb' Hne]]; [left; by apply (se_jobs _ Hse)|].
      destruct (se_cgroups _ Hse cg u Hb') as [?|[Hm|[l Hm]]]; [by left| |].
      * right. destruct (Hold _ Hm) as [<-|?]; [|by left]. right. cbn in He. destruct He as (pids & _ & -> & _).
        exists pids. apply Hmore. by left.
      * right. right. exists l. destruct (Hold _ Hm) as [E|?]; [by destruct (Hne l)|done].
Qed.

Lemma calm_settled name w : calm name w -> settled w.
Proof.
  induction 1 as [|x w w' Hw IH Hu Hx]; [|eapply step_settled; [done..|by eapply reachable_watcher_ok, calm_reachable|done]].
  constructor; cbn.
  - intros j [[] Hj]; by apply not_elem_of_nil in Hj.
  - intros uid. rewrite lookup_empty. by intros [].
  - intros cg uid. by rewrite lookup_empty.
Qed.

(** An attribution that is found is one of a process or of a cgroup of its pod. *)
Lemma lookup_traces w a cg pid alive :
  watcher_ok w -> LookupByCgroup cg (attr w) = Some a \/ PodLookup alive pid (attr w) = Some a ->
  is_Some (aByPod (attr w) !! PodUID (aPod a)) \/ aByCgroup (attr w) !! cg = Some (PodUID (aPod a)).
Proof.
  intros Hok [Ha|Ha].
  - right. unfold LookupByCgroup in Ha. destruct (aByCgroup (attr w) !! cg) as [u|]; [|done]. cbn in Ha.
    destruct (aPodInfo (attr w) !! u) as [info|] eqn:E; [|done]. injection Ha as <-. cbn. f_equal. symmetry.
    destruct (ok_attr _ Hok) as (_ & _ & Hp). exact (Hp u info E).
  - left. destruct (ok_attr _ Hok) as (Hi & _ & _). pose proof (lookup_pid_spec alive pid _ _ Hi) as Hl.
    change (lookup_pid _ _ _ _) with (PodLookup alive pid (attr w)) in Hl. rewrite Ha in Hl. destruct Hl as (k & _ & He).
    apply (ok_listed _ Hok) in He. destruct (aByPod (attr w) !! PodUID (aPod a)); [by eexists|by apply not_elem_of_nil in He].
Qed.

End order.

(** ** Properties *)

(** C24: a watched process can be attributed. Whatever pods come and go and however the informer and the
    ticker interleave, if no PID leaves the registry between its registration and the call of OnWatch
    for it, then every PID the hooks have put under watch and not taken out again has a
    registered process, so its events resolve to a session, or one of the two goroutines is about
    to take it out. *)
Theorem watched_is_attributed `{MapOrder} (name : bytes) (w : NodeWatcher) (alive : Z -> bool) (pid : Z) :
  steady name w -> pid ∈ watched_pids (hooked w) ->
  is_Some (PodLookup alive pid (attr w)) \/
  exists who uid pids, pid ∈ pids /\ (ForgetCgroups uid pids ∈ informer w \/ CallHook uid (OnUnwatch pids) ∈ jobs who w).
Proof.
  intros Hw Hp. pose proof (reachable_watcher_ok name w (steady_reachable name w Hw)) as Hok.
  destruct (steady_watch_ok name w Hw pid Hp) as [(k & <- & a & Ha)|(j & Hj & Ht)].
  - left. destruct (ok_attr _ Hok) as (Hi & _ & _). pose proof (lookup_pid_spec alive k.1 _ _ Hi) as Hs.
    change (lookup_pid _ _ _ _) with (PodLookup alive k.1 (attr w)) in Hs. destruct (PodLookup alive k.1 (attr w)) as [b|]; [by eexists|].
    by rewrite (Hs k eq_refl) in Ha.
  - right. destruct j as [|uid [|pids|]| | |uid pids]; try done.
    + destruct Hj as [who Hj]. exists who, uid, pids. split; [done|by right].
    + exists Informer, uid, pids. split; [done|]. left. by apply has_job_informer.
Qed.

(** C40: a removed pod is forgotten. If no pod is removed while a rescan is working on it, then in
    every state in which the informer has finished its work, no PID and no cgroup resolves to a pod the
    watcher does not have, whatever the processes of the pod do. *)
Theorem removed_pod_forgotten `{MapOrder} (name : bytes) (w : NodeWatcher) (alive : Z -> bool) (pid cg : Z) (a : Attribution) :
  calm name w -> informer w = [] ->
  LookupByCgroup cg (attr w) = Some a \/ PodLookup alive pid (attr w) = Some a ->
  is_Some (containers w !! PodUID (aPod a)).
Proof.
  intros Hw Hi Ha. pose proof (calm_settled name w Hw) as Hse. pose proof (reachable_watcher_ok name w (calm_reachable name w Hw)) as Hok.
  assert (forall j, is_removal j = true -> ~ has_job j w) as Hno.
  { intros j Hs Hj. apply has_job_informer in Hj; [|done..]. rewrite Hi in Hj. by apply not_elem_of_nil in Hj. }
  destruct (lookup_traces w a cg pid alive Hok Ha) as [Hu|Hu].
  - destruct (se_pods _ Hse _ Hu) as [?|Hj]; [done|by apply Hno in Hj].
  - destruct (se_cgroups _ Hse _ _ Hu) as [?|[Hj|[l Hj]]]; [done|by apply Hno in Hj..].
Qed.

(** ** Witnesses and examples *)

#[local] Instance watch_order : MapOrder := listed_order.

Definition demo_pod (uid : string) (digit : string) : Pod := {|
  podUID := gostr uid; podNamespace := gostr "default"; podName := gostr uid; podNodeName := gostr "node";
  ContainerStatuses := [gostr "containerd://" ++ mjoin (replicate 64 (gostr digit))]; InitContainerStatuses := [];
  EphemeralContainerStatuses := [] |}.
Arguments demo_pod (uid digit)%_string.

(** A process of the container named with [digit], with its start time in ticks. *)
Definition demo_process (pid digit start : string) : ProcEntry := {|
  peName := gostr pid; peIsDir := true; peCgroup := Some (gostr "0::/kubepods/crio-" ++ mjoin (replicate 64 (gostr digit)));
  peStat := Some (gostr "1 (sh) S 1 2 3 4 5 6 7 8 9 10 11 12 13 14 15 16 17 18 " ++ gostr start) |}.
Arguments demo_process (pid digit start)%_string.

Definition seeing (l : list ProcEntry) : view := {| dir := Some l; clock_now := 0; cgroup_of := λ pid, Some (1000 + pid) |}.

Definition pod_a : list ProcEntry := [demo_process "7" "a" "100"].

(** The pod is added and its process found. *)
Definition demo_watch : list watcher_step :=
  Upsert (demo_pod "a" "a") :: replicate 4 (Work Informer 0 (seeing pod_a)).

Definition node : NodeWatcher := NewNodeWatcher (gostr "node").
Definition watcher_after (xs : list watcher_step) : NodeWatcher := default node (watcher_run xs node).

Lemma run_calm xs w w' : calm (gostr "node") w -> forallb (λ x, match x with Remove _ => false | _ => true end) xs = true ->
  watcher_run xs w = Some w' -> calm (gostr "node") w'.
Proof.
  revert w. induction xs as [|x xs IH]; intros w Hw; cbn [forallb watcher_run]; [by intros _ [= <-]|].
  intros [Hx Hxs]%andb_true_iff. destruct (watcher_do x w) as [w1|] eqn:E; [|done]. apply IH; [|done].
  eapply calm_step; [exact Hw| |exact E]. by destruct x.
Qed.

Lemma demo_calm : calm (gostr "node") (watcher_after demo_watch).
Proof. apply (run_calm demo_watch node); [apply calm_new|reflexivity|vm_compute; reflexivity]. Qed.

(** Each state of a run before its last step. *)
Definition prompt_b w : bool :=
  forallb (λ j, match j with
                | CallHook _ (OnWatch pids) => forallb (λ pid, bool_decide (pid ∈ map fst (map fst (map_to_list (aEntries (attr w)))))) pids
                | _ => true
                end) (informer w ++ ticker w).

Lemma prompt_b_spec w : prompt_b w = true -> prompt w.
Proof.
  intros Hb uid pids pid Hj Hp. unfold prompt_b in Hb. rewrite forallb_forall in Hb.
  assert (CallHook uid (OnWatch pids) ∈ informer w ++ ticker w) as Hin by (destruct Hj as [[] Hj]; apply elem_of_app; [by left|by right]).
  apply list_elem_of_In, Hb in Hin. rewrite forallb_forall in Hin. apply list_elem_of_In, Hin, bool_decide_eq_true in Hp.
  apply list_elem_of_fmap in Hp as (k & -> & ([k' a] & -> & Hk)%list_elem_of_fmap). apply elem_of_map_to_list in Hk.
  exists k'. split; [done|by eexists].
Qed.

Fixpoint prompt_run (xs : list watcher_step) w : bool :=
  match xs with [] => true | x :: xs => prompt_b w && match watcher_do x w with Some w => prompt_run xs w | None => true end end.

Lemma run_steady xs w w' : steady (gostr "node") w -> prompt_run xs w = true -> watcher_run xs w = Some w' -> steady (gostr "node") w'.
Proof.
  revert w. induction xs as [|x xs IH]; intros w Hw; cbn [prompt_run watcher_run]; [by intros _ [= <-]|].
  intros [Hx Hxs]%andb_true_iff. destruct (watcher_do x w) as [w1|] eqn:E; [|done]. apply IH; [|done].
  eapply steady_step; [exact Hw|by apply prompt_b_spec|exact E].
Qed.

Lemma demo_steady : steady (gostr "node") (watcher_after demo_watch).
Proof. apply (run_steady demo_watch node); [apply steady_new|vm_compute; reflexivity|vm_compute; reflexivity]. Qed.

Lemma demo_watched : 7 ∈ watched_pids (hooked (watcher_after demo_watch)).
Proof. apply (bool_decide_unpack _). vm_compute. reflexivity. Qed.

Example watched_is_attributed_witness :
  is_Some (PodLookup (λ _, true) 7 (attr (watcher_after demo_watch))) \/
  exists who uid pids, 7 ∈ pids /\ (ForgetCgroups uid pids ∈ informer (watcher_after demo_watch) \/
    CallHook uid (OnUnwatch pids) ∈ jobs who (watcher_after demo_watch)).
Proof.
  exact (watched_is_attributed (gostr "node") (watcher_after demo_watch) (λ _, true) 7 demo_steady demo_watched).
Defined.

Definition pod_a_found : Attribution :=
  default {| aSessionID := []; aPod := pod_context (no_info []); aContainerID := [] |} (PodLookup (λ _, true) 7 (attr (watcher_after demo_watch))).

Lemma demo_found : PodLookup (λ _, true) 7 (attr (watcher_after demo_watch)) = Some pod_a_found.
Proof. vm_compute. reflexivity. Qed.

Lemma demo_idle : informer (watcher_after demo_watch) = [].
Proof. vm_compute. reflexivity. Qed.

Example removed_pod_forgotten_witness : is_Some (containers (watcher_after demo_watch) !! PodUID (aPod pod_a_found)).
Proof.
  exact (removed_pod_forgotten (gostr "node") (watcher_after demo_watch) (λ _, true) 7 0 pod_a_found demo_calm demo_idle (or_intror demo_found)).
Defined.

(** A removal while a rescan is working on the pod: its process, still there, is registered and
    watched again, and no later rescan takes it out. *)
Definition race : list watcher_step :=
  demo_watch ++ Tick 0 :: Remove (gostr "a") :: replicate 3 (Work Informer 0 (seeing [])) ++
  replicate 4 (Work Ticker 0 (seeing pod_a)) ++ [Tick 0].

Example removed_pod_comes_back :
  let w := watcher_after race in
  map_to_list (containers w) = [] /\ informer w = [] /\ ticker w = [] /\
  aSessionID <$> PodLookup (λ _, true) 7 (attr w) = Some (gostr "k8s:a") /\ aSessionID <$> LookupByCgroup 1007 (attr w) = Some (gostr "k8s:a") /\
  watched_pids (hooked w) = {[7]}.
Proof. split_and!; vm_compute; reflexivity. Qed.

(** A removal between the registration of a process and the call of OnWatch for it: the process stays under
    watch and no lookup finds it. *)
Definition late_watch : list watcher_step :=
  Upsert (demo_pod "a" "a") :: replicate 2 (Work Informer 0 (seeing [])) ++ Tick 0 :: Work Ticker 0 (seeing pod_a) ::
  Remove (gostr "a") :: replicate 3 (Work Informer 0 (seeing [])) ++ replicate 3 (Work Ticker 0 (seeing [])).

Example watched_unregistered :
  let w := watcher_after late_watch in
  watched_pids (hooked w) = {[7]} /\ PodLookup (λ _, true) 7 (attr w) = None /\ informer w = [] /\ ticker w = [].
Proof. split_and!; vm_compute; reflexivity. Qed.

(** A PID passes from one pod to another: the rescan of the first unwatches what that of the second has just put under watch. *)
Definition passed_on : list ProcEntry := [demo_process "7" "b" "200"].

Definition reuse : list watcher_step :=
  demo_watch ++ Upsert (demo_pod "b" "b") :: replicate 4 (Work Informer 0 (seeing passed_on)) ++
  Tick 0 :: replicate 5 (Work Ticker 0 (seeing passed_on)).

Example reused_pid_unwatched :
  let w := watcher_after reuse in
  aSessionID <$> PodLookup (λ _, true) 7 (attr w) = Some (gostr "k8s:b") /\ watched_pids (hooked w) = ∅.
Proof. split_and!; vm_compute; reflexivity. Qed.
