(* ===== verification/Deploy.v ===== *)
(** * cmd/interlock/main.go: the sensor wired to the engine

    The handlers the two modes give the sensor, the resolution of the processes to kill, the
    breaker's transition callback, and what a running sensor deployment does: turns of its read
    loops interleaved with the pod watcher, the taint bridge and the operator. *)

From S2P Require Import Prelude Go GoTime Config GoStrings Encodings Json NetIP Kernel Loader LoaderMaps ProbeSpec Breaker.
From S2P Require Import Model Store Tagger Egress Regex Taint Overlap Container Match Engine EngineFacts Sensor Attribution Proc.

(** The engine and the registry of pods the handler's closure shares. *)
Record Host := { hEngine : World; hPods : PodAttribution }.

Definition set_session (id : bytes) (pod : PodContext) (ev : SyscallEvent) : SyscallEvent := {|
  seTSMono := seTSMono ev; sePID := sePID ev; seTID := seTID ev; seComm := seComm ev; seSyscall := seSyscall ev;
  seDestIP := seDestIP ev; seDestPort := seDestPort ev; seAllowlisted := seAllowlisted ev; sePath := sePath ev;
  sePayloadExcerpt := sePayloadExcerpt ev; seSessionID := id; seCgroupID := seCgroupID ev; sePod := Some pod;
  seFileContents := seFileContents ev |}.

Definition set_contents (contents : bytes) (ev : SyscallEvent) : SyscallEvent := {|
  seTSMono := seTSMono ev; sePID := sePID ev; seTID := seTID ev; seComm := seComm ev; seSyscall := seSyscall ev;
  seDestIP := seDestIP ev; seDestPort := seDestPort ev; seAllowlisted := seAllowlisted ev; sePath := sePath ev;
  sePayloadExcerpt := sePayloadExcerpt ev; seSessionID := seSessionID ev; seCgroupID := seCgroupID ev;
  sePod := sePod ev; seFileContents := contents |}.

(** What the handler asks of the node: whether a PID is alive, and its files. *)
Class Node := {
  alive : Z -> bool;
  node_files : files
}.

Section externals.

Context `{Compressors} `{MathLog2} `{Floats} `{Archives} `{Clock} `{MapOrder} `{UnicodeLower} `{Node}.
Context (e : Engine) (sink audit : bool).

(** ** The sensor mode *)

Definition attributed (pods : PodAttribution) (ev : SyscallEvent) : SyscallEvent :=
  let ev := if negb (seCgroupID ev =? 0) then
              match LookupByCgroup (seCgroupID ev) pods with
              | Some a => set_session (aSessionID a) (aPod a) ev
              | None => ev
              end
            else ev in
  match seSessionID ev with
  | [] => match PodLookup alive (sePID ev) pods with
          | Some a => set_session (aSessionID a) (aPod a) ev
          | None => ev
          end
  | _ => ev
  end.

Definition seeded (pods : PodAttribution) (ev : SyscallEvent) : SyscallEvent :=
  if bool_decide (seSyscall ev = openat) && negb (bool_decide (sePath ev = [])) && negb (bool_decide (seSessionID ev = [])) then
    let pids := match NodePIDsForCgroup (seCgroupID ev) pods with [] => [sePID ev] | pids => pids end in
    match ReadContainerFile node_files pids (sePath ev) with
    | Some contents => set_contents contents ev
    | None => ev
    end
  else ev.

Definition sensor_handler (ev : SyscallEvent) (h : Host) : option Decision * Host :=
  let ev := seeded (hPods h) (attributed (hPods h) ev) in
  let '(d, w) := IngestSyscallSensor e sink audit ev (hEngine h) in
  (Some d, {| hEngine := w; hPods := hPods h |}).

(** [sensor.SetKillResolver(...)] *)
Definition sensor_kill_resolver (cgroupID bpfPID : Z) (h : Host) : list Z :=
  match NodePIDsForCgroup cgroupID (hPods h) with [] => [bpfPID] | pids => pids end.

(** The engine of this model does not panic, so what OnHandlerPanic would do plays no part. *)
Definition sensor_hooks : Hooks Host := {|
  handler := Some sensor_handler; killResolver := Some sensor_kill_resolver; OnHandlerPanic := None |}.

(** ** The proxy mode *)

Definition proxy_attributed (registry : PIDRegistry) (ev : SyscallEvent) : SyscallEvent :=
  match seSessionID ev with
  | [] =>
      match PIDLookup alive (sePID ev) registry with
      | Some entry => {|
          seTSMono := seTSMono ev; sePID := sePID ev; seTID := seTID ev; seComm := seComm ev;
          seSyscall := seSyscall ev; seDestIP := seDestIP ev; seDestPort := seDestPort ev;
          seAllowlisted := seAllowlisted ev; sePath := sePath ev; sePayloadExcerpt := sePayloadExcerpt ev;
          seSessionID := peSessionID entry; seCgroupID := seCgroupID ev; sePod := sePod ev;
          seFileContents := seFileContents ev |}
      | None => ev
      end
  | _ => ev
  end.

Definition proxy_handler (ev : SyscallEvent) (h : World * PIDRegistry) : option Decision * (World * PIDRegistry) :=
  let '(d, w) := IngestSyscall e sink audit (proxy_attributed h.2 ev) h.1 in (Some d, (w, h.2)).

Definition proxy_hooks : Hooks (World * PIDRegistry) := {|
  handler := Some proxy_handler; killResolver := None; OnHandlerPanic := None |}.

(** ** Fail-closed *)

Context `{SensorClock} `{KeyOrder} `{BpfMap}.

(** The sensor's part of [breaker.OnTransition]; an error is logged. *)
Definition on_transition {W : Type} (tripped : bool) : SM (W := W) unit :=
  enforced ← LSMEnforced;
  if enforced : bool then _ ← sattempt (SetFailClosedActive tripped); mret tt else mret tt.

(** ** A running sensor deployment *)

Inductive activity :=
  | Read (k : ring) (record : bytes)
  | Pods (c : pod_call)
  | BridgeTaint (podUID : bytes) (tv : TaintedValue)
  | BridgeUntrusted (podUID source : bytes) (seq : Z)
  | Watch (pids cgroups : list Z)
  | Unwatch (pids cgroups : list Z)
  | Transition (tripped : bool)
  | Allowlist (entries : list bytes)
  | SensitivePaths (paths : list bytes).

(** A message of the taint bridge, handled by the engine. *)
Definition bridge (m : Engine.M unit) : SM (W := Host) unit :=
  modify (λ s, set_world {| hEngine := (m (hEngine (world s))).2; hPods := hPods (world s) |} s).

Definition perform_activity (a : activity) : SM (W := Host) unit :=
  match a with
  | Read k record => readLoop sensor_hooks k record
  | Pods c => modify (λ s, set_world {| hEngine := hEngine (world s); hPods := perform_pod c (hPods (world s)) |} s)
  | BridgeTaint uid tv => bridge (RegisterRemoteTaint e (SessionIDForPod uid) tv)
  | BridgeUntrusted uid source seq => bridge (RegisterRemoteUntrusted e (SessionIDForPod uid) source seq)
  | Watch pids cgroups => _ ← AddPIDs pids; AddCgroupIDs cgroups
  | Unwatch pids cgroups => _ ← RemovePIDs pids; RemoveCgroupIDs cgroups
  | Transition tripped => on_transition tripped
  | Allowlist entries => UpdateAllowlist entries
  | SensitivePaths paths => UpdateSensitivePaths paths
  end.

(** The activities one after the other, an error of one not stopping the next. *)
Fixpoint deployed (acts : list activity) (s : Sensor Host) : Sensor Host :=
  match acts with
  | [] => s
  | a :: acts => deployed acts (perform_activity a s).2
  end.

(** A deployment starts with an empty engine and no pods. *)
Definition start_sensor (l : Loader) (allowedIPs sensitivePaths : list bytes) : Sensor Host :=
  NewSensor l allowedIPs sensitivePaths {| hEngine := {| store := NewSessionStore; tick := 0; out := [] |}; hPods := NewPodAttribution |}.

End externals.
