(* ===== verification/DeployTheorems.v ===== *)
(** * From a kernel record to containment

    The sensor, the engine behind it and the LSM hook in front of the next connect, together:
    no force without proof, and proof is followed by force. *)

From S2P Require Import Prelude Go GoTime Config GoStrings Encodings Json NetIP CLayout Vmlinux Kernel Probes KernelAbi ProbeFacts.
From S2P Require Import Model Store Tagger Egress EgressTheorems Regex Taint TaintTheorems Overlap OverlapTheorems Container.
From S2P Require Import Match Carried Engine EngineFacts Demo EngineRuns EngineInvariants EngineTheorems ExfilKernel.
From S2P Require Import Loader LoaderMaps LoaderTheorems ProbeSpec KernelTheorems Breaker Sensor SensorTheorems FailClosedTheorems.
From S2P Require Import Attribution Deploy.

Section externals.

Context `{Compressors} `{MathLog2} `{Floats} `{Archives} `{Clock} `{MapOrder} `{UnicodeLower} `{Node}.
Context `{SensorClock} `{KeyOrder} `{BpfMap}.
Context (e : Engine) (sink audit : bool).
Implicit Types (s : Sensor Host) (ev : SyscallEvent).

Abbreviation hooks := (sensor_hooks e sink audit).

(** ** Reachable hosts *)

Definition host_ok (h : Host) : Prop := store_ok (store (hEngine h)) /\ pods_ok (hPods h).

Lemma ingest_ok ev w : store_ok (store w) -> store_ok (store (IngestSyscallSensor e sink audit ev w).2).
Proof.
  intros Hw. destruct (perform_confined e sink audit (CallIngestSyscallSensor ev) w Hw) as [Hok _].
  unfold perform, mbind, Engine.M_bind in Hok. by destruct (IngestSyscallSensor e sink audit ev w).
Qed.

Lemma handler_ok ev h : host_ok h -> host_ok (sensor_handler e sink audit ev h).2.
Proof.
  intros [Hw Hp]. unfold sensor_handler. pose proof (ingest_ok (seeded (hPods h) (attributed (hPods h) ev)) _ Hw) as Hok.
  destruct (IngestSyscallSensor _ _ _ _ (hEngine h)). by split.
Qed.

Lemma told_ok ev h : host_ok h -> host_ok (told hooks ev h).
Proof.
  intros Hh. unfold told. cbn [handler sensor_hooks]. pose proof (handler_ok ev h Hh) as Hok.
  unfold sensor_handler in *. by destruct (IngestSyscallSensor _ _ _ _ (hEngine h)).
Qed.

(** ** What the activities do to the host *)

Definition host_keeps {A} (m : SM (W := Host) A) : Prop := forall s, host_ok (world s) -> host_ok (world (m s).2).

Lemma same_world_host {A} (m : SM (W := Host) A) : keeps same_world m -> host_keeps m.
Proof. intros Hm s Hs. by rewrite (Hm s). Qed.

Lemma modify_world f : (forall s : Sensor Host, world (f s) = world s) -> keeps same_world (modify f).
Proof. intros Hf s. apply Hf. Qed.

Lemma loader_world {A} (m : LoaderMaps.M A) : keeps (same_world (W := Host)) (on_loader m).
Proof. by apply keeps_on_loader. Qed.

Lemma order_world {A} (m : gmap Z A) : keeps (same_world (W := Host)) (in_order m).
Proof. by intros s. Qed.

#[local] Existing Instance same_world_preorder.
#[local] Hint Resolve loader_world order_world : keeps.

Lemma transition_world tripped : keeps (same_world (W := Host)) (on_transition tripped).
Proof. unfold on_transition, SetFailClosedActive, keys_of, LSMEnforced. keeps; by apply modify_world. Qed.

Lemma watch_world pids cgroups : keeps (same_world (W := Host)) (_ ← AddPIDs pids; AddCgroupIDs cgroups).
Proof. unfold AddPIDs, AddCgroupIDs, noteFailClosedWatch, LSMEnforced. keeps; by apply modify_world. Qed.

Lemma unwatch_world pids cgroups : keeps (same_world (W := Host)) (_ ← RemovePIDs pids; RemoveCgroupIDs cgroups).
Proof. unfold RemovePIDs, RemoveCgroupIDs, clearFailClosedBookkeeping. keeps; by apply modify_world. Qed.

Lemma perform_activity_ok a : host_keeps (perform_activity e sink audit a).
Proof.
  destruct a as [k record|c|uid tv|uid source seq|pids cgroups|pids cgroups|tripped|entries|paths]; cbn [perform_activity].
  - intros s Hs. destruct (read_cases hooks k record s) as [[_ [->|(ev & _ & ->)]]|(h & ev & d & w & _ & Eh & Ed & _ & ->)];
      [done|by apply told_ok|]. injection Eh as <-. pose proof (handler_ok ev (world s) Hs) as Hok. by rewrite Ed in Hok.
  - intros s [Hw Hp]. split; [done|by apply perform_pod_ok].
  - intros s [Hw Hp]. split; [|done]. by apply (perform_confined e sink audit (CallRemoteTaint (SessionIDForPod uid) tv)).
  - intros s [Hw Hp]. split; [|done]. by apply (perform_confined e sink audit (CallRemoteUntrusted (SessionIDForPod uid) source seq)).
  - apply same_world_host, watch_world.
  - apply same_world_host, unwatch_world.
  - apply same_world_host, transition_world.
  - by intros s.
  - by intros s.
Qed.

Lemma deployed_ok acts s : host_ok (world s) -> host_ok (world (deployed e sink audit acts s)).
Proof. revert s. induction acts as [|a acts IH]; intros s Hs; cbn [deployed]; [done|]. by apply IH, perform_activity_ok. Qed.

Lemma start_host l allow paths : host_ok (world (start_sensor l allow paths)).
Proof. split; [apply NewSessionStore_ok|apply (pods_after_ok [])]. Qed.

(** ** Force means proof *)

(** An event whose handler answer is ActionContained is no report of the LSM hook, and its
    verdict is EXFIL. *)
Lemma contained_exfil ev w :
  store_ok (store w) -> let d := (IngestSyscallSensor e sink audit ev w).1 in
  dAction d = ActionContained -> seSyscall ev ≠ lsm_deny /\ dVerdict d = VerdictExfil.
Proof.
  intros Hw d Hd. destruct (decide (seSyscall ev = lsm_deny)) as [El|El].
  - exfalso. unfold d, IngestSyscallSensor in Hd. rewrite decide_True in Hd by done. revert Hd.
    unfold ingestLSMDeny. destruct (seSessionID ev) as [|c id].
    + by destruct audit.
    + unfold get_session, mbind, Engine.M_bind. cbn [fst snd]. destruct (Get _ _) as [st|]; [|done].
      case_decide; [|done]. destruct (buildLSMDenyEvidence st ev w) as [rec w']. by destruct sink.
  - split; [done|]. destruct (seSessionID ev) as [|c id] eqn:Eid.
    { destruct (unattributed_allowed e sink audit ev w El Eid) as [_ E]. unfold d in Hd. by rewrite E in Hd. }
    destruct (decide (seSyscall ev = openat)) as [Eo|Eo].
    { exfalso. revert Hd. unfold d, IngestSyscallSensor. rewrite decide_False, Eid by done.
      destruct (decide (seSyscall ev = openat)); [|done]. unfold mbind, Engine.M_bind.
      destruct (get_or_create (c :: id) w) as [st w1], (touch e 0 [] st w1) as [st2 w2].
      by destruct (seedSensorSensitiveOpen e st2 ev w2). }
    destruct (sensor_runs e sink audit ev w Hw El Eo ltac:(congruence)) as (S & S' & l & _ & _ & _ & S1 & S2 & o & ab & _ & _ & Hk).
    fold d in Hk. destruct Hk as [|v c' allow a rec reason _ Ha _]; [done|]. cbn in Hd |- *. subst a.
    unfold variantBAction in Ha. by case_decide.
Qed.

(** What the handler makes of an event before the engine sees it. *)
Definition handled (h : Host) ev : SyscallEvent := seeded (hPods h) (attributed (hPods h) ev).

Lemma handler_decision ev h :
  (sensor_handler e sink audit ev h).1 = Some (IngestSyscallSensor e sink audit (handled h ev) (hEngine h)).1.
Proof. unfold sensor_handler, handled. by destruct (IngestSyscallSensor _ _ _ _ (hEngine h)). Qed.

Lemma read_force k record s :
  host_ok (world s) -> let s' := (readLoop hooks k record s).2 in
  signals s' ≠ signals s \/ loader s' ≠ loader s ->
  exists ev0, reported record ev0 /\
    let ev := handled (world s) ev0 in let d := (IngestSyscallSensor e sink audit ev (hEngine (world s))).1 in
    seSyscall ev ≠ lsm_deny /\ dVerdict d = VerdictExfil.
Proof.
  intros [Hw _] s' Hf. destruct (read_cases hooks k record s) as [[[Hs Hl] _]|(h & ev & d & w & Hev & Eh & Ed & Hd & _)].
  { fold s' in Hs, Hl. tauto. }
  exists ev. split; [done|]. injection Eh as <-. pose proof (handler_decision ev (world s)) as Hdec. rewrite Ed in Hdec.
  injection Hdec as ->. by apply contained_exfil.
Qed.

(** ** Proof is followed by force *)

(** An event of a session is scanned with its own payload. *)
Lemma own_payload n now ev st :
  buffered ev = true -> seSyscall ev ≠ dns -> len (sePayloadExcerpt ev) <= flow_bytes e ->
  infix (sePayloadExcerpt ev) (egressCandidatePayload e n now ev st).1.
Proof.
  intros Hb Hd Hl.
  assert (normalizedEgressFragment ev = sePayloadExcerpt ev) as En.
  { unfold normalizedEgressFragment. by rewrite (bool_decide_eq_false_2 _ Hd). }
  destruct (egressReassemblyEnabled e) eqn:Ee.
  - pose proof (candidate_buffered e n now ev st Hb Ee) as Hc. cbn zeta in Hc. rewrite En in Hc.
    destruct (egressFlowKey ev) as [key dest]. destruct Hc as [_ Hi]. eapply infix_trans; [|exact Hi].
    destruct (appendFlow_last e (S n) (EgressPIDFlows st) (Itoa (sePID ev)) (sePID ev) [x2a] (sePayloadExcerpt ev)
      (egressEventTime ev now) Hl) as (f & pre & _ & Hch & _ & ->).
    rewrite Hch, join_app. exists (mjoin pre), []. cbn. by rewrite !app_nil_r.
  - unfold buffered in Hb. unfold egressCandidatePayload. destruct (bool_decide (seSyscall ev = openat)); [done|].
    destruct (bool_decide (sePayloadExcerpt ev = [])) eqn:Ep; [done|]. cbn [orb]. rewrite En, Ee.
    destruct (sePayloadExcerpt ev) as [|c l] eqn:El; [done|]. rewrite bool_decide_eq_false_2 by tauto. apply infix_refl.
Qed.

(** A payload that contains a form of a value registered in the event's session is contained. *)
Lemma own_payload_exfil ev w S tv v :
  store_ok (store w) -> seSessionID ev ≠ [] -> store w !! seSessionID ev = Some S ->
  tv ∈ Tainted S -> v ∈ forms_of tv ++ Chunks tv -> vValue v ≠ [] -> infix (vValue v) (sePayloadExcerpt ev) ->
  seSyscall ev ≠ lsm_deny -> seSyscall ev ≠ openat -> seSyscall ev ≠ dns -> len (sePayloadExcerpt ev) <= flow_bytes e ->
  let d := (IngestSyscallSensor e sink audit ev w).1 in dVerdict d = VerdictExfil /\ dAction d = ActionContained.
Proof.
  intros Hw Hid HS Htv Hv Hne Hi El Eo Ed Hlen d.
  destruct (sensor_runs e sink audit ev w Hw El Eo Hid) as (S0 & S' & l & HS0 & _ & _ & S1 & S2 & o & ab & Hn & Hsc & Hk).
  fold d in Hk. destruct HS0 as [HS0|[HS0 _]]; [|congruence]. rewrite HS in HS0. injection HS0 as <-.
  pose proof (noted_same e _ _ Hn) as (_ & HT1 & _). pose proof (scanned_same _ _ _ _ _ _ Hsc) as [HT2 _].
  assert (sePayloadExcerpt ev ≠ []) as Hp.
  { intros E. rewrite E in Hi. destruct Hi as (x & y & E'). destruct x; [|done]. by destruct (vValue v). }
  assert (buffered ev = true) as Hb.
  { unfold buffered, normalizedEgressFragment. rewrite (bool_decide_eq_false_2 _ Ed). cbn [negb].
    by rewrite (bool_decide_eq_false_2 _ Eo), (bool_decide_eq_false_2 _ Hp). }
  assert (exists h, o = Some h) as [h ->].
  { destruct Hsc as [[E|E]|n now tick payload S2 o ab k _ Hc Hcheck]; [done|done|].
    pose proof (own_payload n now ev S1 Hb Ed Hlen) as Hin. rewrite Hc in Hin. cbn [fst] in Hin.
    destruct (checkOverlapString_hit (Tainted S2) tv v payload ltac:(congruence) Hv Hne ltac:(by eapply infix_trans)) as [h Hh].
    rewrite (CheckPayload_string _ _ _ _ _ _ Hh) in Hcheck. injection Hcheck as <- _ _. by eexists. }
  destruct Hk as [Hc|v' c allow a rec reason Hc Ha Hr]; [done|].
  injection Hc as <- <-. unfold variantBAction in Ha. rewrite decide_True in Ha by done. by injection Ha as <- <-.
Qed.

(** ** The blocklists hold ones *)

Definition ones_rel s s' : Prop := blocklists_ok (maps (loader s)) -> blocklists_ok (maps (loader s')).

#[local] Instance ones_rel_preorder : PreOrder ones_rel.
Proof. split; [by intros s ?|]. intros s1 s2 s3 H12 H23 Hs. by apply H23, H12. Qed.

Lemma ones_on_loader {A} (m : LoaderMaps.M A) : writes_ones m -> keeps ones_rel (on_loader m).
Proof. intros Hm s Hs. unfold on_loader. specialize (Hm (loader s) Hs). by destruct (m (loader s)). Qed.

Lemma ones_modify f : (forall s : Sensor Host, loader (f s) = loader s) -> keeps ones_rel (modify f).
Proof. intros Hf s Hs. cbn. by rewrite Hf. Qed.

Lemma ones_order {A} (m : gmap Z A) : keeps ones_rel (in_order m).
Proof. by intros s ?. Qed.

Lemma ones_enforced : keeps ones_rel LSMEnforced.
Proof. unfold LSMEnforced. apply ones_on_loader. by apply ones_same. Qed.

#[local] Hint Resolve ones_order ones_enforced : keeps.
#[local] Hint Resolve ones_Quarantine ones_Unquarantine ones_QuarantineAllWatched ones_UnquarantineWatched
  ones_ListQuarantined ones_ListWatched : keeps.
#[local] Hint Extern 1 (keeps ones_rel (on_loader _)) => apply ones_on_loader : keeps.
#[local] Hint Extern 1 (keeps ones_rel (modify _)) => by apply ones_modify : keeps.

Lemma ones_arm pid fd ip port : keeps ones_rel (arm pid fd ip port).
Proof. intros s Hs. by destruct (arms_arm pid fd ip port s) as [-> _]. Qed.

Lemma ones_armed pid fd : keeps ones_rel (armed pid fd).
Proof. intros s Hs. unfold armed. by destruct (arms_armed_in pid [fd; anyFD] s) as [-> _]. Qed.

Lemma ones_call ev : keeps ones_rel (callHandler hooks ev).
Proof. intros s Hs. by rewrite callHandler_world. Qed.

#[local] Hint Resolve ones_arm ones_armed ones_call : keeps.

Lemma ones_contain cg pid : keeps ones_rel (contain hooks cg pid).
Proof. unfold contain, containPIDs, KillProcess, Sensor.Quarantine. keeps. Qed.

#[local] Hint Resolve ones_contain : keeps.

Lemma ones_read k record : keeps ones_rel (readLoop hooks k record).
Proof.
  destruct k; cbv [readLoop readLoopRoutine readLoopCritical turn dispatch_routine dispatch_critical];
    destruct (decodeRingEvent record) as [raw|err|]; try (by intros s ?).
  - unfold handleConnect, handleOpenat, containPIDs, KillProcess. keeps.
  - unfold handleWrite, handleSendto, handleLSMDeny. keeps.
Qed.

Lemma ones_activity a : keeps ones_rel (perform_activity e sink audit a).
Proof.
  destruct a; cbn [perform_activity]; [by apply ones_read|..];
    unfold bridge, AddPIDs, AddCgroupIDs, RemovePIDs, RemoveCgroupIDs, noteFailClosedWatch, clearFailClosedBookkeeping,
      on_transition, SetFailClosedActive, keys_of, UpdateAllowlist, UpdateSensitivePaths;
    keeps; apply ones_on_loader, ones_watch.
Qed.

Lemma deployed_ones acts s : ones_rel s (deployed e sink audit acts s).
Proof. revert s. induction acts as [|a acts IH]; intros s; cbn [deployed]; [done|]. etrans; [apply ones_activity|apply IH]. Qed.

(** ** The records of writes *)

Definition write_named (m : go RingEvent) : Prop :=
  match m with
  | Ret raw => forall w, re_Write raw = Some w \/ re_Writev raw = Some w ->
                 write_syscall w ∈ [gostr "write"; gostr "writev"; gostr "sendmsg"]
  | _ => True
  end.

Lemma named_bind {A} (m : go A) (f : A -> go RingEvent) : (forall a, write_named (f a)) -> write_named (a ← m; f a).
Proof. intros Hf. destruct m; cbn; auto. Qed.

Lemma named_other raw : re_Write raw = None -> re_Writev raw = None -> write_named (Ret raw).
Proof. intros E1 E2 w. rewrite E1, E2. by intros [[=]|[=]]. Qed.

Lemma named_write name w : name ∈ [gostr "write"; gostr "writev"; gostr "sendmsg"] -> name ≠ [] ->
  write_named (Ret (ring_write (we_set_Syscall name w))) /\ write_named (Ret (ring_writev (we_set_Syscall name w))).
Proof.
  intros Hn Hne. split; intros w'; cbn; intros [[= <-]|[= <-]]; unfold write_syscall; cbn [we_Syscall we_set_Syscall];
    by destruct name.
Qed.

Lemma decode_named record : write_named (decodeRingEvent record).
Proof.
  assert (forall w, write_named (Ret (ring_write (we_set_Syscall (gostr "write") w)))) as H1' by (intros; apply named_write; [set_solver|done]).
  assert (forall w, write_named (Ret (ring_writev (we_set_Syscall (gostr "writev") w)))) as H2' by (intros; apply named_write; [set_solver|done]).
  assert (forall w, write_named (Ret (ring_write (we_set_Syscall (gostr "sendmsg") w)))) as H3' by (intros; apply named_write; [set_solver|done]).
  unfold decodeRingEvent, decodeConnect, decodeOpenat, decodeLSMDeny. cbv zeta.
  repeat first [apply named_bind; intros ?|exact I|apply H1'|apply H2'|apply H3'|by apply named_other|case_match].
Qed.

Lemma written_syscall record raw w pc :
  decodeRingEvent record = Ret raw -> re_Write raw = Some w \/ re_Writev raw = Some w ->
  seSyscall (written_event w pc) ∉ [lsm_deny; openat; dns].
Proof.
  intros Hr Hw. pose proof (decode_named record) as Hn. rewrite Hr in Hn. specialize (Hn w Hw). cbn [seSyscall written_event].
  revert Hn. generalize (write_syscall w). intros name Hn Hin.
  repeat (apply elem_of_cons in Hn as [->|Hn];
    [repeat (apply elem_of_cons in Hin as [Hin|Hin]; [discriminate Hin|]); by apply elem_of_nil in Hin|]).
  by apply elem_of_nil in Hn.
Qed.

(** The read loop hands a write record to handleWrite. *)
Lemma read_write k record raw w s :
  decodeRingEvent record = Ret raw -> re_Write raw = Some w \/ re_Writev raw = Some w -> k = Critical ->
  (readLoop hooks k record s).2 = (handleWrite hooks w s).2.
Proof.
  intros Hr Hw ->. pose proof (decode_kind record) as Hk. unfold safe_event in Hk. rewrite Hr in Hk.
  cbv [readLoop readLoopCritical turn]. rewrite Hr.
  assert (forall (f : unit -> SM (W := Host) unit), (forall s', (f tt s').2 = s') -> ((handleWrite hooks w ≫= f) s).2 = (handleWrite hooks w s).2) as Hb.
  { intros f Hf. unfold mbind, SM_bind. destruct (handleWrite hooks w s) as [[[]|err|] s']; [apply Hf|done..]. }
  destruct raw as [[c|] [w1|] [wv|] [t|] [m|] [o|] [l|]], Hk as [k' Hk]; cbn in Hk; try discriminate Hk; destruct Hw as [[=]|[=]]; subst;
    cbv [dispatch_critical when re_Write re_Writev re_Sendto re_Sendmsg re_LSMDeny]; rewrite ?ret_bind; by apply Hb.
Qed.

Lemma handled_write h ev a :
  seCgroupID ev ≠ 0 -> LookupByCgroup (seCgroupID ev) (hPods h) = Some a -> seSyscall ev ≠ openat ->
  handled h ev = set_session (aSessionID a) (aPod a) ev /\ aSessionID a ≠ [].
Proof.
  intros Hc Ha Ho.
  assert (aSessionID a ≠ []) as Hs.
  { unfold LookupByCgroup in Ha. destruct (aByCgroup (hPods h) !! _); [|done]. cbn in Ha. destruct (aPodInfo (hPods h) !! _); [|done].
    by injection Ha as <-. }
  split; [|done]. unfold handled, attributed, seeded. rewrite (proj2 (Z.eqb_neq _ _) Hc), Ha. cbn [negb seSessionID set_session].
  destruct (aSessionID a); [done|]. cbn [seSyscall set_session]. by rewrite bool_decide_eq_false_2.
Qed.

Lemma quarantined_denied {U : Type} `{Helpers U} pid cg (l : Loader) (tk : task) :
  blocklists_ok (maps l) -> (LoaderMaps.Quarantine pid cg l).1 = Ret tt -> targeted pid cg tk = true ->
  lsmLink l = true /\ verdict tk (maps (LoaderMaps.Quarantine pid cg l).2) = - EPERM.
Proof.
  intros Hok Hq Ht. destruct (LoaderMaps.Quarantine pid cg l) as [r l'] eqn:E. cbn [fst snd] in *. subst r.
  apply Quarantine_ret in E as [Hl ->]. split; [done|]. cbn [maps with_maps].
  rewrite verdict_blocked, blocked_quarantine, Ht by by apply quarantine_maps_ok. done.
Qed.

End externals.

Section properties.

Context `{Compressors} `{MathLog2} `{Floats} `{Archives} `{Clock} `{MapOrder} `{UnicodeLower} `{Node}.
Context `{SensorClock} `{KeyOrder} `{BpfMap}.

Lemma tainted_write_contained {U : Type} `{Helpers U} (e : Engine) (sink audit : bool) (l : Loader) (allow paths : list bytes)
    (acts : list activity) (record : bytes) (raw : RingEvent) (w : WriteEvent) (pc : pendingConnect) (s1 : Sensor Host)
    (a : Attribution) (st : SessionState) (tv : TaintedValue) (v : TaintedVariant) :
  let s := deployed e sink audit acts (start_sensor l allow paths) in
  let s' := (readLoop (sensor_hooks e sink audit) Critical record s).2 in
  decodeRingEvent record = Ret raw -> re_Write raw = Some w \/ re_Writev raw = Some w ->
  armed (we_PID w) (we_FD w) s = (Ret (Some pc), s1) ->
  we_CgroupID w ≠ 0 -> LookupByCgroup (we_CgroupID w) (hPods (world s)) = Some a ->
  store (hEngine (world s)) !! aSessionID a = Some st -> tv ∈ Tainted st ->
  v ∈ forms_of tv ++ Chunks tv -> vValue v ≠ [] -> infix (vValue v) (we_Payload w) ->
  len (we_Payload w) <= flow_bytes e -> blocklists_ok (maps l) ->
  signals s' = signals s ++ kills (sensor_kill_resolver (we_CgroupID w) (we_PID w) (world s)) /\
  ((LoaderMaps.Quarantine (we_PID w) (we_CgroupID w) (loader s)).1 = Ret tt ->
   forall tk, targeted (we_PID w) (we_CgroupID w) tk = true -> verdict tk (maps (loader s')) = - EPERM).
Proof.
  intros s s' Hr Hw Ha Hcg Hattr Hst Htv Hv Hne Hi Hlen Hok.
  assert (host_ok (world s)) as [Hstore _] by (apply deployed_ok, start_host).
  assert (blocklists_ok (maps (loader s))) as Hok' by (by apply (deployed_ones e sink audit acts (start_sensor l allow paths))).
  unfold s'. rewrite (read_write e sink audit Critical record raw w s Hr Hw eq_refl).
  set (ev := written_event w pc). pose proof (written_syscall record raw w pc Hr Hw) as Hname. fold ev in Hname.
  assert (only_arms s s1) as Harms by (pose proof (arms_armed_in (we_PID w) [we_FD w; anyFD] s) as H'; unfold armed in Ha; by rewrite Ha in H').
  destruct Harms as (El & _ & _ & Es & _ & _ & _ & Ew).
  destruct (handled_write (world s) ev a Hcg Hattr ltac:(set_solver)) as [Eh Hid].
  destruct (own_payload_exfil e sink audit (handled (world s) ev) (hEngine (world s)) st tv v) as [_ Hact]; try done;
    [rewrite Eh; done..| | | |by rewrite Eh|].
  1-3: rewrite Eh; cbn [seSyscall set_session]; set_solver.
  destruct (sensor_handler e sink audit ev (world s)) as [d h'] eqn:Ed.
  pose proof (handler_decision e sink audit ev (world s)) as Hdec. rewrite Ed in Hdec. cbn [fst] in Hdec. subst d.
  rewrite (write_contained (sensor_hooks e sink audit) w pc s s1 (sensor_handler e sink audit) _ h' Ha eq_refl) by (rewrite ?Ew; done).
  rewrite contain_spec. cbn [signals loader set_loader set_signals set_world world]. rewrite El, Es.
  assert (hPods h' = hPods (world s)) as Ep.
  { unfold sensor_handler in Ed. destruct (IngestSyscallSensor _ _ _ _ _). by injection Ed as <-. }
  split.
  - f_equal. unfold targets_of. cbn [killResolver sensor_hooks]. unfold sensor_kill_resolver. rewrite Ep.
    by destruct (NodePIDsForCgroup _ _).
  - intros Hq tk Ht. destruct (quarantined_denied _ _ _ tk Hok' Hq Ht) as [-> Hv']. exact Hv'.
Qed.

(** C6: proof is followed by force. Take any state a sensor deployment can reach, and a record
    of a write, writev or sendmsg by a process of a known pod on a descriptor armed with a
    destination that is not exempt. If the captured payload contains an encoding or chunk of a
    value registered as tainted in the pod's session, SIGKILL goes to the pod's processes and
    to the groups they lead; and if the LSM hook is attached and the blocklists have room,
    every later connect of the process or of any task of its cgroup is denied in the kernel. *)
Theorem exfil_write_contained {U : Type} `{Helpers U} (e : Engine) (sink audit : bool) (l : Loader) (allow paths : list bytes)
    (acts : list activity) (record : bytes) (raw : RingEvent) (w : WriteEvent) (pc : pendingConnect) (s1 : Sensor Host)
    (a : Attribution) (st : SessionState) (tv : TaintedValue) (v : TaintedVariant) :
  let s := deployed e sink audit acts (start_sensor l allow paths) in
  let s' := (readLoop (sensor_hooks e sink audit) Critical record s).2 in
  decodeRingEvent record = Ret raw -> re_Write raw = Some w \/ re_Writev raw = Some w ->
  armed (we_PID w) (we_FD w) s = (Ret (Some pc), s1) ->
  we_CgroupID w ≠ 0 -> LookupByCgroup (we_CgroupID w) (hPods (world s)) = Some a ->
  store (hEngine (world s)) !! aSessionID a = Some st -> tv ∈ Tainted st ->
  v ∈ forms_of tv ++ Chunks tv -> vValue v ≠ [] -> infix (vValue v) (we_Payload w) ->
  len (we_Payload w) <= flow_bytes e -> blocklists_ok (maps l) ->
  signals s' = signals s ++ kills (sensor_kill_resolver (we_CgroupID w) (we_PID w) (world s)) /\
  ((LoaderMaps.Quarantine (we_PID w) (we_CgroupID w) (loader s)).1 = Ret tt ->
   forall tk, targeted (we_PID w) (we_CgroupID w) tk = true -> verdict tk (maps (loader s')) = - EPERM).
Proof. apply tainted_write_contained. Qed.

(** C8: force means proof. In any state a sensor deployment can reach, a record makes the read
    loops send a signal or touch a BPF map only if it decodes to an event whose payload, alone
    or in its reassembled window, carries bytes of a value registered as tainted in the
    session the event is attributed to; the engine answered EXFIL with evidence that names
    that value, and the event is neither an open of a file nor a report of the LSM hook. *)
Theorem force_is_proof (e : Engine) (sink audit : bool) (l : Loader) (allow paths : list bytes) (acts : list activity)
    (k : ring) (record : bytes) :
  let s := deployed e sink audit acts (start_sensor l allow paths) in
  let s' := (readLoop (sensor_hooks e sink audit) k record s).2 in
  signals s' ≠ signals s \/ loader s' ≠ loader s ->
  exists ev0 st tv n now rec hit, let ev := handled (world s) ev0 in
    let d := (IngestSyscallSensor e sink audit ev (hEngine (world s))).1 in
    reported record ev0 /\ seSyscall ev ≠ openat /\ seSyscall ev ≠ lsm_deny /\
    store (hEngine (world s)) !! seSessionID ev = Some st /\ tv ∈ Tainted st /\
    carries (containerLimits e) tv (egressCandidatePayload e n now ev st).1 /\
    dVerdict d = VerdictExfil /\ Evidence d = Some rec /\ ValueOverlap rec = Some hit /\ TaintedHash hit = Hash tv.
Proof.
  intros s s' Hf. assert (host_ok (world s)) as Hh by (apply deployed_ok, start_host).
  destruct (read_force e sink audit k record s Hh Hf) as (ev0 & Hrep & Hl & Hv). cbv zeta in Hl, Hv.
  destruct (kernel_proof e sink audit (handled (world s) ev0) _ (hEngine (world s)) (proj1 Hh) (or_intror eq_refl) Hl Hv)
    as (Ho & st & tv & n & now & rec & hit & Hst & Htv & Hc & He & Hhit & Hhash & _).
  exists ev0, st, tv, n, now, rec, hit. cbv zeta. by split_and!.
Qed.

End properties.

(** ** Witnesses: a pod whose key the bridge registered writes it to a socket *)

#[local] Existing Instance bounded_maps.
#[local] Instance demo_sensor_clock : SensorClock := λ n, 1000 * Z.of_nat n.
#[local] Instance demo_node : Node := {| alive := λ _, true; node_files := λ _, None |}.
#[local] Instance demo_helpers : Helpers (gmap Z byte) := concrete_helpers 3.

Definition demo_pod : PodInfo := {| piUID := gostr "u1"; piNamespace := gostr "default"; piName := gostr "agent"; piNodeName := gostr "n1" |}.

Definition demo_taint : TaintedValue := new_taint demo_secret [variant FormLiteral demo_secret] (gostr "bridge") 1 0.

(** A connect on descriptor 5 by process 77 of the cgroup 4242 to 203.0.113.7:443, and a write
    of [payload] on it, as the probes submit them. *)
Definition connect_record : bytes :=
  le_bytes 4 1 ++ le_bytes 4 0 ++ le_bytes 8 9 ++ le_bytes 4 77 ++ le_bytes 4 77 ++ [x02] ++ demo_addr ++ [x00] ++
  le_bytes 2 443 ++ le_bytes 4 5 ++ le_bytes 8 4242 ++ gostr "curl" ++ replicate 12 x00.

Definition write_record (payload : bytes) : bytes :=
  le_bytes 4 2 ++ le_bytes 4 (len payload) ++ le_bytes 8 10 ++ le_bytes 4 77 ++ le_bytes 4 77 ++ le_bytes 4 5 ++ le_bytes 4 0 ++
  le_bytes 8 4242 ++ gostr "curl" ++ replicate 12 x00 ++ payload.

Definition demo_acts : list activity :=
  [Pods (CallSyncPod demo_pod (gostr "c1") [(1077, 5); (1078, 6)]); Pods (CallSetPodCgroups demo_pod [4242]);
   BridgeTaint (gostr "u1") demo_taint; Read Routine connect_record].

Definition demo_engine : Engine := NewEngine (Some demo_tagger) (gostr "block").

Abbreviation demo_deployed := (deployed demo_engine true true demo_acts (start_sensor demo_loader [] [])).

Definition leak : bytes := gostr "key=" ++ demo_secret.

Lemma leak_contained :
  let s' := (readLoop (sensor_hooks demo_engine true true) Critical (write_record leak) demo_deployed).2 in
  (signals s', verdict (demo_tk 78 4242) (maps (loader s'))) = ([-1077; 1077; -1078; 1078], - EPERM).
Proof. vm_compute. reflexivity. Qed.

Definition leak_event : WriteEvent := {|
  we_TSNs := 10; we_PID := 77; we_TID := 77; we_FD := 5; we_Len := len leak; we_CgroupID := 4242;
  we_Comm := gostr "curl" ++ replicate 12 x00; we_Payload := leak; we_Syscall := gostr "write" |}.

Definition leak_dest : pendingConnect := {| destIP := gostr "203.0.113.7"; destPort := 443; armed_at := 0 |}.

Definition demo_session : bytes := gostr "k8s:u1".
Abbreviation demo_pods := (hPods (world demo_deployed)).
Abbreviation demo_world := (hEngine (world demo_deployed)).

Definition demo_attribution : Attribution := {|
  aSessionID := demo_session; aPod := pod_context demo_pod; aContainerID := [] |}.

Definition pod_state : SessionState := default (new_session [] 0) (store demo_world !! demo_session).
Definition pod_tainted : TaintedValue := default (new_taint [] [] [] 0 0) (head (Tainted pod_state)).
Definition leak_form : TaintedVariant := variant FormLiteral demo_secret.

Lemma leak_decodes : decodeRingEvent (write_record leak) = Ret (ring_write leak_event).
Proof. vm_compute. reflexivity. Qed.

Lemma leak_armed : exists s1, armed 77 5 demo_deployed = (Ret (Some leak_dest), s1).
Proof.
  assert ((armed 77 5 demo_deployed).1 = Ret (Some leak_dest)) as Ha by (vm_compute; reflexivity).
  exists (armed 77 5 demo_deployed).2. rewrite <- Ha. apply surjective_pairing.
Qed.

Lemma leak_attributed : LookupByCgroup 4242 demo_pods = Some demo_attribution.
Proof. vm_compute. reflexivity. Qed.

Lemma leak_session : is_Some (store demo_world !! demo_session).
Proof. refine (bool_decide_unpack _ _). vm_compute. exact I. Qed.

Lemma leak_stored : store demo_world !! aSessionID demo_attribution = Some pod_state.
Proof. unfold pod_state. change (aSessionID demo_attribution) with demo_session. by destruct leak_session as [st ->]. Qed.

Lemma leak_tainted : pod_tainted ∈ Tainted pod_state.
Proof. apply list_elem_of_In. vm_compute. left. reflexivity. Qed.

Lemma leak_form_held : leak_form ∈ forms_of pod_tainted ++ Chunks pod_tainted.
Proof. apply list_elem_of_In. vm_compute. left. reflexivity. Qed.

Lemma leak_inside : infix (vValue leak_form) (we_Payload leak_event).
Proof. exists (gostr "key="), []. vm_compute. reflexivity. Qed.

Lemma leak_fits : len (we_Payload leak_event) <= flow_bytes demo_engine.
Proof. vm_compute. discriminate. Qed.

Lemma leak_kills : kills (sensor_kill_resolver 4242 77 (world demo_deployed)) = [-1077; 1077; -1078; 1078].
Proof. vm_compute. reflexivity. Qed.

Lemma before_leak : signals demo_deployed = [].
Proof. vm_compute. reflexivity. Qed.

Lemma leak_forces :
  signals (readLoop (sensor_hooks demo_engine true true) Critical (write_record leak) demo_deployed).2 ≠ signals demo_deployed.
Proof. vm_compute. discriminate. Qed.

Lemma leak_room : (LoaderMaps.Quarantine 77 4242 (loader demo_deployed)).1 = Ret tt.
Proof. vm_compute. reflexivity. Qed.

Example exfil_write_contained_witness :
  let s' := (readLoop (sensor_hooks demo_engine true true) Critical (write_record leak) demo_deployed).2 in
  signals s' = [-1077; 1077; -1078; 1078] /\ verdict (demo_tk 78 4242) (maps (loader s')) = - EPERM.
Proof.
  destruct leak_armed as [s1 Ha].
  destruct (exfil_write_contained demo_engine true true demo_loader [] [] demo_acts (write_record leak) (ring_write leak_event)
    leak_event leak_dest s1 demo_attribution pod_state pod_tainted leak_form leak_decodes (or_introl eq_refl) Ha
    ltac:(discriminate) leak_attributed leak_stored leak_tainted leak_form_held ltac:(discriminate) leak_inside leak_fits
    demo_blocklists_ok) as [Hk Hd].
  split; [|exact (Hd leak_room (demo_tk 78 4242) eq_refl)].
  refine (eq_trans Hk _). rewrite before_leak. exact leak_kills.
Defined.

Example force_is_proof_witness :
  exists ev0 st tv, reported (write_record leak) ev0 /\
    store demo_world !! seSessionID (handled (world demo_deployed) ev0) = Some st /\ tv ∈ Tainted st.
Proof.
  destruct (force_is_proof demo_engine true true demo_loader [] [] demo_acts Critical (write_record leak) (or_introl leak_forces))
    as (ev0 & st & tv & _ & _ & _ & _ & Hr & _ & _ & Hst & Htv & _).
  exact (ex_intro _ ev0 (ex_intro _ st (ex_intro _ tv (conj Hr (conj Hst Htv))))).
Defined.
