(* ===== verification/Evidence.v ===== *)
(** * internal/engine/evidence_chain.go and evidence_sink.go: the evidence hash chain

    The text encoding/json writes for a record, its hash, the sealing of a record into the
    chain, the verification of a chain, and the JSONL sink that writes one across restarts.
    A line of the file is kept as the record it was written from, with its text at hand for
    the length limit of the readers, or as the remains of a write that stopped part way; [reload] is
    what reading a whole line back makes of it. *)

From S2P Require Import Prelude Go GoTime GoStrings Encodings EncodingFacts Json Model.

(** The text of a float64, as Marshal writes it. *)
Class FloatFormat := format_float : float64 -> bytes.

(** ** The JSON text of a record *)

Section text.

(** Whether HTML characters are escaped: json.Marshal does, the Encoder of the sink does not. *)
Variable html : bool.

Definition leg_text (l : Leg) : bytes :=
  object ([field "lit" (bool_text (Lit l))] ++
          unless (TriggerSeq l =? 0) (field "trigger_seq" (Itoa (TriggerSeq l))) ++
          unless (bool_decide (Detail l = [])) (field "detail" (quote_as html (Detail l))) ++
          unless (LitAt l =? 0) (field "lit_at_ns" (Itoa (LitAt l)))).

Definition legs_text (t : TrifectaLegs) : bytes :=
  object [field "sensitive_source_touched" (leg_text (SensitiveSourceTouched t));
          field "untrusted_content_present" (leg_text (UntrustedContentPresent t));
          field "external_sink_invoked" (leg_text (ExternalSinkInvoked t))].

Definition sink_text (v : sink_value) : option bytes :=
  match v with
  | SinkStr s => Some (quote_as html s)
  | SinkInt z => Some (Itoa z)
  | SinkRaw raw => raw_text_as html raw
  end.

(** The keys of a map are sorted. *)
Fixpoint insert_key (kv : bytes * sink_value) (l : list (bytes * sink_value)) : list (bytes * sink_value) :=
  match l with
  | [] => [kv]
  | kv' :: l' => if bytes_lt kv.1 kv'.1 then kv :: l else kv' :: insert_key kv l'
  end.

Definition sort_keys (l : list (bytes * sink_value)) : list (bytes * sink_value) := foldr insert_key [] l.

Definition sink_call_text (m : list (bytes * sink_value)) : option bytes :=
  fields ← mapM (λ kv, t ← sink_text kv.2; Some (quote_as html kv.1 ++ x3a :: t)) (sort_keys m);
  Some (object fields).

Definition overlap_text (h : OverlapHit) : bytes :=
  object ([field "tainted_hash" (quote_as html (TaintedHash h)); field "preview" (quote_as html (ohPreview h));
           field "where_found" (quote_as html (WhereFound h))] ++
          unless (bool_decide (MatchForm h = [])) (field "match_form" (quote_as html (MatchForm h)))).

Definition item_text (it : TimelineItem) : bytes :=
  object ([field "timeline_seq" (Itoa (TimelineSeq it)); field "ts_mono_ns" (Itoa (tiTSMono it));
           field "kind" (quote_as html (gostr (match Kind it with Intercepted => "intercepted" | Syscall => "syscall" end)));
           field "label" (quote_as html (Label it))] ++
          unless (Ref it =? 0) (field "ref" (Itoa (Ref it)))).

Definition pod_text (p : PodContext) : bytes :=
  object ([field "namespace" (quote_as html (Namespace p)); field "pod_name" (quote_as html (PodName p));
           field "pod_uid" (quote_as html (PodUID p))] ++
          unless (bool_decide (NodeName p = [])) (field "node_name" (quote_as html (NodeName p)))).

Definition action_string (a : action) : bytes :=
  gostr match a with
        | NoAction => EmptyString
        | ActionPrevented => "prevented"
        | ActionAllowed => "allowed_monitor"
        | ActionContained => "contained_by_kill"
        | ActionDetectedOnly => "detected_only"
        end.

Definition variant_string (v : variant_plane) : bytes :=
  gostr match v with NoVariant => EmptyString | VariantA => "A_chained_tool" | VariantB => "B_server_channel" end.

Context `{FloatFormat}.
Implicit Types (rec : EvidenceRecord).

(** The fields before the chain's own. *)
Definition body_fields rec (sink : bytes) : list bytes :=
  [field "session_id" (quote_as html (erSessionID rec)); field "trip_ts_ns" (Itoa (TripTS rec));
   field "verdict" (quote_as html (verdict_string (erVerdict rec))); field "action" (quote_as html (action_string (erAction rec)));
   field "variant" (quote_as html (variant_string (erVariant rec))); field "confidence" (format_float (erConfidence rec));
   field "legs" (legs_text (erLegs rec)); field "sink_call" sink] ++
  match ValueOverlap rec with Some h => [field "value_overlap" (overlap_text h)] | None => [] end ++
  [field "timeline" (x5b :: Join (map item_text (erTimeline rec)) [x2c] ++ [x5d])] ++
  match erPod rec with Some p => [field "pod_context" (pod_text p)] | None => [] end.

Definition record_text rec : option bytes :=
  sink ← sink_call_text (SinkCall rec);
  Some (object (body_fields rec sink ++
          [field "chain_seq" (Itoa (ChainSeq rec)); field "prev_hash" (quote_as html (PrevHash rec)); field "hash" (quote_as html (erHash rec))])).

End text.

Section chain.

Context `{FloatFormat}.
Implicit Types (rec : EvidenceRecord).

(** [json.Marshal(rec)] *)
Definition marshal_record rec : option bytes := record_text true rec.

(** ** The chain *)

Definition set_chain (seq : Z) (prev hash : bytes) rec : EvidenceRecord := {|
  erSessionID := erSessionID rec; TripTS := TripTS rec; erVerdict := erVerdict rec; erAction := erAction rec;
  erVariant := erVariant rec; erConfidence := erConfidence rec; erLegs := erLegs rec; SinkCall := SinkCall rec;
  ValueOverlap := ValueOverlap rec; erTimeline := erTimeline rec; erPod := erPod rec;
  ChainSeq := seq; PrevHash := prev; erHash := hash |}.

(** [rec.Hash = h] *)
Definition set_hash (h : bytes) rec : EvidenceRecord := set_chain (ChainSeq rec) (PrevHash rec) h rec.

(** The text that is hashed; [None] when Marshal fails. *)
Definition hashed_text rec : option bytes := marshal_record (set_hash [] rec).

Definition HashEvidenceRecord rec : option bytes := HashValue <$> hashed_text rec.

Definition SealEvidenceRecord rec (seq : Z) (prevHash : bytes) : option EvidenceRecord :=
  let rec := set_chain seq prevHash [] rec in
  h ← HashEvidenceRecord rec; Some (set_hash h rec).

Inductive break_reason := LinkBroken | SeqMismatch (got want : Z) | HashMismatch.

Inductive chain_result := Intact | ChainBreak (index : nat) (reason : break_reason) | ChainError (index : nat).

(** The checks of one record: against the one before it, then its own hash. *)
Definition check_link (prev : option EvidenceRecord) rec : option break_reason :=
  match prev with
  | None => if (ChainSeq rec =? 0) && negb (bool_decide (PrevHash rec = [])) then Some LinkBroken else None
  | Some prev =>
      if negb (ChainSeq rec =? u64 (ChainSeq prev + 1)) then Some (SeqMismatch (ChainSeq rec) (u64 (ChainSeq prev + 1)))
      else if negb (bool_decide (PrevHash rec = erHash prev)) then Some LinkBroken
      else None
  end.

Fixpoint verify_from (i : nat) (prev : option EvidenceRecord) (records : list EvidenceRecord) : chain_result :=
  match records with
  | [] => Intact
  | rec :: records =>
      match check_link prev rec with
      | Some reason => ChainBreak i reason
      | None =>
          match HashEvidenceRecord rec with
          | None => ChainError i
          | Some got =>
              if bool_decide (erHash rec = []) || negb (bool_decide (erHash rec = got)) then ChainBreak i HashMismatch
              else verify_from (S i) (Some rec) records
          end
      end
  end.

Definition VerifyChain (records : list EvidenceRecord) : chain_result := verify_from 0 None records.

(** ** The JSONL file *)

Section file.

Context `{Floats}.

(** A string after Encode and Unmarshal. *)
Definition reload_string (s : bytes) : bytes :=
  match parse (quote s) with Some (JStr t) => t | _ => s end.

(** A value of the map after them: Unmarshal into [any] forgets the order of the keys of a raw
    message and the spelling of its numbers, here by way of the text Marshal writes for it. *)
Definition reload_value (v : sink_value) : option sink_value :=
  match v with
  | SinkStr s => Some (SinkStr (reload_string s))
  | SinkInt z => Some (SinkInt z)
  | SinkRaw [] => Some (SinkRaw [])
  | SinkRaw raw => v ← Unmarshal raw; Some (SinkRaw (Marshal v))
  end.

Definition reload_leg (l : Leg) : Leg := {|
  Lit := Lit l; TriggerSeq := TriggerSeq l; Detail := reload_string (Detail l); LitAt := LitAt l; EventsAtLit := 0 |}.

Definition reload_item (it : TimelineItem) : TimelineItem := {|
  TimelineSeq := TimelineSeq it; tiTSMono := tiTSMono it; Kind := Kind it; Label := reload_string (Label it); Ref := Ref it |}.

Definition reload_hit (h : OverlapHit) : OverlapHit := {|
  TaintedHash := reload_string (TaintedHash h); ohPreview := reload_string (ohPreview h);
  WhereFound := reload_string (WhereFound h); MatchForm := reload_string (MatchForm h) |}.

Definition reload_pod (p : PodContext) : PodContext := {|
  Namespace := reload_string (Namespace p); PodName := reload_string (PodName p); PodUID := reload_string (PodUID p);
  NodeName := reload_string (NodeName p) |}.

(** What cmd/verify-evidence and the scan on opening read back from the line of [rec]. *)
Definition reload rec : option EvidenceRecord :=
  sink ← mapM (λ kv, v ← reload_value kv.2; Some (reload_string kv.1, v)) (SinkCall rec);
  Some {| erSessionID := reload_string (erSessionID rec); TripTS := TripTS rec; erVerdict := erVerdict rec;
          erAction := erAction rec; erVariant := erVariant rec; erConfidence := erConfidence rec;
          erLegs := {| SensitiveSourceTouched := reload_leg (SensitiveSourceTouched (erLegs rec));
                       UntrustedContentPresent := reload_leg (UntrustedContentPresent (erLegs rec));
                       ExternalSinkInvoked := reload_leg (ExternalSinkInvoked (erLegs rec)) |};
          SinkCall := sink; ValueOverlap := reload_hit <$> ValueOverlap rec; erTimeline := map reload_item (erTimeline rec);
          erPod := reload_pod <$> erPod rec; ChainSeq := ChainSeq rec; PrevHash := reload_string (PrevHash rec);
          erHash := reload_string (erHash rec) |}.

(** *** Lines *)

(** A line: the text that was written for a record, or the remains of a write that stopped
    part way, with what was appended to them, which is not the text of any JSON value. A line that is not
    ended has no newline yet: the next write goes on in it. *)
Inductive line := Line (ended : bool) rec | Torn (ended : bool).

(** The text of the line of [rec], as Encode writes it after SetEscapeHTML(false); the newline is not part of it. *)
Definition line_text rec : option bytes := record_text false rec.

Definition max_line : Z := 1024 * 1024.

(** The buffer of a Scanner holds [max_line] bytes, and a line is found when its newline is in the buffer:
    a longer line is the error ErrTooLong. *)
Definition fits rec : Prop := exists t, line_text rec = Some t /\ Z.of_nat (length t) < max_line.

#[global] Instance fits_dec rec : base.Decision (fits rec).
Proof.
  unfold fits. destruct (line_text rec) as [t|]; [|right; by intros (? & [=] & _)].
  destruct (decide (Z.of_nat (length t) < max_line)); [left; eauto|right]. intros (? & [= <-] & ?). done.
Defined.

(** What a reader of the file makes of a line: Scan, then Unmarshal. *)
Definition read_line (l : line) : option EvidenceRecord :=
  match l with
  | Line _ rec => if decide (fits rec) then reload rec else None
  | Torn _ => None
  end.

(** How far a write came: no byte of it reached the file, some of its text did, all of the text but not the newline,
    or all of it. *)
Inductive written := Nothing | Some_text | Unended | Whole.

(** The file after a write of the line of [rec] at its end. *)
Definition append (w : written) rec (file : list line) : list line :=
  match w, last file with
  | Nothing, _ => file
  | Some_text, Some (Line false _ | Torn false) | Unended, Some (Line false _ | Torn false) => removelast file ++ [Torn false]
  | Whole, Some (Line false _ | Torn false) => removelast file ++ [Torn true]
  | Some_text, _ => file ++ [Torn false]
  | Unended, _ => file ++ [Line false rec]
  | Whole, _ => file ++ [Line true rec]
  end.

(** *** The sink *)

(** The file, whether a write of the Encoder failed, after which it refuses to write, and the tip the sink keeps. *)
Record JSONLEvidenceSink := { sink_file : list line; enc_err : bool; lastHash : bytes; nextSeq : Z }.

(** The tip a file gives: the hash of its last record and the number of its records. *)
Definition scanJSONLChainTip (file : list line) : option (bytes * Z) :=
  records ← mapM read_line file;
  Some (match last records with Some rec => erHash rec | None => [] end, u64 (Z.of_nat (length records))).

Definition NewJSONLEvidenceSink (file : list line) : option JSONLEvidenceSink :=
  '(lastHash, nextSeq) ← scanJSONLChainTip file;
  Some {| sink_file := file; enc_err := false; lastHash := lastHash; nextSeq := nextSeq |}.

(** [w] tells how much of the line reaches the file when it is written, [standalone] whether evidence.json is
    written; Encode fails unless the whole line was, and leaves the tip where it was. The answer is whether there was no error. *)
Definition Emit (w : written) (standalone : bool) rec (s : JSONLEvidenceSink) : bool * JSONLEvidenceSink :=
  match SealEvidenceRecord rec (nextSeq s) (lastHash s) with
  | None => (false, s)
  | Some rec =>
      if enc_err s then (false, s)
      else
        let file := append w rec (sink_file s) in
        match w with
        | Whole => (standalone, {| sink_file := file; enc_err := false; lastHash := erHash rec; nextSeq := u64 (nextSeq s + 1) |})
        | _ => (false, {| sink_file := file; enc_err := true; lastHash := lastHash s; nextSeq := nextSeq s |})
        end
  end.

(** The records the verifier loads from the file. *)
Definition loadJSONL (file : list line) : option (list EvidenceRecord) := mapM read_line file.

(** What happens to a file: records are emitted, and the process restarts, which it only does
    when the file can be scanned. *)
Inductive sink_op := OpEmit (w : written) (standalone : bool) rec | OpRestart.

Definition sink_step (s : JSONLEvidenceSink) (op : sink_op) : JSONLEvidenceSink :=
  match op with
  | OpEmit w standalone rec => (Emit w standalone rec s).2
  | OpRestart => default s (NewJSONLEvidenceSink (sink_file s))
  end.

Definition sink_after (ops : list sink_op) : JSONLEvidenceSink :=
  foldl sink_step {| sink_file := []; enc_err := false; lastHash := []; nextSeq := 0 |} ops.

End file.

End chain.
