(* ===== verification/EvidenceTheorems.v ===== *)
(** * Theorems about the evidence chain

    A file written by the sink verifies, restarts included, as long as its lines read back as
    they were written; two chains that verify and end in the same hash are the same text from
    the shorter one's start on, or SHA-256 has a collision; records whose lines do not read
    back as written break the chain though nobody touched it. *)

From S2P Require Import Prelude Go GoTime GoStrings Encodings EncodingFacts Json JsonFacts Model Evidence.

Section chain.

Context `{FloatFormat}.
Implicit Types (rec : EvidenceRecord) (rs : list EvidenceRecord).

(** ** Verification as a predicate *)

Definition accepted (prev : option EvidenceRecord) rec : Prop :=
  check_link prev rec = None /\ HashEvidenceRecord rec = Some (erHash rec).

Fixpoint chain_ok (prev : option EvidenceRecord) rs : Prop :=
  match rs with
  | [] => True
  | rec :: rs => accepted prev rec /\ chain_ok (Some rec) rs
  end.

Lemma hash_nonempty rec h : HashEvidenceRecord rec = Some h -> length h = 64%nat.
Proof. unfold HashEvidenceRecord. destruct (hashed_text rec); [|done]. intros [= <-]. apply length_HashValue. Qed.

Lemma verify_spec i prev rs : verify_from i prev rs = Intact <-> chain_ok prev rs.
Proof.
  revert i prev. induction rs as [|rec rs IH]; intros i prev; [done|]. cbn [verify_from chain_ok]. unfold accepted.
  destruct (check_link prev rec) as [reason|]; [split; [done|by intros [[[=] _] _]]|].
  destruct (HashEvidenceRecord rec) as [got|] eqn:E; [|split; [done|by intros [[_ [=]] _]]].
  apply hash_nonempty in E as Hl. destruct (decide (erHash rec = got)) as [<-|Hne].
  - rewrite (bool_decide_eq_false_2 (erHash rec = [])) by (intros E'; by rewrite E' in Hl).
    rewrite (bool_decide_eq_true_2 (erHash rec = erHash rec)) by done. cbn [orb negb]. rewrite IH. tauto.
  - rewrite (bool_decide_eq_false_2 (erHash rec = got)) by done. rewrite orb_true_r. split; [done|].
    intros [[_ [= E']] _]. congruence.
Qed.

Lemma intact_ok rs : VerifyChain rs = Intact <-> chain_ok None rs.
Proof. exact (verify_spec 0 None rs). Qed.

Lemma chain_ok_app prev rs rec :
  chain_ok prev (rs ++ [rec]) <-> chain_ok prev rs /\ accepted (match last rs with Some r => Some r | None => prev end) rec.
Proof.
  revert prev. induction rs as [|r rs IH]; intros prev; [cbn; tauto|]. cbn [app chain_ok]. rewrite IH.
  assert (match last (r :: rs) with Some x => Some x | None => prev end = match last rs with Some x => Some x | None => Some r end) as ->
    by (destruct rs; [done|]; rewrite last_cons_cons; by destruct (last (e :: rs)) eqn:E; [|apply last_None in E]).
  tauto.
Qed.

(** ** Sealing *)

Lemma seal_spec rec seq prev r :
  SealEvidenceRecord rec seq prev = Some r ->
  ChainSeq r = seq /\ PrevHash r = prev /\ HashEvidenceRecord r = Some (erHash r).
Proof.
  unfold SealEvidenceRecord, HashEvidenceRecord. destruct (hashed_text _) as [t|] eqn:E; [|done].
  intros Hs. injection Hs as <-. split_and!; [done..|].
  assert (hashed_text (set_hash (HashValue t) (set_chain seq prev [] rec)) = Some t) as Et by exact E.
  by rewrite Et.
Qed.

Section file.

Context `{Floats}.

(** ** Records whose lines read back *)

Definition leg_texts (l : TrifectaLegs) : list bytes :=
  [Detail (SensitiveSourceTouched l); Detail (UntrustedContentPresent l); Detail (ExternalSinkInvoked l)].

Definition hit_texts (h : OverlapHit) : list bytes := [TaintedHash h; ohPreview h; WhereFound h; MatchForm h].

Definition pod_texts (p : PodContext) : list bytes := [Namespace p; PodName p; PodUID p; NodeName p].

Definition value_ok (v : sink_value) : Prop :=
  match v with SinkStr s => utf8 s | _ => reload_value v = Some v end.

(** The strings are well-formed UTF-8 and the raw messages are as Marshal writes them. *)
Record clean rec : Prop := {
  clean_id : utf8 (erSessionID rec);
  clean_legs : Forall utf8 (leg_texts (erLegs rec));
  clean_call : Forall (λ kv, utf8 kv.1 /\ value_ok kv.2) (SinkCall rec);
  clean_overlap h : ValueOverlap rec = Some h -> Forall utf8 (hit_texts h);
  clean_timeline : Forall (λ it, utf8 (Label it)) (erTimeline rec);
  clean_pod p : erPod rec = Some p -> Forall utf8 (pod_texts p) }.

(** The count of events a leg was lit at is not written. *)
Definition uncounted_leg (l : Leg) : Leg := {|
  Lit := Lit l; TriggerSeq := TriggerSeq l; Detail := Detail l; LitAt := LitAt l; EventsAtLit := 0 |}.

Definition uncounted rec : EvidenceRecord := {|
  erSessionID := erSessionID rec; TripTS := TripTS rec; erVerdict := erVerdict rec; erAction := erAction rec;
  erVariant := erVariant rec; erConfidence := erConfidence rec;
  erLegs := {| SensitiveSourceTouched := uncounted_leg (SensitiveSourceTouched (erLegs rec));
               UntrustedContentPresent := uncounted_leg (UntrustedContentPresent (erLegs rec));
               ExternalSinkInvoked := uncounted_leg (ExternalSinkInvoked (erLegs rec)) |};
  SinkCall := SinkCall rec; ValueOverlap := ValueOverlap rec; erTimeline := erTimeline rec; erPod := erPod rec;
  ChainSeq := ChainSeq rec; PrevHash := PrevHash rec; erHash := erHash rec |}.

(** The records whose whole lines are in the file. *)
Definition lines (s : JSONLEvidenceSink) : list EvidenceRecord :=
  omap (λ l, match l with Line _ rec => Some rec | Torn _ => None end) (sink_file s).

Lemma reload_string_utf8 s : utf8 s -> reload_string s = s.
Proof. intros Hs. unfold reload_string. by rewrite parse_quote. Qed.

Lemma reload_leg_utf8 l : utf8 (Detail l) -> reload_leg l = uncounted_leg l.
Proof. intros Hl. unfold reload_leg, uncounted_leg. by rewrite reload_string_utf8. Qed.

Lemma reload_call_ok call :
  Forall (λ kv, utf8 kv.1 /\ value_ok kv.2) call ->
  mapM (λ kv, v ← reload_value kv.2; Some (reload_string kv.1, v)) call = Some call.
Proof.
  induction 1 as [|[k v] call [Hk Hv] _ IH]; [done|]. cbn in Hk, Hv |- *. rewrite (reload_string_utf8 k) by done.
  assert (reload_value v = Some v) as -> by (destruct v; [cbn; by rewrite reload_string_utf8|done..]).
  cbn. cbn in IH. by rewrite IH.
Qed.

Lemma reload_items its : Forall (λ it, utf8 (Label it)) its -> map reload_item its = its.
Proof.
  induction 1 as [|it its Hit _ IH]; [done|]. cbn [map]. rewrite IH. f_equal. unfold reload_item.
  rewrite reload_string_utf8 by done. by destruct it.
Qed.

Lemma reload_clean rec : clean rec -> utf8 (PrevHash rec) -> utf8 (erHash rec) -> reload rec = Some (uncounted rec).
Proof.
  intros [Hid Hlegs Hcall Hhit Htl Hpod] Hp Hh. unfold reload. rewrite reload_call_ok by done. cbn [mbind option_bind].
  do 2 f_equal. unfold leg_texts in Hlegs. rewrite !Forall_cons in Hlegs. destruct Hlegs as (? & ? & ? & _).
  rewrite !reload_leg_utf8, reload_items, !(reload_string_utf8 (_ rec)) by done. unfold uncounted.
  assert (reload_hit <$> ValueOverlap rec = ValueOverlap rec) as ->.
  { destruct (ValueOverlap rec) as [h|]; [|done]. specialize (Hhit h eq_refl). unfold hit_texts in Hhit.
    rewrite !Forall_cons in Hhit. destruct Hhit as (? & ? & ? & ? & _). cbn. unfold reload_hit.
    rewrite !reload_string_utf8 by done. by destruct h. }
  assert (reload_pod <$> erPod rec = erPod rec) as ->; [|done].
  destruct (erPod rec) as [p|]; [|done]. specialize (Hpod p eq_refl). unfold pod_texts in Hpod.
  rewrite !Forall_cons in Hpod. destruct Hpod as (? & ? & ? & ? & _). cbn. unfold reload_pod.
  rewrite !reload_string_utf8 by done. by destruct p.
Qed.

Lemma utf8_hash t : utf8 (HashValue t).
Proof. apply utf8_graphic, hex_encode_graphic. Qed.

Lemma sort_keys_in kv call : kv ∈ sort_keys call -> kv ∈ call.
Proof.
  unfold sort_keys. induction call as [|x call IH]; [done|]. cbn [foldr]. generalize (foldr insert_key [] call) IH. clear IH. intros l IH Hin.
  assert (kv = x \/ kv ∈ l) as [->|]; [|set_solver..]. clear IH. revert Hin.
  induction l as [|y l IHl]; cbn [insert_key]; [set_solver|]. destruct (bytes_lt _ _); set_solver.
Qed.

Lemma clean_seals rec seq prev : clean rec -> exists r, SealEvidenceRecord rec seq prev = Some r.
Proof.
  intros Hc. unfold SealEvidenceRecord, HashEvidenceRecord, hashed_text, marshal_record, record_text.
  assert (is_Some (sink_call_text true (SinkCall rec))) as [sink Hs]; [|cbn [SinkCall set_hash set_chain]; rewrite Hs; cbn; by eexists].
  unfold sink_call_text.
  assert (is_Some (mapM (λ kv, t ← sink_text true kv.2; Some (quote_as true kv.1 ++ x3a :: t)) (sort_keys (SinkCall rec)))) as [l ->]; [|by eexists].
  apply mapM_is_Some, Forall_forall. intros [k v] Hin. apply sort_keys_in in Hin.
  pose proof (clean_call _ Hc) as Hv. rewrite Forall_forall in Hv. destruct (Hv _ Hin) as [_ Hok]. cbn in *.
  destruct v as [s|z|raw]; cbn [sink_text mbind option_bind]; [by eexists..|]. unfold raw_text_as. destruct raw as [|c raw]; [by eexists|].
  cbn [value_ok reload_value] in Hok. unfold Unmarshal in Hok. destruct (parse (c :: raw)); [by eexists|done].
Qed.

(** ** The sink *)

Definition unsealed rec : EvidenceRecord := set_chain 0 [] [] (uncounted rec).

(** The records whose lines were written; [failed] says whether a write of this process has failed, after which it
    writes nothing. *)
Fixpoint written_records (failed : bool) (ops : list sink_op) : list EvidenceRecord :=
  match ops with
  | [] => []
  | OpEmit Whole _ rec :: ops => (if failed then [] else [rec]) ++ written_records failed ops
  | OpEmit _ _ _ :: ops => written_records true ops
  | OpRestart :: ops => written_records false ops
  end.

(** A record that reads back, and a write that is not cut. *)
Definition clean_op (op : sink_op) : Prop :=
  match op with OpEmit w _ rec => clean rec /\ w ∈ [Nothing; Whole] | OpRestart => True end.

Record sink_ok (wr : list EvidenceRecord) (s : JSONLEvidenceSink) : Prop := {
  so_whole : sink_file s = map (Line true) (lines s);
  so_chain : chain_ok None (lines s);
  so_seq : map ChainSeq (lines s) = map Z.of_nat (seq 0 (length (lines s)));
  so_next : nextSeq s = u64 (Z.of_nat (length (lines s)));
  so_tip : lastHash s = match last (lines s) with Some rec => erHash rec | None => [] end;
  so_read : Forall (λ rec, reload rec = Some (uncounted rec)) (lines s);
  so_lines : map unsealed (lines s) = map unsealed wr }.

Lemma reload_all rs : Forall (λ rec, reload rec = Some (uncounted rec)) rs -> mapM reload rs = Some (map uncounted rs).
Proof. induction 1 as [|rec rs E _ IH]; [done|]. cbn. rewrite E. cbn. cbn in IH. by rewrite IH. Qed.

Lemma chain_ok_uncounted prev rs : chain_ok (uncounted <$> prev) (map uncounted rs) <-> chain_ok prev rs.
Proof.
  revert prev. induction rs as [|rec rs IH]; intros prev; [done|]. cbn [map chain_ok].
  rewrite <- (IH (Some rec)). by destruct prev.
Qed.

(** *** Whole lines *)

Lemma lines_whole s l : sink_file s = map (Line true) l -> lines s = l.
Proof. unfold lines. intros ->. induction l as [|rec l IH]; [done|]. cbn. by rewrite IH. Qed.

Lemma append_whole w rec l :
  w ∈ [Nothing; Whole] -> append w rec (map (Line true) l) = map (Line true) (l ++ match w with Whole => [rec] | _ => [] end).
Proof.
  assert (last (map (Line true) l) = Line true <$> last l) as El by apply fmap_last.
  intros [->| ->%list_elem_of_singleton]%elem_of_cons; cbn [append]; [by rewrite app_nil_r|]. rewrite El, map_app. by destruct (last l).
Qed.

(** A reader loads whole lines when each of them fits into its buffer. *)
Lemma read_all rs :
  Forall fits rs -> Forall (λ rec, reload rec = Some (uncounted rec)) rs ->
  mapM read_line (map (Line true) rs) = Some (map uncounted rs).
Proof.
  intros Hf Hr. rewrite <- (reload_all rs Hr). clear Hr. induction Hf as [|rec rs Hfit _ IH]; [done|]. cbn.
  rewrite decide_True by done. cbn in IH. by rewrite IH.
Qed.

(** One that does not stops it. *)
Lemma read_long s : ~ Forall fits (lines s) -> mapM read_line (sink_file s) = None.
Proof.
  intros Hn. destruct (mapM read_line (sink_file s)) as [l|] eqn:E; [|done]. destruct Hn. apply mapM_Some_1 in E.
  unfold lines. induction E as [|ln rec file l Hln _ IH]; [constructor|]. cbn. destruct ln as [ended rc|ended]; [|done].
  constructor; [|exact IH]. cbn in Hln. by destruct (decide (fits rc)).
Qed.

(** The sink a restart makes of the file of [s]. *)
Definition reopened (s : JSONLEvidenceSink) : JSONLEvidenceSink := {|
  sink_file := sink_file s; enc_err := false; lastHash := lastHash s; nextSeq := nextSeq s |}.

Lemma restart_ok wr s : sink_ok wr s -> Forall fits (lines s) -> NewJSONLEvidenceSink (sink_file s) = Some (reopened s).
Proof.
  intros [Hw _ _ Hn Hl Hr _] Hf. unfold NewJSONLEvidenceSink, scanJSONLChainTip, reopened. rewrite Hw, read_all by done. cbn.
  rewrite length_map, <- Hn, Hl. do 2 f_equal. change (map uncounted (lines s)) with (uncounted <$> lines s). rewrite fmap_last. by destruct (last (lines s)).
Qed.

Lemma u64_small z : 0 <= z < 2 ^ 64 -> u64 z = z.
Proof. apply Z.mod_small. Qed.

Lemma link_ok wr s r :
  Z.of_nat (length (lines s)) < 2 ^ 64 -> sink_ok wr s -> ChainSeq r = nextSeq s -> PrevHash r = lastHash s ->
  check_link (last (lines s)) r = None.
Proof.
  intros Hlen [_ _ Hseq Hn Hl _ _] Es Ep. rewrite Hn, u64_small in Es by lia. unfold check_link.
  destruct (last (lines s)) as [p|] eqn:El; [|rewrite Ep, Hl, bool_decide_eq_true_2 by done; by rewrite andb_false_r].
  assert (ChainSeq p = Z.of_nat (length (lines s)) - 1 /\ (1 <= length (lines s))%nat) as [Hp H1'].
  { apply last_Some in El as [pre El]. rewrite El in Hseq |- *. rewrite length_app, map_app, seq_app, map_app in Hseq.
    apply app_inj_tail in Hseq as [_ Hseq]. rewrite length_app. cbn [length] in *. lia. }
  rewrite Hp, Es, Ep, Hl, u64_small by lia. by rewrite Z.sub_add, Z.eqb_refl, bool_decide_eq_true_2.
Qed.

Lemma seal_clean rec seq prev r :
  clean rec -> SealEvidenceRecord rec seq prev = Some r -> utf8 prev -> reload r = Some (uncounted r) /\ unsealed r = unsealed rec.
Proof.
  intros Hc Hs Hp. unfold SealEvidenceRecord, HashEvidenceRecord in Hs. destruct (hashed_text _) as [t|]; [|done].
  injection Hs as <-. split; [|done]. apply reload_clean; [by destruct Hc; constructor|done|apply utf8_hash].
Qed.

Lemma tip_utf8 wr s : sink_ok wr s -> utf8 (lastHash s).
Proof.
  intros [_ Hc _ _ -> _ _]. destruct (last (lines s)) as [p|] eqn:E; [|constructor]. apply last_Some in E as [pre E].
  rewrite E in Hc. apply chain_ok_app in Hc as [_ [_ Hh]]. unfold HashEvidenceRecord in Hh.
  destruct (hashed_text p); [|done]. injection Hh as <-. apply utf8_hash.
Qed.

(** A record that is written is the next line. *)
Lemma emit_writes (standalone : bool) rec s r :
  sink_file s = map (Line true) (lines s) -> enc_err s = false -> SealEvidenceRecord rec (nextSeq s) (lastHash s) = Some r ->
  let s' := (Emit Whole standalone rec s).2 in
  sink_file s' = map (Line true) (lines s ++ [r]) /\ lines s' = lines s ++ [r] /\ enc_err s' = false /\
  lastHash s' = erHash r /\ nextSeq s' = u64 (nextSeq s + 1).
Proof.
  intros Hw He Hs. unfold Emit. rewrite Hs, He. cbn [snd].
  assert (append Whole r (sink_file s) = map (Line true) (lines s ++ [r])) as Ha by (rewrite Hw at 1; by rewrite append_whole by (right; left)).
  cbn [sink_file]. rewrite Ha. split_and!; try done. by apply lines_whole.
Qed.

(** One that is not leaves the lines, the tip, and a sink that writes nothing any more. *)
Lemma emit_fails w (standalone : bool) rec s r :
  sink_file s = map (Line true) (lines s) -> w ∈ [Nothing; Whole] -> SealEvidenceRecord rec (nextSeq s) (lastHash s) = Some r ->
  enc_err s = true \/ w = Nothing ->
  (Emit w standalone rec s).2 = {| sink_file := sink_file s; enc_err := true; lastHash := lastHash s; nextSeq := nextSeq s |}.
Proof.
  intros Hw Hin Hs Hf. unfold Emit. rewrite Hs. destruct s as [file err h n]. cbn in *. destruct err; [done|].
  destruct Hf as [[=]| ->]. done.
Qed.

Lemma emit_ok wr w (standalone : bool) rec s :
  Z.of_nat (length (lines s)) < 2 ^ 64 -> clean_op (OpEmit w standalone rec) -> sink_ok wr s ->
  let s' := (Emit w standalone rec s).2 in
  sink_ok (wr ++ written_records (enc_err s) [OpEmit w standalone rec]) s' /\
  (exists more, lines s' = lines s ++ more) /\ enc_err s' = (enc_err s || negb (match w with Whole => true | _ => false end)).
Proof.
  intros Hlen [Hclean Hw] Hok. destruct (clean_seals rec (nextSeq s) (lastHash s) Hclean) as [r Hr].
  pose proof (so_whole _ _ Hok) as Hwhole.
  assert ((enc_err s = true \/ w = Nothing) \/ (enc_err s = false /\ w = Whole)) as [Hf|[He ->]].
  { apply elem_of_cons in Hw as [->|Hw%list_elem_of_singleton]; [by left; right|]. destruct (enc_err s); [by left; left|by right]. }
  { cbn zeta. rewrite (emit_fails w standalone rec s r) by done. cbn [enc_err].
    assert (lines {| sink_file := sink_file s; enc_err := true; lastHash := lastHash s; nextSeq := nextSeq s |} = lines s) as El by done.
    split_and!; [|exists []; by rewrite El, app_nil_r|by destruct Hf as [-> | ->]; destruct (enc_err s)].
    assert (written_records (enc_err s) [OpEmit w standalone rec] = []) as ->
      by (destruct Hf as [-> | ->]; [by destruct w|done]).
    rewrite app_nil_r. destruct Hok. by constructor. }
  destruct (emit_writes standalone rec s r Hwhole He Hr) as (Ef & El & Ee & Eh & En). cbn zeta.
  split_and!; [|by exists [r]|by rewrite Ee, He].
  destruct (seal_clean _ _ _ _ Hclean Hr (tip_utf8 _ _ Hok)) as [Hread Hun].
  apply seal_spec in Hr as (Es & Ep & Ehh). pose proof (link_ok _ _ _ Hlen Hok Es Ep) as Hlink.
  destruct Hok as [_ Hc Hseq Hn Hl Hrs Hwr]. rewrite He. cbn [written_records app]. constructor; rewrite ?El, ?Eh, ?En.
  - done.
  - apply chain_ok_app. split; [done|]. split; [|done]. by destruct (last (lines s)).
  - rewrite length_app, map_app, seq_app, map_app, Hseq. cbn. by rewrite Es, Hn, u64_small by lia.
  - rewrite Hn, length_app. unfold u64. rewrite Nat2Z.inj_add, Z.add_mod_idemp_l by lia. done.
  - by rewrite last_snoc.
  - apply Forall_app. split; [done|by constructor].
  - rewrite !map_app, Hwr. cbn. by rewrite Hun.
Qed.

Lemma written_cons failed op ops :
  written_records failed (op :: ops) =
  written_records failed [op] ++
  written_records (match op with OpEmit w _ _ => failed || negb (match w with Whole => true | _ => false end) | OpRestart => false end) ops.
Proof. destruct op as [[] standalone rec|], failed; done. Qed.

Lemma restart_cases wr s :
  sink_ok wr s -> sink_step s OpRestart = if decide (Forall fits (lines s)) then reopened s else s.
Proof.
  intros Hok. cbn [sink_step]. case_decide as Hf; [by rewrite (restart_ok wr)|].
  unfold NewJSONLEvidenceSink, scanJSONLChainTip. by rewrite read_long.
Qed.

Lemma reopened_ok wr s : sink_ok wr s -> sink_ok wr (reopened s).
Proof. intros []. by constructor. Qed.

Lemma step_grows wr s op :
  Z.of_nat (length (lines s)) < 2 ^ 64 -> clean_op op -> sink_ok wr s ->
  (exists wr', sink_ok wr' (sink_step s op)) /\
  exists more, lines (sink_step s op) = lines s ++ more /\ (length more <= 1)%nat.
Proof.
  intros Hlen Hop Hok. destruct op as [w standalone rec|].
  - destruct (emit_ok wr w standalone rec s Hlen Hop Hok) as (Hok' & [more Hmore] & _). split; [by eexists|].
    exists more. split; [done|].
    pose proof (f_equal length (so_lines _ _ Hok)) as E. pose proof (f_equal length (so_lines _ _ Hok')) as E'.
    rewrite Hmore in E'. rewrite !length_map, !length_app in *. rewrite E in E'. destruct w, (enc_err s); cbn in *; lia.
  - rewrite (restart_cases wr) by done. split.
    + exists wr. case_decide; [by apply reopened_ok|done].
    + exists []. rewrite app_nil_r. split; [by case_decide|cbn; lia].
Qed.

(** The lines of the file stay. *)
Lemma run_grows ops wr s :
  Forall clean_op ops -> Z.of_nat (length (lines s) + length ops) < 2 ^ 64 -> sink_ok wr s ->
  exists more, lines (foldl sink_step s ops) = lines s ++ more.
Proof.
  intros Hops. revert wr s. induction Hops as [|op ops Hop _ IH]; intros wr s Hn Hok; [by exists []; rewrite app_nil_r|].
  cbn [foldl length] in *. destruct (step_grows wr s op) as ([wr' Hok'] & more & E & Hm); [lia|done..|].
  destruct (IH wr' (sink_step s op)) as [more' E']; [rewrite E, length_app; lia|done|].
  exists (more ++ more'). by rewrite E', E, app_assoc.
Qed.

Lemma run_sink_ok ops wr s :
  Forall clean_op ops -> Z.of_nat (length (lines s) + length ops) < 2 ^ 64 -> sink_ok wr s ->
  Forall fits (lines (foldl sink_step s ops)) ->
  sink_ok (wr ++ written_records (enc_err s) ops) (foldl sink_step s ops).
Proof.
  intros Hops. revert wr s. induction Hops as [|op ops Hop Hops IH]; intros wr s Hn Hok Hf; [by rewrite app_nil_r|].
  destruct (step_grows wr s op) as (_ & more & E & Hm); [cbn in Hn; lia|done..|].
  assert (Forall fits (lines s)) as Hs.
  { destruct (run_grows (op :: ops) wr s) as [more' E']; [by constructor|done..|]. rewrite E' in Hf. by apply Forall_app in Hf as [? _]. }
  cbn [foldl length] in *. rewrite written_cons, app_assoc. destruct op as [w standalone rec|].
  - destruct (emit_ok wr w standalone rec s ltac:(lia) Hop Hok) as (Hok' & _ & Ee). cbn [sink_step] in *. rewrite <- Ee.
    apply IH; [rewrite E, length_app; lia|done..].
  - rewrite (restart_cases wr), decide_True in * by done. cbn [written_records]. rewrite app_nil_r.
    apply (IH wr (reopened s)); [change (lines (reopened s)) with (lines s); lia|by apply reopened_ok|done].
Qed.

Lemma sink_after_ok ops :
  Forall clean_op ops -> Z.of_nat (length ops) < 2 ^ 64 -> Forall fits (lines (sink_after ops)) ->
  sink_ok (written_records false ops) (sink_after ops).
Proof. intros Hops Hn Hf. by apply (run_sink_ok ops [] {| sink_file := []; enc_err := false; lastHash := []; nextSeq := 0 |}). Qed.

End file.

(** ** What a hash pins down *)

Lemma escape_hex (t : bytes) n : (length (hex_encode t) <= n)%nat -> escape n (hex_encode t) = hex_encode t.
Proof.
  assert (forall z s n, 0 <= z < 16 -> escape (S n) (hex_digit z :: s) = hex_digit z :: escape n s) as Hd.
  { intros z s' k Hz. unfold hex_digit. destruct (Z.ltb_spec z 10);
      (assert (z = 0 \/ z = 1 \/ z = 2 \/ z = 3 \/ z = 4 \/ z = 5 \/ z = 6 \/ z = 7 \/ z = 8 \/ z = 9 \/ z = 10 \/
               z = 11 \/ z = 12 \/ z = 13 \/ z = 14 \/ z = 15) as Hc by lia);
      repeat (destruct Hc as [->|Hc]; [reflexivity || lia|]); subst z; reflexivity || lia. }
  revert n. induction t as [|c t IH]; intros n Hn; [by destruct n|]. cbn [hex_encode length] in *.
  destruct n as [|[|n]]; [lia..|]. pose proof (byte_Z_bound c).
  rewrite !Hd by (Z.div_mod_to_equations; lia). rewrite IH by lia. done.
Qed.

Lemma Join_app (l : list bytes) (x : bytes) m sep :
  m ≠ [] -> Join (l ++ m) sep = (match l with [] => [] | _ => Join l sep ++ sep end) ++ Join m sep.
Proof.
  intros Hm. induction l as [|y l IH]; [done|]. destruct l as [|z l].
  - cbn [app Join]. destruct m; [done|]. by rewrite <- app_assoc.
  - change ((y :: z :: l) ++ m) with (y :: ((z :: l) ++ m)).
    assert (Join (y :: (z :: l) ++ m) sep = y ++ sep ++ Join ((z :: l) ++ m) sep) as -> by done.
    rewrite IH. cbn [Join]. by rewrite <- !app_assoc.
Qed.

(** The hashed text ends with the hash of the record before. *)
Lemma hashed_text_suffix rec text :
  hashed_text rec = Some text -> (exists t, PrevHash rec = HashValue t) ->
  exists pre, text = pre ++ PrevHash rec ++ gostr (String (Ascii.ascii_of_nat 34) EmptyString) ++ [x2c] ++ field "hash" (quote []) ++ [x7d].
Proof.
  intros Ht [t Hp]. unfold hashed_text, marshal_record, record_text in Ht. cbn [SinkCall set_hash set_chain] in Ht.
  destruct (sink_call_text true (SinkCall rec)) as [sink|]; [|done]. cbn [mbind option_bind quote_as] in Ht.
  apply (inj Some) in Ht as <-. cbn [ChainSeq PrevHash erHash set_hash set_chain]. unfold object.
  set (body := body_fields _ _ _). rewrite (Join_app body []) by done. cbn [Join].
  unfold field at 2, quote at 2. rewrite Hp. unfold HashValue at 2. rewrite escape_hex by done.
  eexists (x7b :: match body with [] => [] | _ => Join body [x2c] ++ [x2c] end ++ field "chain_seq" _ ++ [x2c] ++
           quote (gostr "prev_hash") ++ [x3a; x22]).
  change (gostr (String _ EmptyString)) with [x22]. change (hex_encode (Sum256 t)) with (HashValue t).
  repeat (rewrite <- ?app_assoc, <- ?app_comm_cons; cbn [app]). reflexivity.
Qed.

Lemma same_text_same_prev r r' text :
  hashed_text r = Some text -> hashed_text r' = Some text ->
  (exists t, PrevHash r = HashValue t) -> (exists t, PrevHash r' = HashValue t) -> PrevHash r = PrevHash r'.
Proof.
  intros H1 H2 Hp Hp'. destruct (hashed_text_suffix r text H1 Hp) as [pre E1], (hashed_text_suffix r' text H2 Hp') as [pre' E2].
  rewrite E1 in E2. apply app_inj_2 in E2 as [_ E2].
  - apply app_inj_1 in E2 as [? _]; [done|]. destruct Hp as [t ->], Hp' as [t' ->]. by rewrite !length_HashValue.
  - rewrite !length_app. destruct Hp as [t ->], Hp' as [t' ->]. by rewrite !length_HashValue.
Qed.

(** Two different texts with one hash, among those of the two lists. *)
Definition collision rs rs' : Prop :=
  exists r r' t t', r ∈ rs /\ r' ∈ rs' /\ hashed_text r = Some t /\ hashed_text r' = Some t' /\
    t ≠ t' /\ HashValue t = HashValue t'.

Lemma accepted_text prev rec : accepted prev rec -> exists t, hashed_text rec = Some t /\ erHash rec = HashValue t.
Proof. intros [_ E]. unfold HashEvidenceRecord in E. destruct (hashed_text rec) as [t|]; [|done]. injection E as <-. by exists t. Qed.

Lemma accepted_prev p rec : accepted (Some p) rec -> PrevHash rec = erHash p.
Proof.
  intros [E _]. unfold check_link in E. destruct (negb (_ =? _)); [done|]. by case_bool_decide.
Qed.

Lemma tamper rs rs' :
  chain_ok None rs -> chain_ok None rs' -> erHash <$> last rs = erHash <$> last rs' -> (length rs <= length rs')%nat ->
  map hashed_text rs = drop (length rs' - length rs) (map hashed_text rs') \/ collision rs rs'.
Proof.
  revert rs'. induction rs as [|r rs IH] using rev_ind; intros rs' Hc Hc' Hl Hn.
  { left. cbn [map length]. rewrite Nat.sub_0_r, drop_ge; [done|]. by rewrite length_map. }
  destruct rs' as [|r' rs' _] using rev_ind; [rewrite length_app in Hn; cbn in Hn; lia|].
  rewrite !last_snoc in Hl. injection Hl as Hl. apply chain_ok_app in Hc as [Hc Hr], Hc' as [Hc' Hr'].
  destruct (accepted_text _ _ Hr) as (t & Et & Eh), (accepted_text _ _ Hr') as (t' & Et' & Eh').
  rewrite !length_app in Hn |- *. cbn [length] in *.
  destruct (decide (t = t')) as [<-|Hne].
  2: { right. exists r, r', t, t'. split_and!; try done; [set_solver..|congruence]. }
  assert (erHash <$> last rs = erHash <$> last rs' \/ rs = []) as Hlast.
  { destruct (last rs) as [p|] eqn:Ep; [|apply last_None in Ep; by right]. left.
    destruct (last rs') as [p'|] eqn:Ep'.
    2: { apply last_None in Ep' as ->. destruct rs; [done|cbn in Hn; lia]. }
    cbn. f_equal. rewrite <- (accepted_prev p r Hr), <- (accepted_prev p' r' Hr').
    assert (forall q x qs, last qs = Some q -> chain_ok None qs -> accepted (Some q) x -> exists t, PrevHash x = HashValue t) as Hq.
    { intros q x qs Hq Hok Hx. apply last_Some in Hq as [pre ->]. apply chain_ok_app in Hok as [_ Hok].
      apply accepted_text in Hok as (tq & _ & Hh). exists tq. by rewrite (accepted_prev q x Hx). }
    apply (same_text_same_prev r r' t); [done..|by apply (Hq p r rs)|by apply (Hq p' r' rs')]. }
  rewrite !map_app. cbn [map]. rewrite Et, Et'.
  replace (length rs' + 1 - (length rs + 1))%nat with (length rs' - length rs)%nat by lia.
  rewrite drop_app_le by (rewrite length_map; lia).
  destruct Hlast as [Hlast| ->].
  - destruct (IH rs' Hc Hc' Hlast ltac:(lia)) as [->|(x & y & tx & ty & Hx & Hy & Hrest)]; [by left|].
    right. exists x, y, tx, ty. do 2 (split; [set_solver|]). exact Hrest.
  - left. cbn [map length app]. rewrite Nat.sub_0_r, drop_ge; [done|by rewrite length_map].
Qed.

End chain.

(** ** The chain *)

Section properties.

Context `{FloatFormat} `{Floats}.

(** C15: a file the JSONL sink wrote verifies as long as its lines are short enough for the Scanner of the readers: whatever
    was emitted into it, with failed writes, after which the process writes nothing more, and restarts in between, if each line is shorter than
    1 MiB the verifier loads the file, finds the chain intact and numbered from 0 without
    a gap, and reads back exactly the records whose lines were written, in order; the sink also
    reopens with the tip it had. If a line is longer, neither the verifier nor the sink can read the file. The emitted records are made of well-formed UTF-8 and their
    raw messages are spelled as Marshal spells them, and a write that fails leaves no part of a line behind. *)
Theorem sink_chain_verifies (ops : list sink_op) :
  Forall clean_op ops -> Z.of_nat (length ops) < 2 ^ 64 ->
  let s := sink_after ops in
  (Forall fits (lines s) ->
   exists records,
     loadJSONL (sink_file s) = Some records /\ VerifyChain records = Intact /\
     map ChainSeq records = map Z.of_nat (seq 0 (length records)) /\
     map (set_chain 0 [] []) records = map unsealed (written_records false ops) /\
     NewJSONLEvidenceSink (sink_file s) = Some (reopened s)) /\
  (~ Forall fits (lines s) -> loadJSONL (sink_file s) = None /\ NewJSONLEvidenceSink (sink_file s) = None).
Proof.
  intros Hops Hn s. split; intros Hf.
  - pose proof (sink_after_ok ops Hops Hn Hf) as Hok. exists (map uncounted (lines s)).
    split; [unfold loadJSONL; rewrite (so_whole _ _ Hok : sink_file s = _); by apply read_all, (so_read _ _ Hok)|].
    split; [|split; [|split; [|by apply (restart_ok _ _ Hok)]]].
    + exact (proj2 (intact_ok _) (proj2 (chain_ok_uncounted None _) (so_chain _ _ Hok))).
    + rewrite List.map_map, length_map. exact (so_seq _ _ Hok).
    + rewrite List.map_map. exact (so_lines _ _ Hok).
  - unfold loadJSONL, NewJSONLEvidenceSink, scanJSONLChainTip. by rewrite read_long.
Qed.

(** C14: the chain is tamper evident: of two chains that verify and end in the same hash, the
    shorter one is, text by text, the end of the longer one (all of it, when they are of one
    length), unless two different texts in them have the same SHA-256. *)
Theorem chain_tamper_evident (rs rs' : list EvidenceRecord) :
  VerifyChain rs = Intact -> VerifyChain rs' = Intact -> erHash <$> last rs = erHash <$> last rs' ->
  (length rs <= length rs')%nat ->
  map hashed_text rs = drop (length rs' - length rs) (map hashed_text rs') \/ collision rs rs'.
Proof. intros Hc Hc'. exact (tamper rs rs' (proj1 (intact_ok rs) Hc) (proj1 (intact_ok rs') Hc')). Qed.

End properties.

(** ** Records of a demonstration *)

#[local] Instance demo_format : FloatFormat := λ _, gostr "0.9".
#[local] Instance demo_numbers : Floats := Some.

Definition demo_leg (detail : string) (seq : Z) : Leg := {|
  Lit := true; TriggerSeq := seq; Detail := gostr detail; LitAt := 5; EventsAtLit := 3 |}.
Arguments demo_leg detail%_string seq.

(** A trip of the session s1 whose sink call is [call]. *)
Definition demo_record (call : list (bytes * sink_value)) : EvidenceRecord := {|
  erSessionID := gostr "s1"; TripTS := 12; erVerdict := VerdictExfil; erAction := ActionPrevented; erVariant := VariantA;
  erConfidence := GoTime.f64 1; erLegs := {| SensitiveSourceTouched := demo_leg "db" 1; UntrustedContentPresent := demo_leg "mail" 2;
                                     ExternalSinkInvoked := demo_leg "send" 3 |};
  SinkCall := call; ValueOverlap := None;
  erTimeline := [{| TimelineSeq := 1; tiTSMono := 4; Kind := Intercepted; Label := gostr "db"; Ref := 1 |}];
  erPod := None; ChainSeq := 0; PrevHash := []; erHash := [] |}.

Definition demo_json (s : string) : bytes := List.map (λ c, if Byte.eqb c x27 then x22 else c) (gostr s).
Arguments demo_json s%_string.

Definition plain_record : EvidenceRecord := demo_record [(gostr "tool", SinkStr (gostr "send"))].
Definition raw_record : EvidenceRecord := demo_record [(gostr "args", SinkRaw (demo_json "{'a':1,'b':'x'}"))].

(** Two records, a failed write, a record that is refused for it, a restart and another record. *)
Definition demo_ops : list sink_op :=
  [OpEmit Whole true plain_record; OpEmit Whole true raw_record; OpEmit Nothing true raw_record; OpEmit Whole true raw_record;
   OpRestart; OpEmit Whole true plain_record].

Lemma demo_clean : Forall clean_op demo_ops.
Proof.
  assert (forall call, Forall (λ kv, utf8 kv.1 /\ value_ok kv.2) call -> clean (demo_record call)) as Hd.
  { intros call Hcall. constructor; cbn; [by apply utf8_graphic| |done|done| |done]; repeat constructor; by apply utf8_graphic. }
  assert (clean plain_record) by (apply Hd; repeat constructor; by apply utf8_graphic).
  assert (clean raw_record).
  { apply Hd, Forall_singleton. split; [by apply utf8_graphic|vm_compute; reflexivity]. }
  repeat (constructor; [first [done|split; [done|set_solver]]|]). constructor.
Qed.

Definition demo_sink : JSONLEvidenceSink := sink_after demo_ops.

Definition demo_chain : list EvidenceRecord := lines demo_sink.

Lemma demo_fits : Forall fits (lines (sink_after demo_ops)).
Proof. apply (bool_decide_unpack _). vm_compute. exact I. Qed.

Lemma demo_chain_intact : VerifyChain demo_chain = Intact /\ VerifyChain (drop 1 demo_chain) = Intact.
Proof. split; vm_compute; reflexivity. Qed.

Lemma demo_tips : erHash <$> last (drop 1 demo_chain) = erHash <$> last demo_chain.
Proof. vm_compute. reflexivity. Qed.

Lemma demo_lengths : length demo_chain = 3%nat /\ (length (drop 1 demo_chain) <= length demo_chain)%nat.
Proof. split; [vm_compute; reflexivity|]. rewrite length_drop. apply Nat.le_sub_l. Qed.

Lemma sink_chain_verifies_witness :
  length demo_chain = 3%nat /\
  exists records, loadJSONL (sink_file (sink_after demo_ops)) = Some records /\ VerifyChain records = Intact.
Proof.
  split; [exact (proj1 demo_lengths)|]. pose proof (sink_chain_verifies demo_ops demo_clean ltac:(cbn; lia)) as [Hok _].
  destruct (Hok demo_fits) as (records & Hl & Hv & _). exact (ex_intro _ records (conj Hl Hv)).
Defined.

Lemma chain_tamper_evident_witness :
  map hashed_text (drop 1 demo_chain) = drop (length demo_chain - length (drop 1 demo_chain)) (map hashed_text demo_chain) \/
  collision (drop 1 demo_chain) demo_chain.
Proof.
  apply (chain_tamper_evident (drop 1 demo_chain) demo_chain).
  - exact (proj2 demo_chain_intact).
  - exact (proj1 demo_chain_intact).
  - exact demo_tips.
  - exact (proj2 demo_lengths).
Defined.

(** Deleting or changing a record in the middle is seen. *)
Example deletion_seen :
  VerifyChain (take 1 demo_chain ++ drop 2 demo_chain) = ChainBreak 1 (SeqMismatch 2 1).
Proof. vm_compute. reflexivity. Qed.

(** The arguments of a tool call come from the client as it spelled them. A record of a call
    with its keys in another order is intact in memory, and its line, untouched, is reported as tampered
    with: the hash is of the spelling, the line is read back without it. *)
Definition after_reload (rec : EvidenceRecord) : chain_result * option chain_result :=
  let s := sink_after [OpEmit Whole true rec] in (VerifyChain (lines s), VerifyChain <$> loadJSONL (sink_file s)).

Example unsorted_arguments_break :
  after_reload (demo_record [(gostr "args", SinkRaw (demo_json "{'b':'x','a':1}"))]) = (Intact, Some (ChainBreak 0 HashMismatch)).
Proof. vm_compute. reflexivity. Qed.

(** So is that of a payload excerpt that is not UTF-8: Marshal writes the escape of U+FFFD for
    the bad byte, and the rune itself when it writes the string it read back. *)
Example binary_payload_breaks :
  after_reload (demo_record [(gostr "payload_excerpt", SinkStr ([xff] ++ gostr "data"))]) = (Intact, Some (ChainBreak 0 HashMismatch)).
Proof. vm_compute. reflexivity. Qed.

(** A write that stops part way leaves a file no reader accepts, although the records before it are
    whole: the verifier and the next start of the process fail. *)
Example torn_line_stops_readers :
  let file := sink_file (sink_after [OpEmit Whole true plain_record; OpEmit Some_text true plain_record]) in
  loadJSONL file = None /\ NewJSONLEvidenceSink file = None.
Proof. vm_compute. done. Qed.

(** One that only misses its newline is read back, although the sink counted it as failed; what is written after a
    restart then goes on in its line. *)
Example unended_line :
  let ops := [OpEmit Whole true plain_record; OpEmit Unended true plain_record; OpRestart] in
  VerifyChain <$> loadJSONL (sink_file (sink_after ops)) = Some Intact /\
  loadJSONL (sink_file (sink_after (ops ++ [OpEmit Whole true plain_record]))) = None.
Proof. split; vm_compute; reflexivity. Qed.

(** A record of a call with [n] bytes of arguments. *)
Definition long_record (n : nat) : EvidenceRecord := demo_record [(gostr "args", SinkStr (replicate n x61))].

Lemma plain_stays n : escape_plain n (replicate n x61) = replicate n x61.
Proof. induction n as [|n IH]; [done|]. cbn [replicate escape_plain]. by rewrite IH. Qed.

Lemma Join_longer (el : bytes) els sep : el ∈ els -> (length el <= length (Join els sep))%nat.
Proof. intros Hin. destruct (Join_infix el els sep Hin) as (a & b & ->). rewrite !length_app. lia. Qed.

Lemma object_longer (f : bytes) fs : f ∈ fs -> (length f <= length (object fs))%nat.
Proof. intros Hin. apply (Join_longer f fs [x2c]) in Hin. unfold object. cbn. rewrite length_app. lia. Qed.

Lemma long_line rec n : SinkCall rec = [(gostr "args", SinkStr (replicate n x61))] -> max_line <= Z.of_nat n -> ~ fits rec.
Proof.
  intros Hc Hn (t & Ht & Hl). unfold line_text, record_text in Ht. rewrite Hc in Ht.
  set (arg := quote_as false (gostr "args") ++ x3a :: quote_as false (replicate n x61)).
  assert (sink_call_text false [(gostr "args", SinkStr (replicate n x61))] = Some (object [arg])) as E by done.
  rewrite E in Ht. cbn [mbind option_bind] in Ht. apply (inj Some) in Ht as <-.
  assert (length (field "sink_call" (object [arg])) <= length (object (body_fields false rec (object [arg]) ++
    [field "chain_seq" (Itoa (ChainSeq rec)); field "prev_hash" (quote_as false (PrevHash rec)); field "hash" (quote_as false (erHash rec))])))%nat as H1
    by (apply object_longer, elem_of_app; left; unfold body_fields; apply elem_of_app; left; do 7 right; by left).
  assert (length arg <= length (object [arg]))%nat as H2 by (apply object_longer; by left).
  assert (n <= length arg)%nat as H3.
  { unfold arg. rewrite length_app. cbn [length]. assert (quote_as false (replicate n x61) = x22 :: replicate n x61 ++ [x22]) as ->.
    { unfold quote_as. by rewrite length_replicate, plain_stays. }
    cbn [length]. rewrite length_app, length_replicate. lia. }
  unfold field in H1 at 1. rewrite length_app in H1. cbn [length] in H1. lia.
Qed.

(** A line that does not fit, of a call with a MiB of arguments or more: the sink writes it, and from then on neither the
    verifier nor the next start of the process reads the file. *)
Lemma long_record_stops_readers n :
  max_line <= Z.of_nat n ->
  let s := sink_after [OpEmit Whole true (long_record n)] in
  loadJSONL (sink_file s) = None /\ NewJSONLEvidenceSink (sink_file s) = None.
Proof.
  intros Hn. assert (clean (long_record n)) as Hc.
  { constructor; cbn [demo_record long_record erSessionID erLegs SinkCall ValueOverlap erTimeline erPod]; [by apply utf8_graphic| | |done| |done];
      repeat constructor; try by apply utf8_graphic.
    apply utf8_graphic. clear Hn. induction n as [|n IH]; [done|exact IH]. }
  destruct (clean_seals (long_record n) 0 [] Hc) as [r Hr]. set (s0 := {| sink_file := []; enc_err := false; lastHash := []; nextSeq := 0 |}).
  destruct (emit_writes true (long_record n) s0 r eq_refl eq_refl Hr) as (_ & El & _).
  assert (~ Forall fits (lines (sink_after [OpEmit Whole true (long_record n)]))) as Hf.
  { change (sink_after [OpEmit Whole true (long_record n)]) with (Emit Whole true (long_record n) s0).2. rewrite El. intros Hr1%Forall_app.
    destruct Hr1 as [_ Hr1]. apply Forall_cons in Hr1 as [Hr1 _]. revert Hr1. apply (long_line r n); [|done].
    unfold SealEvidenceRecord in Hr. destruct (HashEvidenceRecord _); [|done]. by injection Hr as <-. }
  cbn zeta. unfold loadJSONL, NewJSONLEvidenceSink, scanJSONLChainTip. by rewrite read_long.
Qed.
