(* ===== verification/Sqlite.v ===== *)
(** * internal/engine/evidence_sqlite.go: evidence in SQLite

    The sink seals records into the same chain as the JSONL sink, keeps them in a table and
    deletes rows when there are more than it retains. The database is third-party code: [SQLite]
    is its connection, one function per statement the source executes, and [SQLiteOk] what the
    documentation says these statements do. A text of record_json is kept as the record it was
    written from, [None] when it is none. The creation and migration of the schema is left out. *)

From stdpp Require Import sorting.
From S2P Require Import Prelude Go GoTime GoStrings Encodings EncodingFacts Json Model Evidence.

(** ** The table *)

(** The columns of the table evidence, but for id. *)
Record columns := {
  trip_ts : Z; session_id : bytes; record_json : option EvidenceRecord;
  chain_seq : option Z; prev_hash : option bytes; hash : option bytes;
  verdict : option bytes; pod_name : option bytes
}.

Abbreviation row := (Z * columns)%type.

(** hash IS NOT NULL AND hash != '' *)
Definition has_hash (r : row) : bool := match hash r.2 with Some (_ :: _) => true | _ => false end.

Inductive query_column := QSession | QVerdict | QPod.

(** One conjunct of a WHERE: a column equal to a string; NULL equals nothing. *)
Definition column_is (c : columns) (q : query_column * bytes) : bool :=
  bool_decide (match q.1 with QSession => Some (session_id c) | QVerdict => verdict c | QPod => pod_name c end = Some q.2).

(** A connection. [rows] are the rows of the table in the order of their ids; what else a
    connection depends on is part of it, so that any statement may fail at any time. A query
    returns [None] for an error. *)
Class SQLite := {
  db : Type;
  rows : db -> list row;
  (* INSERT INTO evidence (...) VALUES (...) *)
  insert_row : columns -> db -> bool * db;
  (* SELECT COUNT( * ) FROM evidence *)
  count_rows : db -> option Z * db;
  (* DELETE FROM evidence WHERE id IN (SELECT id FROM evidence ORDER BY trip_ts ASC LIMIT ?) *)
  delete_oldest : Z -> db -> bool * db;
  (* SELECT hash, chain_seq FROM evidence WHERE hash IS NOT NULL AND hash != '' ORDER BY id DESC LIMIT 1 *)
  select_tip : db -> option (option (option bytes * option Z)) * db;
  (* SELECT record_json FROM evidence ORDER BY id DESC LIMIT 1 *)
  select_last : db -> option (option (option EvidenceRecord)) * db;
  (* SELECT record_json FROM evidence ORDER BY id ASC *)
  select_all : db -> option (list (option EvidenceRecord)) * db;
  (* SELECT record_json FROM evidence WHERE ... ORDER BY trip_ts DESC LIMIT ? *)
  select_where : list (query_column * bytes) -> Z -> db -> option (list (option EvidenceRecord)) * db;
  (* record_json LIKE '%pod_context%' *)
  mentions_pod : option EvidenceRecord -> bool;
  (* SELECT id, record_json FROM evidence WHERE verdict IS NULL OR (pod_name IS NULL AND record_json LIKE ...) *)
  select_pending : db -> option (list (Z * option EvidenceRecord)) * db;
  (* UPDATE evidence SET verdict = ?, pod_name = ? WHERE id = ? *)
  update_row : bytes -> bytes -> Z -> db -> bool * db
}.

(** [UPDATE ... SET verdict = v, pod_name = p WHERE id = i] on one row. *)
Definition updated (v p : bytes) (i : Z) (r : row) : row :=
  if r.1 =? i then
    (r.1, {| trip_ts := trip_ts r.2; session_id := session_id r.2; record_json := record_json r.2; chain_seq := chain_seq r.2;
             prev_hash := prev_hash r.2; hash := hash r.2; verdict := Some v; pod_name := Some p |})
  else r.

Definition pending_row `{SQLite} (r : row) : bool :=
  match verdict r.2 with
  | None => true
  | Some _ => match pod_name r.2 with None => mentions_pod (record_json r.2) | Some _ => false end
  end.

(** What the documentation of SQL and SQLite says of these statements: a failed statement
    changes nothing, a query neither; an AUTOINCREMENT id is larger than every other; of the
    rows that ORDER BY ranks equal, LIMIT may take any. *)
Class SQLiteOk `{SQLite} : Prop := {
  insert_appends c d d' : insert_row c d = (true, d') ->
    exists id, rows d' = rows d ++ [(id, c)] /\ Forall (λ r, r.1 < id) (rows d);
  insert_fails c d d' : insert_row c d = (false, d') -> rows d' = rows d;
  count_counts d n d' : count_rows d = (Some n, d') -> n = Z.of_nat (length (rows d));
  count_reads d n d' : count_rows d = (n, d') -> rows d' = rows d;
  delete_deletes n d d' : delete_oldest n d = (true, d') -> 0 <= n -> NoDup (rows d).*1 ->
    rows d' `sublist_of` rows d /\
    exists gone, rows d ≡ₚ gone ++ rows d' /\ Z.of_nat (length gone) = Z.min n (Z.of_nat (length (rows d))) /\
      Forall (λ g, Forall (λ r, trip_ts g.2 <= trip_ts r.2) (rows d')) gone;
  delete_fails n d d' : delete_oldest n d = (false, d') -> rows d' = rows d;
  tip_selects d a d' : select_tip d = (Some a, d') ->
    a = (λ r, (hash r.2, chain_seq r.2)) <$> last (List.filter has_hash (rows d));
  tip_reads d a d' : select_tip d = (a, d') -> rows d' = rows d;
  last_selects d a d' : select_last d = (Some a, d') -> a = (λ r, record_json r.2) <$> last (rows d);
  last_reads d a d' : select_last d = (a, d') -> rows d' = rows d;
  all_selects d l d' : select_all d = (Some l, d') -> l = map (λ r, record_json r.2) (rows d);
  all_reads d a d' : select_all d = (a, d') -> rows d' = rows d;
  where_selects qs n d l d' : select_where qs n d = (Some l, d') -> 0 <= n ->
    exists found rest, l = map (λ r, record_json r.2) found /\
      found ++ rest ≡ₚ List.filter (λ r, forallb (column_is r.2) qs) (rows d) /\
      Z.of_nat (length found) = Z.min n (Z.of_nat (length (found ++ rest))) /\
      StronglySorted (λ r r', trip_ts r'.2 <= trip_ts r.2) found /\
      Forall (λ r, Forall (λ r', trip_ts r'.2 <= trip_ts r.2) rest) found;
  where_reads qs n d a d' : select_where qs n d = (a, d') -> rows d' = rows d;
  pending_selects d l d' : select_pending d = (Some l, d') ->
    l ≡ₚ map (λ r, (r.1, record_json r.2)) (List.filter pending_row (rows d));
  pending_reads d a d' : select_pending d = (a, d') -> rows d' = rows d;
  update_updates v p i d d' : update_row v p i d = (true, d') -> rows d' = map (updated v p i) (rows d);
  update_fails v p i d d' : update_row v p i d = (false, d') -> rows d' = rows d
}.

(** ** The sink *)

Section sink.

Context `{FloatFormat} `{Floats} `{SQLite}.
Implicit Types (rec : EvidenceRecord) (d : db).

Record SQLiteEvidenceSink := { sqDB : db; maxRecords : Z; sqLastHash : bytes; sqNextSeq : Z }.

(** json.Unmarshal of a record_json. *)
Definition read_json (j : option EvidenceRecord) : option EvidenceRecord := rec ← j; reload rec.

Definition pod_name_of rec : bytes := match erPod rec with Some p => PodName p | None => [] end.

(** The loop of backfillEvidenceQueryColumns: a record that does not parse is skipped, the
    first failed update ends it. *)
Fixpoint backfill_rows (pending : list (Z * option EvidenceRecord)) d : bool * db :=
  match pending with
  | [] => (true, d)
  | (id, raw) :: pending =>
      match read_json raw with
      | None => backfill_rows pending d
      | Some rec =>
          let '(ok, d) := update_row (verdict_string (erVerdict rec)) (pod_name_of rec) id d in
          if ok then backfill_rows pending d else (false, d)
      end
  end.

Definition backfillEvidenceQueryColumns d : bool * db :=
  let '(pending, d) := select_pending d in
  match pending with
  | None => (false, d)
  | Some pending => backfill_rows pending d
  end.

(** The tip of a table without hashes: that of its last text, when it has one. *)
Definition tip_of_texts d : option (bytes * Z) * db :=
  let '(n, d) := count_rows d in
  match n with
  | None => (None, d)
  | Some n =>
      if n =? 0 then (Some ([], 0), d)
      else
        let '(raw, d) := select_last d in
        match raw with
        | None | Some None => (None, d)
        | Some (Some raw) =>
            (Some (match read_json raw with Some rec => erHash rec | None => [] end, u64 n), d)
        end
  end.

Definition loadSQLiteChainTip d : option (bytes * Z) * db :=
  let '(tip, d) := select_tip d in
  match tip with
  | None => (None, d)
  | Some None => tip_of_texts d
  | Some (Some (hash, seq)) =>
      (Some (match hash with
             | Some (c :: h) => (c :: h, u64 (default 0 seq + 1))
             | _ => ([], 0)
             end), d)
  end.

(** Opening a database with its schema in place; [None] for an error, on which the process does
    not start. *)
Definition NewSQLiteEvidenceSink (maxRecords : Z) d : option SQLiteEvidenceSink * db :=
  let '(ok, d) := backfillEvidenceQueryColumns d in
  if negb ok then (None, d)
  else
    let '(tip, d) := loadSQLiteChainTip d in
    match tip with
    | None => (None, d)
    | Some (lastHash, nextSeq) =>
        (Some {| sqDB := d; maxRecords := maxRecords; sqLastHash := lastHash; sqNextSeq := nextSeq |}, d)
    end.

Definition set_db d (s : SQLiteEvidenceSink) : SQLiteEvidenceSink := {|
  sqDB := d; maxRecords := maxRecords s; sqLastHash := sqLastHash s; sqNextSeq := sqNextSeq s |}.

Definition pruneLocked (s : SQLiteEvidenceSink) : bool * SQLiteEvidenceSink :=
  let '(count, d) := count_rows (sqDB s) in
  match count with
  | None => (false, set_db d s)
  | Some count =>
      let overflow := count - maxRecords s in
      if overflow <=? 0 then (true, set_db d s)
      else let '(ok, d) := delete_oldest overflow d in (ok, set_db d s)
  end.

(** The row of a sealed record. *)
Definition row_of rec : columns := {|
  trip_ts := TripTS rec; session_id := erSessionID rec; record_json := Some rec; chain_seq := Some (ChainSeq rec);
  prev_hash := Some (PrevHash rec); hash := Some (erHash rec); verdict := Some (verdict_string (erVerdict rec));
  pod_name := Some (pod_name_of rec) |}.

(** [standalone] tells whether evidence.json was written. The answer is whether there was no error. *)
Definition sqlite_Emit (standalone : bool) rec (s : SQLiteEvidenceSink) : bool * SQLiteEvidenceSink :=
  match SealEvidenceRecord rec (sqNextSeq s) (sqLastHash s) with
  | None => (false, s)
  | Some rec =>
      match marshal_record rec with
      | None => (false, s)
      | Some _ =>
          let '(ok, d) := insert_row (row_of rec) (sqDB s) in
          if negb ok then (false, set_db d s)
          else
            let s := {| sqDB := d; maxRecords := maxRecords s; sqLastHash := erHash rec; sqNextSeq := u64 (sqNextSeq s + 1) |} in
            let '(ok, s) := if 0 <? maxRecords s then pruneLocked s else (true, s) in
            if ok then (standalone, s) else (false, s)
      end
  end.

Definition Count (s : SQLiteEvidenceSink) : option Z * SQLiteEvidenceSink :=
  let '(n, d) := count_rows (sqDB s) in (n, set_db d s).

(** *** Queries *)

Record EvidenceQuery := { eqSessionID : bytes; eqVerdict : bytes; eqPodName : bytes; eqLimit : Z }.

Definition query_limit (q : EvidenceQuery) : Z :=
  let limit := if eqLimit q <=? 0 then 100 else eqLimit q in if 1000 <? limit then 1000 else limit.

Definition clause (col : query_column) (v : bytes) : list (query_column * bytes) :=
  if bool_decide (v = []) then [] else [(col, v)].

Definition clauses (q : EvidenceQuery) : list (query_column * bytes) :=
  clause QSession (eqSessionID q) ++ clause QVerdict (eqVerdict q) ++ clause QPod (eqPodName q).

Definition Query (q : EvidenceQuery) (s : SQLiteEvidenceSink) : option (list EvidenceRecord) * SQLiteEvidenceSink :=
  let '(raws, d) := select_where (clauses q) (query_limit q) (sqDB s) in
  (raws ← raws; mapM read_json raws, set_db d s).

(** cmd/verify-evidence/main.go *)
Definition loadSQLite d : option (list EvidenceRecord) * db :=
  let '(raws, d) := select_all d in (raws ← raws; mapM read_json raws, d).

(** ** A database over time

    Records are emitted, and the process restarts, which it only does when the database opens. *)

Inductive sqlite_op := SqEmit (standalone : bool) rec | SqReopen.

Definition sqlite_step (s : SQLiteEvidenceSink) (op : sqlite_op) : SQLiteEvidenceSink :=
  match op with
  | SqEmit standalone rec => (sqlite_Emit standalone rec s).2
  | SqReopen => let '(s', d) := NewSQLiteEvidenceSink (maxRecords s) (sqDB s) in default (set_db d s) s'
  end.

Fixpoint sqlite_after (s : SQLiteEvidenceSink) (ops : list sqlite_op) : SQLiteEvidenceSink :=
  match ops with [] => s | op :: ops => sqlite_after (sqlite_step s op) ops end.

(** Whether Emit inserts a row for [rec]. *)
Definition inserts rec (s : SQLiteEvidenceSink) : bool :=
  match SealEvidenceRecord rec (sqNextSeq s) (sqLastHash s) with
  | None => false
  | Some rec => match marshal_record rec with None => false | Some _ => (insert_row (row_of rec) (sqDB s)).1 end
  end.

End sink.
