(* ===== verification/SqliteTheorems.v ===== *)
(** * Theorems about the evidence in SQLite

    The sink in SQLite keeps the end of the file the JSONL sink would have written for the records
    it inserted: at least as many records as it retains, as long as the clock does not step
    back. So what it keeps verifies, restarts and failing statements included. When the clock
    does step back, pruning breaks the chain. *)

From stdpp Require Import sorting.
From S2P Require Import Prelude Go GoTime GoStrings Encodings EncodingFacts Json JsonFacts Model Evidence EvidenceTheorems Sqlite.

(** ** Lists *)

Lemma lt_sorted_NoDup (l : list Z) : StronglySorted Z.lt l -> NoDup l.
Proof.
  induction 1 as [|x l _ IH Hx]; constructor; [|done]. rewrite Forall_forall in Hx. intros Hin. specialize (Hx x Hin). lia.
Qed.

Lemma sorted_drop (l : list Z) n : StronglySorted Z.lt l -> StronglySorted Z.lt (drop n l).
Proof.
  intros Hl. revert n. induction Hl as [|x l Hl IH Hx]; intros [|n]; cbn [drop]; [constructor..| |apply IH].
  by constructor.
Qed.

Lemma sorted_snoc (l : list Z) x : StronglySorted Z.lt l -> Forall (λ y, y < x) l -> StronglySorted Z.lt (l ++ [x]).
Proof.
  induction 1 as [|y l Hl IH Hy]; intros Hx; cbn [app]; [repeat constructor|]. apply Forall_cons in Hx as [Hyx Hx].
  constructor; [by apply IH|]. apply Forall_app. split; [done|by constructor].
Qed.

(** What remains of rows in the order of [f] when smallest ones are taken out is an end of them. *)
Lemma oldest_out {A} (f : A -> Z) (l l' gone : list A) :
  StronglySorted Z.lt (map f l) -> l' `sublist_of` l -> l ≡ₚ gone ++ l' ->
  Forall (λ g, Forall (λ r, f g <= f r) l') gone -> l' = drop (length gone) l.
Proof.
  intros Hs Hl. revert gone Hs. induction Hl as [|x l' l Hl IH|x l' l Hl IH]; intros gone Hs Hp Hg; [by rewrite drop_nil|..];
    cbn [map] in Hs; inversion_clear Hs as [|? ? Hs' Hx]; rewrite Forall_map in Hx; rewrite Forall_forall in Hx.
  - rewrite <- Permutation_middle in Hp. apply Permutation.Permutation_cons_inv in Hp.
    destruct gone as [|g gone]; [by rewrite (IH [] Hs' Hp) at 1|]. apply Forall_cons in Hg as [Hg _].
    apply Forall_cons in Hg as [Hg _]. assert (g ∈ l) as Hin by (rewrite Hp; set_solver). specialize (Hx g Hin). cbn in *. lia.
  - assert (x ∈ gone ++ l') as Hin by (rewrite <- Hp; set_solver). apply elem_of_app in Hin as [Hin|Hin].
    2: { assert (x ∈ l) as Hin' by (by eapply elem_of_sublist). specialize (Hx x Hin'). cbn in *. lia. }
    apply elem_of_Permutation in Hin as [gone' Hgone]. rewrite Hgone in Hp, Hg |- *. cbn [app length drop] in *.
    apply Permutation.Permutation_cons_inv in Hp. apply Forall_cons in Hg as [_ Hg]. by apply IH.
Qed.

Section sink.

Context `{FloatFormat} `{Floats} `{SQLiteOk}.
Implicit Types (rec : EvidenceRecord) (s : SQLiteEvidenceSink) (j : JSONLEvidenceSink).

(** ** The JSONL sink it implements *)

(** The table holds the end of the file of [j], all of it or as many records as are retained, and
    the tip is that of [j]. *)
Record retains s j : Prop := {
  rt_whole : sink_file j = map (Line true) (lines j);
  rt_writes : enc_err j = false;
  rt_tip : sqLastHash s = lastHash j;
  rt_seq : sqNextSeq s = nextSeq j;
  rt_rows : exists k, map snd (rows (sqDB s)) = map row_of (drop k (lines j)) /\
                      (k = 0%nat \/ 0 < maxRecords s <= Z.of_nat (length (lines j) - k));
  rt_ids : StronglySorted Z.lt (rows (sqDB s)).*1 }.

(** What happens to [j] when [ops] happen to [s]: it gets the records that are inserted. It has no part in the failures
    and restarts. *)
Definition jsonl_op s (op : sqlite_op) : list sink_op :=
  match op with SqEmit _ rec => if inserts rec s then [OpEmit Whole true rec] else [] | SqReopen => [] end.

Fixpoint jsonl_ops s (ops : list sqlite_op) : list sink_op :=
  match ops with [] => [] | op :: ops => jsonl_op s op ++ jsonl_ops (sqlite_step s op) ops end.

Definition emitted (ops : list sqlite_op) : list EvidenceRecord :=
  omap (λ op, match op with SqEmit _ rec => Some rec | SqReopen => None end) ops.

(** *** Pruning *)

Lemma set_db_db s d : sqDB (set_db d s) = d.
Proof. done. Qed.

Lemma prune_spec s (ok : bool) s' :
  pruneLocked s = (ok, s') -> 0 < maxRecords s -> StronglySorted Z.lt (rows (sqDB s)).*1 ->
  StronglySorted Z.lt (map (λ r, trip_ts r.2) (rows (sqDB s))) ->
  exists n d, s' = set_db d s /\ rows d = drop n (rows (sqDB s)) /\
    (n = 0%nat \/ Z.of_nat (length (rows (sqDB s)) - n) = maxRecords s) /\
    (ok = true -> Z.of_nat (length (rows d)) <= maxRecords s).
Proof.
  unfold pruneLocked. intros Hp Hm Hids Hts. destruct (count_rows (sqDB s)) as [n d] eqn:Ec.
  pose proof (count_reads _ _ _ Ec) as Er.
  assert (exists n, rows d = drop n (rows (sqDB s)) /\ n = 0%nat) as Hsame by (exists 0%nat; by rewrite Er).
  destruct n as [n|]; [|injection Hp as <- <-; exists 0%nat, d; rewrite Er; naive_solver].
  apply count_counts in Ec as ->. destruct (Z.leb_spec (Z.of_nat (length (rows (sqDB s))) - maxRecords s) 0) as [Hle|Hlt].
  { injection Hp as <- <-. exists 0%nat, d. rewrite Er. split_and!; [done..|by left|]. lia. }
  destruct (delete_oldest _ d) as [ok' d'] eqn:Ed. injection Hp as <- <-. destruct ok'.
  2: { apply delete_fails in Ed. exists 0%nat, d'. rewrite Ed, Er. naive_solver. }
  apply delete_deletes in Ed as (Hsub & gone & Hperm & Hlen & Hgone); [|lia|rewrite Er; by apply lt_sorted_NoDup].
  rewrite Er in *. pose proof (oldest_out _ _ _ _ Hts Hsub Hperm Hgone) as Hd.
  assert (length (rows (sqDB s)) = length gone + length (rows d'))%nat as Hl by (by rewrite Hperm, length_app).
  exists (length gone), d'. split_and!; [done..|right; lia|lia].
Qed.

(** *** One operation *)

Definition ts_sorted j : Prop := StronglySorted Z.lt (map TripTS (lines j)).

Lemma retained_ts s j k :
  map snd (rows (sqDB s)) = map row_of (drop k (lines j)) -> map (λ r, trip_ts r.2) (rows (sqDB s)) = drop k (map TripTS (lines j)).
Proof.
  intros Hr. assert (map (λ r, trip_ts r.2) (rows (sqDB s)) = map trip_ts (map snd (rows (sqDB s)))) as -> by (by rewrite List.map_map).
  by rewrite Hr, List.map_map, <- skipn_map.
Qed.

Lemma drop_rows s j k n d :
  map snd (rows (sqDB s)) = map row_of (drop k (lines j)) -> rows d = drop n (rows (sqDB s)) ->
  map snd (rows d) = map row_of (drop (n + k) (lines j)).
Proof.
  intros Hr ->. etransitivity; [symmetry; apply skipn_map|]. by rewrite Hr, skipn_map, skipn_skipn.
Qed.

Lemma retained_length s j k :
  map snd (rows (sqDB s)) = map row_of (drop k (lines j)) -> length (rows (sqDB s)) = (length (lines j) - k)%nat.
Proof. intros Hr. apply (f_equal length) in Hr. by rewrite !length_map, length_drop in Hr. Qed.

Lemma ids_of_insert (rs : list row) id :
  StronglySorted Z.lt rs.*1 -> Forall (λ r, r.1 < id) rs -> StronglySorted Z.lt (rs.*1 ++ [id]).
Proof. intros Hs Hf. apply sorted_snoc; [done|]. by apply Forall_map. Qed.

(** Emit writes what the JSONL sink would have written, and is at most over the limit when it
    returned an error. *)
Lemma emit_retains (standalone : bool) rec s j (ok : bool) s' :
  retains s j -> ts_sorted j -> Forall (λ r, TripTS r < TripTS rec) (lines j) ->
  sqlite_Emit standalone rec s = (ok, s') ->
  retains s' (foldl sink_step j (jsonl_op s (SqEmit standalone rec))) /\ maxRecords s' = maxRecords s /\
  (ok = true -> 0 < maxRecords s -> Z.of_nat (length (rows (sqDB s'))) <= maxRecords s).
Proof.
  intros Hret Hts Hrec. destruct Hret as [Hw He Ht Hq (k & Hr & Hk) Hids]. unfold sqlite_Emit, jsonl_op, inserts.
  destruct (SealEvidenceRecord rec _ _) as [r|] eqn:Es.
  2: { intros [= <- <-]. split; [|done]. constructor; [done..|by exists k|done]. }
  destruct (marshal_record r) as [t|].
  2: { intros [= <- <-]. split; [|done]. constructor; [done..|by exists k|done]. }
  destruct (insert_row (row_of r) (sqDB s)) as [[] d] eqn:Ei; cbn [negb fst snd].
  2: { apply insert_fails in Ei. intros [= <- <-]. split; [|done]. constructor; cbn; rewrite ?Ei; [done..| |done]. by exists k. }
  apply insert_appends in Ei as (id & Er & Hid). cbn [foldl sink_step].
  set (s1 := {| sqDB := d; maxRecords := maxRecords s; sqLastHash := erHash r; sqNextSeq := u64 (sqNextSeq s + 1) |}).
  rewrite Ht, Hq in Es. destruct (emit_writes true rec j r Hw He Es) as (Hw1 & Hl1 & He1 & Hh1 & Hn1).
  set (j1 := (Emit Whole true rec j).2) in *. rewrite <- Hl1 in Hw1. rewrite <- Hq in Hn1.
  assert (TripTS r = TripTS rec) as Htr.
  { unfold SealEvidenceRecord in Es. destruct (HashEvidenceRecord _); [|done]. by injection Es as <-. }
  assert (k <= length (lines j))%nat as Hkl by (destruct Hk; lia).
  assert (map snd (rows (sqDB s1)) = map row_of (drop k (lines j1))) as Hr1.
  { rewrite Hl1. cbn. rewrite Er, drop_app_le, !map_app, Hr by done. done. }
  assert (StronglySorted Z.lt (rows (sqDB s1)).*1) as Hids1.
  { cbn. rewrite Er, fmap_app. by apply ids_of_insert. }
  assert (ts_sorted j1) as Hts1.
  { unfold ts_sorted. rewrite Hl1, map_app. cbn. rewrite Htr. apply sorted_snoc; [done|]. by apply Forall_map. }
  destruct (Z.ltb_spec 0 (maxRecords s1)) as [Hm|Hm].
  - destruct (pruneLocked s1) as [ok' s2] eqn:Ep. intros E.
    assert (s' = s2 /\ (ok = true -> ok' = true)) as [-> Hok] by (destruct ok'; by injection E as <- <-).
    apply prune_spec in Ep as (n & d' & -> & Hd & Hn & Hlen); [|done|done|].
    2: { rewrite (retained_ts _ _ _ Hr1). by apply sorted_drop. }
    rewrite (retained_length _ _ _ Hr1) in Hn. split; [|split; [done|by intros Hb _; apply Hlen, Hok]].
    constructor; [done..| |].
    + exists (n + k)%nat. split; [by apply (drop_rows s1 j1)|]. rewrite Hl1 in *. cbn in *. rewrite length_app in *. cbn in *. lia.
    + cbn. rewrite Hd. rewrite fmap_drop. by apply sorted_drop.
  - intros [= <- <-]. split; [|split; [done|intros _ ?; cbn in Hm; lia]]. constructor; [done..| |done].
    exists k. split; [done|]. destruct Hk as [->|Hk]; [by left|]. cbn in *. rewrite Hl1, length_app. cbn. lia.
Qed.

Lemma filter_each {A} (p : A -> bool) (l : list A) (b : bool) :
  Forall (λ x, p x = b) l -> List.filter p l = if b then l else [].
Proof. induction 1 as [|x l Hx _ IH]; [by destruct b|]. cbn. rewrite Hx, IH. by destruct b. Qed.

Lemma retained_row s j k r :
  map snd (rows (sqDB s)) = map row_of (drop k (lines j)) -> r ∈ rows (sqDB s) -> exists rec, rec ∈ lines j /\ r.2 = row_of rec.
Proof.
  intros Hr Hin. apply (list_elem_of_fmap_2 snd) in Hin. change (snd <$> rows (sqDB s)) with (map snd (rows (sqDB s))) in Hin.
  rewrite Hr in Hin. apply list_elem_of_fmap in Hin as (rec & E & Hin). exists rec. split; [|done].
  by eapply elem_of_sublist, sublist_drop.
Qed.

Lemma lines_hash wr j rec : sink_ok wr j -> rec ∈ lines j -> length (erHash rec) = 64%nat.
Proof.
  intros Hok Hin. pose proof (so_chain _ _ Hok) as Hc. clear Hok. revert Hc. generalize (@None EvidenceRecord). induction (lines j) as [|r rs IH]; [set_solver|].
  intros prev [[_ Hh] Hc]. apply elem_of_cons in Hin as [->|Hin]; [by apply hash_nonempty in Hh|by eapply IH].
Qed.

(** A database with the rows of the sink opens with the tip of the sink. *)
Lemma backfill_nothing s j d (ok : bool) d' :
  retains s j -> rows d = rows (sqDB s) -> backfillEvidenceQueryColumns d = (ok, d') -> rows d' = rows (sqDB s).
Proof.
  intros [_ _ _ _ (k & Hr & _) _] Hd. unfold backfillEvidenceQueryColumns. destruct (select_pending d) as [[l|] d1] eqn:Ep;
    pose proof (pending_reads _ _ _ Ep) as Er; [|intros [= <- <-]; congruence].
  apply pending_selects in Ep. rewrite Hd, (filter_each _ _ false) in Ep.
  - apply Permutation_nil_r in Ep as ->. intros [= <- <-]. congruence.
  - apply Forall_forall. intros r Hin. destruct (retained_row _ _ _ _ Hr Hin) as (rec & _ & E). unfold pending_row. by rewrite E.
Qed.

Lemma last_row s j k :
  map snd (rows (sqDB s)) = map row_of (drop k (lines j)) ->
  (λ r, (hash r.2, chain_seq r.2)) <$> last (rows (sqDB s)) = (λ rec, (Some (erHash rec), Some (ChainSeq rec))) <$> last (drop k (lines j)).
Proof.
  intros Hr. transitivity ((λ c, (hash c, chain_seq c)) <$> last (map snd (rows (sqDB s)))).
  - rewrite (fmap_last snd). by destruct (last (rows (sqDB s))).
  - rewrite Hr, (fmap_last row_of). by destruct (last (drop k (lines j))).
Qed.

Lemma tip_retained wr s j d (tip : option (bytes * Z)) d' :
  sink_ok wr j -> Z.of_nat (length (lines j)) < 2 ^ 64 -> retains s j -> rows d = rows (sqDB s) ->
  loadSQLiteChainTip d = (tip, d') -> rows d' = rows (sqDB s) /\ forall t, tip = Some t -> t = (lastHash j, nextSeq j).
Proof.
  intros Hok Hlen [_ _ _ _ (k & Hr & Hk) _] Hd. unfold loadSQLiteChainTip. destruct (select_tip d) as [a d1] eqn:Et.
  pose proof (tip_reads _ _ _ Et) as Er. destruct a as [a|]; [|intros [= <- <-]; split; [congruence|done]].
  apply tip_selects in Et. rewrite Hd, (filter_each _ _ true), (last_row s j k Hr) in Et.
  2: { apply Forall_forall. intros r Hin. destruct (retained_row _ _ _ _ Hr Hin) as (rec & Hrec & E). unfold has_hash. rewrite E. cbn.
       pose proof (lines_hash _ _ _ Hok Hrec) as Hh. by destruct (erHash rec). }
  destruct (last (drop k (lines j))) as [rec|] eqn:El; cbn in Et; subst a.
  - intros [= <- <-]. split; [congruence|]. intros t [= <-].
    assert (last (lines j) = Some rec) as El' by (by rewrite <- (take_drop k (lines j)), last_app, El).
    clear El. rename El' into El. pose proof (so_tip _ _ Hok) as Htip. rewrite El in Htip.
    assert (ChainSeq rec = Z.of_nat (length (lines j)) - 1) as ->.
    { pose proof (so_seq _ _ Hok) as Hs. apply last_Some in El as [pre El]. rewrite El in Hs |- *.
      rewrite length_app, map_app, seq_app, map_app in Hs. apply app_inj_tail in Hs as [_ Hs]. rewrite length_app. cbn in *. lia. }
    cbn [default]. change (default 0 (Some ?z)) with z. rewrite (so_next _ _ Hok), Z.sub_add, Htip.
    assert (rec ∈ lines j) as Hin by (apply last_Some in El as [pre ->]; set_solver).
    pose proof (lines_hash _ _ _ Hok Hin). by destruct (erHash rec).
  - apply last_None in El. assert (lines j = []) as Hnil.
    { apply (f_equal length) in El. rewrite length_drop in El. cbn in El. destruct Hk as [->|Hk]; [|lia].
      apply length_zero_iff_nil. lia. }
    unfold tip_of_texts. destruct (count_rows d1) as [n d2] eqn:Ec. pose proof (count_reads _ _ _ Ec) as Er2.
    destruct n as [n|]; [|intros [= <- <-]; split; [congruence|done]]. apply count_counts in Ec. subst n.
    rewrite Er, Hd, (retained_length _ _ _ Hr), Hnil. cbn. intros [= <- <-]. split; [congruence|]. intros t [= <-].
    rewrite (so_next _ _ Hok), (so_tip _ _ Hok), Hnil. done.
Qed.

(** *** Opening, and the run *)

Lemma open_retains wr s j d out d' :
  sink_ok wr j -> Z.of_nat (length (lines j)) < 2 ^ 64 -> retains s j -> rows d = rows (sqDB s) ->
  NewSQLiteEvidenceSink (maxRecords s) d = (out, d') ->
  rows d' = rows (sqDB s) /\
  forall s', out = Some s' -> s' = {| sqDB := d'; maxRecords := maxRecords s; sqLastHash := lastHash j; sqNextSeq := nextSeq j |}.
Proof.
  intros Hok Hlen Hret Hd. unfold NewSQLiteEvidenceSink. destruct (backfillEvidenceQueryColumns d) as [ok d1] eqn:Eb.
  pose proof (backfill_nothing _ _ _ _ _ Hret Hd Eb) as Er. destruct ok; cbn [negb]; [|intros [= <- <-]; by split].
  destruct (loadSQLiteChainTip d1) as [t d2] eqn:Et. destruct (tip_retained _ _ _ _ _ _ Hok Hlen Hret Er Et) as [Er2 Htip].
  destruct t as [[h n]|]; intros [= <- <-]; (split; [done|]); [|done]. intros s' [= <-].
  by injection (Htip _ eq_refl) as -> ->.
Qed.

Lemma same_rows_retain s j d : retains s j -> rows d = rows (sqDB s) -> retains (set_db d s) j.
Proof. intros [Hw He Ht Hq Hr Hids] Hd. by constructor; cbn; rewrite ?Hd. Qed.

Lemma reopen_retains wr s j :
  sink_ok wr j -> Z.of_nat (length (lines j)) < 2 ^ 64 -> retains s j ->
  retains (sqlite_step s SqReopen) j /\ maxRecords (sqlite_step s SqReopen) = maxRecords s.
Proof.
  intros Hok Hlen Hret. cbn [sqlite_step].
  destruct (NewSQLiteEvidenceSink (maxRecords s) (sqDB s)) as [out d] eqn:E.
  destruct (open_retains _ _ _ _ _ _ Hok Hlen Hret eq_refl E) as [Hd Hs].
  destruct out as [s'|]; [|split; [by apply same_rows_retain|done]]. rewrite (Hs s' eq_refl). split; [|done].
  destruct Hret as [? ? _ _ Hr Hids]. change (default (set_db d s) (Some ?x)) with x. constructor; [done..| |]; cbn; by rewrite Hd.
Qed.

Definition clean_sq (op : sqlite_op) : Prop := match op with SqEmit _ rec => clean rec | SqReopen => True end.

Lemma ok_ts wr j : sink_ok wr j -> map TripTS (lines j) = map TripTS wr.
Proof.
  intros Hok. pose proof (f_equal (map TripTS) (so_lines _ _ Hok)) as E. rewrite !List.map_map in E. exact E.
Qed.

(** The timestamps of what was written and is still to come increase. *)
Definition increasing (rs : list EvidenceRecord) : Prop := StronglySorted Z.lt (map TripTS rs).

Lemma increasing_app rs rs' : increasing (rs ++ rs') <->
  (forall r r', r ∈ rs -> r' ∈ rs' -> TripTS r < TripTS r') /\ increasing rs /\ increasing rs'.
Proof.
  unfold increasing. rewrite map_app, StronglySorted_app. split; intros (Hx & Hrs & Hrs'); (split; [|done]).
  - intros r r' Hr Hr'. by apply Hx; apply list_elem_of_fmap_2.
  - intros z z' Hz Hz'. apply list_elem_of_fmap in Hz as (r & -> & Hr), Hz' as (r' & -> & Hr'). by apply Hx.
Qed.

Lemma increasing_sublist rs rs' : rs `sublist_of` rs' -> increasing rs' -> increasing rs.
Proof.
  induction 1 as [|r rs rs' Hs IH|r rs rs' Hs IH]; [done|..]; intros (Hx & _ & Hrs')%(increasing_app [r]).
  - apply (increasing_app [r]). split_and!; [|repeat constructor|by apply IH]. intros y y' Hy Hy'. apply Hx; [done|].
    by eapply elem_of_sublist.
  - by apply IH.
Qed.

Lemma emitted_cons op ops : emitted (op :: ops) = emitted [op] ++ emitted ops.
Proof. by destruct op. Qed.

Lemma written_jsonl s op ops :
  written_records false (jsonl_ops s (op :: ops)) =
  written_records false (jsonl_op s op) ++ written_records false (jsonl_ops (sqlite_step s op) ops).
Proof. destruct op as [standalone rec|]; cbn; [|done]. by destruct (inserts rec s). Qed.

Lemma written_emitted s ops : written_records false (jsonl_ops s ops) `sublist_of` emitted ops.
Proof.
  revert s. induction ops as [|op ops IH]; intros s; [constructor|]. rewrite written_jsonl, emitted_cons.
  apply sublist_app; [|apply IH]. destruct op as [standalone rec|]; cbn; [|constructor].
  destruct (inserts rec s); [done|apply sublist_nil_l].
Qed.

Lemma step_retains wr s j op :
  sink_ok wr j -> retains s j -> clean_sq op -> increasing (wr ++ emitted [op]) -> Z.of_nat (length (lines j)) < 2 ^ 64 ->
  let j' := foldl sink_step j (jsonl_op s op) in
  sink_ok (wr ++ written_records false (jsonl_op s op)) j' /\ retains (sqlite_step s op) j' /\
  maxRecords (sqlite_step s op) = maxRecords s /\ (length (lines j') <= S (length (lines j)))%nat.
Proof.
  intros Hok Hret Hop Hinc Hn. destruct op as [standalone rec|].
  2: { cbn [jsonl_op foldl written_records]. rewrite app_nil_r. destruct (reopen_retains wr s j Hok Hn Hret). split_and!; [done..|lia]. }
  assert (clean_op (OpEmit Whole true rec)) as Hc by (split; [exact Hop|set_solver]).
  apply increasing_app in Hinc as (Hx & Hwr & _). pose proof (ok_ts wr j Hok) as Ets. pose proof (rt_writes _ _ Hret) as He.
  cbn [sqlite_step]. destruct (sqlite_Emit standalone rec s) as [ok s'] eqn:E.
  apply emit_retains with (j := j) in E as (Hr & Hm & _); [|done|by unfold ts_sorted; rewrite Ets|].
  2: { apply (proj1 (Forall_map TripTS (λ z, z < TripTS rec) (lines j))). rewrite Ets. apply Forall_map, Forall_forall. intros r Hr. apply Hx; set_solver. }
  enough (let j' := foldl sink_step j (jsonl_op s (SqEmit standalone rec)) in
    sink_ok (wr ++ written_records false (jsonl_op s (SqEmit standalone rec))) j' /\ (length (lines j') <= S (length (lines j)))%nat)
    as [? ?] by (by split_and!). cbn zeta. clear Hr.
  unfold jsonl_op. destruct (inserts rec s); cbn [foldl sink_step]; [|rewrite app_nil_r; split; [done|lia]].
  destruct (emit_ok wr Whole true rec j Hn Hc Hok) as (Hok' & _). rewrite He in Hok'. split; [exact Hok'|].
  destruct (step_grows wr j (OpEmit Whole true rec) Hn Hc Hok) as (_ & more & El & Hlen). cbn [sink_step] in El. rewrite El, length_app. lia.
Qed.

Lemma run_retains ops wr s j :
  sink_ok wr j -> retains s j -> Forall clean_sq ops -> increasing (wr ++ emitted ops) ->
  Z.of_nat (length (lines j) + length ops) < 2 ^ 64 ->
  let j' := foldl sink_step j (jsonl_ops s ops) in
  sink_ok (wr ++ written_records false (jsonl_ops s ops)) j' /\ retains (sqlite_after s ops) j' /\
  maxRecords (sqlite_after s ops) = maxRecords s /\ (length (lines j') <= length (lines j) + length ops)%nat.
Proof.
  intros Hok Hret Hops. revert wr s j Hok Hret. induction Hops as [|op ops Hop _ IH]; intros wr s j Hok Hret Hinc Hn.
  { cbn in *. rewrite app_nil_r in *. split_and!; [done..|lia]. }
  rewrite written_jsonl, app_assoc. rewrite emitted_cons, app_assoc in Hinc. cbn [jsonl_ops sqlite_after foldl length] in *. rewrite foldl_app.
  destruct (step_retains wr s j op Hok Hret Hop) as (Hok' & Hret' & Hm & Hb); [by apply increasing_app in Hinc as (_ & ? & _)|lia|].
  destruct (IH _ _ _ Hok' Hret') as (Hok2 & Hret2 & Hm2 & Hlen); [|lia|split_and!; [done..|congruence|lia]].
  eapply increasing_sublist; [|exact Hinc]. apply sublist_app; [apply sublist_app; [done|]|done].
  pose proof (written_emitted s [op]) as Hs. cbn [jsonl_ops] in Hs. by rewrite app_nil_r in Hs.
Qed.

(** ** What is kept verifies *)

Lemma chain_ok_end prev pre r rest : chain_ok prev (pre ++ r :: rest) -> (exists p, accepted p r) /\ chain_ok (Some r) rest.
Proof. revert prev. induction pre as [|x pre IH]; intros prev [Hx Hc]; [split; [by exists prev|done]|by apply (IH (Some x))]. Qed.

(** The verifier takes a chain whose head was cut off. *)
Lemma chain_ok_drop rs k :
  chain_ok None rs -> map ChainSeq rs = map Z.of_nat (seq 0 (length rs)) -> chain_ok None (drop k rs).
Proof.
  intros Hc Hs. destruct (drop k rs) as [|r rest] eqn:E; [done|].
  assert (k < length rs)%nat as Hk by (apply Nat.nle_gt; intros ?; by rewrite drop_ge in E).
  rewrite <- (take_drop k rs), E in Hc. destruct (chain_ok_end _ _ _ _ Hc) as [[p [_ Hh]] Hrest]. split; [|done]. split; [|done].
  destruct k as [|k]; [cbn [take app] in Hc; exact (proj1 (proj1 Hc))|].
  assert (ChainSeq r = Z.of_nat (S k)) as Hr.
  { assert (rs !! S k = Some r) as Hl by (by rewrite <- (Nat.add_0_r (S k)), <- lookup_drop, E).
    apply (f_equal (λ l, l !! S k)) in Hs. revert Hs. rewrite !list_lookup_fmap, Hl, lookup_seq_lt by done. cbn. by intros [= ->]. }
  cbn [check_link]. by destruct (Z.eqb_spec (ChainSeq r) 0) as [E0|]; [lia|].
Qed.

Lemma read_rows s j k :
  map snd (rows (sqDB s)) = map row_of (drop k (lines j)) -> Forall (λ rec, reload rec = Some (uncounted rec)) (lines j) ->
  mapM read_json (map (λ r, record_json r.2) (rows (sqDB s))) = Some (map uncounted (drop k (lines j))).
Proof.
  intros Hr Hread. assert (map (λ r, record_json r.2) (rows (sqDB s)) = map record_json (map snd (rows (sqDB s)))) as -> by (by rewrite List.map_map).
  rewrite Hr, List.map_map. rewrite <- (reload_all (drop k (lines j))) by (by apply Forall_drop).
  generalize (drop k (lines j)). clear. intros rs. induction rs as [|r rs IH]; [done|]. cbn in *. by rewrite IH.
Qed.

Definition empty_file : JSONLEvidenceSink := {| sink_file := []; enc_err := false; lastHash := []; nextSeq := 0 |}.

Lemma starts (m : Z) (d0 d1 : db) s0 :
  rows d0 = [] -> NewSQLiteEvidenceSink m d0 = (Some s0, d1) ->
  sink_ok [] empty_file /\ retains s0 empty_file /\ maxRecords s0 = m.
Proof.
  intros Hd Hnew. assert (sink_ok [] empty_file) as Hok by (by constructor).
  set (s := {| sqDB := d0; maxRecords := m; sqLastHash := []; sqNextSeq := 0 |}).
  assert (retains s empty_file) as Hret.
  { constructor; [done..| |]; cbn; rewrite Hd; [|constructor]. exists 0%nat. by split; [|left]. }
  destruct (open_retains [] s _ d0 _ d1 Hok ltac:(done) Hret eq_refl Hnew) as [Hd1 ->%(λ H, H s0 eq_refl)].
  split_and!; [done| |done]. constructor; [done..| |]; cbn; rewrite Hd1; cbn; rewrite Hd; [|constructor].
  exists 0%nat. by split; [|left].
Qed.

(** An Emit that returns no error leaves at most [m] rows. *)
Lemma limit_kept (m : Z) s0 before (standalone : bool) rec :
  let ops := before ++ [SqEmit standalone rec] in
  retains s0 empty_file -> maxRecords s0 = m -> Forall clean_sq ops -> increasing (emitted ops) ->
  Z.of_nat (length ops) < 2 ^ 64 -> (sqlite_Emit standalone rec (sqlite_after s0 before)).1 = true -> 0 < m ->
  Z.of_nat (length (rows (sqDB (sqlite_after s0 ops)))) <= m.
Proof.
  intros ops Hret Hm Hops Hinc Hn Hb Hpos. apply Forall_app in Hops as [Hops _]. unfold ops in *.
  assert (emitted (before ++ [SqEmit standalone rec]) = emitted before ++ [rec]) as E by (unfold emitted; by rewrite omap_app).
  rewrite E in Hinc. apply increasing_app in Hinc as (Hx & Hinc & _). rewrite length_app in Hn. cbn in Hn.
  assert (sink_ok [] empty_file) as Hok by (by constructor).
  destruct (run_retains before [] s0 empty_file Hok Hret Hops Hinc ltac:(cbn; lia)) as (Hokb & Hretb & Hmb & _).
  assert (sqlite_after s0 (before ++ [SqEmit standalone rec]) = (sqlite_Emit standalone rec (sqlite_after s0 before)).2) as ->.
  { clear. revert s0. induction before as [|op before IH]; intros s0; [done|]. apply IH. }
  destruct (sqlite_Emit standalone rec (sqlite_after s0 before)) as [ok s'] eqn:Ee. cbn in Hb |- *. subst ok.
  pose proof (ok_ts _ _ Hokb) as Ets. pose proof (written_emitted s0 before) as Hsub.
  apply (emit_retains standalone rec _ _ _ _ Hretb) in Ee as (_ & _ & Hlim).
  - rewrite Hmb, Hm in Hlim. by apply Hlim.
  - unfold ts_sorted. rewrite Ets. cbn [app]. by apply (increasing_sublist _ (emitted before)).
  - apply (proj1 (Forall_map TripTS (λ z, z < TripTS rec) _)). rewrite Ets. apply Forall_map, Forall_forall. cbn [app].
    intros r Hin. apply Hx; [by eapply elem_of_sublist|set_solver].
Qed.

(** C16: the evidence in SQLite verifies although its oldest records are deleted: whatever clean records with increasing timestamps are emitted into
    a database that was empty, with failing statements and restarts in between, what the verifier
    loads is an intact chain, and is, in order, the last of the inserted records: all of them or at
    least as many as are retained, and at most that many when the last Emit returned no error;
    a restart continues the chain where it was. Clean records are made of well-formed UTF-8 with
    raw messages as Marshal spells them. *)
Theorem retained_chain_verifies (m : Z) (d0 d1 : db) s0 (ops : list sqlite_op) :
  rows d0 = [] -> NewSQLiteEvidenceSink m d0 = (Some s0, d1) ->
  Forall clean_sq ops -> increasing (emitted ops) -> Z.of_nat (length ops) < 2 ^ 64 ->
  let s := sqlite_after s0 ops in
  exists records k,
    (forall out d', loadSQLite (sqDB s) = (out, d') -> out = Some records \/ (select_all (sqDB s)).1 = None) /\
    VerifyChain records = Intact /\
    map (set_chain 0 [] []) records = drop k (map unsealed (written_records false (jsonl_ops s0 ops))) /\
    (k = 0%nat \/ 0 < m <= Z.of_nat (length records)) /\
    (forall before standalone rec,
       ops = before ++ [SqEmit standalone rec] -> (sqlite_Emit standalone rec (sqlite_after s0 before)).1 = true ->
       0 < m -> Z.of_nat (length records) <= m) /\
    (forall s' d', NewSQLiteEvidenceSink m (sqDB s) = (Some s', d') ->
       rows d' = rows (sqDB s) /\ sqLastHash s' = sqLastHash s /\ sqNextSeq s' = sqNextSeq s).
Proof.
  intros Hd0 Hnew Hops Hinc Hn s.
  destruct (starts m d0 d1 s0 Hd0 Hnew) as (Hok0 & Hret0 & Hm0).
  destruct (run_retains ops [] s0 empty_file Hok0 Hret0 Hops Hinc Hn) as (Hok & Hret & Hm & Hlen). fold s in Hret, Hm. rewrite Hm0 in Hm.
  set (j := foldl sink_step empty_file (jsonl_ops s0 ops)) in *. pose proof Hret as [_ _ Ht Hq (k & Hr & Hk) _].
  exists (map uncounted (drop k (lines j))), k. split_and!.
  - intros out d' Hl. unfold loadSQLite in Hl. destruct (select_all (sqDB s)) as [[l|] d2] eqn:Es; [left|by right].
    apply all_selects in Es as ->. cbn [mbind option_bind] in Hl. injection Hl as <- _.
    exact (read_rows s j k Hr (so_read _ _ Hok)).
  - apply intact_ok, (chain_ok_uncounted None), chain_ok_drop; [apply (so_chain _ _ Hok)|apply (so_seq _ _ Hok)].
  - rewrite List.map_map. rewrite <- (so_lines _ _ Hok : _ = map unsealed (written_records _ _)), skipn_map. done.
  - rewrite length_map, length_drop, <- Hm. exact Hk.
  - intros before standalone rec -> Hb Hpos. rewrite length_map, length_drop, <- (retained_length s j k Hr).
    by apply (limit_kept m s0 before standalone rec).
  - intros s' d' Hnew'. rewrite <- Hm in Hnew'.
    destruct (open_retains _ s j _ _ _ Hok ltac:(cbn in Hlen; lia) Hret eq_refl Hnew') as [Hd Hs]. by rewrite (Hs s' eq_refl), Ht, Hq.
Qed.

End sink.

(** ** A database *)

(** [ORDER BY trip_ts ASC] and [DESC]. *)
Definition ts_le (r r' : row) : Prop := trip_ts r.2 <= trip_ts r'.2.
Definition ts_ge (r r' : row) : Prop := trip_ts r'.2 <= trip_ts r.2.

#[local] Instance ts_le_dec : RelDecision ts_le := λ r r', Z_le_dec _ _.
#[local] Instance ts_ge_dec : RelDecision ts_ge := λ r r', Z_le_dec _ _.
#[local] Instance ts_le_trans : Transitive ts_le.
Proof. intros r r' r''. unfold ts_le. lia. Qed.
#[local] Instance ts_ge_trans : Transitive ts_ge.
Proof. intros r r' r''. unfold ts_ge. lia. Qed.
#[local] Instance ts_le_total : Total ts_le.
Proof. intros r r'. unfold ts_le. lia. Qed.
#[local] Instance ts_ge_total : Total ts_ge.
Proof. intros r r'. unfold ts_ge. lia. Qed.

Definition taken_out (gone rs : list row) : list row := filter (λ r, r.1 ∉ gone.*1) rs.

(** The next id and the rows; no statement fails. *)
Definition list_database : SQLite := {|
  db := Z * list row;
  rows := snd;
  insert_row c d := (true, (d.1 + 1, d.2 ++ [(foldr Z.max d.1 d.2.*1 + 1, c)]));
  count_rows d := (Some (Z.of_nat (length d.2)), d);
  delete_oldest n d := (true, (d.1, taken_out (take (Z.to_nat n) (merge_sort ts_le d.2)) d.2));
  select_tip d := (Some ((λ r, (hash r.2, chain_seq r.2)) <$> last (List.filter has_hash d.2)), d);
  select_last d := (Some ((λ r, record_json r.2) <$> last d.2), d);
  select_all d := (Some (map (λ r, record_json r.2) d.2), d);
  select_where qs n d :=
    (Some (map (λ r, record_json r.2)
             (take (Z.to_nat n) (merge_sort ts_ge (List.filter (λ r, forallb (column_is r.2) qs) d.2)))), d);
  mentions_pod _ := false;
  select_pending d :=
    (Some (map (λ r, (r.1, record_json r.2)) (List.filter (λ r, match verdict r.2 with None => true | Some _ => false end) d.2)), d);
  update_row v p i d := (true, (d.1, map (updated v p i) d.2))
|}.

Lemma sorted_split (R : row -> row -> Prop) `{!Transitive R, !Total R, !RelDecision R} n (l : list row) :
  StronglySorted R (take n (merge_sort R l)) /\
  Forall (λ r, Forall (R r) (drop n (merge_sort R l))) (take n (merge_sort R l)).
Proof.
  pose proof (StronglySorted_merge_sort R l) as Hs. rewrite <- (take_drop n (merge_sort R l)), StronglySorted_app in Hs.
  destruct Hs as (Hx & Hs & _). split; [done|]. apply Forall_forall. intros r Hr. apply Forall_forall. naive_solver.
Qed.

Lemma filter_all {A} (P : A -> Prop) `{forall x, base.Decision (P x)} l : Forall P l -> filter P l = l.
Proof. induction 1 as [|x l Hx _ IH]; [done|]. by rewrite filter_cons_True, IH. Qed.

Lemma filter_none {A} (P : A -> Prop) `{forall x, base.Decision (P x)} l : Forall (λ x, ~ P x) l -> filter P l = [].
Proof. induction 1 as [|x l Hx _ IH]; [done|]. by rewrite filter_cons_False. Qed.

Lemma taken_out_rest (gone rest rs : list row) : NoDup rs.*1 -> rs ≡ₚ gone ++ rest -> taken_out gone rs ≡ₚ rest.
Proof.
  intros Hnd Hp. unfold taken_out. rewrite Hp, filter_app in *. rewrite fmap_app, NoDup_app in Hnd. destruct Hnd as (_ & Hx & _).
  assert (filter (λ r : row, r.1 ∉ gone.*1) gone = []) as ->.
  { apply filter_none, Forall_forall. intros r Hr Hn. apply Hn. by apply list_elem_of_fmap_2. }
  assert (filter (λ r : row, r.1 ∉ gone.*1) rest = rest) as ->; [|done]. apply filter_all, Forall_forall. intros r Hr Hin.
  apply (Hx _ Hin). by apply list_elem_of_fmap_2.
Qed.

Lemma max_bound (b : Z) (l : list Z) : Forall (λ z, z < foldr Z.max b l + 1) l.
Proof.
  induction l as [|z l IH]; constructor; cbn; [lia|]. eapply Forall_impl; [exact IH|]. cbn. lia.
Qed.

#[export] Instance list_database_ok : @SQLiteOk list_database.
Proof.
  constructor; cbn.
  - intros c d d' [= <-]. eexists. split; [done|]. apply (proj1 (Forall_map fst (λ z, z < _) _)), max_bound.
  - done.
  - by intros d n d' [= <- _].
  - by intros d n d' [= _ <-].
  - intros n d d' [= <-] Hn Hnd. cbn. split; [apply sublist_filter|]. set (sorted := merge_sort ts_le d.2).
    exists (take (Z.to_nat n) sorted). assert (d.2 ≡ₚ take (Z.to_nat n) sorted ++ drop (Z.to_nat n) sorted) as Hp
      by (rewrite take_drop; symmetry; apply merge_sort_Permutation).
    pose proof (taken_out_rest _ _ _ Hnd Hp) as Ht. split_and!.
    + by rewrite Ht.
    + unfold sorted. rewrite length_take, merge_sort_Permutation. lia.
    + eapply Forall_impl; [exact (proj2 (sorted_split ts_le _ d.2))|]. intros r Hr. fold sorted in Hr. by rewrite Ht.
  - done.
  - by intros d a d' [= <- _].
  - by intros d a d' [= _ <-].
  - by intros d a d' [= <- _].
  - by intros d a d' [= _ <-].
  - by intros d a d' [= <- _].
  - by intros d a d' [= _ <-].
  - intros qs n d l d' [= <- _] Hn. set (hits := List.filter _ d.2). exists (take (Z.to_nat n) (merge_sort ts_ge hits)), (drop (Z.to_nat n) (merge_sort ts_ge hits)).
    destruct (sorted_split ts_ge (Z.to_nat n) hits) as [Hs Hx]. rewrite take_drop, length_take.
    pose proof (merge_sort_Permutation ts_ge hits) as Hp. pose proof (Permutation_length Hp) as Hlen.
    split_and!; [done|exact Hp|lia|exact Hs|exact Hx].
  - by intros qs n d a d' [= _ <-].
  - intros d l d' [= <- _]. unfold pending_row. cbn. f_equiv. apply reflexive_eq. apply List.filter_ext. intros r.
    destruct (verdict r.2); [by destruct (pod_name r.2)|done].
  - by intros d a d' [= _ <-].
  - by intros v p i d d' [= <-].
  - done.
Qed.

(** ** Demonstration: two records are retained *)

#[local] Instance table_format : FloatFormat := λ _, gostr "0.9".
#[local] Instance table_numbers : Floats := Some.
#[local] Existing Instance list_database.

(** The plain record at the time [t]. *)
Definition timed (t : Z) : EvidenceRecord := {|
  erSessionID := erSessionID plain_record; TripTS := t; erVerdict := erVerdict plain_record; erAction := erAction plain_record;
  erVariant := erVariant plain_record; erConfidence := erConfidence plain_record; erLegs := erLegs plain_record;
  SinkCall := SinkCall plain_record; ValueOverlap := None; erTimeline := erTimeline plain_record; erPod := None;
  ChainSeq := 0; PrevHash := []; erHash := [] |}.

Definition empty_database : @db list_database := (0, []).

Definition opened : SQLiteEvidenceSink :=
  default {| sqDB := empty_database; maxRecords := 0; sqLastHash := []; sqNextSeq := 0 |} (NewSQLiteEvidenceSink 2 empty_database).1.

Definition three_trips : list sqlite_op := [SqEmit true (timed 10); SqEmit true (timed 20); SqReopen; SqEmit true (timed 30)].

Lemma timed_clean t : clean (timed t).
Proof.
  pose proof demo_clean as Hc. apply Forall_cons in Hc as [[[Hid Hlegs Hcall Hov Htl Hpod] _] _]. by constructor.
Qed.

Lemma three_clean : Forall clean_sq three_trips.
Proof. repeat (apply Forall_cons_2; [exact I || apply timed_clean|]). apply Forall_nil_2. Qed.

Lemma three_increase : increasing (emitted three_trips).
Proof. apply (bool_decide_unpack _). vm_compute. exact I. Qed.

Lemma opened_new : NewSQLiteEvidenceSink 2 empty_database = (Some opened, empty_database).
Proof. vm_compute. reflexivity. Qed.

Definition loaded (ops : list sqlite_op) : option (list EvidenceRecord) := (loadSQLite (sqDB (sqlite_after opened ops))).1.

Example retained_chain_verifies_witness :
  exists records, loaded three_trips = Some records /\ VerifyChain records = Intact /\ Z.of_nat (length records) <= 2.
Proof.
  destruct (retained_chain_verifies 2 empty_database empty_database opened three_trips eq_refl opened_new three_clean three_increase ltac:(cbn; lia))
    as (records & k & Hload & Hv & _ & _ & Hlim & _).
  exists records. split_and!; [|exact Hv|].
  - destruct (Hload _ _ (surjective_pairing _)) as [E|E]; [exact E|discriminate E].
  - apply (Hlim [SqEmit true (timed 10); SqEmit true (timed 20); SqReopen] true (timed 30)); [reflexivity|vm_compute; reflexivity|lia].
Defined.

(** The rows are pruned by the time of the wall clock, not by their order. A record that is
    emitted after the clock stepped back is the oldest: its own Emit deletes it, and returns no error... *)
Example stepped_back_is_lost :
  let s := sqlite_after opened [SqEmit true (timed 10); SqEmit true (timed 20)] in
  let '(ok, s') := sqlite_Emit true (timed 5) s in
  (ok, map (λ r, trip_ts r.2) (rows (sqDB s'))) = (true, [10; 20]).
Proof. vm_compute. reflexivity. Qed.

(** ... and the next one leaves a gap: the verifier reports a table nobody touched. *)
Example clock_step_breaks_chain :
  VerifyChain <$> loaded [SqEmit true (timed 10); SqEmit true (timed 20); SqEmit true (timed 5); SqEmit true (timed 30)] =
  Some (ChainBreak 1 (SeqMismatch 3 2)).
Proof. vm_compute. reflexivity. Qed.

(** A query with a filter: the newest first. *)
Example query_newest_first :
  let q := {| eqSessionID := gostr "s1"; eqVerdict := []; eqPodName := []; eqLimit := 0 |} in
  (map TripTS <$> (Query q (sqlite_after opened three_trips)).1) = Some [30; 20].
Proof. vm_compute. reflexivity. Qed.
