(* ===== verification/Siem.v ===== *)
(** * internal/siem/cef.go: evidence as lines of the Common Event Format

    [ToCEF] writes one line for a record. [read_cef] reads such a line as the format is
    specified: the header fields end at the first seven bars without a backslash; in the
    extension a key is the word before an equals sign without a backslash, its value reaches to
    the space before the next key. *)

From S2P Require Import Prelude Go GoTime GoStrings Encodings EncodingFacts Json JsonFacts Model Evidence EvidenceTheorems.

(** [fmt.Sprintf("%.2f", x)]; it is made of digits, a sign, a point or the letters of NaN and Inf. *)
Class Fixed2 := fixed2 : float64 -> bytes.

Definition number_byte (c : byte) : bool :=
  existsb (Byte.eqb c) (gostr "0123456789.+-NaInf").

Class Fixed2Ok `{Fixed2} : Prop := fixed2_plain x : forallb number_byte (fixed2 x) = true.

(** ** Writing *)

Definition cefSeverity (v : verdict) : Z := if bool_decide (v = VerdictExfil) then 10 else 5.

Definition backslash : byte := x5c.

Definition cefHeaderEscape (s : bytes) : bytes :=
  ReplaceAll (ReplaceAll s [backslash] [backslash; backslash]) [x7c] [backslash; x7c].

Definition ext_rune (r : Z) : bytes :=
  if r =? 0x5c then [backslash; backslash] else if r =? 0x3d then [backslash; x3d] else if r =? 0x7c then [backslash; x7c]
  else if r =? 0x0a then [backslash; x6e] else if r =? 0x0d then [backslash; x72]
  else EncodeRune r.

Definition cefExtEscape (s : bytes) : bytes := mjoin (map ext_rune (runes (length s) s)).

Section cef.

Context `{Fixed2}.

Definition cef_msg (rec : EvidenceRecord) : bytes :=
  gostr "Interlock " ++ verdict_string (erVerdict rec) ++ gostr " detection variant=" ++ variant_string (erVariant rec) ++
  gostr " action=" ++ action_string (erAction rec) ++ gostr " confidence=" ++ fixed2 (erConfidence rec).

(** [key=value], the value escaped, and its label. *)
Definition ext_field (key : string) (v : bytes) : bytes := gostr key ++ x3d :: cefExtEscape v.
Definition ext_label (key label : string) : bytes := gostr key ++ x3d :: gostr label.
Arguments ext_field key%_string v.
Arguments ext_label key%_string label%_string.

Definition when_given (v : bytes) (ext : list bytes) : list bytes := if bool_decide (v = []) then [] else ext.

Definition cef_ext (rec : EvidenceRecord) : list bytes :=
  [ext_field "msg" (cef_msg rec);
   ext_field "cs1" (erSessionID rec); ext_label "cs1Label" "session_id";
   ext_field "cs2" (action_string (erAction rec)); ext_label "cs2Label" "action";
   ext_field "cs3" (variant_string (erVariant rec)); ext_label "cs3Label" "variant";
   gostr "cn1" ++ x3d :: fixed2 (erConfidence rec); ext_label "cn1Label" "confidence"] ++
  match erPod rec with
  | Some p =>
      when_given (PodName p)
        ([ext_field "cs4" (PodName p); ext_label "cs4Label" "pod_name"] ++
         when_given (Namespace p) [ext_field "cs5" (Namespace p); ext_label "cs5Label" "namespace"] ++
         when_given (NodeName p) [ext_field "cs6" (NodeName p); ext_label "cs6Label" "node_name"])
  | None => []
  end ++
  match ValueOverlap rec with
  | Some h => when_given (WhereFound h) [ext_field "cs7" (WhereFound h); ext_label "cs7Label" "where_found"]
  | None => []
  end.

Definition cef_name (rec : EvidenceRecord) : bytes :=
  match verdict_string (erVerdict rec) with [] => gostr "UNKNOWN" | name => name end.

(** Up to the extension. *)
(** The signature: the variant, if there is one. *)
Definition cef_signature (rec : EvidenceRecord) : bytes :=
  match variant_string (erVariant rec) with [] => gostr "unknown" | sig => sig end.

Definition cef_head (rec : EvidenceRecord) : bytes :=
  gostr "CEF:0|Interlock|Interlock|0.4|" ++ cefHeaderEscape (cef_signature rec) ++ [x7c] ++
  cefHeaderEscape (cef_name rec) ++ [x7c] ++ Itoa (cefSeverity (erVerdict rec)) ++ [x7c].

Definition ToCEF (rec : EvidenceRecord) : bytes := cef_head rec ++ Join (cef_ext rec) [x20].

End cef.

(** ** Reading *)

(** The text up to the first bar without a backslash, and what follows it. *)
Fixpoint header_field (s : bytes) : option (bytes * bytes) :=
  match s with
  | [] => None
  | x7c :: s => Some ([], s)
  | x5c :: c :: s => '(f, r) ← header_field s; Some (c :: f, r)
  | c :: s => '(f, r) ← header_field s; Some (c :: f, r)
  end.

Fixpoint header_fields (n : nat) (s : bytes) : option (list bytes * bytes) :=
  match n with
  | O => Some ([], s)
  | S n => '(f, r) ← header_field s; '(l, r) ← header_fields n r; Some (f :: l, r)
  end.

(** What a backslash makes of the byte behind it. *)
Definition unescaped (c : byte) : byte := match c with x6e => x0a | x72 => x0d | _ => c end.

(** The bytes of an extension; [None] is an equals sign that was not escaped. *)
Fixpoint ext_tokens (s : bytes) : list (option byte) :=
  match s with
  | [] => []
  | x5c :: c :: s => Some (unescaped c) :: ext_tokens s
  | x3d :: s => None :: ext_tokens s
  | c :: s => Some c :: ext_tokens s
  end.

(** The texts between the equals signs. *)
Fixpoint segments (ts : list (option byte)) : list bytes :=
  match ts with
  | [] => [[]]
  | None :: ts => [] :: segments ts
  | Some c :: ts => match segments ts with s :: l => (c :: s) :: l | [] => [[c]] end
  end.

(** At the last space. *)
Fixpoint last_word (s : bytes) : option (bytes * bytes) :=
  match s with
  | [] => None
  | c :: s' =>
      match last_word s' with
      | Some (v, k) => Some (c :: v, k)
      | None => if Byte.eqb c x20 then Some ([], s') else None
      end
  end.

Fixpoint ext_fields (key : bytes) (segs : list bytes) : option (list (bytes * bytes)) :=
  match segs with
  | [] => None
  | [v] => Some [(key, v)]
  | s :: segs => '(v, key') ← last_word s; l ← ext_fields key' segs; Some ((key, v) :: l)
  end.

Definition read_ext (s : bytes) : option (list (bytes * bytes)) :=
  match segments (ext_tokens s) with key :: segs => ext_fields key segs | [] => None end.

(** The seven header fields and the extension. *)
Definition read_cef (line : bytes) : option (list bytes * list (bytes * bytes)) :=
  '(h, ext) ← header_fields 7 line; l ← read_ext ext; Some (h, l).

(** * Theorems about CEF lines

    Whatever the texts of a record are, its line is one line, and reads back as its fields: no text
    can start a field, end one or hide one. *)

(** ** Runes *)

(** A text as it is shown: bytes that are not UTF-8 become U+FFFD. *)
Definition shown (s : bytes) : bytes := mjoin (map EncodeRune (runes (length s) s)).

Lemma EncodeRune_ascii r : 0 <= r < 0x80 -> EncodeRune r = [Z_byte r].
Proof.
  intros Hr. unfold EncodeRune. replace ((r <? 0) || (1114111 <? r) || ((55296 <=? r) && (r <=? 57343))) with false by lia.
  by replace (r <? 128) with true by lia.
Qed.

Lemma Z_byte_high z : 0x80 <= z < 256 -> 0x80 <= byte_Z (Z_byte z).
Proof. intros Hz. rewrite byte_Z_byte, Z.mod_small; lia. Qed.

Lemma EncodeRune_high r b : ~ (0 <= r < 0x80) -> b ∈ EncodeRune r -> 0x80 <= byte_Z b.
Proof.
  intros Hr. assert (exists q, 0x80 <= q <= 0x10ffff /\ (EncodeRune r = map Z_byte
     (if q <? 0x80 then [q]
      else if q <? 0x800 then [0xc0 + q / 64; 0x80 + q mod 64]
      else if q <? 0x10000 then [0xe0 + q / 4096; 0x80 + q / 64 mod 64; 0x80 + q mod 64]
      else [0xf0 + q / 262144; 0x80 + q / 4096 mod 64; 0x80 + q / 64 mod 64; 0x80 + q mod 64]))) as (q & Hq & ->).
  { unfold EncodeRune. destruct ((r <? 0) || (0x10ffff <? r) || ((0xd800 <=? r) && (r <=? 0xdfff))) eqn:E; [exists RuneError|exists r]; (split; [|done]); [done|].
    apply orb_false_iff in E as [[? ?]%orb_false_iff _]. lia. }
  rewrite (proj2 (Z.ltb_ge q 0x80)) by lia. intros Hb. apply list_elem_of_fmap in Hb as (z & -> & Hz). apply Z_byte_high.
  destruct (Z.ltb_spec q 0x800); [|destruct (Z.ltb_spec q 0x10000)]; cbn in Hz;
    repeat (apply elem_of_cons in Hz as [->|Hz]); try (by apply not_elem_of_nil in Hz); Z.to_euclidean_division_equations; lia.
Qed.

(** ** Escaped texts *)

(** Bytes that stand for themselves in an extension. *)
Definition plain (c : byte) : Prop := c ≠ x5c /\ c ≠ x3d /\ c ≠ x0a /\ c ≠ x0d.

(** [e] is read as [v], whatever follows, and does not end the line. *)
Definition codes (e v : bytes) : Prop :=
  (forall rest, ext_tokens (e ++ rest) = map Some v ++ ext_tokens rest) /\ (x0a ∉ e) /\ (x0d ∉ e).

Lemma plain_token c rest : plain c -> ext_tokens (c :: rest) = Some c :: ext_tokens rest.
Proof. intros (Hb & He & _). destruct c; try done. Qed.

Lemma codes_plain v : Forall plain v -> codes v v.
Proof.
  induction 1 as [|c v Hc _ (IH & Hn & Hr)]; [split_and!; [done|set_solver..]|]. split_and!.
  - intros rest. cbn [app map]. by rewrite plain_token, IH.
  - destruct Hc as (_ & _ & ? & _). set_solver.
  - destruct Hc as (_ & _ & _ & ?). set_solver.
Qed.

Lemma codes_app e e' v v' : codes e v -> codes e' v' -> codes (e ++ e') (v ++ v').
Proof.
  intros (H1 & Hn1 & Hr1) (H2 & Hn2 & Hr2). split_and!; [|set_solver..]. intros rest.
  by rewrite <- app_assoc, H1, H2, map_app, app_assoc.
Qed.

Lemma codes_pair c d : unescaped c = d -> (c ≠ x0a) -> (c ≠ x0d) -> codes [x5c; c] [d].
Proof. intros <- Hn Hr. split_and!; [done|set_solver..]. Qed.

Lemma high_plain c : 0x80 <= byte_Z c -> plain c.
Proof. intros Hc. repeat split; intros ->; by apply Hc. Qed.

Lemma Z_byte_ne z c : 0 <= z < 256 -> z ≠ byte_Z c -> Z_byte z ≠ c.
Proof. intros Hz Hne <-. rewrite byte_Z_byte, Z.mod_small in Hne; lia. Qed.

Lemma codes_rune r : codes (ext_rune r) (EncodeRune r).
Proof.
  unfold ext_rune. destruct (Z.eqb_spec r 0x5c) as [->|H1]; [by apply (codes_pair x5c)|].
  destruct (Z.eqb_spec r 0x3d) as [->|H2]; [by apply (codes_pair x3d)|]. destruct (Z.eqb_spec r 0x7c) as [->|H3]; [by apply (codes_pair x7c)|].
  destruct (Z.eqb_spec r 0x0a) as [->|H4]; [by apply (codes_pair x6e)|]. destruct (Z.eqb_spec r 0x0d) as [->|H5]; [by apply (codes_pair x72)|].
  apply codes_plain, Forall_forall. intros c Hc. destruct (decide (0 <= r < 0x80)) as [Hr|Hr].
  - rewrite EncodeRune_ascii in Hc by done. apply list_elem_of_singleton in Hc as ->.
    split_and!; apply Z_byte_ne; cbn; lia.
  - by eapply high_plain, EncodeRune_high.
Qed.

Lemma codes_escape s : codes (cefExtEscape s) (shown s).
Proof.
  unfold cefExtEscape, shown. induction (runes (length s) s) as [|r rs IH]; [split_and!; [done|set_solver..]|].
  cbn. apply codes_app; [apply codes_rune|done].
Qed.

(** ** Fields *)

(** The text of a field, with the key and the value it is read as. *)
Record item := { it_key : bytes; it_text : bytes; it_value : bytes }.

Definition item_ok (it : item) : Prop := Forall plain (it_key it) /\ (x20 ∉ it_key it) /\ codes (it_text it) (it_value it).

Definition item_line (it : item) : bytes := it_key it ++ x3d :: it_text it.

Definition pairs (its : list item) : list (bytes * bytes) := map (λ it, (it_key it, it_value it)) its.

Lemma segments_some v ts : exists s l, segments ts = s :: l /\ segments (map Some v ++ ts) = (v ++ s) :: l.
Proof.
  induction v as [|c v (s & l & E & IH)].
  - cbn. destruct (segments ts) as [|s l] eqn:E; [|by exists s, l]. exfalso. destruct ts as [|[c|] ts]; [done| |done]. cbn in E.
    by destruct (segments ts).
  - exists s, l. split; [done|]. cbn [map app segments]. by rewrite IH.
Qed.

Lemma last_word_app v k : (x20 ∉ k) -> last_word (v ++ x20 :: k) = Some (v, k).
Proof.
  intros Hk. assert (last_word k = None) as Hn.
  { induction k as [|c k IH]; [done|]. apply not_elem_of_cons in Hk as [Hc Hk]. cbn. rewrite (IH Hk).
    destruct (Byte.eqb c x20) eqn:E; [|done]. apply byte_eqb_spec in E. congruence. }
  induction v as [|c v IH]; cbn; [by rewrite Hn|by rewrite IH].
Qed.

(** The segments behind the first key. *)
Fixpoint segments_of (v : bytes) (its : list item) : list bytes :=
  match its with
  | [] => [v]
  | it :: its => (v ++ x20 :: it_key it) :: segments_of (it_value it) its
  end.

Lemma segments_line it its :
  item_ok it -> Forall item_ok its ->
  segments (ext_tokens (Join (map item_line (it :: its)) [x20])) = it_key it :: segments_of (it_value it) its.
Proof.
  intros Hit Hits. revert it Hit. induction Hits as [|it' its Hit' Hits IH]; intros it (Hk & Hs & (Hc & _)).
  - cbn [map Join]. unfold item_line. pose proof (codes_plain _ Hk) as (Hkc & _). rewrite Hkc. cbn [ext_tokens].
    rewrite <- (app_nil_r (it_text it)), Hc. cbn [ext_tokens]. destruct (segments_some (it_key it) (None :: map Some (it_value it) ++ [])) as (s & l & E & ->).
    destruct (segments_some (it_value it) []) as (s' & l' & E' & Ev). cbn [segments] in *. rewrite Ev in E. injection E' as <- <-. injection E as <- <-. by rewrite !app_nil_r.
  - specialize (IH it' Hit'). change (Join (map item_line (it :: it' :: its)) [x20]) with (item_line it ++ x20 :: Join (map item_line (it' :: its)) [x20]).
    revert IH. generalize (Join (map item_line (it' :: its)) [x20]). intros rest IH. unfold item_line.
    pose proof (codes_plain _ Hk) as (Hkc & _). rewrite <- app_assoc, Hkc. cbn [app ext_tokens]. rewrite Hc. cbn [ext_tokens].
    destruct (segments_some (it_key it) (None :: map Some (it_value it) ++ Some x20 :: ext_tokens rest)) as (s & l & E & ->).
    cbn [segments] in E. injection E as <- <-. rewrite app_nil_r. f_equal.
    destruct (segments_some (it_value it) (Some x20 :: ext_tokens rest)) as (s & l & E & ->).
    cbn [segments] in E. rewrite IH in E. injection E as <- <-. done.
Qed.

Lemma read_items k v its : Forall item_ok its -> ext_fields k (segments_of v its) = Some ((k, v) :: pairs its).
Proof.
  intros Hits. revert k v. induction Hits as [|it its (_ & Hs & _) _ IH]; intros k v; [done|].
  cbn [segments_of ext_fields]. destruct (segments_of (it_value it) its) as [|s l] eqn:E; [by destruct its|].
  rewrite <- E. rewrite last_word_app by done. cbn [mbind option_bind]. by rewrite IH.
Qed.

Lemma read_cef_line it its : item_ok it -> Forall item_ok its -> read_ext (Join (map item_line (it :: its)) [x20]) = Some (pairs (it :: its)).
Proof. intros Hit Hits. unfold read_ext. rewrite segments_line by done. by rewrite read_items. Qed.

Lemma line_stays its c : (c = x0a \/ c = x0d) -> Forall item_ok its -> c ∉ Join (map item_line its) [x20].
Proof.
  intros Hc. assert (forall it, item_ok it -> c ∉ item_line it) as Hone.
  { intros it (Hk & _ & (_ & Hn & Hr)) Hin. unfold item_line in Hin. apply elem_of_app in Hin as [Hin|Hin].
    - rewrite Forall_forall in Hk. apply Hk in Hin as (_ & _ & ? & ?). naive_solver.
    - apply elem_of_cons in Hin as [->|Hin]; naive_solver. }
  induction 1 as [|it its Hit Hits IH]; [set_solver|]. destruct its as [|it' its]; [by apply Hone|].
  cbn [map Join]. intros [Hin|[Hin|Hin]%elem_of_cons]%elem_of_app; [by apply (Hone it)|destruct Hc; congruence|by apply IH].
Qed.

(** ** The line of a record *)

Section cef.

Context `{Fixed2Ok}.
Implicit Types rec : EvidenceRecord.

Definition text_item (key : string) (v : bytes) : item := {| it_key := gostr key; it_text := cefExtEscape v; it_value := shown v |}.
Definition plain_item (key : string) (v : bytes) : item := {| it_key := gostr key; it_text := v; it_value := v |}.
Arguments text_item key%_string v.
Arguments plain_item key%_string v.

Definition given_items (v : bytes) (its : list item) : list item := if bool_decide (v = []) then [] else its.

(** What the fields of a record say. *)
Definition cef_items rec : list item :=
  [text_item "msg" (cef_msg rec);
   text_item "cs1" (erSessionID rec); plain_item "cs1Label" (gostr "session_id");
   text_item "cs2" (action_string (erAction rec)); plain_item "cs2Label" (gostr "action");
   text_item "cs3" (variant_string (erVariant rec)); plain_item "cs3Label" (gostr "variant");
   plain_item "cn1" (fixed2 (erConfidence rec)); plain_item "cn1Label" (gostr "confidence")] ++
  match erPod rec with
  | Some p =>
      given_items (PodName p)
        ([text_item "cs4" (PodName p); plain_item "cs4Label" (gostr "pod_name")] ++
         given_items (Namespace p) [text_item "cs5" (Namespace p); plain_item "cs5Label" (gostr "namespace")] ++
         given_items (NodeName p) [text_item "cs6" (NodeName p); plain_item "cs6Label" (gostr "node_name")])
  | None => []
  end ++
  match ValueOverlap rec with
  | Some h => given_items (WhereFound h) [text_item "cs7" (WhereFound h); plain_item "cs7Label" (gostr "where_found")]
  | None => []
  end.

Definition cef_fields rec : list (bytes * bytes) := pairs (cef_items rec).

Definition plainb (c : byte) : bool := bool_decide (c ≠ x5c) && bool_decide (c ≠ x3d) && bool_decide (c ≠ x0a) && bool_decide (c ≠ x0d).

Lemma plain_all v : forallb plainb v = true -> Forall plain v.
Proof.
  intros Hv. apply Forall_forall. intros c Hc. rewrite forallb_forall in Hv. apply list_elem_of_In, Hv in Hc.
  unfold plainb in Hc. rewrite !andb_true_iff, !bool_decide_eq_true in Hc. unfold plain. tauto.
Qed.

Lemma text_item_ok key v : forallb plainb (gostr key) = true -> bool_decide (x20 ∈ gostr key) = false -> item_ok (text_item key v).
Proof. intros Hk Hs%bool_decide_eq_false. split_and!; [by apply plain_all|done|apply codes_escape]. Qed.

Lemma plain_item_ok key v :
  forallb plainb (gostr key) = true -> bool_decide (x20 ∈ gostr key) = false -> forallb plainb v = true -> item_ok (plain_item key v).
Proof. intros Hk Hs%bool_decide_eq_false Hv. split_and!; [by apply plain_all|done|by apply codes_plain, plain_all]. Qed.

Lemma number_plain v : forallb number_byte v = true -> forallb plainb v = true.
Proof.
  rewrite !forallb_forall. intros Hv c Hc. specialize (Hv c Hc). revert Hv. clear. unfold number_byte.
  cbn. by destruct c.
Qed.

Lemma given_ok v its : Forall item_ok its -> Forall item_ok (given_items v its).
Proof. unfold given_items. by case_bool_decide. Qed.

Create HintDb cef.
#[local] Hint Resolve text_item_ok plain_item_ok given_ok : cef.

Lemma items_ok rec : Forall item_ok (cef_items rec).
Proof.
  unfold cef_items. repeat (apply Forall_app; split).
  - repeat (apply Forall_cons_2; [by auto with cef|]).
    apply Forall_cons_2; [apply plain_item_ok; [done..|apply number_plain, fixed2_plain]|]. repeat (apply Forall_cons_2; [by auto with cef|]). constructor.
  - destruct (erPod rec) as [p|]; [|constructor]. apply given_ok. repeat (apply Forall_cons_2; [by auto with cef|]).
    apply Forall_app; split; apply given_ok; repeat (apply Forall_cons_2; [by auto with cef|]); constructor.
  - destruct (ValueOverlap rec) as [h|]; [|constructor]. apply given_ok. repeat (apply Forall_cons_2; [by auto with cef|]). constructor.
Qed.

Lemma given_lines v its : map item_line (given_items v its) = when_given v (map item_line its).
Proof. unfold given_items, when_given. by case_bool_decide. Qed.

Lemma ext_items rec : cef_ext rec = map item_line (cef_items rec).
Proof.
  unfold cef_ext, cef_items. rewrite !map_app. f_equal. f_equal.
  - destruct (erPod rec) as [p|]; [|done]. rewrite given_lines, map_app, map_app, !given_lines. done.
  - destruct (ValueOverlap rec) as [h|]; [|done]. by rewrite given_lines.
Qed.

Definition cef_header rec : list bytes :=
  [gostr "CEF:0"; gostr "Interlock"; gostr "Interlock"; gostr "0.4"; cef_signature rec; cef_name rec;
   Itoa (cefSeverity (erVerdict rec))].

(** The header is made of constants of the program. *)
Lemma header_read rec ext : header_fields 7 (cef_head rec ++ ext) = Some (cef_header rec, ext).
Proof.
  unfold cef_head, cef_header, cef_signature, cef_name. destruct (erVariant rec), (erVerdict rec); vm_compute; reflexivity.
Qed.

Lemma header_line rec : (x0a ∉ cef_head rec) /\ (x0d ∉ cef_head rec).
Proof.
  unfold cef_head, cef_signature, cef_name. destruct (erVariant rec), (erVerdict rec); (split; apply (bool_decide_unpack _); vm_compute; exact I).
Qed.

(** C31: the texts of a record cannot forge a CEF line: the line of any record is one line, and a reader of the
    format finds in it the header of the program and exactly the fields of the record, in order, each
    with the text it has in the record (with U+FFFD for bytes that are not UTF-8), whatever
    equals signs, bars, backslashes, line ends or spaces the texts contain. *)
Theorem cef_unforgeable rec :
  read_cef (ToCEF rec) = Some (cef_header rec, cef_fields rec) /\ (x0a ∉ ToCEF rec) /\ (x0d ∉ ToCEF rec).
Proof.
  pose proof (items_ok rec) as Hok. unfold ToCEF. rewrite ext_items. split.
  - unfold read_cef. rewrite header_read. cbn [mbind option_bind]. unfold cef_fields. destruct (cef_items rec) as [|it its] eqn:E; [done|].
    apply Forall_cons in Hok as [Hit Hits]. by rewrite read_cef_line.
  - destruct (header_line rec). pose proof (line_stays _ x0a (or_introl eq_refl) Hok). pose proof (line_stays _ x0d (or_intror eq_refl) Hok).
    split; by intros [?|?]%elem_of_app.
Qed.

End cef.

(** ** A path of a tool call as an attacker spells it *)

#[local] Instance demo_fixed : Fixed2 := λ _, gostr "1.00".
#[local] Instance demo_fixed_ok : Fixed2Ok.
Proof. intros x. reflexivity. Qed.

Definition forging : EvidenceRecord := {|
  erSessionID := gostr "s1 cs2=allowed cs2Label=action"; TripTS := 12; erVerdict := VerdictExfil; erAction := ActionPrevented; erVariant := VariantA;
  erConfidence := f64 1; erLegs := erLegs plain_record; SinkCall := []; ValueOverlap := None; erTimeline := []; erPod := None;
  ChainSeq := 0; PrevHash := []; erHash := [] |}.

Example cef_unforgeable_witness : read_cef (ToCEF forging) = Some (cef_header forging, cef_fields forging).
Proof. exact (proj1 (cef_unforgeable forging)). Defined.

(** The session ID stays one value. *)
Example forging_fields :
  (nth_error (cef_fields forging) 1, nth_error (cef_fields forging) 3) =
  (Some (gostr "cs1", gostr "s1 cs2=allowed cs2Label=action"), Some (gostr "cs2", gostr "prevented")).
Proof. vm_compute. reflexivity. Qed.
