(* ===== verification/AsyncSink.v ===== *)
(** * internal/engine/evidence_async.go: the asynchronous evidence sink

    Emit, the worker and Close run concurrently. A [step] is what one of them does between two
    points where the others can run: a locked section, a send or a receive on the queue. A
    record that Emit holds in block mode between its unlock and its send is in [pending]. The
    answer of [inner.Emit] is an argument of the step. *)

From S2P Require Import Prelude Go GoStrings Model.

Inductive worker_state := Running | Draining | Stopped.
Inductive closer_state := NotClosing | Waiting | FinalDrain | InnerClosed.

#[export] Instance worker_state_eq_dec : EqDecision worker_state.
Proof. solve_decision. Defined.
#[export] Instance closer_state_eq_dec : EqDecision closer_state.
Proof. solve_decision. Defined.

(** [attempts] are the records [inner.Emit] was called with, [observed] those the observer saw,
    [signals] the calls of OnSuccess and OnFailure. [emitted] and [dropped] only record what
    the callers asked for and what was refused. *)
Record AsyncEvidenceSink := {
  inner : bool; backpressure : bytes; queueSize : nat; observer : bool;
  queue : list EvidenceRecord; drops : Z; closed : bool;
  pending : list EvidenceRecord; worker : worker_state; closer : closer_state;
  attempts : list EvidenceRecord; observed : list EvidenceRecord; signals : list bool;
  emitted : list EvidenceRecord; dropped : list EvidenceRecord
}.

Definition NewAsyncEvidenceSink (inner : bool) (backpressure : bytes) (queueSize : Z) : AsyncEvidenceSink := {|
  inner := inner;
  backpressure := match backpressure with [] => gostr "block" | b => b end;
  queueSize := Z.to_nat (if queueSize <=? 0 then 256 else queueSize);
  observer := false; queue := []; drops := 0; closed := false; pending := []; worker := Running; closer := NotClosing;
  attempts := []; observed := []; signals := []; emitted := []; dropped := [] |}.

Section sink.

Implicit Types (s : AsyncEvidenceSink) (rec : EvidenceRecord).

Definition SetEmitObserver s : AsyncEvidenceSink := {|
  inner := inner s; backpressure := backpressure s; queueSize := queueSize s; observer := true; queue := queue s; drops := drops s;
  closed := closed s; pending := pending s; worker := worker s; closer := closer s; attempts := attempts s;
  observed := observed s; signals := signals s; emitted := emitted s; dropped := dropped s |}.

Definition set_queue (q : list EvidenceRecord) s : AsyncEvidenceSink := {|
  inner := inner s; backpressure := backpressure s; queueSize := queueSize s; observer := observer s; queue := q; drops := drops s;
  closed := closed s; pending := pending s; worker := worker s; closer := closer s; attempts := attempts s;
  observed := observed s; signals := signals s; emitted := emitted s; dropped := dropped s |}.

Definition set_pending (p : list EvidenceRecord) s : AsyncEvidenceSink := {|
  inner := inner s; backpressure := backpressure s; queueSize := queueSize s; observer := observer s; queue := queue s; drops := drops s;
  closed := closed s; pending := p; worker := worker s; closer := closer s; attempts := attempts s;
  observed := observed s; signals := signals s; emitted := emitted s; dropped := dropped s |}.

Definition set_threads (c : bool) (w : worker_state) (k : closer_state) s : AsyncEvidenceSink := {|
  inner := inner s; backpressure := backpressure s; queueSize := queueSize s; observer := observer s; queue := queue s; drops := drops s;
  closed := c; pending := pending s; worker := w; closer := k; attempts := attempts s;
  observed := observed s; signals := signals s; emitted := emitted s; dropped := dropped s |}.

Definition count_emit rec s : AsyncEvidenceSink := {|
  inner := inner s; backpressure := backpressure s; queueSize := queueSize s; observer := observer s; queue := queue s; drops := drops s;
  closed := closed s; pending := pending s; worker := worker s; closer := closer s; attempts := attempts s;
  observed := observed s; signals := signals s; emitted := emitted s ++ [rec]; dropped := dropped s |}.

(** [drops.Add(1)] on a record that is given up. *)
Definition drop_record rec s : AsyncEvidenceSink := {|
  inner := inner s; backpressure := backpressure s; queueSize := queueSize s; observer := observer s; queue := queue s;
  drops := u64 (drops s + 1); closed := closed s; pending := pending s; worker := worker s; closer := closer s;
  attempts := attempts s; observed := observed s; signals := signals s; emitted := emitted s; dropped := dropped s ++ [rec] |}.

(** [s.inner.Emit(rec)], with what the worker tells of it. *)
Definition attempt rec (seen : list EvidenceRecord) (told : list bool) s : AsyncEvidenceSink := {|
  inner := inner s; backpressure := backpressure s; queueSize := queueSize s; observer := observer s; queue := queue s; drops := drops s;
  closed := closed s; pending := pending s; worker := worker s; closer := closer s; attempts := attempts s ++ [rec];
  observed := observed s ++ seen; signals := signals s ++ told; emitted := emitted s; dropped := dropped s |}.

(** ** The operations *)

(** [err = nil] when [ok]. *)
Definition emitInner (ok : bool) rec s : AsyncEvidenceSink :=
  if negb (inner s) then s
  else if negb ok then attempt rec [] [false] s
  else attempt rec (if observer s then [rec] else []) [true] s.

(** The call of the inner sink by Emit itself, whose error goes to the caller. *)
Definition emitDirect rec s : AsyncEvidenceSink := if inner s then attempt rec [] [] s else s.

Definition is_drop s : bool := bool_decide (backpressure s = gostr "drop").

(** The locked section of Emit. In block mode the record is then in its caller's hands. *)
Definition Emit rec s : AsyncEvidenceSink :=
  let s := count_emit rec s in
  if closed s then emitDirect rec s
  else if is_drop s then
    if (length (queue s) <? queueSize s)%nat then set_queue (queue s ++ [rec]) s else drop_record rec s
  else set_pending (pending s ++ [rec]) s.

(** The select of Emit in block mode, for the [i]th caller: the send, or the closed channel. *)
Definition emit_send (i : nat) s : option AsyncEvidenceSink :=
  rec ← pending s !! i;
  if (length (queue s) <? queueSize s)%nat
  then Some (set_queue (queue s ++ [rec]) (set_pending (delete i (pending s)) s)) else None.

Definition emit_done (i : nat) s : option AsyncEvidenceSink :=
  rec ← pending s !! i;
  if closed s then Some (emitDirect rec (set_pending (delete i (pending s)) s)) else None.

(** The receive of a loop, and its default branch. *)
Definition receive (ok : bool) s : option AsyncEvidenceSink :=
  match queue s with rec :: q => Some (emitInner ok rec (set_queue q s)) | [] => None end.

Definition when_empty s (s' : AsyncEvidenceSink) : option AsyncEvidenceSink :=
  match queue s with [] => Some s' | _ => None end.

(** One turn of the worker: writeLoop until it sees [done], then drainQueue. *)
Definition writeLoop_receive (ok : bool) s : option AsyncEvidenceSink :=
  match worker s with Running | Draining => receive ok s | Stopped => None end.

Definition writeLoop_done s : option AsyncEvidenceSink :=
  match worker s with
  | Running => if closed s then Some (set_threads (closed s) Draining (closer s) s) else None
  | _ => None
  end.

Definition writeLoop_return s : option AsyncEvidenceSink :=
  match worker s with Draining => when_empty s (set_threads (closed s) Stopped (closer s) s) | _ => None end.

(** Close: its locked section, the wait for the worker, its own drainQueue, the inner Close. *)
Definition Close s : AsyncEvidenceSink := if closed s then s else set_threads true (worker s) Waiting s.

Definition close_wait s : option AsyncEvidenceSink :=
  match closer s, worker s with Waiting, Stopped => Some (set_threads (closed s) Stopped FinalDrain s) | _, _ => None end.

Definition close_receive (ok : bool) s : option AsyncEvidenceSink :=
  match closer s with FinalDrain => receive ok s | _ => None end.

Definition close_inner s : option AsyncEvidenceSink :=
  match closer s with FinalDrain => when_empty s (set_threads (closed s) (worker s) InnerClosed s) | _ => None end.

(** ** The interleavings *)

Inductive turn :=
| CallEmit rec | CallClose | CallObserver
| SendPending (i : nat) | DonePending (i : nat)
| WorkerReceive (ok : bool) | WorkerDone | WorkerReturn
| CloserWait | CloserReceive (ok : bool) | CloserInner.

Definition step (t : turn) s : option AsyncEvidenceSink :=
  match t with
  | CallEmit rec => Some (Emit rec s)
  | CallClose => Some (Close s)
  | CallObserver => Some (SetEmitObserver s)
  | SendPending i => emit_send i s
  | DonePending i => emit_done i s
  | WorkerReceive ok => writeLoop_receive ok s
  | WorkerDone => writeLoop_done s
  | WorkerReturn => writeLoop_return s
  | CloserWait => close_wait s
  | CloserReceive ok => close_receive ok s
  | CloserInner => close_inner s
  end.

Definition run (ts : list turn) s : option AsyncEvidenceSink := foldl (λ o t, o ≫= step t) (Some s) ts.

(** The turns the sink takes by itself, without a new call. *)
Definition internal (t : turn) : bool :=
  match t with CallEmit _ | CallClose | CallObserver => false | _ => true end.

End sink.
