(* ===== verification/AsyncSinkTheorems.v ===== *)
(** * Theorems about the asynchronous evidence sink

    Every record is accounted for in every interleaving; Close comes to an end; a record can
    be left in the queue for good when an Emit in block mode is overtaken by Close. *)

From S2P Require Import Prelude Go GoStrings Model AsyncSink.

Implicit Types (s : AsyncEvidenceSink) (rec : EvidenceRecord) (t : turn) (ts : list turn).

Lemma run_cons t ts s s' : run (t :: ts) s = Some s' <-> exists s1, step t s = Some s1 /\ run ts s1 = Some s'.
Proof.
  unfold run. cbn [foldl mbind option_bind]. destruct (step t s) as [s1|]; [split; [by exists s1|by intros (? & [= <-] & ?)]|].
  assert (foldl (λ o t, o ≫= step t) None ts = None) as -> by (induction ts; done).
  split; [done|by intros (? & ? & ?)].
Qed.

Lemma run_invariant (P : AsyncEvidenceSink -> Prop) ts s s' :
  (forall t s s', step t s = Some s' -> P s -> P s') -> run ts s = Some s' -> P s -> P s'.
Proof.
  intros Hstep. revert s. induction ts as [|t ts IH]; intros s; [by intros [= ->]|].
  intros (s1 & H1 & H2)%run_cons Hs. eauto.
Qed.

(** ** What holds in every interleaving *)

Record sink_inv (s : AsyncEvidenceSink) : Prop := {
  si_inner : inner s = true;
  si_account : emitted s ≡ₚ attempts s ++ queue s ++ pending s ++ dropped s;
  si_size : (1 <= queueSize s)%nat;
  si_bound : (length (queue s) <= queueSize s)%nat;
  si_drops : drops s = u64 (Z.of_nat (length (dropped s)));
  si_drop : is_drop s = true -> pending s = [];
  si_block : is_drop s = false -> dropped s = [];
  si_closer : closed s = negb (bool_decide (closer s = NotClosing));
  si_worker : closed s = false -> worker s = Running;
  si_waited : closer s = FinalDrain \/ closer s = InnerClosed -> worker s = Stopped;
  si_drained : is_drop s = true -> worker s = Stopped -> queue s = [];
  si_order : is_drop s = true -> closed s = false -> attempts s ++ queue s `sublist_of` emitted s
}.

Lemma new_inv bp n : sink_inv (NewAsyncEvidenceSink true bp n).
Proof.
  constructor; cbn; try done; try lia.
  - destruct (Z.leb_spec n 0); lia.
  - by intros [|].
Qed.

Lemma emitInner_is ok rec s : inner s = true -> exists seen told, emitInner ok rec s = attempt rec seen told s.
Proof. intros Hi. unfold emitInner. rewrite Hi. destruct ok; cbn; by eexists _, _. Qed.

Lemma receive_inv ok s s' : receive ok s = Some s' -> sink_inv s -> sink_inv s'.
Proof.
  unfold receive. destruct (queue s) as [|rec q] eqn:Eq; [done|]. intros [= <-] [].
  destruct (emitInner_is ok rec (set_queue q s)) as (seen & told & ->); [done|].
  rewrite Eq in *. constructor; cbn in *; try done; try lia.
  - etransitivity; [done|]. by rewrite <- app_assoc.
  - intros Hd Hs. by specialize (si_drained0 Hd Hs).
  - intros Hd Hc. rewrite <- app_assoc. by apply si_order0.
Qed.

(** The clauses about the other mode than the one of the hypothesis. *)
Ltac wrong_mode :=
  unfold is_drop in *; cbn in *;
  match goal with E : bool_decide _ = _ |- bool_decide _ = _ -> _ => by rewrite E end.

Lemma direct_inv rec s : closed s = true -> sink_inv s -> sink_inv (emitDirect rec (count_emit rec s)).
Proof.
  intros Ec []. unfold emitDirect. cbn [inner count_emit]. rewrite si_inner0. constructor; cbn in *; try done.
  - rewrite si_account0. solve_Permutation.
  - intros _. congruence.
Qed.

Lemma emit_inv rec s : sink_inv s -> sink_inv (Emit rec s).
Proof.
  intros Hs. unfold Emit. cbn [closed count_emit]. destruct (closed s) eqn:Ec; [by apply direct_inv|].
  change (is_drop (count_emit rec s)) with (is_drop s). destruct Hs. destruct (is_drop s) eqn:Ed.
  - specialize (si_drop0 eq_refl). specialize (si_order0 eq_refl Ec).
    cbn [queue queueSize count_emit]. destruct (Nat.ltb_spec (length (queue s)) (queueSize s)).
    + constructor; cbn in *; try done.
      * rewrite si_account0, si_drop0. solve_Permutation.
      * rewrite length_app. cbn. lia.
      * wrong_mode.
      * intros _ Hw. by rewrite si_worker0 in Hw.
      * intros _ _. rewrite app_assoc. by apply sublist_app.
    + constructor; cbn in *; try done.
      * rewrite si_account0. solve_Permutation.
      * rewrite si_drops0, length_app. unfold u64. cbn. rewrite Nat2Z.inj_add, Z.add_mod_idemp_l by lia. done.
      * wrong_mode.
      * intros _ Hw. by rewrite si_worker0 in Hw.
      * intros _ _. by apply sublist_inserts_r.
  - constructor; cbn in *; try done; try wrong_mode. rewrite si_account0. solve_Permutation.
Qed.

Lemma delete_account (p : list EvidenceRecord) i rec : p !! i = Some rec -> p ≡ₚ rec :: delete i p.
Proof. apply delete_Permutation. Qed.

Lemma send_inv i s s' : emit_send i s = Some s' -> sink_inv s -> sink_inv s'.
Proof.
  unfold emit_send. destruct (pending s !! i) as [rec|] eqn:Ep; [|done]. cbn [mbind option_bind].
  destruct (Nat.ltb_spec (length (queue s)) (queueSize s)); [|done]. intros [= <-] [].
  assert (is_drop s = false) as Ed by (destruct (is_drop s); [|done]; by rewrite si_drop0 in Ep).
  apply delete_account in Ep. constructor; cbn in *; try done; try wrong_mode.
  - rewrite si_account0. revert Ep. generalize (delete i (pending s)). intros p ->. solve_Permutation.
  - rewrite length_app. cbn. lia.
Qed.

Lemma done_inv i s s' : emit_done i s = Some s' -> sink_inv s -> sink_inv s'.
Proof.
  unfold emit_done. destruct (pending s !! i) as [rec|] eqn:Ep; [|done]. cbn [mbind option_bind].
  destruct (closed s) eqn:Ec; [|done]. intros [= <-] []. unfold emitDirect. cbn [inner set_pending]. rewrite si_inner0.
  assert (is_drop s = false) as Ed by (destruct (is_drop s); [|done]; by rewrite si_drop0 in Ep).
  apply delete_account in Ep. constructor; cbn in *; try done; try wrong_mode.
  rewrite si_account0. revert Ep. generalize (delete i (pending s)). intros p ->. solve_Permutation.
Qed.

(** A change of the threads alone. *)
Lemma threads_inv c w k s :
  sink_inv s -> c = negb (bool_decide (k = NotClosing)) -> (c = false -> w = Running) ->
  (closed s = true -> c = true) -> (k = FinalDrain \/ k = InnerClosed -> w = Stopped) -> (w = Stopped -> worker s = Stopped \/ queue s = []) ->
  sink_inv (set_threads c w k s).
Proof.
  intros [] ? ? Hc ? Hd. constructor; cbn in *; try done.
  - intros Hdrop Hw. destruct (Hd Hw); [by apply si_drained0|done].
  - intros Hdrop Hf. apply si_order0; [done|]. destruct (closed s); [by rewrite Hc in Hf|done].
Qed.

Lemma step_inv t s s' : step t s = Some s' -> sink_inv s -> sink_inv s'.
Proof.
  intros Ht Hs. pose proof Hs as []. destruct t; cbn [step] in Ht.
  - injection Ht as <-. by apply emit_inv.
  - injection Ht as <-. unfold Close. destruct (closed s) eqn:Ec; [done|]. apply threads_inv; try done.
    + by intros [|].
    + intros Hw. by rewrite si_worker0 in Hw.
  - injection Ht as <-. by destruct Hs; constructor.
  - by eapply send_inv.
  - by eapply done_inv.
  - unfold writeLoop_receive in Ht. destruct (worker s); [by eapply receive_inv..|done].
  - unfold writeLoop_done in Ht. destruct (worker s) eqn:Ew; [|done..]. destruct (closed s) eqn:Ec; [|done]. injection Ht as <-.
    apply threads_inv; try done. intros Hk. by specialize (si_waited0 Hk).
  - unfold writeLoop_return, when_empty in Ht. destruct (worker s) eqn:Ew; [done| |done]. destruct (queue s) eqn:Eq; [|done].
    injection Ht as <-. apply threads_inv; try done; [|by right]. intros Hc. by specialize (si_worker0 Hc).
  - unfold close_wait in Ht. destruct (closer s) eqn:Ek, (worker s) eqn:Ew; try done. injection Ht as <-.
    apply threads_inv; try done; by left.
  - unfold close_receive in Ht. destruct (closer s); try done. by eapply receive_inv.
  - unfold close_inner, when_empty in Ht. destruct (closer s) eqn:Ek; try done. destruct (queue s) eqn:Eq; [|done]. injection Ht as <-.
    apply threads_inv; try done; [|by right]. intros _. apply si_waited0. by left.
Qed.

Lemma run_inv ts bp n s : run ts (NewAsyncEvidenceSink true bp n) = Some s -> sink_inv s.
Proof. intros Hr. eapply run_invariant; [exact step_inv|exact Hr|apply new_inv]. Qed.

(** ** Close comes to an end *)

Definition worker_rank (w : worker_state) : nat := match w with Running => 2 | Draining => 1 | Stopped => 0 end.
Definition closer_rank (k : closer_state) : nat :=
  match k with NotClosing => 3 | Waiting => 2 | FinalDrain => 1 | InnerClosed => 0 end.

(** A held record costs its send and its receive. *)
Definition work_left s : nat :=
  2 * length (pending s) + length (queue s) + worker_rank (worker s) + closer_rank (closer s).

Lemma receive_work ok s s' : receive ok s = Some s' -> work_left s = S (work_left s').
Proof.
  unfold receive, work_left. destruct (queue s) as [|rec q] eqn:Eq; [done|]. intros [= <-]. unfold emitInner.
  destruct (negb _); [|destruct (negb ok)]; cbn; lia.
Qed.

Lemma held_work (p : list EvidenceRecord) i rec : p !! i = Some rec -> length p = S (length (delete i p)).
Proof. intros Hp. by rewrite (delete_account p i rec Hp) at 1. Qed.

Lemma internal_work t s s' : internal t = true -> step t s = Some s' -> (work_left s' < work_left s)%nat.
Proof.
  destruct t; try done; intros _; cbn [step].
  - unfold emit_send. destruct (pending s !! i) as [rec|] eqn:Ep; [|done]. cbn [mbind option_bind]. destruct (length (queue s) <? queueSize s)%nat; [|done]. intros [= <-].
    apply held_work in Ep. unfold work_left. cbn. rewrite length_app. cbn. lia.
  - unfold emit_done, emitDirect. destruct (pending s !! i) as [rec|] eqn:Ep; [|done]. cbn. destruct (closed s); [|done]. intros [= <-].
    apply held_work in Ep. unfold work_left. destruct (inner s); cbn; lia.
  - unfold writeLoop_receive. destruct (worker s); intros Hr; try done; apply receive_work in Hr; lia.
  - unfold writeLoop_done, work_left. destruct (worker s), (closed s); try done. intros [= <-]. cbn. lia.
  - unfold writeLoop_return, when_empty, work_left. destruct (worker s), (queue s) eqn:Eq; try done. intros [= <-]. cbn. rewrite Eq. cbn. lia.
  - unfold close_wait, work_left. destruct (closer s), (worker s); try done. intros [= <-]. cbn. lia.
  - unfold close_receive. destruct (closer s); intros Hr; try done; apply receive_work in Hr; lia.
  - unfold close_inner, when_empty, work_left. destruct (closer s), (queue s) eqn:Eq; try done. intros [= <-]. cbn. rewrite Eq. cbn. lia.
Qed.

Lemma internal_run us s s' :
  Forall (λ t, internal t = true) us -> run us s = Some s' -> (length us + work_left s' <= work_left s)%nat.
Proof.
  intros Hus. revert s. induction Hus as [|t us Ht _ IH]; intros s; [intros [= ->]; cbn; lia|].
  intros (s1 & H1 & H2)%run_cons. apply internal_work in H1; [|done]. apply IH in H2. cbn [length]. lia.
Qed.

(** Nothing is stuck before the inner sink is closed. *)
Lemma progress s :
  sink_inv s -> closed s = true -> (forall t, internal t = true -> step t s = None) -> closer s = InnerClosed /\ pending s = [].
Proof.
  intros [] Hc Hstuck. rewrite Hc in si_closer0. split.
  - destruct (closer s) eqn:Ek; [done| | |done].
    + destruct (worker s) eqn:Ew.
      * specialize (Hstuck WorkerDone eq_refl). cbn in Hstuck. unfold writeLoop_done in Hstuck. by rewrite Ew, Hc in Hstuck.
      * destruct (queue s) eqn:Eq.
        -- specialize (Hstuck WorkerReturn eq_refl). cbn in Hstuck. unfold writeLoop_return, when_empty in Hstuck. by rewrite Ew, Eq in Hstuck.
        -- specialize (Hstuck (WorkerReceive true) eq_refl). cbn in Hstuck. unfold writeLoop_receive, receive in Hstuck. by rewrite Ew, Eq in Hstuck.
      * specialize (Hstuck CloserWait eq_refl). cbn in Hstuck. unfold close_wait in Hstuck. by rewrite Ek, Ew in Hstuck.
    + destruct (queue s) eqn:Eq.
      * specialize (Hstuck CloserInner eq_refl). cbn in Hstuck. unfold close_inner, when_empty in Hstuck. by rewrite Ek, Eq in Hstuck.
      * specialize (Hstuck (CloserReceive true) eq_refl). cbn in Hstuck. unfold close_receive, receive in Hstuck. by rewrite Ek, Eq in Hstuck.
  - destruct (pending s) as [|rec p] eqn:Ep; [done|]. specialize (Hstuck (DonePending 0) eq_refl). cbn in Hstuck.
    unfold emit_done in Hstuck. rewrite Ep in Hstuck. cbn in Hstuck. by rewrite Hc in Hstuck.
Qed.

Lemma internal_keeps_closed t s s' : internal t = true -> step t s = Some s' -> closed s' = closed s.
Proof.
  assert (forall ok s s', receive ok s = Some s' -> closed s' = closed s) as Hr.
  { clear. intros ok s s'. unfold receive, emitInner. destruct (queue s); [done|]. intros [= <-]. by destruct (negb _), ok. }
  destruct t; try done; intros _; cbn [step].
  - unfold emit_send. destruct (_ !! i); [|done]. cbn [mbind option_bind]. destruct (length (queue s) <? queueSize s)%nat; [|done]. by intros [= <-].
  - unfold emit_done, emitDirect. destruct (_ !! i); [|done]. cbn. destruct (closed s) eqn:E; [|done]. intros [= <-]. by destruct (inner s).
  - unfold writeLoop_receive. destruct (worker s); naive_solver.
  - unfold writeLoop_done. destruct (worker s), (closed s) eqn:E; try done. by intros [= <-].
  - unfold writeLoop_return, when_empty. destruct (worker s), (queue s); try done. by intros [= <-].
  - unfold close_wait. destruct (closer s), (worker s); try done. by intros [= <-].
  - unfold close_receive. destruct (closer s); naive_solver.
  - unfold close_inner, when_empty. destruct (closer s), (queue s); try done. by intros [= <-].
Qed.

Lemma run_keeps_closed us s s' :
  Forall (λ t, internal t = true) us -> run us s = Some s' -> closed s' = closed s.
Proof.
  intros Hus. revert s. induction Hus as [|t us Ht _ IH]; intros s; [by intros [= ->]|].
  intros (s1 & H1 & H2)%run_cons. rewrite (IH _ H2). by eapply internal_keeps_closed.
Qed.

(** ** The properties *)

(** C27: no interleaving of Emit, Close and the worker loses track of a record: those handed to
    the inner sink, those queued, those held by an Emit that has yet to send and those dropped
    are together the ones emitted, and the queue stays within its size. In block mode
    nothing is dropped. In drop mode the drops counter counts the dropped ones, records reach the
    inner sink in the order of their emission until Close, and once Close has closed the inner
    sink everything else was handed to it. *)
Theorem async_accounts_for_records (ts : list turn) (bp : bytes) (n : Z) (s : AsyncEvidenceSink) :
  run ts (NewAsyncEvidenceSink true bp n) = Some s ->
  emitted s ≡ₚ attempts s ++ queue s ++ pending s ++ dropped s /\
  (length (queue s) <= queueSize s)%nat /\ drops s = u64 (Z.of_nat (length (dropped s))) /\
  (is_drop s = false -> dropped s = []) /\
  (is_drop s = true ->
     (closed s = false -> attempts s ++ queue s `sublist_of` emitted s) /\
     (closer s = InnerClosed -> emitted s ≡ₚ attempts s ++ dropped s)).
Proof.
  intros Hr%run_inv. destruct Hr. split_and!; try done. intros Hd. split; [by apply si_order0|]. intros Hk.
  rewrite si_account0, (si_drained0 Hd), (si_drop0 Hd) by (apply si_waited0; by right). done.
Qed.

(** C26: Close ends. After it was called, and with no new call, the worker, the callers held in
    Emit and Close itself take at most two turns per held record, one per queued record and four
    more, in any order; and they only stop when the inner sink is closed and no caller is held. *)
Theorem async_close_terminates (ts us : list turn) (bp : bytes) (n : Z) (s s' : AsyncEvidenceSink) :
  run ts (NewAsyncEvidenceSink true bp n) = Some s -> closed s = true ->
  Forall (λ t, internal t = true) us -> run us s = Some s' ->
  (length us <= 2 * length (pending s) + length (queue s) + 4)%nat /\
  ((forall t, internal t = true -> step t s' = None) -> closer s' = InnerClosed /\ pending s' = []).
Proof.
  intros Hr%run_inv Hc Hus Hu. split.
  - apply internal_run in Hu as Hw; [|done]. unfold work_left in Hw.
    assert (worker_rank (worker s) <= 2 /\ closer_rank (closer s) <= 2)%nat as [? ?]; [|lia].
    destruct Hr. rewrite Hc in si_closer0. split; [destruct (worker s); cbn; lia|destruct (closer s); try done; cbn; lia].
  - apply progress; [|by rewrite (run_keeps_closed _ _ _ Hus Hu)]. eapply run_invariant; [exact step_inv|exact Hu|done].
Qed.

(** Four records in drop mode with a queue of two, then Close. *)
Definition some_record (n : Z) : EvidenceRecord := {|
  erSessionID := gostr "s1"; TripTS := n; erVerdict := VerdictExfil; erAction := ActionPrevented; erVariant := VariantA;
  erConfidence := GoTime.f64 1; erLegs := {|
    SensitiveSourceTouched := {| Lit := true; TriggerSeq := 1; Detail := []; LitAt := 5; EventsAtLit := 3 |};
    UntrustedContentPresent := {| Lit := true; TriggerSeq := 2; Detail := []; LitAt := 5; EventsAtLit := 3 |};
    ExternalSinkInvoked := {| Lit := true; TriggerSeq := 3; Detail := []; LitAt := 5; EventsAtLit := 3 |} |};
  SinkCall := []; ValueOverlap := None; erTimeline := []; erPod := None; ChainSeq := 0; PrevHash := []; erHash := [] |}.

Definition calls_of_four : list turn :=
  [CallEmit (some_record 1); CallEmit (some_record 2); CallEmit (some_record 3); WorkerReceive true; CallEmit (some_record 4); CallClose].

Definition turns_of_close : list turn :=
  [WorkerReceive false; WorkerDone; WorkerReceive true; WorkerReturn; CloserWait; CloserInner].

Definition four_then_close : list turn := calls_of_four ++ turns_of_close.

Abbreviation new_drop := (NewAsyncEvidenceSink true (gostr "drop") 2).

Definition closing : AsyncEvidenceSink := default new_drop (run calls_of_four new_drop).
Definition at_end : AsyncEvidenceSink := default new_drop (run four_then_close new_drop).

Lemma async_accounts_for_records_witness :
  run four_then_close new_drop = Some at_end /\ closer at_end = InnerClosed /\
  map TripTS (attempts at_end) = [1; 2; 4] /\ map TripTS (dropped at_end) = [3] /\ emitted at_end ≡ₚ attempts at_end ++ dropped at_end.
Proof.
  split; [vm_compute; reflexivity|]. split; [vm_compute; reflexivity|]. split; [vm_compute; reflexivity|]. split; [vm_compute; reflexivity|].
  apply (async_accounts_for_records four_then_close (gostr "drop") 2); vm_compute; reflexivity.
Defined.

Lemma async_close_terminates_witness : (length turns_of_close <= 2 * length (pending closing) + length (queue closing) + 4)%nat.
Proof.
  apply (async_close_terminates calls_of_four turns_of_close (gostr "drop") 2 closing at_end).
  - vm_compute. reflexivity.
  - vm_compute. reflexivity.
  - repeat constructor.
  - vm_compute. reflexivity.
Defined.

(** In block mode Emit is not to lose a record silently. An Emit that has unlocked before Close
    takes the lock and that runs its select after Close has drained the queue may send: its
    caller is told that all is well, and nobody is left to receive the record. *)
Definition overtaken : list turn :=
  [CallEmit (some_record 1); CallClose; WorkerDone; WorkerReturn; CloserWait; CloserInner; SendPending 0].

Example block_mode_loses_a_record :
  match run overtaken (NewAsyncEvidenceSink true [] 0) with
  | Some s => closer s = InnerClosed /\ attempts s = [] /\ map TripTS (queue s) = [1] /\ pending s = [] /\ drops s = 0
  | None => False
  end.
Proof. vm_compute. done. Qed.
