(* ===== verification/Framer.v ===== *)
(** * internal/proxy/framer.go: newline-delimited frames

    The reader over the bytes a stream delivers until its end, with bufio.Scanner as it works
    on them: a line that does not fit in the buffer with its newline is an error; the writer; and
    what the one makes of the output of the other. *)

From S2P Require Import Prelude Go GoStrings.

Definition maxFrameSize : Z := Z.shiftl 1 20.

(** ** Reading *)

(** The bytes before the first newline, and those after it. *)
Fixpoint next_line (s : bytes) : bytes * bytes :=
  match s with
  | [] => ([], [])
  | x0a :: s => ([], s)
  | c :: s => let '(line, rest) := next_line s in (c :: line, rest)
  end.

Inductive frame_error := EndOfStream | ErrTooLong.

(** [scanner.Scan] with ScanLines: the line without one carriage return, and what is left. *)
Definition Scan (s : bytes) : frame_error + bytes * bytes :=
  match s with
  | [] => inl EndOfStream
  | _ =>
      let '(line, rest) := next_line s in
      if maxFrameSize <=? len line then inl ErrTooLong else inr (TrimSuffix line [x0d], rest)
  end.

Definition blank (line : bytes) : bool := bool_decide (TrimSpace line = []).

Fixpoint read_frame (n : nat) (s : bytes) : frame_error + bytes * bytes :=
  match n with
  | O => inl EndOfStream
  | S n =>
      match Scan s with
      | inl err => inl err
      | inr (line, rest) =>
          let trimmed := TrimRight line [x0d] in
          if blank trimmed then read_frame n rest else inr (trimmed, rest)
      end
  end.

(** Every round takes a byte at least. *)
Definition ReadFrame (s : bytes) : frame_error + bytes * bytes := read_frame (S (length s)) s.

(** The loops around it: the frames until the first error. *)
Fixpoint read_frames (n : nat) (s : bytes) : list bytes * frame_error :=
  match n with
  | O => ([], EndOfStream)
  | S n =>
      match ReadFrame s with
      | inl err => ([], err)
      | inr (frame, rest) => let '(frames, err) := read_frames n rest in (frame :: frames, err)
      end
  end.

Definition ReadFrames (s : bytes) : list bytes * frame_error := read_frames (S (length s)) s.

(** ** Writing *)

(** What is written; [None] is the error of a frame that is too large. *)
Definition WriteFrame (data : bytes) : option bytes := if maxFrameSize <? len data then None else Some (data ++ [x0a]).

(** One frame after the other. *)
Fixpoint WriteFrames (frames : list bytes) : option bytes :=
  match frames with
  | [] => Some []
  | frame :: frames => s ← WriteFrame frame; t ← WriteFrames frames; Some (s ++ t)
  end.

(** ** Lines *)

Lemma next_line_app line rest : x0a ∉ line -> next_line (line ++ x0a :: rest) = (line, rest).
Proof.
  induction line as [|c line IH]; intros Hn; [done|]. apply not_elem_of_cons in Hn as [Hc Hn].
  cbn. rewrite IH by done. by destruct c.
Qed.

Lemma next_line_last line : x0a ∉ line -> next_line line = (line, []).
Proof.
  induction line as [|c line IH]; intros Hn; [done|]. apply not_elem_of_cons in Hn as [Hc Hn].
  cbn. rewrite IH by done. by destruct c.
Qed.

Lemma next_line_spec s line rest :
  next_line s = (line, rest) -> (x0a ∉ line) /\ ((s = line ++ x0a :: rest) \/ s = line /\ rest = []).
Proof.
  revert line. induction s as [|c s IH]; cbn; intros line.
  - intros [= <- <-]. split; [apply not_elem_of_nil|by right].
  - destruct (next_line s) as [l r] eqn:E. destruct (decide (c = x0a)) as [->|Hc].
    + intros [= <- <-]. split; [apply not_elem_of_nil|by left].
    + assert (match c with x0a => ([], s) | _ => (c :: l, r) end = (c :: l, r)) as -> by (by destruct c).
      intros [= <- <-]. destruct (IH l eq_refl) as [Hn Hs]. split; [by apply not_elem_of_cons|].
      destruct Hs as [->|[-> ->]]; [by left|by right].
Qed.

Lemma Scan_some s line rest :
  Scan s = inr (line, rest) -> (length rest < length s)%nat /\ exists l, line = TrimSuffix l [x0d] /\ (x0a ∉ l) /\ len l < maxFrameSize.
Proof.
  unfold Scan. destruct (decide (s = [])) as [->|Hne]; [done|].
  assert (length s ≠ 0)%nat as Hl by (by intros ?%nil_length_inv). destruct (next_line s) as [l r] eqn:E.
  destruct (next_line_spec _ _ _ E) as [Hn Hs].
  assert (length r < length s)%nat as Hr by (destruct Hs as [Hs|[Hs Hr]]; rewrite Hs; rewrite ?length_app, ?Hr; cbn; [lia|subst l; lia]).
  destruct s as [|c s']; [done|]. destruct (maxFrameSize <=? len l) eqn:Hm; [done|]. intros [= <- <-].
  split; [done|]. exists l. split_and!; [done|done|lia].
Qed.

(** Any fuel above the length of the input gives the same. *)
Lemma read_frame_enough n m s : (length s < n)%nat -> (length s < m)%nat -> read_frame n s = read_frame m s.
Proof.
  revert m s. induction n as [|n IH]; intros [|m] s Hn Hm; [lia..|]. cbn.
  destruct (Scan s) as [err|[line rest]] eqn:E; [done|]. apply Scan_some in E as [E _].
  destruct (blank _); [apply IH; lia|done].
Qed.

(** [ReadFrame] without its fuel. *)
Lemma ReadFrame_unfold s :
  ReadFrame s = match Scan s with
                | inl err => inl err
                | inr (line, rest) =>
                    if blank (TrimRight line [x0d]) then ReadFrame rest else inr (TrimRight line [x0d], rest)
                end.
Proof.
  unfold ReadFrame at 1. cbn [read_frame]. destruct (Scan s) as [err|[line rest]] eqn:E; [done|]. apply Scan_some in E as [E _].
  destruct (blank _); [apply read_frame_enough; lia|done].
Qed.

Lemma ReadFrame_shrinks s frame rest : ReadFrame s = inr (frame, rest) -> (length rest < length s)%nat.
Proof.
  revert frame rest. induction s as [s IH] using (induction_ltof1 _ length). unfold ltof in IH. intros frame rest.
  rewrite ReadFrame_unfold. destruct (Scan s) as [err|[line r]] eqn:E; [done|]. apply Scan_some in E as [E _].
  destruct (blank _); [|intros [= _ <-]; done]. intros Hr. apply IH in Hr; [lia|done].
Qed.

Lemma read_frames_enough n m s : (length s < n)%nat -> (length s < m)%nat -> read_frames n s = read_frames m s.
Proof.
  revert m s. induction n as [|n IH]; intros [|m] s Hn Hm; [lia..|]. cbn [read_frames].
  destruct (ReadFrame s) as [err|[frame rest]] eqn:E; [done|]. apply ReadFrame_shrinks in E. by rewrite (IH m) by lia.
Qed.

Lemma ReadFrames_unfold s :
  ReadFrames s = match ReadFrame s with
                 | inl err => ([], err)
                 | inr (frame, rest) => (frame :: (ReadFrames rest).1, (ReadFrames rest).2)
                 end.
Proof.
  unfold ReadFrames at 1. cbn [read_frames]. destruct (ReadFrame s) as [err|[frame rest]] eqn:E; [done|]. apply ReadFrame_shrinks in E.
  rewrite (read_frames_enough _ (S (length rest)) rest) by lia. fold (ReadFrames rest). by destruct (ReadFrames rest).
Qed.

(** ** Frames that stay whole *)

(** One line, not blank, without a carriage return at its end, that fits with its newline. *)
Record whole (frame : bytes) : Prop := {
  whole_line : x0a ∉ frame;
  whole_trimmed : TrimRight frame [x0d] = frame;
  whole_text : blank frame = false;
  whole_small : len frame < maxFrameSize }.

Lemma TrimSuffix_untrimmed frame : TrimRight frame [x0d] = frame -> TrimSuffix frame [x0d] = frame.
Proof.
  unfold TrimRight, TrimSuffix, HasSuffix. intros Ht. destruct (reverse frame) as [|c r] eqn:E; [done|].
  rewrite reverse_singleton. cbn [HasPrefix]. destruct (Byte.eqb x0d c) eqn:Ec; [|done].
  apply byte_eqb_spec in Ec as <-. exfalso. apply (f_equal reverse) in Ht. rewrite reverse_involutive, E in Ht. cbn in Ht.
  destruct (drop_while_suffix (λ c, Byte.eqb c x0d || false) r) as [t Hr].
  apply (f_equal length) in Ht, Hr. rewrite length_app in Hr. cbn in *. lia.
Qed.

Lemma drop_while_fixed p s : drop_while p (drop_while p s) = drop_while p s.
Proof. induction s as [|c s IH]; cbn; [done|]. destruct (p c) eqn:E; [done|]. by apply drop_while_id. Qed.

Lemma TrimRight_fixed s cut : TrimRight (TrimRight s cut) cut = TrimRight s cut.
Proof. unfold TrimRight. by rewrite reverse_involutive, drop_while_fixed. Qed.

Lemma TrimSuffix_prefix s suffix : exists t, s = TrimSuffix s suffix ++ t.
Proof. unfold TrimSuffix. destruct (HasSuffix s suffix); [eexists; by rewrite take_drop|exists []; by rewrite app_nil_r]. Qed.

(** What is read is whole. *)
Lemma ReadFrame_whole s frame rest : ReadFrame s = inr (frame, rest) -> whole frame.
Proof.
  revert frame rest. induction s as [s IH] using (induction_ltof1 _ length). unfold ltof in IH. intros frame rest.
  rewrite ReadFrame_unfold. destruct (Scan s) as [err|[line r]] eqn:E; [done|].
  destruct (blank (TrimRight line [x0d])) eqn:Eb; [apply IH; by apply Scan_some in E as [? _]|]. intros [= <- _].
  destruct (Scan_some _ _ _ E) as (_ & l & -> & Hn & Hl).
  destruct (TrimRight_prefix (TrimSuffix l [x0d]) [x0d]) as [t Ht]. destruct (TrimSuffix_prefix l [x0d]) as [u Hu].
  assert (l = TrimRight (TrimSuffix l [x0d]) [x0d] ++ t ++ u) as Hall by (rewrite app_assoc, <- Ht; exact Hu).
  constructor; [|apply TrimRight_fixed|done|].
  - intros Hin. apply Hn. rewrite Hall. by apply elem_of_app; left.
  - apply (f_equal len) in Hall. unfold len in *. rewrite length_app in Hall. lia.
Qed.

Lemma ReadFrames_whole s : Forall whole (ReadFrames s).1.
Proof.
  induction s as [s IH] using (induction_ltof1 _ length). unfold ltof in IH. rewrite ReadFrames_unfold.
  destruct (ReadFrame s) as [err|[frame rest]] eqn:E; [constructor|]. constructor; [by eapply ReadFrame_whole|].
  apply IH. by eapply ReadFrame_shrinks.
Qed.

(** What is whole is read as it was written. *)
Lemma ReadFrame_written frame rest : whole frame -> ReadFrame (frame ++ x0a :: rest) = inr (frame, rest).
Proof.
  intros [Hn Ht Hb Hl]. rewrite ReadFrame_unfold. unfold Scan. rewrite next_line_app by done.
  destruct (frame ++ x0a :: rest) as [|c s] eqn:E; [by destruct frame|].
  rewrite (proj2 (Z.leb_gt _ _)) by done. by rewrite TrimSuffix_untrimmed, Ht, Hb by done.
Qed.

Lemma write_whole frames :
  Forall whole frames -> exists s, WriteFrames frames = Some s /\ ReadFrames s = (frames, EndOfStream).
Proof.
  induction 1 as [|frame frames Hf _ (s & Hs & Hr)]; [by exists []|]. exists (frame ++ x0a :: s). split.
  - pose proof (whole_small _ Hf). cbn. unfold WriteFrame. replace (maxFrameSize <? len frame) with false by lia.
    rewrite Hs. cbn. by rewrite <- app_assoc.
  - rewrite ReadFrames_unfold, ReadFrame_written by done. by rewrite Hr.
Qed.

(** ** Properties *)

(** Frames that were read from a stream pass on unharmed: written one after the other, to a server or to an agent,
    none is refused as too large, and the reader at the other end finds exactly these frames and then the end. *)
Theorem read_frames_pass_on (input : bytes) :
  exists output, WriteFrames (ReadFrames input).1 = Some output /\ ReadFrames output = ((ReadFrames input).1, EndOfStream).
Proof. apply write_whole, ReadFrames_whole. Qed.

(** A frame is read as the one frame it was written as, exactly when it is whole. *)
Theorem written_frame_stays_whole (frame output : bytes) :
  WriteFrame frame = Some output -> ReadFrames output = ([frame], EndOfStream) <-> whole frame.
Proof.
  intros Hw. split.
  - intros Hr. pose proof (ReadFrames_whole output) as H. rewrite Hr in H. by inversion H.
  - intros Hf. destruct (write_whole [frame]) as (s & Hs & Hr); [by constructor|].
    cbn in Hs. rewrite Hw in Hs. cbn in Hs. injection Hs as <-. by rewrite app_nil_r in Hr.
Qed.

(** The largest frame that is written is one the reader refuses. *)
Lemma largest_frame_refused frame : len frame = maxFrameSize -> x0a ∉ frame ->
  exists output, WriteFrame frame = Some output /\ ReadFrames output = ([], ErrTooLong).
Proof.
  intros Hl Hn. exists (frame ++ [x0a]). split; [unfold WriteFrame; by replace (maxFrameSize <? len frame) with false by lia|].
  rewrite ReadFrames_unfold, ReadFrame_unfold. unfold Scan. rewrite next_line_app by done.
  destruct (frame ++ [x0a]) eqn:E; [by destruct frame|]. by replace (maxFrameSize <=? len frame) with true by lia.
Qed.

Example frames_ex : ReadFrames (gostr "{}" ++ [x0d; x0a; x0a; x20; x0d; x0a] ++ gostr "[]") = ([gostr "{}"; gostr "[]"], EndOfStream).
Proof. vm_compute. reflexivity. Qed.
