(* ===== verification/Rpc.v ===== *)
(** * JSON-RPC messages: internal/model/model.go and the texts of internal/proxy/dispatch.go

    The envelope of a frame and the parameters of a tools/call, decoded as encoding/json
    decodes into their structs: members in order, names matched up to case, the last one
    staying; raw messages as they stand in the frame. The rewriting of the arguments of a
    frame and the error responses. *)

From S2P Require Import Prelude Go GoStrings Encodings Json Model Match.

(** ** Members with their raw texts *)

(** The members after the opening brace: each key with the text of its value. *)
Fixpoint raw_members (n d : nat) (s : bytes) : option (list (bytes * (json * bytes))) :=
  match n with
  | O => None
  | S n =>
      match skip_ws s with
      | x22 :: s =>
          '(k, r) ← p_string s;
          match skip_ws r with
          | x3a :: r =>
              let value := skip_ws r in
              '(v, r) ← p_value n d value;
              let raw := take (length value - length r) value in
              match skip_ws r with
              | x2c :: r => l ← raw_members n d r; Some ((k, (v, raw)) :: l)
              | x7d :: _ => Some [(k, (v, raw))]
              | _ => None
              end
          | _ => None
          end
      | _ => None
      end
  end.

(** What a text is, to a decoder into a struct or a map. *)
Inductive top := TopNull | TopObject (members : list (bytes * (json * bytes))) | TopOther.

Definition raw_top (raw : bytes) : option top :=
  v ← parse raw;
  match v with
  | JNull => Some TopNull
  | JObj [] => Some (TopObject [])
  | JObj _ =>
      match skip_ws raw with
      | _ :: s => l ← raw_members (2 * length raw + 2) (pred maxNestingDepth) s; Some (TopObject l)
      | [] => None
      end
  | _ => Some TopOther
  end.

(** The name of a member up to folding: ASCII letters, and the long s, which folds to s. *)
Fixpoint fold_name (k : bytes) : bytes :=
  match k with
  | xc5 :: xbf :: k => x73 :: fold_name k
  | c :: k => Z_byte (ascii_lower (byte_Z c)) :: fold_name k
  | [] => []
  end.

Definition names_field (name : string) (k : bytes) : bool := bool_decide (fold_name k = gostr name).
Arguments names_field name%_string k.

(** A string field: null leaves it, another kind of value is an error of the whole decoding. *)
Definition string_field (v : json) (old : bytes) : option bytes :=
  match v with JStr s => Some s | JNull => Some old | _ => None end.

(** ** The envelope *)

Record JSONRPCMessage := {
  JSONRPC : bytes; msgID : bytes; Method : bytes; Params : bytes; msgResult : bytes; msgError : bytes
}.

Definition no_message : JSONRPCMessage :=
  {| JSONRPC := []; msgID := []; Method := []; Params := []; msgResult := []; msgError := [] |}.

Definition set_member (m : JSONRPCMessage) (member : bytes * (json * bytes)) : option JSONRPCMessage :=
  let '(k, (v, raw)) := member in
  if names_field "jsonrpc" k then
    s ← string_field v (JSONRPC m);
    Some {| JSONRPC := s; msgID := msgID m; Method := Method m; Params := Params m; msgResult := msgResult m; msgError := msgError m |}
  else if names_field "id" k then
    Some {| JSONRPC := JSONRPC m; msgID := raw; Method := Method m; Params := Params m; msgResult := msgResult m; msgError := msgError m |}
  else if names_field "method" k then
    s ← string_field v (Method m);
    Some {| JSONRPC := JSONRPC m; msgID := msgID m; Method := s; Params := Params m; msgResult := msgResult m; msgError := msgError m |}
  else if names_field "params" k then
    Some {| JSONRPC := JSONRPC m; msgID := msgID m; Method := Method m; Params := raw; msgResult := msgResult m; msgError := msgError m |}
  else if names_field "result" k then
    Some {| JSONRPC := JSONRPC m; msgID := msgID m; Method := Method m; Params := Params m; msgResult := raw; msgError := msgError m |}
  else if names_field "error" k then
    Some {| JSONRPC := JSONRPC m; msgID := msgID m; Method := Method m; Params := Params m; msgResult := msgResult m; msgError := raw |}
  else Some m.

Fixpoint set_members (m : JSONRPCMessage) (members : list (bytes * (json * bytes))) : option JSONRPCMessage :=
  match members with [] => Some m | x :: members => m ← set_member m x; set_members m members end.

(** [json.Unmarshal(frame, &msg)] *)
Definition decode_message (frame : bytes) : option JSONRPCMessage :=
  t ← raw_top frame;
  match t with
  | TopNull => Some no_message
  | TopObject members => set_members no_message members
  | TopOther => None
  end.

Definition IsNotification (m : JSONRPCMessage) : bool :=
  negb (bool_decide (Method m = [])) && bool_decide (msgID m = []).

Definition IsResponse (m : JSONRPCMessage) : bool := bool_decide (Method m = []).

(** ** tools/call *)

Record ToolCallParams := { Name : bytes; Arguments : bytes }.

Definition set_param (tc : ToolCallParams) (member : bytes * (json * bytes)) : option ToolCallParams :=
  let '(k, (v, raw)) := member in
  if names_field "name" k then s ← string_field v (Name tc); Some {| Name := s; Arguments := Arguments tc |}
  else if names_field "arguments" k then Some {| Name := Name tc; Arguments := raw |}
  else Some tc.

Fixpoint set_params (tc : ToolCallParams) (members : list (bytes * (json * bytes))) : option ToolCallParams :=
  match members with [] => Some tc | x :: members => tc ← set_param tc x; set_params tc members end.

(** [None] is the error. *)
Definition ParseToolCallParams (params : bytes) : option ToolCallParams :=
  match params with
  | [] => Some {| Name := []; Arguments := [] |}
  | _ =>
      t ← raw_top params;
      match t with
      | TopNull => Some {| Name := []; Arguments := [] |}
      | TopObject members => set_params {| Name := []; Arguments := [] |} members
      | TopOther => None
      end
  end.

(** ** Texts *)

(** [m[k] = v], the keys kept in the order Marshal writes them. *)
Fixpoint set_key (k v : bytes) (l : list (bytes * bytes)) : list (bytes * bytes) :=
  match l with
  | [] => [(k, v)]
  | (k', v') :: l' =>
      if bytes_lt k k' then (k, v) :: l
      else if bytes_lt k' k then (k', v') :: set_key k v l'
      else (k, v) :: l'
  end.

(** Decoding into [map[string]json.RawMessage]: the last of two members with one key stays. A
    null gives the nil map, here [None]; the outer [None] is an error. *)
Definition decode_raw_map (raw : bytes) : option (option (list (bytes * bytes))) :=
  t ← raw_top raw;
  match t with
  | TopNull => Some None
  | TopObject members => Some (Some (foldl (λ l x, set_key x.1 x.2.2 l) [] members))
  | TopOther => None
  end.

Definition lookup_key (k : bytes) (l : list (bytes * bytes)) : option bytes :=
  snd <$> find (λ x, bool_decide (x.1 = k)) l.

Definition raw_map_text (l : list (bytes * bytes)) : option bytes :=
  fields ← mapM (λ x, t ← raw_text x.2; Some (quote x.1 ++ x3a :: t)) l;
  Some (object fields).

(** Writing to the nil map panics. *)
Definition replaceToolCallArguments (frame args : bytes) : go bytes :=
  match decode_raw_map frame with
  | None => Err (Errorf "json.Unmarshal" [])
  | Some root =>
      match root ≫= lookup_key (gostr "params") with
      | None => Err (Errorf "tools/call frame missing params" [])
      | Some paramsRaw =>
          match decode_raw_map paramsRaw with
          | None => Err (Errorf "json.Unmarshal" [])
          | Some None => Panic
          | Some (Some params) =>
              match raw_map_text (set_key (gostr "arguments") args params) with
              | None => Err (Errorf "json.Marshal" [])
              | Some newParams =>
                  match raw_map_text (set_key (gostr "params") newParams (default [] root)) with
                  | None => Err (Errorf "json.Marshal" [])
                  | Some text => Ret text
                  end
              end
          end
      end
  end.

Definition rpc_version : bytes := field "jsonrpc" (quote (gostr "2.0")).

(** A marshalling error leaves no bytes. *)
Definition response_text (before : list bytes) (id : bytes) (after : list bytes) : bytes :=
  match raw_text id with
  | Some id => object (before ++ [field "id" id] ++ after)
  | None => []
  end.

Definition buildErrorResponse (id : bytes) (code : Z) (message : bytes) : bytes :=
  response_text [field "error" (object [field "code" (Itoa code); field "message" (quote message)])] id [rpc_version].

(** ** Examples *)

Definition rpc (s : string) : bytes := List.map (λ c, if Byte.eqb c x27 then x22 else c) (gostr s).
Arguments rpc s%_string.

Example message_ex :
  decode_message (rpc " {'id' : [1, 2] ,'METHOD':'ping', 'id': 'a\u0062' ,'params':{ }}") =
  Some {| JSONRPC := []; msgID := rpc "'a\u0062'"; Method := gostr "ping"; Params := gostr "{ }"; msgResult := []; msgError := [] |}.
Proof. vm_compute. reflexivity. Qed.

Example message_bad : decode_message (rpc "{'method':1}") = None /\ decode_message (gostr "[]") = None /\
  decode_message (gostr "null") = Some no_message.
Proof. vm_compute. done. Qed.

Example rewrite_ex :
  replaceToolCallArguments (rpc "{'params':{'name':'t', 'arguments':{'k':1}},'id':1}") (rpc "{'k': 2}") =
  Ret (rpc "{'id':1,'params':{'arguments':{'k':2},'name':'t'}}").
Proof. vm_compute. reflexivity. Qed.

Example rewrite_nil_map : replaceToolCallArguments (rpc "{'params':null,'Params':{}}") (gostr "1") = Panic.
Proof. vm_compute. reflexivity. Qed.

Example error_ex :
  buildErrorResponse (gostr "7") (-32601) (gostr "method not found: x") =
  rpc "{'error':{'code':-32601,'message':'method not found: x'},'id':7,'jsonrpc':'2.0'}".
Proof. vm_compute. reflexivity. Qed.
