(* ===== verification/Bridge.v ===== *)
(** * internal/bridge: taint from the proxies of a node to its sensor

    A proxy writes one line of JSON for each tainted value its engine forwards; the server of the
    sensor reads the lines of a connection, checks them and hands them to the handlers of
    cmd/interlock. A connection is the bytes it delivers until it ends or its deadline passes;
    dialling and the reading of the peer's credentials are system calls. *)

From S2P Require Import Prelude Go GoStrings Encodings Json Model Engine Rpc Attribution Deploy.

Definition OpRegisterTaint : bytes := gostr "register_taint".
Definition OpRegisterUntrusted : bytes := gostr "register_untrusted".
Definition maxValueBytes : Z := 64 * 1024.
Definition minValueBytes : Z := 8.
Definition maxSourceBytes : Z := 4 * 1024.

(** ** Peers *)

Record AuthPolicy := { AllowedUIDs : list Z; AllowedGIDs : list Z }.

Definition Active (p : AuthPolicy) : bool :=
  negb (bool_decide (AllowedUIDs p = [])) || negb (bool_decide (AllowedGIDs p = [])).

(** The entries are ints, converted to uint32 for the comparison. *)
Definition listed (l : list Z) (id : Z) : bool :=
  bool_decide (l = []) || existsb (λ u, (0 <=? u) && (u32 u =? id)) l.

Definition Allow (p : AuthPolicy) (uid gid : Z) : bool :=
  if negb (Active p) then true else listed (AllowedUIDs p) uid && listed (AllowedGIDs p) gid.

(** Whether Serve handles a connection; [creds] is what peerCreds returned. *)
Definition admits (p : AuthPolicy) (creds : option (Z * Z)) : bool :=
  if Active p then match creds with Some (uid, gid) => Allow p uid gid | None => false end else true.

(** ** Messages *)

Record VariantWire := MkVariant { vwForm : bytes; vwValue : bytes }.

Record RegisterTaintMsg := MkTaint {
  rtOp : bytes; rtPodUID : bytes; rtSource : bytes; rtSeq : Z; rtHash : bytes; rtPreview : bytes; rtValue : bytes;
  rtVariants : list VariantWire }.

Record RegisterUntrustedMsg := MkUntrusted { ruOp : bytes; ruPodUID : bytes; ruSource : bytes; ruSeq : Z }.

(** *** Their texts *)

Definition variant_text (v : VariantWire) : bytes :=
  object [field "form" (quote (vwForm v)); field "value" (quote (vwValue v))].

(** A nil slice is null. *)
Definition variants_text (l : list VariantWire) : bytes :=
  match l with [] => gostr "null" | _ => x5b :: Join (map variant_text l) [x2c] ++ [x5d] end.

Definition taint_text (m : RegisterTaintMsg) : bytes :=
  object [field "op" (quote (rtOp m)); field "pod_uid" (quote (rtPodUID m)); field "source" (quote (rtSource m));
          field "seq" (Itoa (rtSeq m)); field "hash" (quote (rtHash m)); field "preview" (quote (rtPreview m));
          field "value" (quote (rtValue m)); field "variants" (variants_text (rtVariants m))].

Definition untrusted_text (m : RegisterUntrustedMsg) : bytes :=
  object [field "op" (quote (ruOp m)); field "pod_uid" (quote (ruPodUID m)); field "source" (quote (ruSource m));
          field "seq" (Itoa (ruSeq m))].

(** *** Decoding them *)

Definition uint_field (v : json) (old : Z) : option Z :=
  match v with JNum lit => ParseUint lit | JNull => Some old | _ => None end.

(** Members into a struct, one after the other; null leaves the struct as it is. *)
Fixpoint decode_members {A} (set : A -> bytes * json -> option A) (members : list (bytes * json)) (old : A) : option A :=
  match members with [] => Some old | x :: members => a ← set old x; decode_members set members a end.

Definition decode_struct {A} (set : A -> bytes * json -> option A) (v : json) (old : A) : option A :=
  match v with JNull => Some old | JObj members => decode_members set members old | _ => None end.

Definition set_variant (w : VariantWire) (kv : bytes * json) : option VariantWire :=
  let '(MkVariant form value) := w in
  let '(k, v) := kv in
  if names_field "form" k then s ← string_field v form; Some (MkVariant s value)
  else if names_field "value" k then s ← string_field v value; Some (MkVariant form s)
  else Some w.

Definition no_variant : VariantWire := MkVariant [] [].

(** Decoding into a slice reuses its memory: an element starts from what was there. Returned are
    the elements and what the memory holds behind them. *)
Fixpoint decode_items (memory : list VariantWire) (items : list json) : option (list VariantWire * list VariantWire) :=
  match items with
  | [] => Some ([], memory)
  | x :: items =>
      v ← decode_struct set_variant x (default no_variant (head memory));
      '(l, behind) ← decode_items (tail memory) items; Some (v :: l, behind)
  end.

Definition decode_variants (v : json) (old : list VariantWire * list VariantWire)
    : option (list VariantWire * list VariantWire) :=
  match v with
  | JNull | JArr [] => Some ([], [])
  | JArr items => decode_items (old.1 ++ old.2) items
  | _ => None
  end.

Definition set_taint (st : RegisterTaintMsg * list VariantWire) (kv : bytes * json) : option (RegisterTaintMsg * list VariantWire) :=
  let '(MkTaint op uid source seq hash preview value variants, behind) := st in
  let '(k, v) := kv in
  if names_field "op" k then s ← string_field v op; Some (MkTaint s uid source seq hash preview value variants, behind)
  else if names_field "pod_uid" k then s ← string_field v uid; Some (MkTaint op s source seq hash preview value variants, behind)
  else if names_field "source" k then s ← string_field v source; Some (MkTaint op uid s seq hash preview value variants, behind)
  else if names_field "seq" k then n ← uint_field v seq; Some (MkTaint op uid source n hash preview value variants, behind)
  else if names_field "hash" k then s ← string_field v hash; Some (MkTaint op uid source seq s preview value variants, behind)
  else if names_field "preview" k then s ← string_field v preview; Some (MkTaint op uid source seq hash s value variants, behind)
  else if names_field "value" k then s ← string_field v value; Some (MkTaint op uid source seq hash preview s variants, behind)
  else if names_field "variants" k then
    '(l, behind) ← decode_variants v (variants, behind); Some (MkTaint op uid source seq hash preview value l, behind)
  else Some st.

Definition set_untrusted (m : RegisterUntrustedMsg) (kv : bytes * json) : option RegisterUntrustedMsg :=
  let '(MkUntrusted op uid source seq) := m in
  let '(k, v) := kv in
  if names_field "op" k then s ← string_field v op; Some (MkUntrusted s uid source seq)
  else if names_field "pod_uid" k then s ← string_field v uid; Some (MkUntrusted op s source seq)
  else if names_field "source" k then s ← string_field v source; Some (MkUntrusted op uid s seq)
  else if names_field "seq" k then n ← uint_field v seq; Some (MkUntrusted op uid source n)
  else Some m.

(** [opEnvelope] *)
Definition set_op (op : bytes) (kv : bytes * json) : option bytes :=
  if names_field "op" kv.1 then string_field kv.2 op else Some op.

Definition decode_op (line : bytes) : option bytes := v ← parse line; decode_struct set_op v [].

Definition decode_taint (line : bytes) : option RegisterTaintMsg :=
  v ← parse line; st ← decode_struct set_taint v (MkTaint [] [] [] 0 [] [] [] [], []); Some st.1.

Definition decode_untrusted (line : bytes) : option RegisterUntrustedMsg :=
  v ← parse line; decode_struct set_untrusted v (MkUntrusted [] [] [] 0).

(** ** The server *)

Definition parseRegisterLine (line : bytes) : go RegisterTaintMsg :=
  match decode_taint line with
  | None => Err (Errorf "json" [])
  | Some (MkTaint op uid source seq hash preview value variants) =>
      let uid := TrimSpace uid in
      if negb (bool_decide (op = OpRegisterTaint)) then Err (Errorf "unknown op" [])
      else if bool_decide (uid = []) then Err (Errorf "empty pod_uid" [])
      else if bool_decide (value = []) || bool_decide (hash = []) then Err (Errorf "missing value or hash" [])
      else if len value <? minValueBytes then Err (Errorf "value too short" [])
      else if maxValueBytes <? len value then Err (Errorf "value too large" [])
      else if negb (bool_decide (hash = HashValue value)) then Err (Errorf "hash does not match value" [])
      else Ret (MkTaint op uid source seq hash preview value variants)
  end.

Definition parseRegisterUntrustedLine (line : bytes) : go RegisterUntrustedMsg :=
  match decode_untrusted line with
  | None => Err (Errorf "json" [])
  | Some (MkUntrusted op uid source seq) =>
      let uid := TrimSpace uid in
      if negb (bool_decide (op = OpRegisterUntrusted)) then Err (Errorf "unknown op" [])
      else if bool_decide (uid = []) then Err (Errorf "empty pod_uid" [])
      else if maxSourceBytes <? len source then Err (Errorf "source too large" [])
      else Ret (MkUntrusted op uid source seq)
  end.

Inductive delivery := DeliverTaint (msg : RegisterTaintMsg) | DeliverUntrusted (msg : RegisterUntrustedMsg).

Definition trimNL (b : bytes) : bytes := TrimRight b [x0a; x0d].

(** One line; both handlers are set, as in cmd/interlock. *)
Definition handle_line (line : bytes) : option delivery :=
  match trimNL line with
  | [] => None
  | line =>
      op ← decode_op line;
      if bool_decide (op = OpRegisterTaint) then
        match parseRegisterLine line with Ret msg => Some (DeliverTaint msg) | _ => None end
      else if bool_decide (op = OpRegisterUntrusted) then
        match parseRegisterUntrustedLine line with Ret msg => Some (DeliverUntrusted msg) | _ => None end
      else None
  end.

(** The lines of a connection with their newlines; what follows the last newline is dropped. *)
Fixpoint read_lines (s : bytes) : list bytes :=
  match s with
  | [] => []
  | x0a :: s => [x0a] :: read_lines s
  | c :: s => match read_lines s with l :: ls => (c :: l) :: ls | [] => [] end
  end.

Definition handleConn (stream : bytes) : list delivery := omap handle_line (read_lines stream).

Definition ToTaintedValue (msg : RegisterTaintMsg) : TaintedValue := {|
  Value := rtValue msg;
  Variants := map (λ v, {| Form := vwForm v; vValue := vwValue v |})
                (List.filter (λ v, negb (bool_decide (vwValue v = []))) (rtVariants msg));
  Chunks := []; Hash := rtHash msg; Preview := rtPreview msg; Source := rtSource msg; tvSeq := rtSeq msg; RegisteredAt := 0 |}.

(** ** The client: the line that is written; [None] is an error *)

Definition Register (podUID : bytes) (tv : TaintedValue) : option bytes :=
  match TrimSpace podUID with
  | [] => None
  | uid =>
      if bool_decide (Value tv = []) || bool_decide (Hash tv = []) then None
      else Some (taint_text {| rtOp := OpRegisterTaint; rtPodUID := uid; rtSource := Source tv; rtSeq := tvSeq tv;
                               rtHash := Hash tv; rtPreview := Preview tv; rtValue := Value tv;
                               rtVariants := map (λ v, MkVariant (Form v) (vValue v)) (Variants tv) |} ++ [x0a])
  end.

Definition RegisterUntrusted (podUID source : bytes) (seq : Z) : option bytes :=
  match TrimSpace podUID with
  | [] => None
  | uid => Some (untrusted_text {| ruOp := OpRegisterUntrusted; ruPodUID := uid; ruSource := source; ruSeq := seq |} ++ [x0a])
  end.

(** ** cmd/interlock: the forwarders of the proxy and the handlers of the sensor *)

(** What the engine forwards, written to the connection; an error is logged. *)
Definition forwarder (podUID : bytes) (o : output) : bytes :=
  match o with
  | ForwardTaint tvs => concat (map (λ tv, default [] (Register podUID tv)) tvs)
  | ForwardUntrusted source seq => default [] (RegisterUntrusted podUID source seq)
  | _ => []
  end.

Definition handler (d : delivery) : activity :=
  match d with
  | DeliverTaint msg => BridgeTaint (rtPodUID msg) (ToTaintedValue msg)
  | DeliverUntrusted msg => BridgeUntrusted (ruPodUID msg) (ruSource msg) (ruSeq msg)
  end.
