(* ===== verification/BridgeTheorems.v ===== *)
(** * Theorems about the taint bridge

    What a proxy forwards is what the handlers of the sensor get, value for value, and the
    session of the pod holds it afterwards. *)

From S2P Require Import Prelude Go GoTime Config GoStrings Encodings Json NetIP CLayout Vmlinux Kernel Probes KernelAbi ProbeFacts.
From S2P Require Import Model Store Tagger Egress EgressTheorems Regex Taint TaintTheorems Overlap OverlapTheorems Container.
From S2P Require Import Match Carried Engine EngineFacts Demo EngineRuns EngineInvariants EngineTheorems ExfilKernel.
From S2P Require Import Loader LoaderMaps LoaderTheorems ProbeSpec KernelTheorems Breaker Sensor SensorTheorems FailClosedTheorems.
From S2P Require Import Attribution Deploy.
From S2P Require Import EncodingFacts JsonFacts Rpc DeployTheorems Bridge.

(** ** Lines *)

Lemma read_line line rest : x0a ∉ line -> read_lines (line ++ x0a :: rest) = (line ++ [x0a]) :: read_lines rest.
Proof.
  induction line as [|c line IH]; intros Hn; [done|]. apply not_elem_of_cons in Hn as [Hc Hn].
  cbn. rewrite IH by done. by destruct c.
Qed.

Lemma handleConn_line line rest :
  x0a ∉ line -> handleConn (line ++ x0a :: rest) = option_list (handle_line (line ++ [x0a])) ++ handleConn rest.
Proof. intros Hn. unfold handleConn. rewrite read_line by done. cbn. by destruct (handle_line _). Qed.

(** A line that ends in a brace loses just its newline. *)
Lemma trimNL_object l : trimNL (object l ++ [x0a]) = object l.
Proof.
  unfold trimNL, TrimRight, object. rewrite app_comm_cons. set (t := x7b :: Join l [x2c]).
  assert (reverse ((t ++ [x7d]) ++ [x0a]) = x0a :: x7d :: reverse t) as -> by (by rewrite !reverse_snoc).
  cbn -[reverse]. by rewrite reverse_cons, reverse_involutive.
Qed.

(** ** The texts read back *)

Definition variant_utf8 (v : VariantWire) : Prop := utf8 (vwForm v) /\ utf8 (vwValue v).

(** A field of a struct with its text and its value. *)
Definition str_field (name : string) (s : bytes) : bytes * (bytes * json) := (gostr name, (quote s, JStr s)).
Definition num_field (name : string) (z : Z) : bytes * (bytes * json) := (gostr name, (Itoa z, JNum (Itoa z))).
Arguments str_field name%_string s.
Arguments num_field name%_string z.

Lemma str_field_reads d name s : forallb graphic (gostr name) = true -> utf8 s -> member_reads d (str_field name s).
Proof. split; [by apply utf8_graphic|by apply reads_quote]. Qed.

Lemma num_field_reads d name z : forallb graphic (gostr name) = true -> 0 <= z -> member_reads d (num_field name z).
Proof. split; [by apply utf8_graphic|by apply reads_Itoa]. Qed.

Definition variant_json (v : VariantWire) : json := JObj [(gostr "form", JStr (vwForm v)); (gostr "value", JStr (vwValue v))].

Lemma variant_reads d v : variant_utf8 v -> reads (S d) (variant_text v) (variant_json v).
Proof.
  intros [Hf Hv]. change (reads (S d) (object (map member_text [str_field "form" (vwForm v); str_field "value" (vwValue v)]))
    (JObj (map (λ f, (f.1, f.2.2)) [str_field "form" (vwForm v); str_field "value" (vwValue v)]))).
  apply reads_object; [done|]. repeat apply Forall_cons_2; [by apply str_field_reads..|apply Forall_nil_2].
Qed.

Definition variants_json (l : list VariantWire) : json := match l with [] => JNull | _ => JArr (map variant_json l) end.

Lemma variants_reads d l : Forall variant_utf8 l -> reads (S (S d)) (variants_text l) (variants_json l).
Proof.
  intros Hl. destruct l as [|v l]; [apply reads_null|]. unfold variants_text, variants_json.
  pose proof (reads_array (S d) (map (λ v, (variant_text v, variant_json v)) (v :: l))) as H. rewrite !map_map in H.
  apply H; [done|]. apply Forall_fmap. eapply Forall_impl; [exact Hl|]. intros w. apply variant_reads.
Qed.

Record taint_utf8 (m : RegisterTaintMsg) : Prop := {
  tu_op : utf8 (rtOp m); tu_uid : utf8 (rtPodUID m); tu_source : utf8 (rtSource m); tu_hash : utf8 (rtHash m);
  tu_preview : utf8 (rtPreview m); tu_value : utf8 (rtValue m); tu_variants : Forall variant_utf8 (rtVariants m);
  tu_seq : 0 <= rtSeq m < 2 ^ 64 }.

Definition taint_fields (m : RegisterTaintMsg) : list (bytes * (bytes * json)) :=
  [str_field "op" (rtOp m); str_field "pod_uid" (rtPodUID m); str_field "source" (rtSource m); num_field "seq" (rtSeq m);
   str_field "hash" (rtHash m); str_field "preview" (rtPreview m); str_field "value" (rtValue m);
   (gostr "variants", (variants_text (rtVariants m), variants_json (rtVariants m)))].

Definition untrusted_fields (m : RegisterUntrustedMsg) : list (bytes * (bytes * json)) :=
  [str_field "op" (ruOp m); str_field "pod_uid" (ruPodUID m); str_field "source" (ruSource m); num_field "seq" (ruSeq m)].

Lemma parse_fields (l : list (bytes * (bytes * json))) :
  l ≠ [] -> Forall (member_reads 2) l ->
  parse (object (map member_text l)) = Some (JObj (map (λ f, (f.1, f.2.2)) l)).
Proof.
  intros Hne Hl. apply reads_parse, (reads_weaken 3); [unfold maxNestingDepth; lia|]. by apply reads_object.
Qed.

Ltac fields_read :=
  repeat (apply Forall_cons_2; [first [by apply str_field_reads | by apply num_field_reads | idtac]|]); try apply Forall_nil_2.

Lemma taint_parses m : taint_utf8 m -> parse (taint_text m) = Some (JObj (map (λ f, (f.1, f.2.2)) (taint_fields m))).
Proof.
  intros [? ? ? ? ? ? ? [? ?]]. apply (parse_fields (taint_fields m)); [done|].
  fields_read. split; [by apply utf8_graphic|by apply variants_reads].
Qed.

Lemma untrusted_parses m :
  utf8 (ruOp m) -> utf8 (ruPodUID m) -> utf8 (ruSource m) -> 0 <= ruSeq m ->
  parse (untrusted_text m) = Some (JObj (map (λ f, (f.1, f.2.2)) (untrusted_fields m))).
Proof.
  intros. apply (parse_fields (untrusted_fields m)); [done|].
  fields_read.
Qed.

(** ** Decoding what was written *)

(** Decides which field the member of a concrete name sets. *)
Ltac which_field := repeat match goal with
  | |- context [names_field ?n ?k] => let b := eval vm_compute in (names_field n k) in change (names_field n k) with b; cbn iota
  end.

Ltac decode_fields :=
  unfold decode_struct, str_field, num_field; cbn [map fst snd];
  repeat progress (cbn [decode_members mbind option_bind set_taint set_untrusted set_op set_variant no_variant string_field uint_field fst snd];
                   which_field).

Lemma decode_variant_json v : decode_struct set_variant (variant_json v) no_variant = Some v.
Proof. unfold variant_json. decode_fields. by destruct v. Qed.

Lemma decode_variants_json l : decode_variants (variants_json l) ([], []) = Some (l, []).
Proof.
  assert (forall l, decode_items [] (map variant_json l) = Some (l, [])) as H.
  { clear. intros l. induction l as [|w l IH]; [done|]. cbn [map decode_items head tail default].
    by rewrite decode_variant_json, IH. }
  destruct l as [|v l]; [done|]. apply (H (v :: l)).
Qed.

Lemma decode_taint_text m : taint_utf8 m -> decode_taint (taint_text m) = Some m.
Proof.
  intros Hm. unfold decode_taint. rewrite (taint_parses m Hm). unfold taint_fields. decode_fields.
  rewrite ParseUint_Itoa by apply (tu_seq m Hm). decode_fields. rewrite decode_variants_json. by destruct m.
Qed.

Lemma decode_taint_op m : taint_utf8 m -> decode_op (taint_text m) = Some (rtOp m).
Proof. intros Hm. unfold decode_op. rewrite (taint_parses m Hm). unfold taint_fields. by decode_fields. Qed.

Record untrusted_utf8 (m : RegisterUntrustedMsg) : Prop := {
  uu_op : utf8 (ruOp m); uu_uid : utf8 (ruPodUID m); uu_source : utf8 (ruSource m); uu_seq : 0 <= ruSeq m < 2 ^ 64 }.

Lemma decode_untrusted_text m : untrusted_utf8 m -> decode_untrusted (untrusted_text m) = Some m.
Proof.
  intros [? ? ? Hseq]. unfold decode_untrusted. rewrite (untrusted_parses m) by (done || lia). unfold untrusted_fields.
  decode_fields. rewrite ParseUint_Itoa by done. by destruct m.
Qed.

Lemma decode_untrusted_op m : untrusted_utf8 m -> decode_op (untrusted_text m) = Some (ruOp m).
Proof.
  intros [? ? ? Hseq]. unfold decode_op. rewrite (untrusted_parses m) by (done || lia). unfold untrusted_fields. by decode_fields.
Qed.

Lemma quoted_line name s : forallb graphic (gostr name) = true -> utf8 s -> x0a ∉ field name (quote s).
Proof.
  intros Hn Hs [Hin|[?|Hin]%elem_of_cons]%elem_of_app; [|done|].
  - revert Hin. apply quote_no_newline. by apply utf8_graphic.
  - revert Hin. by apply quote_no_newline.
Qed.

Lemma number_line name z : forallb graphic (gostr name) = true -> 0 <= z -> x0a ∉ field name (Itoa z).
Proof.
  intros Hn Hz [Hin|[?|Hin]%elem_of_cons]%elem_of_app; [|done|].
  - revert Hin. apply quote_no_newline. by apply utf8_graphic.
  - revert Hin. by apply Itoa_no_newline.
Qed.

Lemma variants_line l : Forall variant_utf8 l -> x0a ∉ field "variants" (variants_text l).
Proof.
  intros Hl [Hin|[?|Hin]%elem_of_cons]%elem_of_app; [|done|].
  - revert Hin. apply quote_no_newline. by apply utf8_graphic.
  - destruct l as [|v l]; [apply list_elem_of_In in Hin; vm_compute in Hin; intuition discriminate|].
    apply elem_of_cons in Hin as [?|[Hin|?%list_elem_of_singleton]%elem_of_app]; [done| |done].
    revert Hin. apply Join_no_newline, Forall_fmap. eapply Forall_impl; [exact Hl|]. intros w [? ?].
    apply object_no_newline. repeat apply Forall_cons_2; [by apply quoted_line..|apply Forall_nil_2].
Qed.

Lemma taint_text_line m : taint_utf8 m -> x0a ∉ taint_text m.
Proof.
  intros [? ? ? ? ? ? ? [? ?]]. apply object_no_newline.
  repeat apply Forall_cons_2; first [by apply quoted_line | by apply number_line | by apply variants_line | apply Forall_nil_2].
Qed.

Lemma untrusted_text_line m : untrusted_utf8 m -> x0a ∉ untrusted_text m.
Proof.
  intros [? ? ? [? ?]]. apply object_no_newline.
  repeat apply Forall_cons_2; first [by apply quoted_line | by apply number_line | apply Forall_nil_2].
Qed.

(** ** What is sent is handled *)

(** The UID of a pod: ASCII without spaces. *)
Definition uid_ok (uid : bytes) : Prop := uid ≠ [] /\ forallb graphic uid = true.

(** A value the bridge carries: its texts are UTF-8, its hash is its own, its size is in range. *)
Record sendable (tv : TaintedValue) : Prop := {
  se_value : utf8 (Value tv); se_preview : utf8 (Preview tv); se_source : utf8 (Source tv);
  se_variants : Forall (λ v, utf8 (Form v) /\ utf8 (vValue v)) (Variants tv);
  se_hash : Hash tv = HashValue (Value tv); se_size : minValueBytes <= len (Value tv) <= maxValueBytes;
  se_seq : 0 <= tvSeq tv < 2 ^ 64 }.

(** What arrives of a value: the empty variants and the chunks stay behind. *)
Definition crossed (tv : TaintedValue) : TaintedValue := {|
  Value := Value tv; Variants := List.filter (λ v, negb (bool_decide (vValue v = []))) (Variants tv); Chunks := [];
  Hash := Hash tv; Preview := Preview tv; Source := Source tv; tvSeq := tvSeq tv; RegisteredAt := 0 |}.

Lemma uid_trim uid : uid_ok uid -> TrimSpace uid = uid.
Proof. intros [_ Hu]. by apply TrimSpace_graphic. Qed.

Lemma handle_object l : handle_line (object l ++ [x0a]) =
  (op ← decode_op (object l);
   if bool_decide (op = OpRegisterTaint) then
     match parseRegisterLine (object l) with Ret msg => Some (DeliverTaint msg) | _ => None end
   else if bool_decide (op = OpRegisterUntrusted) then
     match parseRegisterUntrustedLine (object l) with Ret msg => Some (DeliverUntrusted msg) | _ => None end
   else None).
Proof. unfold handle_line. by rewrite trimNL_object. Qed.

Lemma received_variants (l : list TaintedVariant) :
  map (λ v, {| Form := vwForm v; vValue := vwValue v |})
    (List.filter (λ v, negb (bool_decide (vwValue v = []))) (map (λ v, MkVariant (Form v) (vValue v)) l)) =
  List.filter (λ v, negb (bool_decide (vValue v = []))) l.
Proof.
  induction l as [|[f x] l IH]; [done|]. cbn [map List.filter vwValue vValue].
  destruct (negb _); [|done]. cbn. by rewrite IH.
Qed.

Lemma registered_line uid tv : uid_ok uid -> sendable tv ->
  exists text, Register uid tv = Some (text ++ [x0a]) /\ (x0a ∉ text) /\
    handler <$> handle_line (text ++ [x0a]) = Some (BridgeTaint uid (crossed tv)).
Proof.
  intros Hu [Hv Hp Hs Hvs Hh Hl Hq]. pose proof (uid_trim uid Hu) as Ht. destruct Hu as [Hne Hg].
  set (m := {| rtOp := OpRegisterTaint; rtPodUID := uid; rtSource := Source tv; rtSeq := tvSeq tv; rtHash := Hash tv;
               rtPreview := Preview tv; rtValue := Value tv; rtVariants := map (λ v, MkVariant (Form v) (vValue v)) (Variants tv) |}).
  assert (taint_utf8 m) as Hm.
  { constructor; cbn; try done; [by apply utf8_graphic..| |by apply Forall_fmap].
    rewrite Hh. apply utf8_graphic, hex_encode_graphic. }
  assert (Value tv ≠ []) as Hv0 by (intros E; rewrite E in Hl; unfold len, minValueBytes in Hl; cbn [length] in Hl; lia).
  assert (Hash tv ≠ []) as Hh0 by (rewrite Hh; intros E; apply (f_equal length) in E; by rewrite length_HashValue in E).
  exists (taint_text m). split_and!.
  - unfold Register. rewrite Ht. destruct uid; [done|]. by rewrite !bool_decide_eq_false_2.
  - by apply taint_text_line.
  - unfold taint_text at 1. rewrite handle_object. fold (taint_text m). rewrite decode_taint_op by done.
    cbn [mbind option_bind rtOp m]. rewrite bool_decide_eq_true_2 by done. unfold parseRegisterLine.
    rewrite decode_taint_text by done. unfold m at 1. rewrite Ht. cbn [negb].
    rewrite (bool_decide_eq_true_2 (OpRegisterTaint = _)) by done. rewrite !bool_decide_eq_false_2 by done. cbn [negb orb].
    rewrite (proj2 (Z.ltb_ge _ _)), (proj2 (Z.ltb_ge _ _)) by lia. rewrite bool_decide_eq_true_2 by done. cbn [negb].
    cbn [fmap option_fmap option_map handler rtPodUID]. unfold ToTaintedValue, crossed. cbn. by rewrite received_variants.
Qed.

Definition untrusted_ok (source : bytes) (seq : Z) : Prop := utf8 source /\ len source <= maxSourceBytes /\ 0 <= seq < 2 ^ 64.

Lemma untrusted_line uid source seq : uid_ok uid -> untrusted_ok source seq ->
  exists text, RegisterUntrusted uid source seq = Some (text ++ [x0a]) /\ (x0a ∉ text) /\
    handler <$> handle_line (text ++ [x0a]) = Some (BridgeUntrusted uid source seq).
Proof.
  intros Hu (Hs & Hl & Hq). pose proof (uid_trim uid Hu) as Ht. destruct Hu as [Hne Hg].
  set (m := {| ruOp := OpRegisterUntrusted; ruPodUID := uid; ruSource := source; ruSeq := seq |}).
  assert (untrusted_utf8 m) as Hm by (constructor; cbn; try done; by apply utf8_graphic).
  exists (untrusted_text m). split_and!.
  - unfold RegisterUntrusted. rewrite Ht. by destruct uid.
  - by apply untrusted_text_line.
  - unfold untrusted_text at 1. rewrite handle_object. fold (untrusted_text m). rewrite decode_untrusted_op by done.
    cbn [mbind option_bind ruOp m]. rewrite bool_decide_eq_false_2, bool_decide_eq_true_2 by done.
    unfold parseRegisterUntrustedLine. rewrite decode_untrusted_text by done. unfold m at 1. rewrite Ht.
    rewrite bool_decide_eq_true_2 by done. cbn [negb]. rewrite bool_decide_eq_false_2 by done.
    by rewrite (proj2 (Z.ltb_ge _ _)) by lia.
Qed.

(** What the engine may hand to its forwarders, and what the handlers make of it. *)
Definition sent (o : output) : Prop :=
  match o with
  | ForwardTaint tvs => Forall sendable tvs
  | ForwardUntrusted source seq => untrusted_ok source seq
  | _ => True
  end.

Definition arrives (uid : bytes) (o : output) : list activity :=
  match o with
  | ForwardTaint tvs => map (λ tv, BridgeTaint uid (crossed tv)) tvs
  | ForwardUntrusted source seq => [BridgeUntrusted uid source seq]
  | _ => []
  end.

Lemma forwarded_line text rest : x0a ∉ text ->
  map handler (handleConn ((text ++ [x0a]) ++ rest)) =
  option_list (handler <$> handle_line (text ++ [x0a])) ++ map handler (handleConn rest).
Proof. intros Hn. rewrite <- app_assoc. cbn [app]. rewrite handleConn_line by done. by destruct (handle_line _). Qed.

Lemma forwarded uid o rest : uid_ok uid -> sent o ->
  map handler (handleConn (forwarder uid o ++ rest)) = arrives uid o ++ map handler (handleConn rest).
Proof.
  intros Hu Ho. destruct o as [rec|rec|tvs|source seq]; [done..| |]; cbn [forwarder arrives sent] in *.
  - induction Ho as [|tv tvs Htv _ IH]; [done|]. cbn [map concat].
    destruct (registered_line uid tv Hu Htv) as (text & -> & Hn & E). change (default [] (Some (text ++ [x0a]))) with (text ++ [x0a]).
    rewrite <- app_assoc, forwarded_line, E by done. cbn [option_list app]. by rewrite IH.
  - destruct (untrusted_line uid source seq Hu Ho) as (text & -> & Hn & E). change (default [] (Some (text ++ [x0a]))) with (text ++ [x0a]).
    by rewrite forwarded_line, E by done.
Qed.

(** C22: what a proxy forwards is what the sensor handles. Written by the client to one connection
    and read by the server, the values and signals that the engine of the proxy forwarded reach
    the handlers in their order, each once, value for value, if the texts of the values and signals are UTF-8, the
    hash of each value its own and its size 8 bytes to 64 KiB, and the UID is printable: a value loses only its empty variants, its chunks
    and the time of its registration, which the sensor computes anew. Values that do not meet these
    conditions are refused by the sensor or changed on the way (Examples short_secret_refused and cut_secret_refused). *)
Theorem bridge_delivers (uid : bytes) (outs : list output) :
  uid_ok uid -> Forall sent outs ->
  map handler (handleConn (concat (map (forwarder uid) outs))) = concat (map (arrives uid) outs).
Proof.
  intros Hu Ho. induction Ho as [|o outs Ho _ IH]; [done|]. cbn [map concat]. by rewrite forwarded, IH by done.
Qed.

(** ** From the bridge to containment *)

Section registered.

Context `{Compressors} `{MathLog2} `{Floats} `{Archives} `{Clock} `{MapOrder} `{UnicodeLower} `{Node}.
Context (e : Engine).

Lemma shed_keeps_last l x : exists l', shed_taint (l ++ [x]) = l' ++ [x].
Proof.
  induction l as [|y l [l' IH]]; [by exists []|]. rewrite shed_taint_eq. cbn [app].
  destruct (over_caps _); [by exists l'|by exists (y :: l)].
Qed.

Lemma crossed_forms tv tv' v :
  Value tv ≠ [] -> Value tv' = Value tv -> Variants tv' = Variants (with_variants (crossed tv)) ->
  v ∈ forms_of tv -> vValue v ≠ [] -> v ∈ forms_of tv'.
Proof.
  intros Hne Hv Hvs Hin Hvne. unfold forms_of in *. rewrite Hv, Hvs. clear Hv Hvs.
  destruct (Value tv) as [|c val] eqn:Ev; [done|]. unfold with_variants, crossed. cbn [Variants].
  set (kept := List.filter _ (Variants tv)). destruct (Variants tv) as [|w vs] eqn:Evs.
  - assert (kept = []) as -> by done. unfold variantsForLegacy in *. cbn -[CanonicalEncodings]. rewrite Ev.
    by destruct (CanonicalEncodings (c :: val)).
  - assert (v ∈ kept) as Hk.
    { apply list_elem_of_In, filter_In. split; [by apply list_elem_of_In|]. by rewrite bool_decide_eq_false_2. }
    destruct kept as [|u us] eqn:Ek; [by apply not_elem_of_nil in Hk|]. cbn [Variants]. done.
Qed.

(** A value that is new to the session is there afterwards. *)
Lemma registers_runs id tv S :
  SessionID S = id -> id ≠ [] -> Value tv ≠ [] -> Hash tv ≠ [] -> Hash tv ∉ map Hash (Tainted S) ->
  runs id S (RegisterRemoteTaint e id tv) (λ _ S' _, exists tv', tv' ∈ Tainted S' /\
    Value tv' = Value tv /\ Variants tv' = Variants (with_variants tv)).
Proof.
  intros Hsid Hid Hv Hh Hnew. unfold RegisterRemoteTaint. rewrite !bool_decide_eq_false_2 by done. cbn [orb].
  do 4 runs_step.
  match goal with |- context [addTainted e [?x] ?y] => set (tv1 := x); set (st1 := y) end.
  assert (Tainted st1 = Tainted S /\ SessionID st1 = id) as [Ht Hs1]
    by (unfold st1; destruct (Lit _); cbn; by rewrite ?Tainted_touch, ?SessionID_touch).
  assert (Hash tv1 = Hash tv) as Eh by (cbn; by destruct (Hash tv)).
  assert (added_to e (Tainted st1) [tv1] = [with_chunks e (with_variants tv1)]) as Ha.
  { unfold added_to, appendUniqueTainted. cbn [unique_from]. rewrite bool_decide_eq_false_2; [done|]. by rewrite Ht, Eh. }
  rewrite addTainted_eq, Ha. cbn [snd]. rewrite decide_False by done.
  destruct (shed_keeps_last (Tainted st1) (with_chunks e (with_variants tv1))) as [l' ->].
  destruct (with_chunks_same e (with_variants tv1)) as (_ & E2 & E3).
  runs_step; [done|]. exists (with_chunks e (with_variants tv1)). split_and!.
  - cbn. apply elem_of_app. right. by apply list_elem_of_singleton.
  - by rewrite E2, Value_with_variants.
  - rewrite E3. unfold with_variants, tv1. cbn [Variants]. by destruct (Variants tv) eqn:E; cbn; rewrite ?E.
Qed.

Lemma remote_registers id tv w :
  id ≠ [] -> Value tv ≠ [] -> Hash tv ≠ [] ->
  (forall st, store w !! id = Some st -> Hash tv ∉ map Hash (Tainted st)) -> store_ok (store w) ->
  exists st tv', store (RegisterRemoteTaint e id tv w).2 !! id = Some st /\ tv' ∈ Tainted st /\
    Value tv' = Value tv /\ Variants tv' = Variants (with_variants tv).
Proof.
  intros Hid Hv Hh Hnew Hw.
  assert (RegisterRemoteTaint e id tv w = RegisterRemoteTaint e id tv (created id w)) as ->.
  { unfold RegisterRemoteTaint. rewrite !bool_decide_eq_false_2 by done. apply bind_created. }
  pose proof (GetOrCreate_ok (tick w) (clock (tick w)) id (store w) Hw) as Hok.
  pose proof (GetOrCreate_lookup (tick w) (clock (tick w)) id (store w)) as Hl.
  set (S := (GetOrCreate (tick w) (clock (tick w)) id (store w)).1) in Hl.
  destruct (registers_runs id tv S (proj2 Hok _ _ Hl) Hid Hv Hh) with (w := created id w) as (S' & l & HS' & _ & tv' & Htv'); [|done|].
  - unfold S, GetOrCreate. destruct (store w !! id) eqn:E; [by apply Hnew|apply not_elem_of_nil].
  - by exists S', tv'.
Qed.

End registered.

Section contained.

Context `{Compressors} `{MathLog2} `{Floats} `{Archives} `{Clock} `{MapOrder} `{UnicodeLower} `{Node}.
Context `{SensorClock} `{KeyOrder} `{BpfMap}.

Lemma deployed_app (e : Engine) sink audit acts1 acts2 (s : Sensor Host) :
  deployed e sink audit (acts1 ++ acts2) s = deployed e sink audit acts2 (deployed e sink audit acts1 s).
Proof. revert s. induction acts1 as [|a acts1 IH]; intros s; cbn [app deployed]; [done|apply IH]. Qed.

(** One value sent and handled. *)
Lemma handled_registration uid tv line :
  uid_ok uid -> sendable tv -> Register uid tv = Some line -> map handler (handleConn line) = [BridgeTaint uid (crossed tv)].
Proof.
  intros Hu Htv Hr. destruct (registered_line uid tv Hu Htv) as (text & E & Hn & Eh).
  rewrite E in Hr. injection Hr as <-. pose proof (forwarded_line text [] Hn) as Hf. rewrite app_nil_r in Hf. by rewrite Hf, Eh.
Qed.

(** C7: a secret registered by the proxy is contained at the kernel. Take any state a sensor
    deployment can reach, and a value that arrives over the bridge for a pod whose session does
    not hold it yet. A record of a write, writev or sendmsg by a process of that pod, on a
    descriptor armed with a destination that is not exempt, whose captured payload contains one
    of the forms the value has on the proxy, has SIGKILL sent to the pod's processes and the groups
    they lead; and if the LSM hook is attached and the blocklists have room, every later connect
    of the process or of any task of its cgroup is denied in the kernel. *)
Theorem bridged_secret_contained {U : Type} `{Helpers U} (e : Engine) (sink audit : bool) (l : Loader) (allow paths : list bytes)
    (acts : list activity) (uid line : bytes) (tv : TaintedValue) (record : bytes) (raw : RingEvent) (w : WriteEvent)
    (pc : pendingConnect) (s1 : Sensor Host) (a : Attribution) (v : TaintedVariant) :
  let s0 := deployed e sink audit acts (start_sensor l allow paths) in
  let s := deployed e sink audit (map handler (handleConn line)) s0 in
  let s' := (readLoop (sensor_hooks e sink audit) Critical record s).2 in
  uid_ok uid -> sendable tv -> Register uid tv = Some line ->
  (forall st, store (hEngine (world s0)) !! SessionIDForPod uid = Some st -> Hash tv ∉ map Hash (Tainted st)) ->
  decodeRingEvent record = Ret raw -> re_Write raw = Some w \/ re_Writev raw = Some w ->
  armed (we_PID w) (we_FD w) s = (Ret (Some pc), s1) ->
  we_CgroupID w ≠ 0 -> LookupByCgroup (we_CgroupID w) (hPods (world s)) = Some a -> aSessionID a = SessionIDForPod uid ->
  v ∈ forms_of tv -> vValue v ≠ [] -> infix (vValue v) (we_Payload w) ->
  len (we_Payload w) <= flow_bytes e -> blocklists_ok (maps l) ->
  signals s' = signals s ++ kills (sensor_kill_resolver (we_CgroupID w) (we_PID w) (world s)) /\
  ((LoaderMaps.Quarantine (we_PID w) (we_CgroupID w) (loader s)).1 = Ret tt ->
   forall tk, targeted (we_PID w) (we_CgroupID w) tk = true -> verdict tk (maps (loader s')) = - EPERM).
Proof.
  intros s0 s s' Hu Htv Hline Hnew Hr Hw Ha Hcg Hattr Hid Hv Hne Hi Hlen Hok.
  assert (s = deployed e sink audit (acts ++ [BridgeTaint uid (crossed tv)]) (start_sensor l allow paths)) as Es.
  { unfold s. by rewrite (handled_registration uid tv line), deployed_app. }
  assert (host_ok (world s0)) as [Hstore _] by (apply deployed_ok, start_host).
  pose proof (se_size tv Htv) as Hsize.
  assert (Value tv ≠ []) as Hv0 by (intros E; rewrite E in Hsize; unfold len, minValueBytes in Hsize; cbn [length] in Hsize; lia).
  assert (Hash tv ≠ []) as Hh0 by (rewrite (se_hash tv Htv); intros E; apply (f_equal length) in E; by rewrite length_HashValue in E).
  destruct (remote_registers e (SessionIDForPod uid) (crossed tv) (hEngine (world s0))) as (st & tv' & Hst & Hin & Ev & Evs); [done..|].
  assert (store (hEngine (world s)) !! aSessionID a = Some st) as Hst'.
  { rewrite Hid, Es, deployed_app. exact Hst. }
  pose proof (crossed_forms tv tv' v Hv0 Ev Evs Hv Hne) as Hv'. revert s' Ha Hattr Hst'. rewrite Es. intros s' Ha Hattr Hst'.
  apply (tainted_write_contained e sink audit l allow paths _ record raw w pc s1 a st tv' v); try done.
  apply elem_of_app. by left.
Qed.

End contained.

(** ** Witnesses: the key of the demo pod, sent over the bridge *)

#[local] Existing Instance bounded_maps.
#[local] Existing Instance demo_sensor_clock.
#[local] Existing Instance demo_node.
#[local] Existing Instance demo_helpers.

Definition demo_uid : bytes := gostr "u1".

Lemma demo_uid_ok : uid_ok demo_uid.
Proof. by split. Qed.

Lemma demo_sendable : sendable demo_taint.
Proof.
  constructor; [by apply utf8_graphic|by apply (valid_utf8_spec 100); [vm_compute; lia|vm_compute]|by apply utf8_graphic| | | |].
  - apply Forall_cons_2; [split; by apply utf8_graphic|apply Forall_nil_2].
  - done.
  - vm_compute. split; discriminate.
  - vm_compute. by split.
Qed.

Definition demo_outs : list output := [ForwardTaint [demo_taint]; ForwardUntrusted (gostr "read_ticket") 3].

Lemma demo_sent : Forall sent demo_outs.
Proof.
  apply Forall_cons_2; [|apply Forall_cons_2; [|apply Forall_nil_2]].
  - apply Forall_cons_2; [apply demo_sendable|apply Forall_nil_2].
  - split; [by apply utf8_graphic|]. vm_compute. by repeat split.
Qed.

Example bridge_delivers_witness :
  map handler (handleConn (concat (map (forwarder demo_uid) demo_outs))) =
  [BridgeTaint demo_uid (crossed demo_taint); BridgeUntrusted demo_uid (gostr "read_ticket") 3].
Proof. exact (bridge_delivers demo_uid demo_outs demo_uid_ok demo_sent). Defined.

(** The demo deployment without the registration, and with it as it comes from the wire. *)
Definition early_acts : list activity :=
  [Pods (CallSyncPod demo_pod (gostr "c1") [(1077, 5); (1078, 6)]); Pods (CallSetPodCgroups demo_pod [4242]);
   Read Routine connect_record].

Definition demo_line : bytes := default [] (Register demo_uid demo_taint).

Abbreviation early := (deployed demo_engine true true early_acts (start_sensor demo_loader [] [])).
Abbreviation bridged := (deployed demo_engine true true (map handler (handleConn demo_line)) early).

Lemma demo_line_sent : Register demo_uid demo_taint = Some demo_line.
Proof. vm_compute. reflexivity. Qed.

Lemma early_session : map Hash (Tainted (default (new_session [] 0) (store (hEngine (world early)) !! SessionIDForPod demo_uid))) = [].
Proof. vm_compute. reflexivity. Qed.

Lemma early_new st :
  store (hEngine (world early)) !! SessionIDForPod demo_uid = Some st -> Hash demo_taint ∉ map Hash (Tainted st).
Proof.
  pose proof early_session as He. revert He. generalize (store (hEngine (world early)) !! SessionIDForPod demo_uid).
  intros o He ->. cbn in He. rewrite He. apply not_elem_of_nil.
Qed.

Lemma bridged_armed : exists s1, armed 77 5 bridged = (Ret (Some leak_dest), s1).
Proof.
  assert ((armed 77 5 bridged).1 = Ret (Some leak_dest)) as Ha by (vm_compute; reflexivity).
  exists (armed 77 5 bridged).2. rewrite <- Ha. apply surjective_pairing.
Qed.

Lemma bridged_attributed : LookupByCgroup 4242 (hPods (world bridged)) = Some demo_attribution.
Proof. vm_compute. reflexivity. Qed.

Lemma demo_form : leak_form ∈ forms_of demo_taint.
Proof. apply list_elem_of_In. vm_compute. left. reflexivity. Qed.

Lemma before_bridged : signals bridged = [].
Proof. vm_compute. reflexivity. Qed.

Lemma bridged_kills : kills (sensor_kill_resolver 4242 77 (world bridged)) = [-1077; 1077; -1078; 1078].
Proof. vm_compute. reflexivity. Qed.

Lemma bridged_room : (LoaderMaps.Quarantine 77 4242 (loader bridged)).1 = Ret tt.
Proof. vm_compute. reflexivity. Qed.

Example bridged_secret_contained_witness :
  let s' := (readLoop (sensor_hooks demo_engine true true) Critical (write_record leak) bridged).2 in
  signals s' = [-1077; 1077; -1078; 1078] /\ verdict (demo_tk 78 4242) (maps (loader s')) = - EPERM.
Proof.
  destruct bridged_armed as [s1 Ha].
  destruct (bridged_secret_contained demo_engine true true demo_loader [] [] early_acts demo_uid demo_line demo_taint
    (write_record leak) (ring_write leak_event) leak_event leak_dest s1 demo_attribution leak_form demo_uid_ok demo_sendable
    demo_line_sent early_new leak_decodes (or_introl eq_refl) Ha ltac:(discriminate) bridged_attributed eq_refl demo_form
    ltac:(discriminate) leak_inside leak_fits demo_blocklists_ok) as [Hk Hd].
  split; [|exact (Hd bridged_room (demo_tk 78 4242) eq_refl)].
  refine (eq_trans Hk _). rewrite before_bridged. exact bridged_kills.
Defined.

(** ** Where the bridge falls short *)

(** The least size of a value is to stop a peer from registering [e] as tainted. A variant has no least
    size: with one in a line, whatever contains it is contained as EXFIL. *)
Definition loose_line : bytes :=
  taint_text {| rtOp := OpRegisterTaint; rtPodUID := demo_uid; rtSource := []; rtSeq := 1; rtHash := HashValue demo_secret;
                rtPreview := []; rtValue := demo_secret; rtVariants := [MkVariant (gostr "x") (gostr "e")] |} ++ [x0a].

Example loose_variant_kills :
  let s := deployed demo_engine true true (map handler (handleConn loose_line)) early in
  signals (readLoop (sensor_hooks demo_engine true true) Critical (write_record (gostr "hello")) s).2 = [-1077; 1077; -1078; 1078].
Proof. vm_compute. reflexivity. Qed.

(** The whole content of a sensitive file is tainted on the proxy, whatever its size; what is shorter
    than the least size is sent and refused. *)
Definition short_taint : TaintedValue := new_taint (gostr "hunter2") (CanonicalEncodings (gostr "hunter2")) (gostr "files/read (path:/etc/pw)") 1 0.

Example short_secret_refused :
  exists line, Register demo_uid short_taint = Some line /\ handleConn line = [].
Proof. eexists. split; [vm_compute; reflexivity|]. vm_compute. reflexivity. Qed.

(** A value that is cut inside a rune, as the content of a large file is, does not survive JSON:
    its hash is that of other bytes when it arrives. *)
Definition cut_taint : TaintedValue := new_taint (demo_secret ++ [xe2; x82]) [] (gostr "files/read (path:/etc/key)") 1 0.

Example cut_secret_refused :
  exists line, Register demo_uid cut_taint = Some line /\ handleConn line = [].
Proof. eexists. split; [vm_compute; reflexivity|]. vm_compute. reflexivity. Qed.

(** An allowed uid beyond 32 bits stands for another one: this list admits root. *)
Example wide_uid_is_root : Allow {| AllowedUIDs := [2 ^ 32]; AllowedGIDs := [] |} 0 1000 = true.
Proof. reflexivity. Qed.
