(* ===== verification/Proxy.v ===== *)
(** * internal/proxy: proxy.go and dispatch.go, from agent frames to servers and back

    The proxy of the MCP sessions: every frame of an agent is answered, refused or forwarded by
    [HandleAgentRequest], every frame of a server passes [deliverServerFrame].  A call that was
    forwarded is in flight until its response arrives on its channel or its time is up.  The
    goroutines that read the servers' frames are numbered; what one of them does with a frame
    between two locks is a step of its own ([receive], then [proceed] stage by stage), so that
    anything may happen between the lookup of the call a response belongs to, the
    ingestion of its result, and the lookup of the channel it is handed to. The handling of a
    frame of the agent is one step; the engine takes one call at a time.  The engine of the
    model does not panic, so the recovery from a panic of it is left out, as are log lines. *)

From S2P Require Import Prelude Go GoTime Config GoStrings Encodings Json NetIP Model Store Tagger.
From S2P Require Import Egress Regex Taint Overlap Container Match Engine EngineFacts Framer Rpc.

(** The text of an error of encoding/json. *)
Class JsonErrors := params_error : bytes -> bytes.

Definition jsonRPCServerError : Z := -32000.

(** ** State *)

(** A [serverConn]: the ID and the PID of its process. *)
Record Server := { svID : bytes; svPID : Z }.

Record ShadowEvent := { shToolName : bytes; OwnerServerID : bytes; ShadowServerID : bytes; shSessionID : bytes }.

(** [channels] are the calls in flight: the key of the request and what its channel, which has
    room for one frame, holds. [syncWait] points to them; [started] numbers them. *)
Record SessionRuntime := {
  rtID : bytes; rtSeq : Z; toolRoute : gmap bytes Server; allTools : list bytes;
  pending : gmap bytes bytes; syncWait : gmap bytes nat;
  channels : gmap nat (bytes * option bytes); started : nat; shadowEvents : list ShadowEvent
}.

Definition new_runtime (id : bytes) : SessionRuntime := {|
  rtID := id; rtSeq := 0; toolRoute := ∅; allTools := []; pending := ∅; syncWait := ∅; channels := ∅; started := 0; shadowEvents := [] |}.

(** How far [deliverServerFrame] has come with a frame: its call was looked up, its result
    ingested, the frame rewritten, its event logged. *)
Inductive stage := Looked | Ingested | Rewritten | Logged.

#[export] Instance stage_eq_dec : EqDecision stage.
Proof. solve_decision. Defined.

(** A frame that is being delivered: the variables of [deliverServerFrame]. *)
Record Delivery := {
  dlSession : bytes; dlServer : Server; dlKey : option bytes; dlEvent : InterceptedEvent; dlFrame : bytes; dlStage : stage
}.

(** [toServers] and [toAgent] are the frames written so far, [logged] the events, [deliveries]
    what the readers of the servers' frames are at. *)
Record Proxy := {
  engine : World; logged : list InterceptedEvent; failClosedActive : bool; failClosedReason : bytes;
  runtimes : gmap bytes SessionRuntime; toServers : list (bytes * Server * bytes); toAgent : list bytes;
  deliveries : gmap nat Delivery
}.

Record DispatchResult := { Response : bytes; drNotification : bool; UseSSE : bool; Blocked : bool }.

Definition respond (data : bytes) : DispatchResult := {| Response := data; drNotification := false; UseSSE := false; Blocked := false |}.
Definition blocked (data : bytes) : DispatchResult := {| Response := data; drNotification := false; UseSSE := false; Blocked := true |}.

(** What a frame comes to at once: a result, or a call in flight. *)
Definition outcome : Type := go (DispatchResult + nat).

Definition PM (A : Type) : Type := Proxy -> A * Proxy.

#[export] Instance PM_ret : MRet PM := λ A a p, (a, p).
#[export] Instance PM_bind : MBind PM := λ A B f m p, let '(a, p) := m p in f a p.

Definition set_engine (w : World) (p : Proxy) : Proxy := {|
  engine := w; logged := logged p; failClosedActive := failClosedActive p; failClosedReason := failClosedReason p;
  runtimes := runtimes p; toServers := toServers p; toAgent := toAgent p; deliveries := deliveries p |}.

Definition set_runtime (rt : SessionRuntime) (p : Proxy) : Proxy := {|
  engine := engine p; logged := logged p; failClosedActive := failClosedActive p; failClosedReason := failClosedReason p;
  runtimes := <[rtID rt := rt]> (runtimes p); toServers := toServers p; toAgent := toAgent p; deliveries := deliveries p |}.

Definition add_logged (ev : InterceptedEvent) (p : Proxy) : Proxy := {|
  engine := engine p; logged := logged p ++ [ev]; failClosedActive := failClosedActive p; failClosedReason := failClosedReason p;
  runtimes := runtimes p; toServers := toServers p; toAgent := toAgent p; deliveries := deliveries p |}.

Definition add_written (id : bytes) (sc : Server) (frame : bytes) (p : Proxy) : Proxy := {|
  engine := engine p; logged := logged p; failClosedActive := failClosedActive p; failClosedReason := failClosedReason p;
  runtimes := runtimes p; toServers := toServers p ++ [(id, sc, frame)]; toAgent := toAgent p; deliveries := deliveries p |}.

Definition add_answered (frame : bytes) (p : Proxy) : Proxy := {|
  engine := engine p; logged := logged p; failClosedActive := failClosedActive p; failClosedReason := failClosedReason p;
  runtimes := runtimes p; toServers := toServers p; toAgent := toAgent p ++ [frame]; deliveries := deliveries p |}.

Definition set_delivery (reader : nat) (d : option Delivery) (p : Proxy) : Proxy := {|
  engine := engine p; logged := logged p; failClosedActive := failClosedActive p; failClosedReason := failClosedReason p;
  runtimes := runtimes p; toServers := toServers p; toAgent := toAgent p; deliveries := partial_alter (λ _, d) reader (deliveries p) |}.

Definition gets {A} (f : Proxy -> A) : PM A := λ p, (f p, p).
Definition updates (f : Proxy -> Proxy) : PM () := λ p, ((), f p).

(** The engine's part of the state. *)
Definition on_engine {A} (m : Engine.M A) : PM A := λ p, let '(a, w) := m (engine p) in (a, set_engine w p).

Definition SetFailClosed (active : bool) (reason : bytes) : PM () := updates (λ p, {|
  engine := engine p; logged := logged p; failClosedActive := active;
  failClosedReason := match reason with [] => gostr "fail_closed" | _ => reason end;
  runtimes := runtimes p; toServers := toServers p; toAgent := toAgent p; deliveries := deliveries p |}).

(** ** Tools *)

(** registerTool: the first server that offers a name keeps it; the answer is whether it was new.
    [sc.tools], which nothing reads, is left out. *)
Definition registerTool (name sessionID : bytes) (sc : Server) (raw : bytes) (rt : SessionRuntime) : bool * SessionRuntime :=
  match toolRoute rt !! name with
  | Some existing =>
      let ev := {| shToolName := name; OwnerServerID := svID existing; ShadowServerID := svID sc; shSessionID := sessionID |} in
      (false, {| rtID := rtID rt; rtSeq := rtSeq rt; toolRoute := toolRoute rt; allTools := allTools rt; pending := pending rt;
                 syncWait := syncWait rt; channels := channels rt; started := started rt; shadowEvents := shadowEvents rt ++ [ev] |})
  | None =>
      (true, {| rtID := rtID rt; rtSeq := rtSeq rt; toolRoute := <[name := sc]> (toolRoute rt); allTools := allTools rt ++ [raw];
                pending := pending rt; syncWait := syncWait rt; channels := channels rt; started := started rt; shadowEvents := shadowEvents rt |})
  end.

Section proxy.

Context `{Compressors} `{MathLog2} `{Floats} `{Archives} `{Clock} `{MapOrder} `{UnicodeLower} `{JsonErrors}.

(** [eng] is nil when no engine is configured; [sink] and [audit] tell whether
    it has an evidence and an audit sink, [forwarding] which forwarders; [stdio] whether there is an agent writer. *)
Context (eng : option Engine) (sink audit : bool) (forwarding : bool * bool) (preferSSE stdio : bool).

(** ** Events *)

Definition agent_to_server : bytes := gostr "agent_to_server".
Definition server_to_agent : bytes := gostr "server_to_agent".
Definition tools_call : bytes := gostr "tools/call".

(** The event of a frame, from the number and the instant it gets. *)
Definition event_of (id : bytes) (seq now : Z) (raw direction serverID : bytes) (serverPID : Z) : InterceptedEvent :=
  let msg := decode_message raw in
  let tc := m ← msg;
            if bool_decide (Method m = tools_call) && negb (bool_decide (Params m = []))
            then ParseToolCallParams (Params m) else None in
  {| ieSessionID := id; ieSeq := seq; ieTSWall := now; ieTSMono := now; ieDirection := direction;
     ieMethod := match msg with Some m => Method m | None => [] end;
     ieToolName := match tc with Some tc => Name tc | None => [] end;
     ieToolArgs := match tc with Some tc => Arguments tc | None => [] end;
     ieResult := match msg with Some m => if IsResponse m then msgResult m else [] | None => [] end;
     ieServerID := serverID; ieServerPID := serverPID; ieTags := []; ieDecision := gostr "forwarded"; ieBlockReason := [] |}.

Definition set_seq (seq : Z) (rt : SessionRuntime) : SessionRuntime := {|
  rtID := rtID rt; rtSeq := seq; toolRoute := toolRoute rt; allTools := allTools rt; pending := pending rt;
  syncWait := syncWait rt; channels := channels rt; started := started rt; shadowEvents := shadowEvents rt |}.

(** [rt.Session.CreateEvent]; the runtime of [id] is there. *)
Definition CreateEvent (id raw direction serverID : bytes) (serverPID : Z) : PM InterceptedEvent :=
  rt ← gets (λ p, default (new_runtime id) (runtimes p !! id));
  let seq := u64 (rtSeq rt + 1) in
  _ ← updates (set_runtime (set_seq seq rt));
  now ← on_engine time_now;
  mret (event_of id seq now raw direction serverID serverPID).

Definition logEvent (ev : InterceptedEvent) : PM () :=
  ev ← match eng with Some _ => on_engine (RedactEvent ev) | None => mret ev end;
  updates (add_logged ev).

Definition set_decision (reason : bytes) (ev : InterceptedEvent) : InterceptedEvent := {|
  ieSessionID := ieSessionID ev; ieSeq := ieSeq ev; ieTSWall := ieTSWall ev; ieTSMono := ieTSMono ev;
  ieDirection := ieDirection ev; ieMethod := ieMethod ev; ieToolName := ieToolName ev; ieToolArgs := ieToolArgs ev;
  ieResult := ieResult ev; ieServerID := ieServerID ev; ieServerPID := ieServerPID ev; ieTags := ieTags ev;
  ieDecision := gostr "blocked"; ieBlockReason := reason |}.

Definition set_tool (name : bytes) (ev : InterceptedEvent) : InterceptedEvent := {|
  ieSessionID := ieSessionID ev; ieSeq := ieSeq ev; ieTSWall := ieTSWall ev; ieTSMono := ieTSMono ev;
  ieDirection := ieDirection ev; ieMethod := ieMethod ev; ieToolName := name; ieToolArgs := ieToolArgs ev;
  ieResult := ieResult ev; ieServerID := ieServerID ev; ieServerPID := ieServerPID ev; ieTags := ieTags ev;
  ieDecision := ieDecision ev; ieBlockReason := ieBlockReason ev |}.

(** ** Requests answered by the proxy itself *)

Definition proxy_id : bytes := gostr "proxy".

(** The event of the frame and of the response made here. *)
Definition answer (id frame data : bytes) : PM DispatchResult :=
  ev ← CreateEvent id frame agent_to_server proxy_id 0;
  _ ← logEvent ev;
  ev ← CreateEvent id data server_to_agent proxy_id 0;
  _ ← logEvent ev;
  mret (respond data).

Definition initialize_result : bytes :=
  object [field "capabilities" (object [field "tools" (gostr "{}")]); field "protocolVersion" (quote (gostr "2025-11-25"));
          field "serverInfo" (object [field "name" (quote (gostr "interlock")); field "version" (quote (gostr "0.2.0"))])].

Definition dispatchInitialize (id frame : bytes) (msg : JSONRPCMessage) : PM DispatchResult :=
  answer id frame (response_text [] (msgID msg) [rpc_version; field "result" initialize_result]).

Definition dispatchPing (id frame : bytes) (msg : JSONRPCMessage) : PM DispatchResult :=
  answer id frame (response_text [] (msgID msg) [rpc_version; field "result" (gostr "{}")]).

(** [allToolsAsAny], written by Marshal: a definition that does not decode is null. *)
Definition tools_text (tools : list bytes) : bytes :=
  x5b :: Join (map (λ raw, match Unmarshal raw with Some v => Marshal v | None => gostr "null" end) tools) [x2c] ++ [x5d].

Definition dispatchToolsList (id frame : bytes) (msg : JSONRPCMessage) : PM DispatchResult :=
  tools ← gets (λ p, match runtimes p !! id with Some rt => allTools rt | None => [] end);
  answer id frame (response_text [] (msgID msg) [rpc_version; field "result" (object [field "tools" (tools_text tools)])]).

(** The event of a frame that goes no further, and the error it is answered with. *)
Definition refuse (id frame : bytes) (data : bytes) (result : bytes -> DispatchResult) : PM DispatchResult :=
  ev ← CreateEvent id frame agent_to_server proxy_id 0;
  _ ← logEvent ev;
  mret (result data).

(** ** tools/call *)

Definition blocked_by (reason : bytes) : bytes := gostr "call blocked by Interlock: " ++ reason.

(** The event of a refused call is logged as blocked. *)
Definition block (msg : JSONRPCMessage) (ev : InterceptedEvent) (reason : bytes) : PM outcome :=
  _ ← logEvent (set_decision reason ev);
  mret (Ret (inl (blocked (buildErrorResponse (msgID msg) jsonRPCServerError (blocked_by reason))))).

(** The call is entered under its ID, then the frame is written; [ok] is what the pipe answers. *)
Definition start_call (idKey tool : bytes) (rt : SessionRuntime) : SessionRuntime := {|
  rtID := rtID rt; rtSeq := rtSeq rt; toolRoute := toolRoute rt; allTools := allTools rt;
  pending := <[idKey := tool]> (pending rt); syncWait := <[idKey := started rt]> (syncWait rt);
  channels := <[started rt := (idKey, None)]> (channels rt); started := S (started rt); shadowEvents := shadowEvents rt |}.

(** The deferred removal: by ID, whichever call is entered under it by then. *)
Definition end_call (idKey : bytes) (call : nat) (rt : SessionRuntime) : SessionRuntime := {|
  rtID := rtID rt; rtSeq := rtSeq rt; toolRoute := toolRoute rt; allTools := allTools rt;
  pending := delete idKey (pending rt); syncWait := delete idKey (syncWait rt);
  channels := delete call (channels rt); started := started rt; shadowEvents := shadowEvents rt |}.

Definition runtime (id : bytes) (p : Proxy) : SessionRuntime := default (new_runtime id) (runtimes p !! id).

Definition forward (ok : bool) (id : bytes) (sc : Server) (msg : JSONRPCMessage) (tool : bytes) (frame : bytes) : PM outcome :=
  rt ← gets (runtime id);
  let call := started rt in
  _ ← updates (set_runtime (start_call (msgID msg) tool rt));
  if (maxFrameSize <? len frame) || negb ok then
    rt ← gets (runtime id);
    _ ← updates (set_runtime (end_call (msgID msg) call rt));
    mret (Err (Errorf "forward to server" []))
  else
    _ ← updates (add_written id sc frame);
    mret (Ret (inr call)).

Definition dispatchToolsCall (ok : bool) (id frame : bytes) (msg : JSONRPCMessage) : PM outcome :=
  match ParseToolCallParams (Params msg) with
  | None =>
      r ← refuse id frame (buildErrorResponse (msgID msg) (-32700)
            (gostr "invalid tools/call params: " ++ params_error (Params msg))) blocked;
      mret (Ret (inl r))
  | Some tc =>
      rt ← gets (runtime id);
      match toolRoute rt !! Name tc with
      | None =>
          r ← refuse id frame (buildErrorResponse (msgID msg) (-32602) (gostr "unknown tool: " ++ Name tc)) blocked;
          mret (Ret (inl r))
      | Some sc =>
          ev ← CreateEvent id frame agent_to_server (svID sc) (svPID sc);
          active ← gets failClosedActive;
          if active : bool then
            reason ← gets failClosedReason;
            block msg ev (gostr "fail_closed: " ++ reason)
          else
            match eng with
            | None => _ ← logEvent ev; forward ok id sc msg (Name tc) frame
            | Some e =>
                decision ← on_engine (EvaluateRequest e sink ev);
                if negb (Allow decision) then block msg ev (Reason decision)
                else
                  match (match ForwardArgs decision with
                         | Some (c :: args) => replaceToolCallArguments frame (c :: args)
                         | _ => Ret frame
                         end) with
                  | Panic => mret Panic
                  | Err _ =>
                      mret (Ret (inl (blocked (buildErrorResponse (msgID msg) jsonRPCServerError
                                                 (blocked_by (gostr "vault forward rewrite failed"))))))
                  | Ret frame => _ ← logEvent ev; forward ok id sc msg (Name tc) frame
                  end
            end
      end
  end.

(** ** The two directions *)

Definition HandleAgentRequest (ok : bool) (id frame : bytes) : PM outcome :=
  known ← gets (λ p, bool_decide (is_Some (runtimes p !! id)));
  if negb known then mret (Err (Errorf "session runtime required" [])) else
  match decode_message frame with
  | None => mret (Err (Errorf "invalid JSON" []))
  | Some msg =>
      if IsNotification msg then
        ev ← CreateEvent id frame agent_to_server proxy_id 0;
        _ ← logEvent ev;
        mret (Ret (inl {| Response := []; drNotification := true; UseSSE := false; Blocked := false |}))
      else if bool_decide (Method msg = gostr "initialize") then r ← dispatchInitialize id frame msg; mret (Ret (inl r))
      else if bool_decide (Method msg = gostr "tools/list") then r ← dispatchToolsList id frame msg; mret (Ret (inl r))
      else if bool_decide (Method msg = tools_call) then dispatchToolsCall ok id frame msg
      else if bool_decide (Method msg = gostr "ping") then r ← dispatchPing id frame msg; mret (Ret (inl r))
      else
        r ← refuse id frame (buildErrorResponse (msgID msg) (-32601) (gostr "method not found: " ++ Method msg)) respond;
        mret (Ret (inl r))
  end.

(** The select of a call in flight: its channel, or its time is up. *)
Definition finish_call (timeout : bool) (id : bytes) (call : nat) : PM (option (go DispatchResult)) :=
  rt ← gets (runtime id);
  match channels rt !! call with
  | None => mret None
  | Some (idKey, buffered) =>
      if timeout then
        _ ← updates (set_runtime (end_call idKey call rt));
        mret (Some (Err (Errorf "timeout waiting for server response" [])))
      else
        match buffered with
        | None => mret None
        | Some resp =>
            _ ← updates (set_runtime (end_call idKey call rt));
            mret (Some (Ret {| Response := resp; drNotification := false; UseSSE := preferSSE; Blocked := false |}))
        end
  end.

Definition set_channel (call : nat) (x : bytes * option bytes) (rt : SessionRuntime) : SessionRuntime := {|
  rtID := rtID rt; rtSeq := rtSeq rt; toolRoute := toolRoute rt; allTools := allTools rt; pending := pending rt;
  syncWait := syncWait rt; channels := <[call := x]> (channels rt); started := started rt; shadowEvents := shadowEvents rt |}.

(** The frame goes to the channel of the call entered under its ID, if that has room, else to
    the agent. *)
Definition hand_over (id : bytes) (key : option bytes) (frame : bytes) : PM () :=
  rt ← gets (runtime id);
  match (k ← key; call ← syncWait rt !! k; x ← channels rt !! call; Some (call, x)) with
  | Some (call, (idKey, None)) => updates (set_runtime (set_channel call (idKey, Some frame) rt))
  | _ =>
      if stdio && (len frame <=? maxFrameSize) then updates (add_answered frame) else mret ()
  end.

(** The ID of a frame that is a response. *)
Definition response_key (frame : bytes) : option bytes :=
  m ← decode_message frame; if IsResponse m then Some (msgID m) else None.

(** The event of the frame and, under the lock of the runtime, the tool of the call its ID is
    entered with. [CreateEvent] touches the number of the last event only, which the lookup
    does not. *)
Definition receive (id : bytes) (sc : Server) (frame : bytes) : PM Delivery :=
  ev ← CreateEvent id frame server_to_agent (svID sc) (svPID sc);
  rt ← gets (runtime id);
  let key := response_key frame in
  let ev := match k ← key; pending rt !! k with Some tool => set_tool tool ev | None => ev end in
  mret {| dlSession := id; dlServer := sc; dlKey := key; dlEvent := ev; dlFrame := frame; dlStage := Looked |}.

Definition at_stage (s : stage) (frame : bytes) (d : Delivery) : Delivery := {|
  dlSession := dlSession d; dlServer := dlServer d; dlKey := dlKey d; dlEvent := dlEvent d; dlFrame := frame; dlStage := s |}.

(** What follows, from one lock to the next; [None] when the frame is delivered. *)
Definition proceed (d : Delivery) : PM (option Delivery) :=
  match dlStage d, eng with
  | Looked, Some e =>
      if bool_decide (ieToolName (dlEvent d) ≠ []) then
        _ ← on_engine (IngestResult e forwarding (dlEvent d));
        mret (Some (at_stage Ingested (dlFrame d) d))
      else _ ← logEvent (dlEvent d); mret (Some (at_stage Logged (dlFrame d) d))
  | Ingested, Some e =>
      frame ← on_engine (VaultRewriteFrame e (dlSession d) (dlFrame d));
      mret (Some (at_stage Rewritten frame d))
  | Looked, None | Ingested, None | Rewritten, _ =>
      _ ← logEvent (dlEvent d);
      mret (Some (at_stage Logged (dlFrame d) d))
  | Logged, _ =>
      _ ← hand_over (dlSession d) (match dlKey d with Some [] => None | key => key end) (dlFrame d);
      mret None
  end.

(** A reader gets a frame, unless it is busy with one. *)
Definition read_server (reader : nat) (id : bytes) (sc : Server) (frame : bytes) : PM () :=
  busy ← gets (λ p, deliveries p !! reader);
  match busy with
  | Some _ => mret ()
  | None => d ← receive id sc frame; updates (set_delivery reader (Some d))
  end.

(** And goes on with it. *)
Definition deliverServerFrame (reader : nat) : PM () :=
  at_work ← gets (λ p, deliveries p !! reader);
  match at_work with
  | None => mret ()
  | Some d => d ← proceed d; updates (set_delivery reader d)
  end.

(** ** Runs *)

(** [EngineCall] is a call of the engine from elsewhere: the sensor of the same process. *)
Inductive proxy_step :=
  | AgentFrame (ok : bool) (id frame : bytes)
  | ServerFrame (reader : nat) (id : bytes) (sc : Server) (frame : bytes)
  | Deliver (reader : nat)
  | FinishCall (timeout : bool) (id : bytes) (call : nat)
  | FailClosed (active : bool) (reason : bytes)
  | NewSession (id : bytes)
  | OfferTool (id name : bytes) (sc : Server) (raw : bytes)
  | EngineCall (c : call).

Definition perform_step (x : proxy_step) : PM () :=
  match x with
  | AgentFrame ok id frame => _ ← HandleAgentRequest ok id frame; mret ()
  | ServerFrame reader id sc frame => read_server reader id sc frame
  | Deliver reader => deliverServerFrame reader
  | FinishCall timeout id call => _ ← finish_call timeout id call; mret ()
  | FailClosed active reason => SetFailClosed active reason
  | NewSession id => updates (set_runtime (new_runtime id))
  | OfferTool id name sc raw => rt ← gets (runtime id); updates (set_runtime (registerTool name id sc raw rt).2)
  | EngineCall c => match eng with Some e => on_engine (perform e sink audit c) | None => mret () end
  end.

(** A frame of a server, delivered without interruption. *)
Definition delivered (id : bytes) (sc : Server) (frame : bytes) : list proxy_step :=
  ServerFrame 0 id sc frame :: replicate 4 (Deliver 0).

Definition New : Proxy := {|
  engine := {| store := NewSessionStore; tick := 0; out := [] |}; logged := []; failClosedActive := false;
  failClosedReason := []; runtimes := ∅; toServers := []; toAgent := []; deliveries := ∅ |}.

Definition proxy_after (xs : list proxy_step) : Proxy := foldl (λ p x, (perform_step x p).2) New xs.

End proxy.
