(* ===== verification/ProxyTheorems.v ===== *)
(** * Theorems about the proxy

    Only calls the engine allowed reach a server; a call that carries a tainted value to a sink
    does not; what answers a call in flight was ingested first. *)

From S2P Require Import Prelude Go GoTime Config GoStrings Encodings Json NetIP Model Store Tagger.
From S2P Require Import Egress Regex Taint Overlap OverlapTheorems Container Match Engine EngineFacts Demo EngineTheorems Exfil Framer Rpc Proxy.

(** ** What the small operations leave alone *)

Section proxy.

Context `{Compressors} `{MathLog2} `{Floats} `{Archives} `{Clock} `{MapOrder} `{UnicodeLower} `{JsonErrors}.
Context (e : Engine) (sink audit : bool) (forwarding : bool * bool) (preferSSE stdio : bool).

Implicit Types (p : Proxy) (rt : SessionRuntime).

(** Every runtime is kept under its own ID. *)
Definition keyed p : Prop := map_Forall (λ id rt, rtID rt = id) (runtimes p).

(** The routes and the calls of a runtime. *)
Definition calls_of rt := (toolRoute rt, pending rt, syncWait rt, channels rt, started rt).

Record calm p p' : Prop := {
  calm_keyed : keyed p -> keyed p';
  calm_calls id : keyed p -> calls_of (runtime id p') = calls_of (runtime id p);
  calm_servers : toServers p' = toServers p;
  calm_agent : toAgent p' = toAgent p;
  calm_active : failClosedActive p' = failClosedActive p }.

#[global] Instance calm_refl : Reflexive calm.
Proof. by constructor. Qed.

#[global] Instance calm_trans : Transitive calm.
Proof.
  intros p q r [] []. constructor; [auto| |congruence..]. intros id Hk. rewrite calm_calls1 by auto. auto.
Qed.

Definition quiet {A} (m : PM A) : Prop := forall p, calm p (m p).2.

Lemma quiet_ret {A} (a : A) : quiet (mret a).
Proof. intros p. done. Qed.

Lemma quiet_bind {A B} (m : PM A) (f : A -> PM B) : quiet m -> (forall a, quiet (f a)) -> quiet (m ≫= f).
Proof.
  intros Hm Hf p. unfold mbind, PM_bind. specialize (Hm p). destruct (m p) as [a q]. etransitivity; [exact Hm|apply Hf].
Qed.

Lemma quiet_gets {A} (f : Proxy -> A) : quiet (gets f).
Proof. intros p. done. Qed.

Lemma quiet_engine {A} (m : Engine.M A) : quiet (on_engine m).
Proof. intros p. unfold on_engine. destruct (m (engine p)). by constructor. Qed.

Lemma rtID_runtime id p : keyed p -> rtID (runtime id p) = id.
Proof. intros Hk. unfold runtime. destruct (runtimes p !! id) as [rt|] eqn:E; [|done]. exact (Hk id rt E). Qed.

Lemma runtime_set id rt p : runtime id (set_runtime rt p) = if decide (rtID rt = id) then rt else runtime id p.
Proof.
  unfold runtime, set_runtime. cbn [runtimes]. case_decide as E; [by subst id; rewrite lookup_insert_eq|by rewrite lookup_insert_ne].
Qed.

Lemma keyed_set rt p : keyed p -> keyed (set_runtime rt p).
Proof. intros Hk. by apply map_Forall_insert_2. Qed.

Lemma quiet_set id rt p : calls_of rt = calls_of (runtime id p) -> (keyed p -> rtID rt = id) -> calm p (set_runtime rt p).
Proof.
  intros Hc Hid. constructor; try done; [apply keyed_set|]. intros id' Hk. rewrite runtime_set. rewrite (Hid Hk).
  by case_decide as E; [subst id'|].
Qed.

Lemma quiet_create id raw dir sid pid : quiet (CreateEvent id raw dir sid pid).
Proof.
  intros p. unfold CreateEvent. cbn [mbind PM_bind gets]. cbn. fold (runtime id p).
  etransitivity; [|apply (quiet_engine time_now)]. apply (quiet_set id); [done|]. intros Hk. cbn. by apply rtID_runtime.
Qed.

Lemma quiet_log ev : quiet (logEvent (Some e) ev).
Proof.
  apply quiet_bind; [apply quiet_engine|]. intros ev' p. by constructor.
Qed.

Create HintDb quiet.
#[local] Hint Resolve quiet_ret quiet_gets quiet_engine quiet_create quiet_log : quiet.
#[local] Ltac quiet := repeat first [progress eauto with quiet | apply quiet_bind; [|intros] | case_match].

Lemma quiet_answer id frame data : quiet (answer (Some e) id frame data).
Proof. unfold answer. quiet. Qed.
Lemma quiet_refuse id frame data r : quiet (refuse (Some e) id frame data r).
Proof. unfold refuse. quiet. Qed.
Lemma quiet_block msg ev reason : quiet (block (Some e) msg ev reason).
Proof. unfold block. quiet. Qed.
#[local] Hint Resolve quiet_answer quiet_refuse quiet_block : quiet.

(** ** The event of a call *)

Lemma create_spec id raw dir sid pid p :
  exists seq now w, store w = store (engine p) /\ out w = out (engine p) /\
  (CreateEvent id raw dir sid pid p).1 = event_of id seq now raw dir sid pid /\
  engine (CreateEvent id raw dir sid pid p).2 = w.
Proof. do 3 eexists. split; [|split; [|split; reflexivity]]; reflexivity. Qed.

(** The event of a tools/call is about the tool that is routed and the arguments that are there. *)
Lemma event_call id seq now frame dir sid pid msg tc :
  decode_message frame = Some msg -> Method msg = tools_call -> ParseToolCallParams (Params msg) = Some tc ->
  let ev := event_of id seq now frame dir sid pid in
  ieSessionID ev = id /\ ieToolName ev = Name tc /\ ieToolArgs ev = Arguments tc /\ ieServerID ev = sid.
Proof.
  intros Hm Hc Hp. unfold event_of. rewrite Hm. cbn [mbind option_bind]. rewrite Hc, bool_decide_eq_true_2 by done.
  destruct (Params msg) as [|c ps] eqn:E.
  - injection Hp as <-. done.
  - rewrite bool_decide_eq_false_2 by done. cbn [andb negb]. rewrite Hp. done.
Qed.

Lemma pm_bind {A B} (m : PM A) (f : A -> PM B) p : (m ≫= f) p = f (m p).1 (m p).2.
Proof. unfold mbind, PM_bind. by destruct (m p). Qed.

Lemma quiet_servers {A} (m : PM A) p : quiet m -> toServers (m p).2 = toServers p.
Proof. intros Hm. apply (calm_servers _ _ (Hm p)). Qed.

Lemma forward_writes ok id sc msg tool frame p :
  toServers (forward ok id sc msg tool frame p).2 = toServers p \/
  toServers (forward ok id sc msg tool frame p).2 = toServers p ++ [(id, sc, frame)].
Proof. unfold forward. rewrite pm_bind. cbn. case_match; [by left|by right]. Qed.

(** What has to be so for a frame to be written. *)
Definition passed (id frame fwd : bytes) (sc : Server) p : Prop :=
  exists msg tc ev w, let d := (EvaluateRequest e sink ev w).1 in
    decode_message frame = Some msg /\ Method msg = tools_call /\ ParseToolCallParams (Params msg) = Some tc /\
    toolRoute (runtime id p) !! Name tc = Some sc /\ failClosedActive p = false /\
    ieSessionID ev = id /\ ieToolName ev = Name tc /\ ieToolArgs ev = Arguments tc /\ ieServerID ev = svID sc /\
    store w = store (engine p) /\ Allow d = true /\
    (fwd = frame /\ (ForwardArgs d = None \/ ForwardArgs d = Some []) \/
     exists args, ForwardArgs d = Some args /\ replaceToolCallArguments frame args = Ret fwd).

Lemma call_writes ok id frame msg p :
  decode_message frame = Some msg -> Method msg = tools_call ->
  let p' := (dispatchToolsCall (Some e) sink ok id frame msg p).2 in
  toServers p' = toServers p \/ exists fwd sc, toServers p' = toServers p ++ [(id, sc, fwd)] /\ passed id frame fwd sc p.
Proof.
  intros Hm Hc. unfold dispatchToolsCall. destruct (ParseToolCallParams (Params msg)) as [tc|] eqn:Ep.
  2: { left. apply quiet_servers. quiet. }
  rewrite pm_bind. cbn [gets fst snd]. destruct (toolRoute (runtime id p) !! Name tc) as [sc|] eqn:Er.
  2: { left. apply quiet_servers. quiet. }
  rewrite pm_bind. pose proof (quiet_create id frame agent_to_server (svID sc) (svPID sc) p) as Hq.
  destruct (create_spec id frame agent_to_server (svID sc) (svPID sc) p) as (seq & now & w & Hw & _ & Eev & Een).
  revert Hq Een. rewrite Eev. destruct (event_call id seq now frame agent_to_server (svID sc) (svPID sc) msg tc Hm Hc Ep) as (H1' & H2' & H3' & H4').
  revert H1' H2' H3' H4'. generalize (event_of id seq now frame agent_to_server (svID sc) (svPID sc)) as ev.
  generalize (CreateEvent id frame agent_to_server (svID sc) (svPID sc) p).2 as q.
  intros q ev H1' H2' H3' H4' Hq Een. rewrite pm_bind. cbn [gets fst snd].
  pose proof (calm_servers _ _ Hq) as Hs. pose proof (calm_active _ _ Hq) as Ha.
  destruct (failClosedActive q) eqn:Ef.
  { left. rewrite <- Hs. apply quiet_servers. quiet. }
  rewrite pm_bind. set (d := (EvaluateRequest e sink ev w).1).
  assert (on_engine (EvaluateRequest e sink ev) q = (d, set_engine (EvaluateRequest e sink ev w).2 q)) as ->.
  { unfold on_engine, d. rewrite Een. by destruct (EvaluateRequest e sink ev w). }
  cbn [fst snd]. set (q' := set_engine _ q). assert (toServers q' = toServers p) as Hs' by exact Hs.
  destruct (negb (Allow d)) eqn:Eal; [left; rewrite <- Hs'; apply quiet_servers, quiet_block|]. apply negb_false_iff in Eal.
  set (fwd := match ForwardArgs d with Some (c :: args) => _ | _ => _ end).
  destruct fwd as [fwd'| |] eqn:Ew; [|by left|by left]. rewrite pm_bind.
  set (q2 := (logEvent (Some e) ev q').2). assert (toServers q2 = toServers p) as Hs2 by (rewrite <- Hs'; apply quiet_servers, quiet_log).
  destruct (forward_writes ok id sc msg (Name tc) fwd' q2) as [E|E]; rewrite E, Hs2; [by left|right].
  exists fwd', sc. split; [done|]. exists msg, tc, ev, w. cbv zeta. fold d. split_and!; try done; try congruence.
  unfold fwd in Ew. destruct (ForwardArgs d) as [[|c args]|]; [left; injection Ew as ->; auto| |left; injection Ew as ->; auto].
  right. by exists (c :: args).
Qed.

Lemma request_writes ok id frame p :
  let p' := (HandleAgentRequest (Some e) sink ok id frame p).2 in
  toServers p' = toServers p \/ exists fwd sc, toServers p' = toServers p ++ [(id, sc, fwd)] /\ passed id frame fwd sc p.
Proof.
  unfold HandleAgentRequest. rewrite pm_bind. cbn [gets fst snd].
  destruct (negb _); [by left|]. destruct (decode_message frame) as [msg|] eqn:Em; [|by left].
  destruct (IsNotification msg).
  { left. apply quiet_servers. quiet. }
  destruct (bool_decide (Method msg = gostr "initialize")); [left; apply quiet_servers; unfold dispatchInitialize; quiet|].
  destruct (bool_decide (Method msg = gostr "tools/list")); [left; apply quiet_servers; unfold dispatchToolsList; quiet|].
  case_bool_decide; [by apply call_writes|].
  destruct (bool_decide (Method msg = gostr "ping")); left; apply quiet_servers; unfold dispatchPing; quiet.
Qed.

(** ** The store stays well formed *)

Definition sound p : Prop := keyed p /\ store_ok (store (engine p)).

Definition safe {A} (m : PM A) : Prop := forall p, sound p -> sound (m p).2.

Lemma safe_ret {A} (a : A) : safe (mret a).
Proof. by intros p. Qed.

Lemma safe_bind {A B} (m : PM A) (f : A -> PM B) : safe m -> (forall a, safe (f a)) -> safe (m ≫= f).
Proof. intros Hm Hf p Hp. rewrite pm_bind. by apply Hf, Hm. Qed.

Lemma safe_gets {A} (f : Proxy -> A) : safe (gets f).
Proof. by intros p. Qed.

Lemma safe_engine {A} id (m : Engine.M A) : confines id m -> safe (on_engine m).
Proof.
  intros Hm p [Hk Hok]. unfold on_engine. destruct (Hm (engine p) Hok) as [Hs _]. revert Hs. by destruct (m (engine p)).
Qed.

Lemma safe_calm {A} (m : PM A) : (forall p, calm p (m p).2 /\ store (engine (m p).2) = store (engine p)) -> safe m.
Proof. intros Hm p [Hk Hs]. destruct (Hm p) as [[] E]. split; [auto|by rewrite E]. Qed.

Lemma safe_create id raw dir sid pid : safe (CreateEvent id raw dir sid pid).
Proof. apply safe_calm. intros p. split; [apply quiet_create|done]. Qed.

Lemma log_engine ev p :
  store (engine (logEvent (Some e) ev p).2) = store (engine p) /\ out (engine (logEvent (Some e) ev p).2) = out (engine p).
Proof.
  unfold logEvent, RedactEvent. rewrite pm_bind. unfold on_engine, mbind, M_bind, get_session. cbn.
  by destruct (Get (ieSessionID ev) (store (engine p))).
Qed.

Lemma safe_log ev : safe (logEvent (Some e) ev).
Proof. apply safe_calm. intros p. split; [apply quiet_log|apply log_engine]. Qed.

Lemma safe_runtime rt : safe (updates (set_runtime rt)).
Proof. intros p [Hk Hs]. split; [by apply keyed_set|done]. Qed.

Lemma safe_written id sc frame : safe (updates (add_written id sc frame)).
Proof. intros p Hp. exact Hp. Qed.

Lemma safe_answered frame : safe (updates (add_answered frame)).
Proof. intros p Hp. exact Hp. Qed.

Lemma safe_delivery n d : safe (updates (set_delivery n d)).
Proof. intros p Hp. exact Hp. Qed.

Lemma confines_world {A B} id (m : Engine.M A) (g : A -> B) : confines id (a ← m; mret (g a)) -> confines id m.
Proof. intros Hm w Hw. specialize (Hm w Hw). revert Hm. unfold mbind, M_bind. by destruct (m w). Qed.

Lemma safe_evaluate ev : safe (on_engine (EvaluateRequest e sink ev)).
Proof. eapply safe_engine, evaluate_confined. Qed.

Lemma safe_ingest ev : safe (on_engine (IngestResult e forwarding ev)).
Proof. eapply safe_engine, ingest_result_confined. Qed.

Lemma safe_vault id frame : safe (on_engine (VaultRewriteFrame e id frame)).
Proof. eapply safe_engine, confines_world. exact (perform_confined e sink audit (CallVaultRewrite id frame)). Qed.

Lemma safe_perform c : safe (on_engine (perform e sink audit c)).
Proof. eapply safe_engine, perform_confined. Qed.

Lemma safe_fail_closed active reason : safe (SetFailClosed active reason).
Proof. intros p Hp. exact Hp. Qed.

Create HintDb safe.
#[local] Hint Resolve safe_ret safe_gets safe_create safe_log safe_runtime safe_written safe_answered safe_delivery safe_evaluate safe_ingest
  safe_vault safe_perform safe_fail_closed : safe.
#[local] Ltac safe := repeat first [solve [eauto with safe] | apply safe_bind; [|intros] | case_match].

Lemma step_sound x p : sound p -> sound (perform_step (Some e) sink audit forwarding preferSSE stdio x p).2.
Proof.
  revert p. change (safe (perform_step (Some e) sink audit forwarding preferSSE stdio x)).
  destruct x; cbn [perform_step].
  - unfold HandleAgentRequest, dispatchInitialize, dispatchToolsList, dispatchPing, dispatchToolsCall, forward, block, answer, refuse. safe.
  - unfold read_server, receive. safe.
  - unfold deliverServerFrame, proceed, hand_over. safe.
  - unfold finish_call. safe.
  - safe.
  - safe.
  - safe.
  - safe.
Qed.

Abbreviation reached := (proxy_after (Some e) sink audit forwarding preferSSE stdio).

Lemma reached_snoc xs x : reached (xs ++ [x]) = (perform_step (Some e) sink audit forwarding preferSSE stdio x (reached xs)).2.
Proof. unfold proxy_after. by rewrite foldl_app. Qed.

Lemma reached_sound xs : sound (reached xs).
Proof.
  induction xs as [|x xs IH] using rev_ind; [split; [apply map_Forall_empty|exact start_ok]|].
  rewrite reached_snoc. by apply step_sound.
Qed.

(** ** Steps that write nothing *)

Definition keeps {X A} (f : Proxy -> X) (m : PM A) : Prop := forall p, f (m p).2 = f p.

Lemma keeps_part_ret {X A} (f : Proxy -> X) (a : A) : keeps f (mret a).
Proof. by intros p. Qed.

Lemma keeps_part_bind {X A B} (f : Proxy -> X) (m : PM A) (g : A -> PM B) : keeps f m -> (forall a, keeps f (g a)) -> keeps f (m ≫= g).
Proof. intros Hm Hg p. rewrite pm_bind. by rewrite Hg, Hm. Qed.

Lemma keeps_gets {X A} (f : Proxy -> X) (g : Proxy -> A) : keeps f (gets g).
Proof. by intros p. Qed.

Lemma keeps_updates {X} (f : Proxy -> X) (g : Proxy -> Proxy) : (forall p, f (g p) = f p) -> keeps f (updates g).
Proof. intros Hg p. apply Hg. Qed.

Lemma keeps_engine {X A} (f : Proxy -> X) (m : Engine.M A) : (forall w p, f (set_engine w p) = f p) -> keeps f (on_engine m).
Proof. intros Hf p. unfold on_engine. destruct (m (engine p)). apply Hf. Qed.

#[local] Ltac keeps :=
  repeat first [apply keeps_part_ret | apply keeps_gets | apply keeps_engine; done | apply keeps_updates; done
               | apply keeps_part_bind; [|intros] | case_match].

Lemma receive_servers id sc frame : keeps toServers (receive id sc frame).
Proof. unfold receive, CreateEvent. keeps. Qed.

Lemma read_servers n id sc frame : keeps toServers (read_server n id sc frame).
Proof. unfold read_server. apply keeps_part_bind; [keeps|]. intros [d|]; [keeps|]. apply keeps_part_bind; [apply receive_servers|keeps]. Qed.

Lemma deliver_servers n : keeps toServers (deliverServerFrame (Some e) forwarding stdio n).
Proof. unfold deliverServerFrame, proceed, hand_over, logEvent. keeps. Qed.

Lemma finish_writes timeout id call p : toServers (finish_call preferSSE timeout id call p).2 = toServers p.
Proof. unfold finish_call. rewrite pm_bind. cbn [gets fst snd]. by repeat case_match. Qed.

Lemma step_writes x p :
  let p' := (perform_step (Some e) sink audit forwarding preferSSE stdio x p).2 in
  toServers p' = toServers p \/
  exists ok id frame fwd sc, x = AgentFrame ok id frame /\ toServers p' = toServers p ++ [(id, sc, fwd)] /\ passed id frame fwd sc p.
Proof.
  destruct x as [ok id frame|n id sc frame|n|timeout id call|active reason|id|id name sc raw|c]; cbn [perform_step].
  - rewrite pm_bind. cbn. destruct (request_writes ok id frame p) as [E|(fwd & sc & E & Hp)]; [by left|right].
    by exists ok, id, frame, fwd, sc.
  - left. apply read_servers.
  - left. apply deliver_servers.
  - left. rewrite pm_bind. cbn. apply finish_writes.
  - by left.
  - by left.
  - by left.
  - left. apply quiet_servers, quiet_engine.
Qed.

(** ** A call that carries a tainted value *)

Lemma call_judged ok id frame msg tc sc p :
  keyed p -> decode_message frame = Some msg -> Method msg = tools_call -> ParseToolCallParams (Params msg) = Some tc ->
  toolRoute (runtime id p) !! Name tc = Some sc ->
  exists ev w, ieSessionID ev = id /\ ieToolName ev = Name tc /\ ieToolArgs ev = Arguments tc /\ ieServerID ev = svID sc /\
    store w = store (engine p) /\ out w = out (engine p) /\
    let d := (EvaluateRequest e sink ev w).1 in
    let r := dispatchToolsCall (Some e) sink ok id frame msg p in
    (failClosedActive p = true \/ Allow d = false ->
       exists reason, r.1 = Ret (inl (blocked (buildErrorResponse (msgID msg) jsonRPCServerError (blocked_by reason)))) /\
         toServers r.2 = toServers p) /\
    (failClosedActive p = false -> Allow d = false ->
       store (engine r.2) = store (EvaluateRequest e sink ev w).2 /\ out (engine r.2) = out (EvaluateRequest e sink ev w).2).
Proof.
  intros Hk Hm Hc Ep Er. destruct (create_spec id frame agent_to_server (svID sc) (svPID sc) p) as (seq & now & w & Hw & Ho & Eev & Een).
  destruct (event_call id seq now frame agent_to_server (svID sc) (svPID sc) msg tc Hm Hc Ep) as (H1' & H2' & H3' & H4').
  pose proof (quiet_create id frame agent_to_server (svID sc) (svPID sc) p) as Hq.
  exists (event_of id seq now frame agent_to_server (svID sc) (svPID sc)), w. do 6 (split; [done|]). cbv zeta.
  unfold dispatchToolsCall. rewrite Ep, pm_bind. cbn [gets fst snd]. rewrite Er, pm_bind. revert H1' H2' H3' H4' Hq Een. rewrite Eev.
  generalize (event_of id seq now frame agent_to_server (svID sc) (svPID sc)) as ev.
  generalize (CreateEvent id frame agent_to_server (svID sc) (svPID sc) p).2 as q. intros q ev _ _ _ _ Hq Een.
  rewrite pm_bind. cbn [gets fst snd]. pose proof (calm_servers _ _ Hq) as Hs. rewrite <- (calm_active _ _ Hq).
  assert (forall reason q', block (Some e) msg ev reason q' =
    (Ret (inl (blocked (buildErrorResponse (msgID msg) jsonRPCServerError (blocked_by reason)))), (logEvent (Some e) (set_decision reason ev) q').2)) as Hb
    by (intros; unfold block; by rewrite pm_bind).
  destruct (failClosedActive q).
  { split; [|done]. intros _. rewrite pm_bind. cbn [gets fst snd]. rewrite Hb.
    exists (gostr "fail_closed: " ++ failClosedReason q). cbn [fst snd]. split; [reflexivity|].
    rewrite <- Hs. apply quiet_servers, quiet_log. }
  rewrite pm_bind. destruct (EvaluateRequest e sink ev w) as [d w'] eqn:Ed.
  assert (on_engine (EvaluateRequest e sink ev) q = (d, set_engine w' q)) as -> by (unfold on_engine; by rewrite Een, Ed).
  cbn [fst snd].
  split.
  - intros [?|Ha]; [done|]. rewrite Ha. cbn [negb]. rewrite Hb. exists (Reason d). cbn [fst snd]. split; [reflexivity|].
    etransitivity; [apply quiet_servers, quiet_log|exact Hs].
  - intros _ Ha. rewrite Ha. cbn [negb]. rewrite Hb. cbn [snd]. apply log_engine.
Qed.

(** ** Calls in flight *)

Definition waits rt := (pending rt, syncWait rt, channels rt, started rt).

(** A call that is waited for under an ID is entered under that ID, with its tool. *)
Record waits_ok rt : Prop := {
  wo_wait k c : syncWait rt !! k = Some c ->
    (c < started rt)%nat /\ is_Some (pending rt !! k) /\ (forall k' o, channels rt !! c = Some (k', o) -> k' = k);
  wo_channel c x : channels rt !! c = Some x -> (c < started rt)%nat }.

Lemma waits_ok_eq rt rt' : waits rt' = waits rt -> waits_ok rt -> waits_ok rt'.
Proof. intros [= E1 E2 E3 E4] []. constructor; rewrite ?E1, ?E2, ?E3, ?E4; eauto. Qed.

Lemma calls_waits rt rt' : calls_of rt' = calls_of rt -> waits rt' = waits rt.
Proof. unfold calls_of, waits. congruence. Qed.

Lemma new_waits id : waits_ok (new_runtime id).
Proof. constructor; cbn; [intros k c|intros c x]; by rewrite lookup_empty. Qed.

Lemma start_waits k tool rt : waits_ok rt -> waits_ok (start_call k tool rt).
Proof.
  intros [Hw Hc]. constructor; cbn; [intros k' c|intros c x].
  - destruct (decide (k' = k)) as [->|Hne].
    + rewrite !lookup_insert_eq. intros [= <-]. split; [lia|]. split; [by eexists|]. intros k' o. rewrite lookup_insert_eq. congruence.
    + rewrite !lookup_insert_ne by done. intros Hk. destruct (Hw k' c Hk) as (? & ? & ?). split; [lia|]. split; [done|].
      intros k2 o. rewrite lookup_insert_ne by lia. eauto.
  - destruct (decide (c = started rt)) as [->|Hne]; [lia|]. rewrite lookup_insert_ne by done. intros Hx%Hc. lia.
Qed.

Lemma end_waits k c rt : waits_ok rt -> waits_ok (end_call k c rt).
Proof.
  intros [Hw Hc]. constructor; cbn; [intros k' c'|intros c' x].
  - intros [Hk Hs]%lookup_delete_Some. destruct (Hw k' c' Hs) as (? & ? & ?). rewrite lookup_delete_ne by done.
    split; [done|]. split; [done|]. intros k2 o [_ ?]%lookup_delete_Some. eauto.
  - intros [_ ?]%lookup_delete_Some. eauto.
Qed.

Lemma answer_waits k k' c f rt :
  waits_ok rt -> syncWait rt !! k = Some c -> channels rt !! c = Some (k', None) -> k' = k /\ waits_ok (set_channel c (k', Some f) rt).
Proof.
  intros [Hw Hc] Hk Hx. destruct (Hw k c Hk) as (Hlt & Hp & He). pose proof (He _ _ Hx) as ->. split; [done|].
  constructor; cbn; [intros k2 c2 Hk2|intros c2 x].
  - destruct (Hw k2 c2 Hk2) as (? & ? & He2). split; [done|]. split; [done|]. intros k3 o.
    destruct (decide (c2 = c)) as [->|Hne]; [rewrite lookup_insert_eq; intros [= <- <-]; by eapply He2|].
    rewrite lookup_insert_ne by done. eauto.
  - destruct (decide (c2 = c)) as [->|Hne]; [done|]. rewrite lookup_insert_ne by done. eauto.
Qed.

Lemma keyed_start k tool rt : rtID (start_call k tool rt) = rtID rt.
Proof. done. Qed.

(** What a request does to the calls of its session. *)
Definition request_effect rt rt' : Prop :=
  waits rt' = waits rt \/
  exists k tool, waits rt' = waits (start_call k tool rt) \/ waits rt' = waits (end_call k (started rt) (start_call k tool rt)).

Definition calls_changed id (R : SessionRuntime -> SessionRuntime -> Prop) p p' : Prop :=
  forall id', (id' = id -> R (runtime id p) (runtime id p')) /\ (id' ≠ id -> waits (runtime id' p') = waits (runtime id' p)).

Lemma calm_changed id p p' : keyed p -> calm p p' -> calls_changed id request_effect p p'.
Proof.
  intros Hk Hc id'. split; intros _; [left|]; by apply calls_waits, (calm_calls _ _ Hc).
Qed.

Lemma forward_spec ok id sc msg tool frame p :
  let q := set_runtime (start_call (msgID msg) tool (runtime id p)) p in
  (forward ok id sc msg tool frame p).2 =
    if (maxFrameSize <? len frame) || negb ok
    then set_runtime (end_call (msgID msg) (started (runtime id p)) (runtime id q)) q
    else add_written id sc frame q.
Proof. unfold forward. cbv [mbind PM_bind gets updates mret PM_ret]. by destruct ((maxFrameSize <? len frame) || negb ok). Qed.

Lemma forward_changed ok id sc msg tool frame p :
  keyed p -> calls_changed id request_effect p (forward ok id sc msg tool frame p).2.
Proof.
  intros Hk. pose proof (rtID_runtime id p Hk) as Hid. rewrite forward_spec. set (q := set_runtime _ p).
  assert (runtime id q = start_call (msgID msg) tool (runtime id p)) as Hq
    by (unfold q; rewrite runtime_set; cbn [rtID start_call]; by rewrite Hid, decide_True).
  assert (forall id', id' ≠ id -> runtime id' q = runtime id' p) as Hne.
  { intros id' Hne. unfold q. rewrite runtime_set. cbn [rtID start_call]. by rewrite Hid, decide_False by congruence. }
  destruct ((maxFrameSize <? len frame) || negb ok); intros id'; (split; [intros ->; right; exists (msgID msg), tool|intros Hne']).
  - right. rewrite runtime_set, Hq. cbn [rtID end_call start_call]. by rewrite Hid, decide_True.
  - rewrite runtime_set, Hq. cbn [rtID end_call start_call]. rewrite Hid, decide_False by congruence. by rewrite Hne.
  - left. change (runtime id (add_written id sc frame q)) with (runtime id q). by rewrite Hq.
  - change (runtime id' (add_written id sc frame q)) with (runtime id' q). by rewrite Hne.
Qed.

Lemma changed_after_calm id p q p' :
  keyed p -> calm p q -> calls_changed id request_effect q p' -> calls_changed id request_effect p p'.
Proof.
  intros Hk Hc Hch id'. destruct (Hch id') as [H1' H2']. split.
  - intros ->. specialize (H1' eq_refl). pose proof (calm_calls _ _ Hc id Hk) as E. unfold request_effect in *.
    injection E as E1 E2 E3 E4 E5. unfold waits in *. cbn in *. by rewrite E2, E3, E4, E5 in H1'.
  - intros Hne. rewrite (H2' Hne). by apply calls_waits, (calm_calls _ _ Hc).
Qed.

Lemma request_changed ok id frame p :
  keyed p -> calls_changed id request_effect p (HandleAgentRequest (Some e) sink ok id frame p).2.
Proof.
  assert (forall A (m : PM A) p, quiet m -> keyed p -> calls_changed id request_effect p (m p).2) as Hq
    by (intros A m q Hm Hk; by apply calm_changed).
  intros Hk. unfold HandleAgentRequest. rewrite pm_bind. cbn [gets fst snd].
  destruct (negb _); [by apply calm_changed|]. destruct (decode_message frame) as [msg|]; [|by apply calm_changed].
  destruct (IsNotification msg); [apply Hq; [quiet|done]|].
  destruct (bool_decide (Method msg = gostr "initialize")); [apply Hq; [unfold dispatchInitialize; quiet|done]|].
  destruct (bool_decide (Method msg = gostr "tools/list")); [apply Hq; [unfold dispatchToolsList; quiet|done]|].
  destruct (bool_decide (Method msg = tools_call)).
  2: { destruct (bool_decide (Method msg = gostr "ping")); (apply Hq; [unfold dispatchPing; quiet|done]). }
  unfold dispatchToolsCall. destruct (ParseToolCallParams (Params msg)) as [tc|]; [|apply Hq; [quiet|done]].
  rewrite pm_bind. cbn [gets fst snd]. destruct (toolRoute (runtime id p) !! Name tc) as [sc|]; [|apply Hq; [quiet|done]].
  assert (forall A (m : PM A) (f : A -> PM outcome) p, quiet m -> keyed p ->
    (forall a q, keyed q -> calls_changed id request_effect q (f a q).2) -> calls_changed id request_effect p ((m ≫= f) p).2) as Hb.
  { intros A m f q Hm Hkq Hf. rewrite pm_bind. eapply changed_after_calm; [done|apply Hm|]. apply Hf. by apply (calm_keyed _ _ (Hm q)). }
  apply Hb; [quiet|done|]. intros ev q Hkq. apply Hb; [quiet|done|]. intros [] q1 Hkq1; [apply Hq; [quiet|done]|].
  apply Hb; [quiet|done|]. intros d q2 Hkq2. destruct (negb (Allow d)); [apply Hq; [quiet|done]|].
  destruct (match ForwardArgs d with Some (c :: args) => _ | _ => _ end); [|by apply calm_changed..].
  apply Hb; [quiet|done|]. intros [] q3 Hkq3. by apply forward_changed.
Qed.

(** ** Frames of servers *)

(** What the event of a server's frame says, the call looked up in [p]. *)
Definition frame_event id (sc : Server) frame p (ev : InterceptedEvent) : Prop :=
  ieSessionID ev = id /\ ieServerID ev = svID sc /\
  forall msg, decode_message frame = Some msg -> IsResponse msg = true ->
    ieResult ev = msgResult msg /\ ieToolName ev = default [] (pending (runtime id p) !! msgID msg).

(** A response has no method, so its own event names no tool. *)
Lemma response_event id seq now frame dir sid pid msg :
  decode_message frame = Some msg -> IsResponse msg = true ->
  ieResult (event_of id seq now frame dir sid pid) = msgResult msg /\ ieToolName (event_of id seq now frame dir sid pid) = [].
Proof.
  intros Hm Hi. unfold event_of. rewrite Hm. cbn [ieResult ieToolName mbind option_bind]. rewrite Hi.
  unfold IsResponse in Hi. apply bool_decide_eq_true in Hi. rewrite Hi. by rewrite bool_decide_eq_false_2.
Qed.

Lemma receive_spec id sc frame p :
  keyed p ->
  let '(d, p') := receive id sc frame p in
  calm p p' /\ deliveries p' = deliveries p /\ dlSession d = id /\ dlServer d = sc /\ dlKey d = response_key frame /\ dlFrame d = frame /\
  dlStage d = Looked /\ frame_event id sc frame p (dlEvent d).
Proof.
  intros Hk. unfold receive. rewrite pm_bind.
  destruct (create_spec id frame server_to_agent (svID sc) (svPID sc) p) as (seq & now & w & _ & _ & Eev & _).
  pose proof (quiet_create id frame server_to_agent (svID sc) (svPID sc) p) as Hq. rewrite Eev. clear Eev.
  assert (deliveries (CreateEvent id frame server_to_agent (svID sc) (svPID sc) p).2 = deliveries p) as Hd by (unfold CreateEvent; keeps).
  revert Hq Hd. generalize (CreateEvent id frame server_to_agent (svID sc) (svPID sc) p).2 as q. intros q Hq Hd.
  rewrite pm_bind. cbn [gets fst snd]. split; [exact Hq|]. cbn [dlSession dlServer dlKey dlEvent dlFrame dlStage].
  do 6 (split; [done|]). pose proof (calm_calls _ _ Hq id Hk) as E. unfold calls_of in E. injection E as _ Ep _ _ _. rewrite Ep.
  split_and!; [by destruct (k ← response_key frame; _)..|]. intros msg Hm Hi.
  destruct (response_event id seq now frame server_to_agent (svID sc) (svPID sc) msg Hm Hi) as [E1 E2].
  unfold response_key. rewrite Hm. cbn [mbind option_bind]. rewrite Hi. cbn [mbind option_bind].
  by destruct (pending (runtime id p) !! msgID msg).
Qed.

Lemma vault_store id frame (w : World) : store (VaultRewriteFrame e id frame w).2 = store w.
Proof.
  unfold VaultRewriteFrame. destruct (_ || _); [done|]. unfold mbind, M_bind, get_session. by destruct (Get id (store w)).
Qed.

(** The stages before the last leave the calls alone. *)
Lemma quiet_proceed d : dlStage d ≠ Logged -> quiet (proceed (Some e) forwarding stdio d).
Proof. intros Hs. unfold proceed. destruct (dlStage d); [..|done]; quiet. Qed.

(** The last one fills the channel of the call entered under the ID. *)
Lemma hand_over_changed id key f p :
  keyed p -> waits_ok (runtime id p) ->
  let p' := (hand_over stdio id key f p).2 in
  (forall id', id' ≠ id -> waits (runtime id' p') = waits (runtime id' p)) /\
  (waits (runtime id p') = waits (runtime id p) \/
   exists k c, key = Some k /\ syncWait (runtime id p) !! k = Some c /\ channels (runtime id p) !! c = Some (k, None) /\
     waits (runtime id p') = waits (set_channel c (k, Some f) (runtime id p))).
Proof.
  intros Hk Hok. unfold hand_over. rewrite pm_bind. cbn [gets fst snd]. pose proof (rtID_runtime id p Hk) as Hid.
  destruct (k ← key; call ← syncWait (runtime id p) !! k; x ← channels (runtime id p) !! call; Some (call, x)) as [[c [k' [g|]]]|] eqn:E.
  1,3: case_match; (split; [done|by left]).
  destruct key as [k|]; [|done]. cbn [mbind option_bind] in E.
  destruct (syncWait (runtime id p) !! k) as [c0|] eqn:Es; [|done]. cbn [mbind option_bind] in E.
  destruct (channels (runtime id p) !! c0) as [x0|] eqn:Ex; [|done]. injection E as -> ->.
  destruct (answer_waits k k' c f _ Hok Es Ex) as [-> _]. cbn [updates fst snd]. split.
  - intros id' Hne. rewrite runtime_set. cbn [rtID set_channel]. by rewrite Hid, decide_False by congruence.
  - right. exists k, c. split; [done|]. split; [done|]. split; [done|].
    rewrite runtime_set. cbn [rtID set_channel]. by rewrite Hid, decide_True.
Qed.

(** A delivery that is at its end. *)
Definition at_end id n p (d : Delivery) (k : bytes) : Prop :=
  deliveries p !! n = Some d /\ dlStage d = Logged /\ dlSession d = id /\ dlKey d = Some k /\ k ≠ [].

(** ** Over a run *)


Lemma set_other id rt p id' : keyed p -> rtID rt = id -> id' ≠ id -> waits (runtime id' (set_runtime rt p)) = waits (runtime id' p).
Proof. intros Hk Hid Hne. rewrite runtime_set, Hid. by rewrite decide_False by congruence. Qed.

(** What a step does to the calls in flight of a session. *)
Definition step_effect x id p p' : Prop :=
  waits (runtime id p') = waits (runtime id p) \/ waits (runtime id p') = waits (new_runtime id) \/
  request_effect (runtime id p) (runtime id p') \/
  (exists k c, waits (runtime id p') = waits (end_call k c (runtime id p))) \/
  (exists n d k c, x = Deliver n /\ at_end id n p d k /\ syncWait (runtime id p) !! k = Some c /\
     channels (runtime id p) !! c = Some (k, None) /\
     waits (runtime id p') = waits (set_channel c (k, Some (dlFrame d)) (runtime id p))).

Lemma deliver_changed n id p :
  keyed p -> (forall id, waits_ok (runtime id p)) ->
  step_effect (Deliver n) id p (deliverServerFrame (Some e) forwarding stdio n p).2.
Proof.
  intros Hk Hok. unfold deliverServerFrame. rewrite pm_bind. cbn [gets fst snd].
  destruct (deliveries p !! n) as [d|] eqn:Ed; [|by left]. rewrite pm_bind. cbn [updates snd].
  assert (forall q, waits (runtime id (set_delivery n (proceed (Some e) forwarding stdio d p).1 q)) = waits (runtime id q)) as E by done.
  unfold step_effect. rewrite E. clear E. destruct (decide (dlStage d = Logged)) as [Es|Hne].
  2: { left. by apply calls_waits, (calm_calls _ _ (quiet_proceed d Hne p)). }
  unfold proceed. rewrite Es, pm_bind. cbn [mret PM_ret snd].
  destruct (hand_over_changed (dlSession d) (match dlKey d with Some [] => None | key => key end) (dlFrame d) p Hk (Hok _)) as [Ho Hs].
  destruct (decide (id = dlSession d)) as [->|Hne]; [|left; auto].
  destruct Hs as [?|(k & c & Ek & ? & ? & ?)]; [by left|]. right. right. right. right. exists n, d, k, c.
  assert (dlKey d = Some k /\ k ≠ []) as [? ?] by (destruct (dlKey d) as [[|]|]; [done|injection Ek as <-; done|done]).
  by split_and!.
Qed.

Lemma read_changed n id sc frame p id' :
  keyed p -> waits (runtime id' (read_server n id sc frame p).2) = waits (runtime id' p).
Proof.
  intros Hk. unfold read_server. rewrite pm_bind. cbn [gets fst snd]. destruct (deliveries p !! n); [done|]. rewrite pm_bind.
  pose proof (receive_spec id sc frame p Hk) as Hr. destruct (receive id sc frame p) as [d q]. destruct Hr as [Hq _].
  cbn [updates fst snd]. change (waits (runtime id' q) = waits (runtime id' p)). by apply calls_waits, (calm_calls _ _ Hq).
Qed.

Lemma step_changed x id p :
  keyed p -> (forall id, waits_ok (runtime id p)) ->
  step_effect x id p (perform_step (Some e) sink audit forwarding preferSSE stdio x p).2.
Proof.
  intros Hk Hok. destruct x as [ok i frame|n i sc frame|n|timeout i call|active reason|i|i name sc raw|c]; cbn [perform_step];
    [|left; by apply read_changed|by apply deliver_changed|..]; unfold step_effect.
  - rewrite pm_bind. cbn. destruct (request_changed ok i frame p Hk id) as [H1' H2'].
    destruct (decide (id = i)) as [->|Hne]; [right; right; left; auto|left; auto].
  - rewrite pm_bind. unfold finish_call. rewrite pm_bind. cbn [gets fst snd].
    destruct (channels (runtime i p) !! call) as [[k o]|]; [|by left].
    assert (step_effect (FinishCall timeout i call) id p (set_runtime (end_call k call (runtime i p)) p)) as Hend.
    { destruct (decide (id = i)) as [->|Hne].
      - right. right. right. left. exists k, call. rewrite runtime_set. cbn [rtID end_call]. by rewrite rtID_runtime, decide_True.
      - left. apply (set_other i); [done|cbn; by apply rtID_runtime|done]. }
    destruct timeout; [exact Hend|]. destruct o; [exact Hend|by left].
  - by left.
  - cbn [updates snd]. destruct (decide (id = i)) as [->|Hne].
    + right. left. rewrite runtime_set. by rewrite decide_True.
    + left. by apply (set_other i).
  - rewrite pm_bind. cbn [gets updates fst snd]. left.
    assert (rtID (registerTool name i sc raw (runtime i p)).2 = i) as Hid
      by (unfold registerTool; destruct (toolRoute (runtime i p) !! name); cbn; by apply rtID_runtime).
    destruct (decide (id = i)) as [->|Hne]; [|by apply (set_other i)].
    rewrite runtime_set, Hid, decide_True by done. unfold registerTool. by destruct (toolRoute (runtime i p) !! name).
  - left. by apply calls_waits, (calm_calls _ _ (quiet_engine _ p)).
Qed.

Lemma step_effect_ok x id p p' : step_effect x id p p' -> waits_ok (runtime id p) -> waits_ok (runtime id p').
Proof.
  intros [E|[E|[[E|(k & t & [E|E])]|[(k & c & E)|(n & d & k & c & _ & _ & Hs & Hc & E)]]]] Hok.
  - by eapply waits_ok_eq.
  - eapply waits_ok_eq, new_waits. exact E.
  - by eapply waits_ok_eq.
  - eapply waits_ok_eq; [exact E|]. by apply start_waits.
  - eapply waits_ok_eq; [exact E|]. by apply end_waits, start_waits.
  - eapply waits_ok_eq; [exact E|]. by apply end_waits.
  - eapply waits_ok_eq; [exact E|]. by apply (answer_waits k k c).
Qed.

Lemma reached_waits xs id : waits_ok (runtime id (reached xs)).
Proof.
  revert id. induction xs as [|x xs IH] using rev_ind; intros id; [apply new_waits|]. rewrite reached_snoc.
  eapply step_effect_ok; [apply step_changed; [apply reached_sound|exact IH]|apply IH].
Qed.

(** What a channel holds was there before, or has just been put there. *)
Lemma effect_channel x id p p' c k f :
  step_effect x id p p' -> channels (runtime id p') !! c = Some (k, Some f) ->
  channels (runtime id p) !! c = Some (k, Some f) \/
  exists n d, x = Deliver n /\ at_end id n p d k /\ dlFrame d = f /\ syncWait (runtime id p) !! k = Some c.
Proof.
  intros He Hc.
  assert (forall rt, waits (runtime id p') = waits rt -> channels rt !! c = Some (k, Some f)) as Hch
    by (intros rt [= _ _ E _]; by rewrite <- E).
  destruct He as [E|[E|[[E|(k' & t & [E|E])]|[(k' & c' & E)|(n & d & k' & c' & -> & Ha & Hs & _ & E)]]]];
    apply Hch in E; cbn in E.
  - by left.
  - by rewrite lookup_empty in E.
  - by left.
  - left. destruct (decide (c = started (runtime id p))) as [->|]; [by rewrite lookup_insert_eq in E|by rewrite lookup_insert_ne in E].
  - left. apply lookup_delete_Some in E as [Hne E]. by rewrite lookup_insert_ne in E.
  - left. by apply lookup_delete_Some in E as [_ E].
  - destruct (decide (c = c')) as [->|]; [|left; by rewrite lookup_insert_ne in E].
    right. rewrite lookup_insert_eq in E. injection E as -> <-. by exists n, d.
Qed.

(** ** Where what is handed over comes from *)

(** The state before step [i] of a run. *)
Definition state_before (xs : list proxy_step) (i : nat) : Proxy := reached (take i xs).

Lemma state_before_snoc xs x i : (i <= length xs)%nat -> state_before (xs ++ [x]) i = state_before xs i.
Proof. intros Hi. unfold state_before. by rewrite take_app_le. Qed.

Lemma state_before_all xs : state_before xs (length xs) = reached xs.
Proof. unfold state_before. by rewrite take_ge. Qed.

Lemma lookup_snoc (xs : list proxy_step) x y i : xs !! i = Some y -> (xs ++ [x]) !! i = Some y /\ (i < length xs)%nat.
Proof. intros E. split; [by apply lookup_app_l_Some|by eapply lookup_lt_Some]. Qed.

(** Step [j] of a run is reader [n]'s ingestion of [ev]; step [k] its rewriting of [frame] to [f]. *)
Definition ingests xs j n ev : Prop :=
  xs !! j = Some (Deliver n) /\ engine (state_before xs (S j)) = (IngestResult e forwarding ev (engine (state_before xs j))).2.
Definition rewrites xs k n id frame f : Prop :=
  xs !! k = Some (Deliver n) /\ f = (VaultRewriteFrame e id frame (engine (state_before xs k))).1.

Lemma ingests_snoc xs x j n ev : ingests xs j n ev -> ingests (xs ++ [x]) j n ev.
Proof. intros [[Hx Hlt]%(lookup_snoc _ x) E]. split; [done|]. by rewrite !state_before_snoc by lia. Qed.

Lemma rewrites_snoc xs x k n id frame f : rewrites xs k n id frame f -> rewrites (xs ++ [x]) k n id frame f.
Proof. intros [[Hx Hlt]%(lookup_snoc _ x) E]. split; [done|]. by rewrite state_before_snoc by lia. Qed.

(** The frame's result was ingested, then the frame rewritten to [f]. *)
Definition treated xs i n id frame ev f : Prop :=
  ieToolName ev ≠ [] /\ exists j k, (i < j < k)%nat /\ ingests xs j n ev /\ rewrites xs k n id frame f.

Lemma treated_snoc xs x i n id frame ev f : treated xs i n id frame ev f -> treated (xs ++ [x]) i n id frame ev f.
Proof. intros (Hn & j & k & Hlt & Hj & Hk). split; [done|]. exists j, k. by eauto using ingests_snoc, rewrites_snoc. Qed.

(** The event [ev] is the one of the frame that reader [n] got at step [i]. *)
Definition begun xs i n id sc frame ev : Prop :=
  xs !! i = Some (ServerFrame n id sc frame) /\ frame_event id sc frame (state_before xs i) ev.

Lemma begun_snoc xs x i n id sc frame ev : begun xs i n id sc frame ev -> begun (xs ++ [x]) i n id sc frame ev.
Proof. intros [[Hx Hlt]%(lookup_snoc _ x) E]. split; [done|]. by rewrite state_before_snoc by lia. Qed.

(** What a delivery has behind it. *)
Definition delivery_ok xs n (d : Delivery) : Prop :=
  exists i frame, begun xs i n (dlSession d) (dlServer d) frame (dlEvent d) /\ dlKey d = response_key frame /\
  match dlStage d with
  | Looked => dlFrame d = frame
  | Ingested => dlFrame d = frame /\ ieToolName (dlEvent d) ≠ [] /\ exists j, (i < j)%nat /\ ingests xs j n (dlEvent d)
  | Rewritten => treated xs i n (dlSession d) frame (dlEvent d) (dlFrame d)
  | Logged => ieToolName (dlEvent d) = [] /\ dlFrame d = frame \/ treated xs i n (dlSession d) frame (dlEvent d) (dlFrame d)
  end.

Lemma delivery_snoc xs x n d : delivery_ok xs n d -> delivery_ok (xs ++ [x]) n d.
Proof.
  intros (i & frame & Hb & Hk & Hs). exists i, frame. split; [by apply begun_snoc|]. split; [done|].
  destruct (dlStage d); [done| |by apply treated_snoc|].
  - destruct Hs as (? & ? & j & ? & ?). split; [done|]. split; [done|]. exists j. by eauto using ingests_snoc.
  - destruct Hs as [?|?]; [by left|right; by apply treated_snoc].
Qed.

(** One stage further. *)
Lemma proceed_ok xs n d d' :
  deliveries (reached xs) !! n = Some d -> delivery_ok xs n d ->
  (proceed (Some e) forwarding stdio d (reached xs)).1 = Some d' -> delivery_ok (xs ++ [Deliver n]) n d'.
Proof.
  intros Hd (i & frame & Hb & Hkey & Hs) Hp. pose proof (lookup_lt_Some _ _ _ (proj1 Hb)) as Hi.
  assert (forall s f, dlSession (at_stage s f d) = dlSession d /\ dlServer (at_stage s f d) = dlServer d /\
    dlEvent (at_stage s f d) = dlEvent d /\ dlKey (at_stage s f d) = dlKey d /\ dlFrame (at_stage s f d) = f /\ dlStage (at_stage s f d) = s)
    as Hat by done.
  assert ((xs ++ [Deliver n]) !! length xs = Some (Deliver n)) as Hx by (by apply list_lookup_middle).
  assert (state_before (xs ++ [Deliver n]) (length xs) = reached xs) as Hbx by (by rewrite state_before_snoc, state_before_all).
  assert (state_before (xs ++ [Deliver n]) (S (length xs)) = (deliverServerFrame (Some e) forwarding stdio n (reached xs)).2) as Hax.
  { unfold state_before. rewrite take_ge by (rewrite length_app; cbn; lia). by rewrite reached_snoc. }
  unfold delivery_ok. exists i, frame. unfold proceed in Hp, Hax. unfold deliverServerFrame in Hax.
  rewrite pm_bind in Hax. cbn [gets fst snd] in Hax. rewrite Hd, pm_bind in Hax. unfold proceed in Hax.
  destruct (dlStage d) eqn:Es.
  - destruct (decide (ieToolName (dlEvent d) = [])) as [Hn|Hn].
    + rewrite bool_decide_eq_false_2, pm_bind in Hp by (by intros []). injection Hp as <-. cbn [at_stage dlSession dlServer dlEvent dlKey dlFrame dlStage].
      split; [by apply begun_snoc|]. split; [done|]. by left.
    + rewrite bool_decide_eq_true_2, pm_bind in Hp by done. injection Hp as <-. cbn [at_stage dlSession dlServer dlEvent dlKey dlFrame dlStage].
      split; [by apply begun_snoc|]. split; [done|]. split; [done|]. split; [done|]. exists (length xs). split; [done|]. split; [done|].
      rewrite Hax, Hbx, bool_decide_eq_true_2, pm_bind by done. unfold on_engine. by destruct (IngestResult _ _ _ _).
  - destruct Hs as (Hf & Hn & j & Hj & Hin). rewrite pm_bind in Hp. injection Hp as <-. cbn [at_stage dlSession dlServer dlEvent dlKey dlFrame dlStage].
    split; [by apply begun_snoc|]. split; [done|]. split; [done|]. exists j, (length xs).
    split; [pose proof (lookup_lt_Some _ _ _ (proj1 Hin)); lia|]. split; [by apply ingests_snoc|]. split; [done|].
    rewrite Hbx, <- Hf. unfold on_engine. by destruct (VaultRewriteFrame _ _ _ _).
  - rewrite pm_bind in Hp. injection Hp as <-. cbn [at_stage dlSession dlServer dlEvent dlKey dlFrame dlStage].
    split; [by apply begun_snoc|]. split; [done|]. right. by apply treated_snoc.
  - rewrite pm_bind in Hp. done.
Qed.

Lemma request_deliveries ok id frame : keeps deliveries (HandleAgentRequest (Some e) sink ok id frame).
Proof.
  unfold HandleAgentRequest, dispatchInitialize, dispatchToolsList, dispatchPing, dispatchToolsCall, forward, block, answer, refuse, logEvent, CreateEvent.
  keeps.
Qed.

Lemma proceed_deliveries d : keeps deliveries (proceed (Some e) forwarding stdio d).
Proof. unfold proceed, hand_over, logEvent. keeps. Qed.

(** The deliveries after a step. *)
Lemma step_deliveries x xs n d :
  deliveries (reached (xs ++ [x])) !! n = Some d ->
  deliveries (reached xs) !! n = Some d \/
  (exists id sc frame, x = ServerFrame n id sc frame /\ d = (receive id sc frame (reached xs)).1) \/
  x = Deliver n /\ exists d0, deliveries (reached xs) !! n = Some d0 /\ (proceed (Some e) forwarding stdio d0 (reached xs)).1 = Some d.
Proof.
  rewrite reached_snoc. set (p := reached xs). destruct x as [ok i frame|m i sc frame|m|timeout i call|active reason|i|i name sc raw|c]; cbn [perform_step].
  - rewrite pm_bind. cbn [mret PM_ret snd]. rewrite (request_deliveries ok i frame p). by left.
  - unfold read_server. rewrite pm_bind. cbn [gets fst snd]. destruct (deliveries p !! m) eqn:Em; [by left|]. rewrite pm_bind.
    pose proof (receive_spec i sc frame p (proj1 (reached_sound xs))) as Hr. destruct (receive i sc frame p) as [d0 q] eqn:Er.
    destruct Hr as (_ & Hq & _). cbn [updates fst snd set_delivery deliveries]. destruct (decide (n = m)) as [->|Hne].
    + rewrite lookup_partial_alter_eq. intros [= <-]. right. left. exists i, sc, frame. by rewrite Er.
    + rewrite lookup_partial_alter_ne, Hq by done. by left.
  - unfold deliverServerFrame. rewrite pm_bind. cbn [gets fst snd]. destruct (deliveries p !! m) as [d0|] eqn:Em; [|by left]. rewrite pm_bind.
    pose proof (proceed_deliveries d0 p) as Hq.
    cbn [updates fst snd set_delivery deliveries]. destruct (decide (n = m)) as [->|Hne].
    + rewrite lookup_partial_alter_eq. intros Hd. right. right. split; [done|]. by exists d0.
    + rewrite lookup_partial_alter_ne, Hq by done. by left.
  - rewrite pm_bind. cbn [mret PM_ret snd]. assert (keeps deliveries (finish_call preferSSE timeout i call)) as E by (unfold finish_call; keeps).
    rewrite (E p). by left.
  - by left.
  - by left.
  - by left.
  - assert (keeps deliveries (on_engine (perform e sink audit c))) as E by keeps. rewrite (E p). by left.
Qed.

Lemma reached_deliveries xs n d : deliveries (reached xs) !! n = Some d -> delivery_ok xs n d.
Proof.
  revert n d. induction xs as [|x xs IH] using rev_ind; intros n d; [by cbn; rewrite lookup_empty|].
  intros [Hd|[(id & sc & frame & -> & ->)|(-> & d0 & Hd & Hp)]]%step_deliveries.
  - by apply delivery_snoc, IH.
  - pose proof (receive_spec id sc frame (reached xs) (proj1 (reached_sound xs))) as Hr.
    destruct (receive id sc frame (reached xs)) as [d q]. destruct Hr as (_ & _ & <- & <- & Hk & Hf & Hs & Hev). cbn [fst].
    exists (length xs), frame. split; [|by rewrite Hs]. split; [by apply list_lookup_middle|]. by rewrite state_before_snoc, state_before_all.
  - by eapply proceed_ok; [|apply IH|].
Qed.

(** The answer of a call: the frame, delivered from step [i] to step [h]. *)
Definition answer_from xs i h n id sc frame ev (c : nat) (k f : bytes) : Prop :=
  begun xs i n id sc frame ev /\ response_key frame = Some k /\ k ≠ [] /\ xs !! h = Some (Deliver n) /\
  syncWait (runtime id (state_before xs h)) !! k = Some c /\
  (ieToolName ev = [] /\ f = frame \/
   ieToolName ev ≠ [] /\ exists j l, (i < j < l)%nat /\ (l < h)%nat /\ ingests xs j n ev /\ rewrites xs l n id frame f).

Lemma answer_snoc xs x i h n id sc frame ev c k f :
  answer_from xs i h n id sc frame ev c k f -> answer_from (xs ++ [x]) i h n id sc frame ev c k f.
Proof.
  intros (Hb & Hk & Hne & [Hx Hlt]%(lookup_snoc _ x) & Hs & Hf). split; [by apply begun_snoc|]. do 3 (split; [done|]).
  split; [by rewrite state_before_snoc by lia|]. destruct Hf as [?|(? & j & l & ? & ? & ? & ?)]; [by left|right]. split; [done|].
  exists j, l. by eauto 10 using ingests_snoc, rewrites_snoc.
Qed.

Lemma reached_answers xs id c k f :
  channels (runtime id (reached xs)) !! c = Some (k, Some f) ->
  exists i h n sc frame ev, answer_from xs i h n id sc frame ev c k f.
Proof.
  induction xs as [|x xs IH] using rev_ind; [cbn; unfold runtime; cbn; by rewrite lookup_empty|]. intros Hc.
  rewrite reached_snoc in Hc. eapply effect_channel in Hc as [Hc|(n & d & -> & (Hd & Hs & <- & Hk & Hne) & <- & Hw)];
    [| |apply step_changed; [apply reached_sound|apply reached_waits]].
  - destruct (IH Hc) as (i & h & n & sc & frame & ev & Ha). exists i, h, n, sc, frame, ev. by apply answer_snoc.
  - destruct (reached_deliveries xs n d Hd) as (i & frame & Hb & Hkey & Ht). rewrite Hs in Ht.
    exists i, (length xs), n, (dlServer d), frame, (dlEvent d). split; [by apply begun_snoc|]. split; [by rewrite <- Hkey|]. split; [done|].
    split; [by apply list_lookup_middle|]. split; [by rewrite state_before_snoc, state_before_all|].
    destruct Ht as [?|(? & j & l & Hlt & Hj & Hl)]; [by left|right]. split; [done|]. exists j, l. split; [done|].
    split; [exact (lookup_lt_Some _ _ _ (proj1 Hl))|]. split; [by apply ingests_snoc|by apply rewrites_snoc].
Qed.

(** ** A request for a routed tool is dispatched as a call *)

Lemma request_is_call ok id frame msg tc sc p :
  decode_message frame = Some msg -> Method msg = tools_call -> msgID msg ≠ [] ->
  toolRoute (runtime id p) !! Name tc = Some sc ->
  HandleAgentRequest (Some e) sink ok id frame p = dispatchToolsCall (Some e) sink ok id frame msg p.
Proof.
  intros Hm Hc Hi Hr. unfold HandleAgentRequest. rewrite pm_bind. cbn [gets fst snd].
  assert (is_Some (runtimes p !! id)) as Hk.
  { unfold runtime in Hr. destruct (runtimes p !! id); [by eexists|]. cbn in Hr. by rewrite lookup_empty in Hr. }
  rewrite bool_decide_eq_true_2 by done. cbn [negb]. rewrite Hm. unfold IsNotification.
  rewrite (bool_decide_eq_false_2 (msgID msg = [])) by done. rewrite andb_false_r, Hc. reflexivity.
Qed.

Lemma finish_answer id call p r :
  (finish_call preferSSE false id call p).1 = Some (Ret r) -> exists k, channels (runtime id p) !! call = Some (k, Some (Response r)).
Proof.
  unfold finish_call. rewrite pm_bind. cbn [gets fst snd]. destruct (channels (runtime id p) !! call) as [[k [f|]]|]; [|done..].
  intros [= <-]. by exists k.
Qed.

End proxy.

Section properties.

Context `{Compressors} `{MathLog2} `{Floats} `{Archives} `{Clock} `{MapOrder} `{UnicodeLower} `{JsonErrors}.

(** C9: nothing reaches a server but the calls that were allowed. Whatever a proxy with an engine has done
    before, a step writes to a server only when it handles a frame of the agent; then it writes one frame,
    to the server the called tool is routed to, fail-closed is off, and the engine allowed a call of that
    tool with the arguments of the frame; what is written is the frame as it came or, when the engine
    answered with arguments to forward, the frame with these in place of its own. *)
Theorem only_allowed_calls_forwarded (e : Engine) (sink audit : bool) (forwarding : bool * bool) (preferSSE stdio : bool)
    (xs : list proxy_step) (x : proxy_step) :
  let p := proxy_after (Some e) sink audit forwarding preferSSE stdio xs in
  let p' := proxy_after (Some e) sink audit forwarding preferSSE stdio (xs ++ [x]) in
  toServers p' = toServers p \/
  exists ok id frame fwd sc msg tc ev w, let d := (EvaluateRequest e sink ev w).1 in
    x = AgentFrame ok id frame /\ toServers p' = toServers p ++ [(id, sc, fwd)] /\
    decode_message frame = Some msg /\ Method msg = tools_call /\ ParseToolCallParams (Params msg) = Some tc /\
    toolRoute (runtime id p) !! Name tc = Some sc /\ failClosedActive p = false /\
    ieSessionID ev = id /\ ieToolName ev = Name tc /\ ieToolArgs ev = Arguments tc /\ ieServerID ev = svID sc /\
    store w = store (engine p) /\ Allow d = true /\
    (fwd = frame /\ (ForwardArgs d = None \/ ForwardArgs d = Some []) \/
     exists args, ForwardArgs d = Some args /\ replaceToolCallArguments frame args = Ret fwd).
Proof.
  intros p p'. unfold p'. rewrite reached_snoc. fold p.
  destruct (step_writes e sink audit forwarding preferSSE stdio x p)
    as [E|(ok & id & frame & fwd & sc & Hx & E & msg & tc & ev & w & Hp)]; [by left|right].
  exists ok, id, frame, fwd, sc, msg, tc, ev, w. exact (conj Hx (conj E Hp)).
Qed.

(** C10: registered secret bytes do not leave through the proxy. In any state a proxy in block mode
    reaches, a tools/call frame for a tool that is an external sink, with an encoding or a chunk of a
    tainted value of its session in the arguments as they would be sent (with the tokens of the vault
    replaced when the vault authorizes the tool, as they came otherwise), is answered with the error of a blocked call and
    nothing is written to any server; and unless fail-closed refused it first, the session is tripped
    and exactly one evidence record, naming a registered value, is emitted. *)
Theorem exfil_frame_refused (e : Engine) (t : Tagger) (sink audit : bool) (forwarding : bool * bool) (preferSSE stdio : bool)
    (xs : list proxy_step) (ok : bool) (id frame : bytes) (msg : JSONRPCMessage) (tc : ToolCallParams) (sc : Server)
    (st : SessionState) (tv : TaintedValue) (v : TaintedVariant) :
  let p := proxy_after (Some e) sink audit forwarding preferSSE stdio xs in
  let r := HandleAgentRequest (Some e) sink ok id frame p in
  store (engine p) !! id = Some st -> tv ∈ Tainted st -> v ∈ forms_of tv ++ Chunks tv -> vValue v ≠ [] ->
  decode_message frame = Some msg -> Method msg = tools_call -> msgID msg ≠ [] ->
  ParseToolCallParams (Params msg) = Some tc ->
  (forall n, infix (vValue v) (to_send e n (Name tc) (Arguments tc) (Vault st))) ->
  toolRoute (runtime id p) !! Name tc = Some sc ->
  tagger e = Some t -> IsExternalSink t (Name tc) (svID sc) = true -> mode e ≠ gostr "monitor" ->
  (exists reason, r.1 = Ret (inl (blocked (buildErrorResponse (msgID msg) jsonRPCServerError (blocked_by reason))))) /\
  toServers r.2 = toServers p /\
  (failClosedActive p = false -> exists rec h st', ValueOverlap rec = Some h /\ TaintedHash h ∈ map Hash (Tainted st) /\
     store (engine r.2) !! id = Some st' /\ Status st' = Tripped /\
     out (engine r.2) = out (engine p) ++ (if sink then [EmitEvidence rec] else [])).
Proof.
  intros p r Hst Htv Hv Hne Hm Hc Hi Hp Hin Hr Ht Hs Hmode. destruct (reached_sound e sink audit forwarding preferSSE stdio xs) as [Hk Hok].
  fold p in Hk, Hok. unfold r. rewrite (request_is_call e sink ok id frame msg tc sc) by done.
  destruct (call_judged e sink ok id frame msg tc sc p Hk Hm Hc Hp Hr) as (ev & w & <- & Hn & Ha & Hsv & Hw & Ho & Hrefuse & Hstate).
  rewrite <- Hw in Hst, Hok. rewrite <- Ha, <- Hn in Hin. rewrite <- Hn in Hs. rewrite <- Hsv in Hs.
  destruct (exfil_judged e sink w ev st tv v) as (_ & Hallow & _ & rec & h & st' & _ & Hoverlap & Hh & Hst' & Htrip & Hout); try done.
  { unfold is_external_sink. by rewrite Ht. }
  rewrite bool_decide_eq_false_2 in Hallow by done.
  destruct (Hrefuse (or_intror Hallow)) as (reason & Hans & Hsame). split; [by exists reason|]. split; [done|].
  intros Hf. destruct (Hstate Hf Hallow) as [-> ->]. exists rec, h, st'. by rewrite <- Ho.
Qed.

(** C11: what a call is answered with was ingested first. When a call in flight gets a response, an
    earlier step of a reader put it into its channel, which was then entered under the ID of the
    response, and before that the reader had got the response as a frame of a server. Let the
    tool be the one that a call was entered with under that ID when the reader looked, right after it
    got the frame. If there was none, or it has no name, the agent gets the frame as the server sent it. Otherwise the engine
    ingested the result in the frame, for that tool and that server, and after that, and before the frame
    was handed over, the vault rewrote the frame to what the agent gets. *)
Theorem answers_are_ingested (e : Engine) (sink audit : bool) (forwarding : bool * bool) (preferSSE stdio : bool)
    (xs : list proxy_step) (id : bytes) (call : nat) (r : DispatchResult) :
  let reached := proxy_after (Some e) sink audit forwarding preferSSE stdio in
  let before i := reached (take i xs) in
  (finish_call preferSSE false id call (reached xs)).1 = Some (Ret r) ->
  exists i h n sc frame msg,
    xs !! i = Some (ServerFrame n id sc frame) /\ decode_message frame = Some msg /\ IsResponse msg = true /\
    xs !! h = Some (Deliver n) /\ syncWait (runtime id (before h)) !! msgID msg = Some call /\
    match pending (runtime id (before i)) !! msgID msg with
    | Some ((_ :: _) as tool) =>
        exists ev j l, (i < j < l)%nat /\ (l < h)%nat /\ xs !! j = Some (Deliver n) /\ xs !! l = Some (Deliver n) /\
          ieSessionID ev = id /\ ieToolName ev = tool /\ ieServerID ev = svID sc /\ ieResult ev = msgResult msg /\
          engine (before (S j)) = (IngestResult e forwarding ev (engine (before j))).2 /\
          Response r = (VaultRewriteFrame e id frame (engine (before l))).1
    | _ => Response r = frame
    end.
Proof.
  intros reached before [k Hc]%finish_answer.
  destruct (reached_answers _ _ _ _ _ _ _ _ _ _ _ Hc) as (i & h & n & sc & frame & ev & [Hx Hev] & Hkey & _ & Hh & Hw & Hf).
  destruct Hev as (Hid & Hsv & Hmsg). unfold response_key in Hkey. destruct (decode_message frame) as [msg|] eqn:Em; [|done].
  cbn [mbind option_bind] in Hkey. destruct (IsResponse msg) eqn:Ei; [|done]. injection Hkey as <-.
  destruct (Hmsg msg eq_refl Ei) as [Hres Htool]. exists i, h, n, sc, frame, msg. do 5 (split; [done|]).
  fold before in Htool. change (state_before e sink audit forwarding preferSSE stdio xs i) with (before i) in Htool.
  destruct Hf as [[En ->]|(Hn & j & l & Hlt & Hlh & [Hj Ein] & Hl & Erw)].
  - destruct (pending (runtime id (before i)) !! msgID msg) as [[|c tool]|]; [done|rewrite Htool in En; done|done].
  - destruct (pending (runtime id (before i)) !! msgID msg) as [[|c tool]|]; [by rewrite Htool in Hn| |by rewrite Htool in Hn].
    destruct Hlt. exists ev, j, l. by split_and!.
Qed.

End properties.

(** ** Witnesses: a session that reads a ticket with a key in it and tries to send the key *)

#[export] Instance demo_errors : JsonErrors := λ _, gostr "invalid".

Definition tickets : Server := {| svID := gostr "tickets"; svPID := 41 |}.
Definition messenger : Server := {| svID := gostr "messenger"; svPID := 42 |}.

(** A tools/call frame, and the frame that answers it. *)
Definition call_frame (id tool : string) (args : bytes) : bytes :=
  rpc "{'jsonrpc':'2.0','id':" ++ gostr id ++ rpc ",'method':'tools/call','params':{'name':'" ++ gostr tool ++
  rpc "','arguments':{'text':'" ++ args ++ rpc "'}}}".
Definition answer_frame (id : string) (result : bytes) : bytes :=
  rpc "{'jsonrpc':'2.0','id':" ++ gostr id ++ rpc ",'result':'" ++ result ++ rpc "'}".
Arguments call_frame (id tool)%_string args.
Arguments answer_frame id%_string result.

Definition demo_opening : list proxy_step :=
  [NewSession (gostr "s1"); OfferTool (gostr "s1") (gostr "get_ticket") tickets []; OfferTool (gostr "s1") (gostr "send") messenger [];
   AgentFrame true (gostr "s1") (call_frame "1" "get_ticket" (gostr "7"))].

Definition demo_result : bytes := answer_frame "1" (gostr "the key is " ++ demo_secret ++ gostr ".").
Definition demo_reading : list proxy_step := demo_opening ++ delivered (gostr "s1") tickets demo_result.

Abbreviation proxy_run := (proxy_after (Some demo_proxy) true true (false, false) false true).

(** The call is forwarded as it came, its answer waits for it. *)
Example demo_forwarded :
  toServers (proxy_run demo_reading) = [(gostr "s1", tickets, call_frame "1" "get_ticket" (gostr "7"))] /\
  toAgent (proxy_run demo_reading) = [] /\
  (finish_call false false (gostr "s1") 0 (proxy_run demo_reading)).1 =
    Some (Ret {| Response := demo_result; drNotification := false; UseSSE := false; Blocked := false |}).
Proof. split_and!; vm_compute; reflexivity. Qed.

Example answers_are_ingested_witness :
  exists i h n sc frame, demo_reading !! i = Some (ServerFrame n (gostr "s1") sc frame) /\ demo_reading !! h = Some (Deliver n).
Proof.
  destruct (answers_are_ingested demo_proxy true true (false, false) false true demo_reading (gostr "s1") 0
    {| Response := demo_result; drNotification := false; UseSSE := false; Blocked := false |})
    as (i & h & n & sc & frame & _ & Hi & _ & _ & Hh & _).
  - vm_compute. reflexivity.
  - exact (ex_intro _ i (ex_intro _ h (ex_intro _ n (ex_intro _ sc (ex_intro _ frame (conj Hi Hh)))))).
Defined.

(** A response under the ID of a call that is about to be entered: the reader has looked, and found no
    call, when the agent's frame is handled; the key reaches the agent and no session knows it. *)
Definition demo_early : list proxy_step :=
  [NewSession (gostr "s1"); OfferTool (gostr "s1") (gostr "get_ticket") tickets [];
   ServerFrame 0 (gostr "s1") tickets demo_result; AgentFrame true (gostr "s1") (call_frame "1" "get_ticket" (gostr "7"));
   Deliver 0; Deliver 0].

Example early_answer_unseen :
  (finish_call false false (gostr "s1") 0 (proxy_run demo_early)).1 =
    Some (Ret {| Response := demo_result; drNotification := false; UseSSE := false; Blocked := false |}) /\
  map Tainted (option_list (store (engine (proxy_run demo_early)) !! gostr "s1")) = [[]].
Proof. split; vm_compute; reflexivity. Qed.

Definition demo_body : bytes := b64_encode demo_secret.
Definition demo_leak : bytes := call_frame "2" "send" demo_body.
Definition leak_message : JSONRPCMessage := default no_message (decode_message demo_leak).
Definition leak_params : ToolCallParams := default {| Name := []; Arguments := [] |} (ParseToolCallParams (Params leak_message)).
Definition reading_state : SessionState := default (new_session [] 0) (store (engine (proxy_run demo_reading)) !! gostr "s1").
Definition reading_tainted : TaintedValue := default (new_taint [] [] [] 0 0) (head (Tainted reading_state)).
Definition reading_form : TaintedVariant := variant FormBase64 demo_body.

Lemma reading_stored : store (engine (proxy_run demo_reading)) !! gostr "s1" = Some reading_state.
Proof. vm_compute. reflexivity. Qed.

Lemma reading_held : reading_tainted ∈ Tainted reading_state.
Proof. apply list_elem_of_In. vm_compute. left. reflexivity. Qed.

Lemma reading_form_held : reading_form ∈ forms_of reading_tainted ++ Chunks reading_tainted.
Proof. apply list_elem_of_In. vm_compute. right. left. reflexivity. Qed.

Lemma leak_contains : infix (vValue reading_form) (Arguments leak_params).
Proof. apply Contains_spec. vm_compute. reflexivity. Qed.

Example exfil_frame_refused_witness :
  toServers (HandleAgentRequest (Some demo_proxy) true true (gostr "s1") demo_leak (proxy_run demo_reading)).2 =
  toServers (proxy_run demo_reading).
Proof.
  destruct (exfil_frame_refused demo_proxy demo_tagger true true (false, false) false true demo_reading true (gostr "s1") demo_leak
    leak_message leak_params messenger reading_state reading_tainted reading_form reading_stored reading_held reading_form_held)
    as (_ & E & _).
  - vm_compute. discriminate.
  - vm_compute. reflexivity.
  - vm_compute. reflexivity.
  - vm_compute. discriminate.
  - vm_compute. reflexivity.
  - exact (λ n, leak_contains).
  - vm_compute. reflexivity.
  - reflexivity.
  - vm_compute. reflexivity.
  - vm_compute. discriminate.
  - exact E.
Defined.
