(* ===== verification/Sessions.v ===== *)
(** * internal/proxy/session_manager.go: the life of a session and its servers

    A session is created by starting its servers one after the other, is then listed, watched and
    bound to an MCP session; it ends when it is cleaned up, by its owner or by the sweep of idle
    sessions. Creations, clean-ups and sweeps run concurrently: each is a thread, and an
    [sm_action] is what one of them does between two points where the others can run: a locked
    section, a start of a process, an exchange with it, a call of a hook. Whether a process starts,
    its PID and start time, and the frames it answers are arguments of the actions. *)

From S2P Require Import Prelude Go GoTime GoStrings Encodings Json Model Attribution Rpc Proxy.

(** ** Settings *)

Record SessionsConfig := { MaxConcurrent : Z; IdleTimeout : bytes }.

Definition IdleTimeoutDuration (s : SessionsConfig) : Z :=
  match IdleTimeout s with [] => 30 * Minute | t => default (30 * Minute) (ParseDuration t) end.

(** ** State *)

(** A SessionRuntime: what dispatch.go keeps of it, and the processes behind it. *)
Record Pool := { plRuntime : SessionRuntime; plServers : list Server; plRegistered : list (ProcessKey * bytes); plActive : Z }.

(** The calls of PIDHooks. *)
Inductive pid_hook := Watched (pids : list Z) | Unwatched (pids : list Z).

(** Where a goroutine in the manager is: in Create, before the next server, waiting for the answers of
    one that runs, with all of them, with the session listed, with it watched; in
    Cleanup of the first of some sessions, before its registrations, its hook, its servers. *)
Inductive thread :=
  | Starting (mcp : option bytes) (p : Pool) (todo : list bytes)
  | Handshaking (mcp : option bytes) (p : Pool) (sc : Server) (todo : list bytes)
  | Listed (mcp : option bytes) (p : Pool)
  | Binding (mcp : bytes) (id : bytes)
  | Sweep (ids : list bytes)
  | Unregistering (p : Pool) (todo : list (ProcessKey * bytes)) (ids : list bytes)
  | Stopping (p : Pool) (ids : list bytes).

(** [processes] are the children that run, [hookCalls] the calls of the hooks so far, [refused] the
    sessions whose creation returned an error, [shadowed] what the engine was told. *)
Record SessionManager := {
  smRuntimes : gmap bytes Pool; mcpSessions : gmap bytes bytes; pidRegistry : PIDRegistry; hookCalls : list pid_hook;
  processes : gset ProcessKey; threads : gmap nat thread; refused : list bytes; shadowed : list ShadowEvent }.

Definition NewSessionManager : SessionManager := {|
  smRuntimes := ∅; mcpSessions := ∅; pidRegistry := NewPIDRegistry; hookCalls := []; processes := ∅; threads := ∅;
  refused := []; shadowed := [] |}.

Definition set_thread (t : nat) (th : option thread) (s : SessionManager) : SessionManager := {|
  smRuntimes := smRuntimes s; mcpSessions := mcpSessions s; pidRegistry := pidRegistry s; hookCalls := hookCalls s;
  processes := processes s; threads := match th with Some th => <[t := th]> (threads s) | None => delete t (threads s) end;
  refused := refused s; shadowed := shadowed s |}.

Definition set_registry (r : PIDRegistry) (procs : gset ProcessKey) (s : SessionManager) : SessionManager := {|
  smRuntimes := smRuntimes s; mcpSessions := mcpSessions s; pidRegistry := r; hookCalls := hookCalls s; processes := procs;
  threads := threads s; refused := refused s; shadowed := shadowed s |}.

Definition set_listed (rts : gmap bytes Pool) (mcps : gmap bytes bytes) (s : SessionManager) : SessionManager := {|
  smRuntimes := rts; mcpSessions := mcps; pidRegistry := pidRegistry s; hookCalls := hookCalls s; processes := processes s;
  threads := threads s; refused := refused s; shadowed := shadowed s |}.

Definition add_calls (calls : list pid_hook) (s : SessionManager) : SessionManager := {|
  smRuntimes := smRuntimes s; mcpSessions := mcpSessions s; pidRegistry := pidRegistry s; hookCalls := hookCalls s ++ calls;
  processes := processes s; threads := threads s; refused := refused s; shadowed := shadowed s |}.

Definition add_refused (id : bytes) (s : SessionManager) : SessionManager := {|
  smRuntimes := smRuntimes s; mcpSessions := mcpSessions s; pidRegistry := pidRegistry s; hookCalls := hookCalls s;
  processes := processes s; threads := threads s; refused := refused s ++ [id]; shadowed := shadowed s |}.

Definition add_shadowed (evs : list ShadowEvent) (s : SessionManager) : SessionManager := {|
  smRuntimes := smRuntimes s; mcpSessions := mcpSessions s; pidRegistry := pidRegistry s; hookCalls := hookCalls s;
  processes := processes s; threads := threads s; refused := refused s; shadowed := shadowed s ++ evs |}.

Definition pool_id (p : Pool) : bytes := rtID (plRuntime p).

(** ** tools/list *)

(** The elements after the opening bracket of an array, each with its text. *)
Fixpoint raw_elems (n d : nat) (s : bytes) : option (list bytes) :=
  match n with
  | O => None
  | S n =>
      let value := skip_ws s in
      '(_, r) ← p_value n d value;
      let raw := take (length value - length r) value in
      match skip_ws r with
      | x2c :: r => l ← raw_elems n d r; Some (raw :: l)
      | x5d :: _ => Some [raw]
      | _ => None
      end
  end.

(** An array of raw messages into a slice; null makes the slice nil. *)
Definition decode_raws (v : json) (raw : bytes) : option (list bytes) :=
  match v, skip_ws raw with
  | JNull, _ | JArr [], _ => Some []
  | JArr _, _ :: s => raw_elems (2 * length raw + 2) (pred (pred (pred maxNestingDepth))) s
  | _, _ => None
  end.

Fixpoint set_tools (tools : list bytes) (members : list (bytes * (json * bytes))) : option (list bytes) :=
  match members with
  | [] => Some tools
  | (k, (v, raw)) :: members =>
      tools ← (if names_field "tools" k then decode_raws v raw else Some tools); set_tools tools members
  end.

Fixpoint set_result (tools : list bytes) (members : list (bytes * (json * bytes))) : option (list bytes) :=
  match members with
  | [] => Some tools
  | (k, (_, raw)) :: members =>
      tools ← (if names_field "result" k then
                 t ← raw_top raw;
                 match t with TopNull => Some tools | TopObject l => set_tools tools l | TopOther => None end
               else Some tools);
      set_result tools members
  end.

(** The texts of the tools in a response to tools/list; [None] is the error. *)
Definition decode_tools (frame : bytes) : option (list bytes) :=
  t ← raw_top frame;
  match t with TopNull => Some [] | TopObject l => set_result [] l | TopOther => None end.

(** The name of a tool; errors are ignored, a name of another type leaves the one before. *)
Definition tool_name (raw : bytes) : bytes :=
  match parse raw with
  | Some (JObj members) =>
      foldl (λ name kv, if names_field "name" kv.1 then match kv.2 with JStr s => s | _ => name end else name) [] members
  | _ => []
  end.

(** The loop over the tools of a server. *)
Definition register_tools (sc : Server) (raws : list bytes) (rt : SessionRuntime) : SessionRuntime :=
  foldl (λ rt raw, (registerTool (tool_name raw) (rtID rt) sc raw rt).2) rt raws.

(** ** Create *)

Section manager.

(** The servers of the configuration by ID, and whether hooks are set and an engine is there. *)
Context (servers : list bytes) (cfg : SessionsConfig) (hooks withEngine : bool).

Definition new_pool (id : bytes) (now : Z) : Pool :=
  {| plRuntime := new_runtime id; plServers := []; plRegistered := []; plActive := now |}.

(** Create up to the first server. The number of sessions is looked at once, before the others may run. *)
Definition begin_create (t : nat) (id : bytes) (mcp : option bytes) (now : Z) (s : SessionManager) : SessionManager :=
  if (0 <? MaxConcurrent cfg) && (MaxConcurrent cfg <=? Z.of_nat (size (smRuntimes s))) then add_refused id s
  else set_thread t (Some (Starting mcp (new_pool id now) servers)) s.

(** stopRuntime: the processes of the servers, which are those that were registered. *)
Definition stop_servers (p : Pool) (s : SessionManager) : SessionManager :=
  set_registry (pidRegistry s) (processes s ∖ list_to_set (map fst (plRegistered p))) s.

(** Create after an error: the servers are stopped, nothing else. *)
Definition fail_create (t : nat) (p : Pool) (s : SessionManager) : SessionManager :=
  add_refused (pool_id p) (set_thread t None (stop_servers p s)).

(** startAndInit up to the registration of the process. *)
Definition spawn_server (t : nat) (mcp : option bytes) (p : Pool) (server : bytes) (todo : list bytes)
    (started : option ProcessKey) (s : SessionManager) : SessionManager :=
  match started with
  | None => fail_create t p s
  | Some (pid, startNs) =>
      let sc := {| svID := server; svPID := pid |} in
      let p := {| plRuntime := plRuntime p; plServers := plServers p ++ [sc];
                  plRegistered := plRegistered p ++ [((pid, startNs), server)]; plActive := plActive p |} in
      set_thread t (Some (Handshaking mcp p sc todo))
        (set_registry (Register pid startNs (pool_id p) server (pidRegistry s)) ({[ (pid, startNs) ]} ∪ processes s) s)
  end.

(** The rest of startAndInit: [frame] is the second frame the server answers with; [None] if
    a send or a read fails. *)
Definition finish_init (t : nat) (mcp : option bytes) (p : Pool) (sc : Server) (todo : list bytes)
    (frame : option bytes) (s : SessionManager) : SessionManager :=
  match frame ≫= decode_tools with
  | None => fail_create t p s
  | Some raws =>
      let p := {| plRuntime := register_tools sc raws (plRuntime p); plServers := plServers p;
                  plRegistered := plRegistered p; plActive := plActive p |} in
      set_thread t (Some (Starting mcp p todo)) s
  end.

(** emitToolShadowing, and the session is listed. *)
Definition list_session (t : nat) (mcp : option bytes) (p : Pool) (s : SessionManager) : SessionManager :=
  set_thread t (Some (Listed mcp p))
    (set_listed (<[pool_id p := p]> (smRuntimes s)) (mcpSessions s)
       (if withEngine : bool then add_shadowed (shadowEvents (plRuntime p)) s else s)).

Definition pids_of (p : Pool) : list Z := map (λ r, r.1.1) (plRegistered p).

Definition call_hook (call : list Z -> pid_hook) (p : Pool) (s : SessionManager) : SessionManager :=
  if negb hooks || bool_decide (plRegistered p = []) then s else add_calls [call (pids_of p)] s.

(** watchRuntimePIDs, the end of Create. *)
Definition watch_session (t : nat) (mcp : option bytes) (p : Pool) (s : SessionManager) : SessionManager :=
  set_thread t (match mcp with Some m => Some (Binding m (pool_id p)) | None => None end) (call_hook Watched p s).

(** CreateMCP after Create. *)
Definition bind_session (t : nat) (m id : bytes) (s : SessionManager) : SessionManager :=
  set_thread t None (set_listed (smRuntimes s) (<[m := id]> (mcpSessions s)) s).

(** ** Lookups *)

Definition sm_Get (id : bytes) (s : SessionManager) : option Pool := smRuntimes s !! id.

(** The two locked sections of GetByMCP, run one right after the other. *)
Definition GetByMCP (m : bytes) (s : SessionManager) : option Pool := id ← mcpSessions s !! m; sm_Get id s.

Definition Touch (id : bytes) (now : Z) (s : SessionManager) : SessionManager :=
  match smRuntimes s !! id with
  | Some p => set_listed (<[id := {| plRuntime := plRuntime p; plServers := plServers p; plRegistered := plRegistered p;
                                     plActive := now |}]> (smRuntimes s)) (mcpSessions s) s
  | None => s
  end.

(** ** Cleanup *)

(** The locked section of Cleanup. *)
Definition unlist_session (t : nat) (id : bytes) (ids : list bytes) (s : SessionManager) : SessionManager :=
  let mcps := filter (λ kv, kv.2 ≠ id) (mcpSessions s) in
  match smRuntimes s !! id with
  | None => set_thread t (Some (Sweep ids)) (set_listed (smRuntimes s) mcps s)
  | Some p => set_thread t (Some (Unregistering p (plRegistered p) ids)) (set_listed (delete id (smRuntimes s)) mcps s)
  end.

(** One step of unwatchRuntimePIDs. *)
Definition unregister_next (t : nat) (p : Pool) (todo : list (ProcessKey * bytes)) (ids : list bytes) (s : SessionManager)
    : SessionManager :=
  match todo with
  | ((pid, startNs), _) :: todo =>
      set_thread t (Some (Unregistering p todo ids)) (set_registry (Unregister pid startNs (pidRegistry s)) (processes s) s)
  | [] => set_thread t (Some (Stopping p ids)) (call_hook Unwatched p s)
  end.

Definition stop_session (t : nat) (p : Pool) (ids : list bytes) (s : SessionManager) : SessionManager :=
  set_thread t (Some (Sweep ids)) (stop_servers p s).

(** The sessions expireIdle finds, in the order of the map. *)
Definition idle_sessions `{Store.MapOrder} (n : nat) (now : Z) (s : SessionManager) : list bytes :=
  map fst (List.filter (λ kv, IdleTimeoutDuration cfg <? now - plActive kv.2) (Store.range n (map_to_list (smRuntimes s)))).

(** ** Actions *)

Inductive sm_action :=
  | Create (t : nat) (id : bytes) (mcp : option bytes) (now : Z)
  | Spawn (t : nat) (started : option ProcessKey)
  | Answer (t : nat) (frame : option bytes)
  | Proceed (t : nat)
  | Touched (id : bytes) (now : Z)
  | Cleanup (t : nat) (id : bytes)
  | Expire (t : nat) (n : nat) (now : Z).

(** [None] where the action cannot happen: a thread is started under a number that is free, and goes
    on from where it is. *)
Definition manage `{Store.MapOrder} (a : sm_action) (s : SessionManager) : option SessionManager :=
  match a with
  | Create t id mcp now => if decide (threads s !! t = None) then Some (begin_create t id mcp now s) else None
  | Spawn t started =>
      match threads s !! t with Some (Starting mcp p (server :: todo)) => Some (spawn_server t mcp p server todo started s) | _ => None end
  | Answer t frame =>
      match threads s !! t with Some (Handshaking mcp p sc todo) => Some (finish_init t mcp p sc todo frame s) | _ => None end
  | Proceed t =>
      match threads s !! t with
      | Some (Starting mcp p []) => Some (list_session t mcp p s)
      | Some (Listed mcp p) => Some (watch_session t mcp p s)
      | Some (Binding m id) => Some (bind_session t m id s)
      | Some (Sweep (id :: ids)) => Some (unlist_session t id ids s)
      | Some (Sweep []) => Some (set_thread t None s)
      | Some (Unregistering p todo ids) => Some (unregister_next t p todo ids s)
      | Some (Stopping p ids) => Some (stop_session t p ids s)
      | _ => None
      end
  | Touched id now => Some (Touch id now s)
  | Cleanup t id => if decide (threads s !! t = None) then Some (set_thread t (Some (Sweep [id])) s) else None
  | Expire t n now =>
      if bool_decide (threads s !! t = None) && (0 <? IdleTimeoutDuration cfg)
      then Some (set_thread t (Some (Sweep (idle_sessions n now s))) s) else None
  end.

Fixpoint manage_all `{Store.MapOrder} (acts : list sm_action) (s : SessionManager) : option SessionManager :=
  match acts with [] => Some s | a :: acts => s ← manage a s; manage_all acts s end.

End manager.
