(* ===== verification/SessionsTheorems.v ===== *)
(** * Theorems about the life of sessions

    However creations, clean-ups and sweeps interleave: the processes of a listed session are
    registered for it, what is registered or runs belongs to a session that is listed, being created
    or being cleaned up, and no two MCP sessions share a session. *)

From S2P Require Import Prelude Go GoTime GoStrings Encodings Json Model Store Attribution Rpc Proxy Sessions.

(** ** Stakes: where a session is, and what it has registered and running *)

Inductive place := InThread (t : nat) | InList (id : bytes).

#[export] Instance place_eq_dec : EqDecision place.
Proof. solve_decision. Defined.

Record stake := { stID : bytes; stDue : list (ProcessKey * bytes); stRun : list ProcessKey }.

Definition pool_stake (p : Pool) : stake := {| stID := pool_id p; stDue := plRegistered p; stRun := map fst (plRegistered p) |}.

Definition thread_stake (th : thread) : option stake :=
  match th with
  | Starting _ p _ | Handshaking _ p _ _ => Some (pool_stake p)
  | Unregistering p todo _ => Some {| stID := pool_id p; stDue := todo; stRun := map fst (plRegistered p) |}
  | Stopping p _ => Some {| stID := pool_id p; stDue := []; stRun := map fst (plRegistered p) |}
  | Listed _ _ | Binding _ _ | Sweep _ => None
  end.

Definition stake_at (s : SessionManager) (x : place) : option stake :=
  match x with
  | InThread t => threads s !! t ≫= thread_stake
  | InList id => pool_stake <$> smRuntimes s !! id
  end.

Definition upd (x : place) (o : option stake) (f : place -> option stake) : place -> option stake :=
  λ y, if decide (y = x) then o else f y.

(** The sessions are at one place each, their processes are their own; what they have due is
    registered for them, and whatever else is registered is left of a creation that failed. *)
Record stakes_ok (ids : list bytes) (keys : list ProcessKey) (f : place -> option stake) (r : PIDRegistry)
    (procs : gset ProcessKey) (failed : list bytes) : Prop := {
  so_id x y a b : f x = Some a -> f y = Some b -> stID a = stID b -> x = y;
  so_key x y a b k : f x = Some a -> f y = Some b -> k ∈ stRun a -> k ∈ stRun b -> x = y;
  so_due x a k srv : f x = Some a -> (k, srv) ∈ stDue a -> k ∈ stRun a;
  so_nodup x a : f x = Some a -> NoDup (map fst (stDue a));
  so_ids x a : f x = Some a -> stID a ∈ ids;
  so_keys x a k : f x = Some a -> k ∈ stRun a -> k ∈ keys;
  so_entry x a k srv : f x = Some a -> (k, srv) ∈ stDue a ->
    rEntries r !! k = Some {| peSessionID := stID a; peServerID := srv |};
  so_owner k e : rEntries r !! k = Some e ->
    k ∈ keys /\ ((exists x a, f x = Some a /\ stID a = peSessionID e /\ (k, peServerID e) ∈ stDue a) \/ peSessionID e ∈ failed);
  so_proc k : k ∈ procs -> exists x a, f x = Some a /\ k ∈ stRun a;
  so_index : indexed (rEntries r) (rByPID r) }.

(** Which of the places of a goal is the one that changes. *)
Ltac split_places :=
  unfold upd in *;
  repeat match goal with
  | H : context [decide (?y = ?x)] |- _ => destruct (decide (y = x)) as [->|?]
  end; simplify_eq; cbn [stID stDue stRun] in *.

Section stakes.

Context (ids : list bytes) (keys : list ProcessKey) (f : place -> option stake) (r : PIDRegistry).
Context (procs : gset ProcessKey) (failed : list bytes).
Context (Hok : stakes_ok ids keys f r procs failed).

(** The same stakes at places that correspond one to one. *)
Lemma stakes_move g (h : place -> place) :
  (forall y b, g y = Some b -> f (h y) = Some b) ->
  (forall y y' b b', g y = Some b -> g y' = Some b' -> h y = h y' -> y = y') ->
  (forall x a, f x = Some a -> exists y, g y = Some a) ->
  stakes_ok ids keys g r procs failed.
Proof.
  intros Hg Hinj Hf. destruct Hok as [I K D N Hi Hk E O P X]. constructor; try done.
  - intros x y a b Ha Hb Hab. eapply Hinj; [done..|]. eapply I; eauto.
  - intros x y a b k Ha Hb ? ?. eapply Hinj; [done..|]. eapply (K _ _ _ _ k); eauto.
  - intros x a k srv Ha. eapply D; eauto.
  - intros x a Ha. eapply N; eauto.
  - intros x a Ha. eapply Hi; eauto.
  - intros x a k Ha. eapply Hk; eauto.
  - intros x a k srv Ha. eapply E; eauto.
  - intros k e He. destruct (O k e He) as [? [(x & a & Ha & ?)|?]]; (split; [done|]); [left|by right].
    destruct (Hf x a Ha) as [y Hy]. by exists y, a.
  - intros k Hkp. destruct (P k Hkp) as (x & a & Ha & ?). destruct (Hf x a Ha) as [y Hy]. by exists y, a.
Qed.

Lemma stakes_same g : (forall x, g x = f x) -> stakes_ok ids keys g r procs failed.
Proof.
  intros Hg. apply (stakes_move g id); unfold id.
  - intros y b. by rewrite Hg.
  - done.
  - intros x a Ha. exists x. by rewrite Hg.
Qed.

(** A session begins. *)
Lemma stakes_new x id :
  f x = None -> id ∉ ids ->
  stakes_ok (ids ++ [id]) keys (upd x (Some {| stID := id; stDue := []; stRun := [] |}) f) r procs failed.
Proof.
  intros Hx Hid. destruct Hok as [I K D N Hi Hk E O P X].
  assert (forall y a, f y = Some a -> stID a ≠ id) as Hne by (intros y a Ha Heq; apply Hid; rewrite <- Heq; by eapply Hi).
  constructor; try done.
  - intros y z b c Hb Hc Hbc. split_places; try done; [by destruct (Hne y b)|by destruct (Hne z c)|by eapply I].
  - intros y z b c k Hb Hc Hkb Hkc. split_places; try done; try (by apply not_elem_of_nil in Hkb); try (by apply not_elem_of_nil in Hkc).
    by eapply (K _ _ _ _ k).
  - intros y b k srv Hb Hin. split_places; [by apply not_elem_of_nil in Hin|by eapply D].
  - intros y b Hb. split_places; [constructor|by eapply N].
  - intros y b Hb. apply elem_of_app. split_places; [right; by apply list_elem_of_singleton|left; by eapply Hi].
  - intros y b k Hb Hin. split_places; [by apply not_elem_of_nil in Hin|by eapply Hk].
  - intros y b k srv Hb Hin. split_places; [by apply not_elem_of_nil in Hin|by eapply E].
  - intros k e He. destruct (O k e He) as [? [(y & a & Ha & ?)|?]]; (split; [done|]); [left|by right].
    exists y, a. split; [|done]. unfold upd. by rewrite decide_False by congruence.
  - intros k Hkp. destruct (P k Hkp) as (y & a & Ha & ?). exists y, a. split; [|done]. unfold upd. by rewrite decide_False by congruence.
Qed.

(** A process is started for the session at [x]. *)
Lemma stakes_spawn x a pid startNs srv :
  f x = Some a -> (pid, startNs) ∉ keys ->
  stakes_ok ids (keys ++ [(pid, startNs)])
    (upd x (Some {| stID := stID a; stDue := stDue a ++ [((pid, startNs), srv)]; stRun := stRun a ++ [(pid, startNs)] |}) f)
    (Register pid startNs (stID a) srv r) ({[ (pid, startNs) ]} ∪ procs) failed.
Proof.
  intros Hx Hk0. set (k0 := (pid, startNs)) in *. destruct Hok as [I K D N Hi Hk E O P X].
  assert (forall y b, f y = Some b -> k0 ∉ stRun b) as Hfresh by (intros y b Hb Hin; apply Hk0; by eapply Hk).
  assert (forall y b s0, f y = Some b -> (k0, s0) ∉ stDue b) as Hfresh' by (intros y b s0 Hb Hin; eapply Hfresh, D; eauto).
  constructor.
  - intros y z b c Hb Hc Hbc. split_places; try done; by eapply I.
  - intros y z b c k Hb Hc Hkb Hkc. split_places; try done.
    + apply elem_of_app in Hkc as [Hkc| ->%list_elem_of_singleton]; [by eapply (K _ _ _ _ k)|by destruct (Hfresh y b)].
    + apply elem_of_app in Hkb as [Hkb| ->%list_elem_of_singleton]; [by eapply (K _ _ _ _ k)|by destruct (Hfresh z c)].
    + by eapply (K _ _ _ _ k).
  - intros y b k s0 Hb Hin. split_places; [|by eapply D].
    apply elem_of_app in Hin as [Hin|[= -> ->]%list_elem_of_singleton]; apply elem_of_app; [left; by eapply D|right; by left].
  - intros y b Hb. split_places; [|by eapply N]. rewrite map_app. apply NoDup_app. split_and!; [by eapply N| |apply NoDup_singleton].
    intros k Hin ->%list_elem_of_singleton. apply list_elem_of_fmap in Hin as ([k1 s0] & E1 & Hin). cbn in E1. subst k1.
    by destruct (Hfresh' x a s0).
  - intros y b Hb. split_places; by eapply Hi.
  - intros y b k Hb Hin. apply elem_of_app. split_places; [|left; by eapply Hk].
    apply elem_of_app in Hin as [Hin|Hin]; [left; by eapply Hk|by right].
  - intros y b k s0 Hb Hin. cbn [rEntries Register]. split_places.
    + apply elem_of_app in Hin as [Hin|[= -> ->]%list_elem_of_singleton]; [|by rewrite lookup_insert_eq].
      rewrite lookup_insert_ne; [by eapply E|]. intros <-. by destruct (Hfresh' x a s0).
    + rewrite lookup_insert_ne; [by eapply E|]. intros <-. by destruct (Hfresh' y b s0).
  - intros k e He. cbn [rEntries Register] in He. destruct (decide (k = k0)) as [->|Hne].
    + rewrite lookup_insert_eq in He. injection He as <-. split; [apply elem_of_app; right; by left|]. left.
      eexists x, _. unfold upd. rewrite decide_True by done. split_and!; [done..|]. cbn. apply elem_of_app. right. by left.
    + rewrite lookup_insert_ne in He by done. destruct (O k e He) as [? [(y & b & Hb & Hid & Hin)|?]];
        (split; [apply elem_of_app; by left|]); [left|by right].
      unfold upd. destruct (decide (y = x)) as [->|Hyx]; [|exists y, b; by rewrite decide_False by done].
      eexists x, _. rewrite decide_True by done. rewrite Hx in Hb. injection Hb as <-. split_and!; [done..|].
      cbn. apply elem_of_app. by left.
  - intros k [->%elem_of_singleton|Hin]%elem_of_union.
    + eexists x, _. unfold upd. rewrite decide_True by done. split; [done|]. cbn. apply elem_of_app. right. by left.
    + destruct (P k Hin) as (y & b & Hb & Hr). unfold upd. destruct (decide (y = x)) as [->|Hyx];
        [|exists y, b; by rewrite decide_False by done].
      eexists x, _. rewrite decide_True by done. rewrite Hx in Hb. injection Hb as <-. split; [done|]. cbn. apply elem_of_app. by left.
  - apply indexed_append. exact X.
Qed.

(** The first of the registrations due at [x] is taken back. *)
Lemma stakes_unregister x a pid startNs srv due :
  f x = Some a -> stDue a = ((pid, startNs), srv) :: due ->
  stakes_ok ids keys (upd x (Some {| stID := stID a; stDue := due; stRun := stRun a |}) f) (Unregister pid startNs r) procs failed.
Proof.
  intros Hx Hdue. set (k0 := (pid, startNs)) in *. destruct Hok as [I K D N Hi Hk E O P X].
  assert (k0 ∈ stRun a) as H0 by (eapply D; [done|]; rewrite Hdue; by left).
  pose proof (N x a Hx) as Hn. rewrite Hdue in Hn. cbn in Hn. apply NoDup_cons in Hn as [Hn0 Hn].
  assert (forall k s0, (k, s0) ∈ due -> k ≠ k0) as Hrest by (intros k s0 Hin ->; apply Hn0, list_elem_of_fmap; by exists (k0, s0)).
  assert (forall k s0, (k, s0) ∈ due -> (k, s0) ∈ stDue a) as Hsub by (intros; rewrite Hdue; by right).
  assert (forall y b s0, f y = Some b -> y ≠ x -> (k0, s0) ∉ stDue b) as Hother.
  { intros y b s0 Hb Hyx Hin. apply Hyx. apply (K y x b a k0); [done..|by eapply D|done]. }
  constructor.
  - intros y z b c Hb Hc Hbc. split_places; try done; by eapply I.
  - intros y z b c k Hb Hc Hkb Hkc. split_places; try done; by eapply (K _ _ _ _ k).
  - intros y b k s0 Hb Hin. split_places; [by eapply D, Hsub|by eapply D].
  - intros y b Hb. split_places; [done|by eapply N].
  - intros y b Hb. split_places; by eapply Hi.
  - intros y b k Hb Hin. split_places; by eapply Hk.
  - intros y b k s0 Hb Hin. cbn [rEntries Unregister]. split_places.
    + rewrite lookup_delete_ne by (intros <-; by eapply Hrest). by eapply E, Hsub.
    + rewrite lookup_delete_ne; [by eapply E|]. intros <-. by eapply Hother.
  - intros k e He. cbn [rEntries Unregister] in He. apply lookup_delete_Some in He as [Hne He].
    destruct (O k e He) as [? [(y & b & Hb & Hid & Hin)|?]]; (split; [done|]); [left|by right].
    unfold upd. destruct (decide (y = x)) as [->|Hyx]; [|exists y, b; by rewrite decide_False by done].
    eexists x, _. rewrite decide_True by done. rewrite Hx in Hb. injection Hb as <-. split_and!; [done..|]. cbn.
    rewrite Hdue in Hin. by apply elem_of_cons in Hin as [[= Hk0 _]|Hin].
  - intros k Hin. destruct (P k Hin) as (y & b & Hb & Hr). unfold upd. destruct (decide (y = x)) as [->|Hyx];
      [|exists y, b; by rewrite decide_False by done].
    eexists x, _. rewrite decide_True by done. rewrite Hx in Hb. by injection Hb as <-.
  - apply indexed_delete. exact X.
Qed.

(** The processes of the session at [x] are stopped and it is gone; if registrations were due it has failed. *)
Lemma stakes_end x a failed' :
  f x = Some a -> (stDue a = [] \/ stID a ∈ failed') -> (forall id, id ∈ failed -> id ∈ failed') ->
  stakes_ok ids keys (upd x None f) r (procs ∖ list_to_set (stRun a)) failed'.
Proof.
  intros Hx Hdue Hf. destruct Hok as [I K D N Hi Hk E O P X]. constructor.
  - intros y z b c Hb Hc Hbc. split_places; by eapply I.
  - intros y z b c k Hb Hc Hkb Hkc. split_places; by eapply (K _ _ _ _ k).
  - intros y b k s0 Hb Hin. split_places; by eapply D.
  - intros y b Hb. split_places; by eapply N.
  - intros y b Hb. split_places; by eapply Hi.
  - intros y b k Hb Hin. split_places; by eapply Hk.
  - intros y b k s0 Hb Hin. split_places; by eapply E.
  - intros k e He. destruct (O k e He) as [? [(y & b & Hb & Hid & Hin)|?]]; (split; [done|]); [|right; by apply Hf].
    unfold upd. destruct (decide (y = x)) as [->|Hyx]; [|left; exists y, b; by rewrite decide_False by done].
    rewrite Hx in Hb. injection Hb as <-. right. destruct Hdue as [Hd|Hd]; [rewrite Hd in Hin; by apply not_elem_of_nil in Hin|].
    by rewrite <- Hid.
  - intros k [Hin Hnot]%elem_of_difference. destruct (P k Hin) as (y & b & Hb & Hr).
    exists y, b. split; [|done]. unfold upd. rewrite decide_False; [done|]. intros ->. rewrite Hx in Hb. injection Hb as <-.
    apply Hnot. by apply elem_of_list_to_set.
  - exact X.
Qed.

End stakes.

(** ** What was given to the actions *)

(** The sessions that were to be created, each with the MCP session it is for. *)
Definition creations (acts : list sm_action) : list (bytes * option bytes) :=
  omap (λ a, match a with Create _ id mcp _ => Some (id, mcp) | _ => None end) acts.

Definition created_ids (acts : list sm_action) : list bytes := map fst (creations acts).

(** The processes that were started. *)
Definition spawned (acts : list sm_action) : list ProcessKey :=
  omap (λ a, match a with Spawn _ started => started | _ => None end) acts.

Lemma creations_app acts acts' : creations (acts ++ acts') = creations acts ++ creations acts'.
Proof. unfold creations. by rewrite omap_app. Qed.

Lemma created_app acts acts' : created_ids (acts ++ acts') = created_ids acts ++ created_ids acts'.
Proof. unfold created_ids. by rewrite creations_app, map_app. Qed.

Lemma spawned_app acts acts' : spawned (acts ++ acts') = spawned acts ++ spawned acts'.
Proof. unfold spawned. by rewrite omap_app. Qed.

(** A key has one value in a list of pairs with distinct keys. *)
Lemma NoDup_map_inv_fst {A B} (l : list (A * B)) a b b' : NoDup (map fst l) -> (a, b) ∈ l -> (a, b') ∈ l -> b = b'.
Proof.
  intros Hn. induction l as [|[a0 b0] l IH]; [by intros ?%not_elem_of_nil|]. cbn in Hn. apply NoDup_cons in Hn as [H0 Hn].
  assert (forall c, (a0, c) ∉ l) as Hl by (intros c Hc; apply H0, list_elem_of_fmap; by exists (a0, c)).
  intros [E1|H1]%elem_of_cons [E2|H2]%elem_of_cons; simplify_eq; [done|by destruct (Hl b')|by destruct (Hl b)|by apply IH].
Qed.

Section manager.

Context `{MapOrder} (servers : list bytes) (cfg : SessionsConfig) (hooks withEngine : bool).

Abbreviation act := (manage servers cfg hooks withEngine).
Abbreviation act_all := (manage_all servers cfg hooks withEngine).

Lemma manage_all_app acts acts' s : act_all (acts ++ acts') s = act_all acts s ≫= act_all acts'.
Proof. revert s. induction acts as [|a acts IH]; intros s; [done|]. cbn. destruct (act a s); [apply IH|done]. Qed.

(** ** Where the stakes are after each step *)

Lemma stake_thread t th s x : stake_at (set_thread t th s) x = upd (InThread t) (th ≫= thread_stake) (stake_at s) x.
Proof.
  unfold upd. destruct x as [t'|id]; cbn; [|by destruct th]. destruct (decide (InThread t' = InThread t)) as [[= ->]|Hne]; destruct th as [th|]; cbn.
  - by rewrite lookup_insert_eq.
  - by rewrite lookup_delete_eq.
  - by rewrite lookup_insert_ne by congruence.
  - by rewrite lookup_delete_ne by congruence.
Qed.

Lemma stake_same x s rts mcps reg calls procs ths ref sh :
  rts = smRuntimes s -> ths = threads s ->
  stake_at {| smRuntimes := rts; mcpSessions := mcps; pidRegistry := reg; hookCalls := calls; processes := procs; threads := ths;
              refused := ref; shadowed := sh |} x = stake_at s x.
Proof. intros -> ->. by destruct x. Qed.

Lemma rtID_register_tools sc raws rt : rtID (register_tools sc raws rt) = rtID rt.
Proof.
  unfold register_tools. revert rt. induction raws as [|raw raws IH]; intros rt; [done|]. cbn [foldl]. rewrite IH.
  unfold registerTool. by destruct (toolRoute rt !! _).
Qed.

(** ** The invariant *)

(** The MCP session a thread is about to bind, with the session. *)
Definition thread_mcp (th : thread) : option (bytes * option bytes) :=
  match th with
  | Starting mcp p _ | Handshaking mcp p _ _ | Listed mcp p => Some (pool_id p, mcp)
  | Binding m id => Some (id, Some m)
  | _ => None
  end.

Record manager_ok (acts : list sm_action) (s : SessionManager) : Prop := {
  mo_stakes : stakes_ok (created_ids acts) (spawned acts) (stake_at s) (pidRegistry s) (processes s) (refused s);
  mo_listed id p : smRuntimes s !! id = Some p -> pool_id p = id;
  mo_threads t th b : threads s !! t = Some th -> thread_mcp th = Some b -> b ∈ creations acts;
  mo_bound m id : mcpSessions s !! m = Some id -> (id, Some m) ∈ creations acts }.

Lemma new_manager_ok : manager_ok [] NewSessionManager.
Proof.
  constructor; try (intros *; cbn; by rewrite lookup_empty).
  assert (forall x a, stake_at NewSessionManager x ≠ Some a) as Hn by (intros [t|id] a; cbn; by rewrite lookup_empty).
  constructor; try (intros * Ha; by destruct (Hn _ _ Ha)).
  - intros k e. cbn. by rewrite lookup_empty.
  - intros k Hk. cbn in Hk. set_solver.
  - apply indexed_empty.
Qed.

(** What is known to have been given stays known. *)
Lemma stakes_more ids ids' keys keys' f r procs failed :
  (forall id, id ∈ ids -> id ∈ ids') -> (forall k, k ∈ keys -> k ∈ keys') ->
  stakes_ok ids keys f r procs failed -> stakes_ok ids' keys' f r procs failed.
Proof.
  intros Hi Hk [I K D N Hids Hkeys E O P X]. constructor; try done.
  - intros x a Ha. eapply Hi, Hids, Ha.
  - intros x a k Ha Hin. eapply Hk, Hkeys; eauto.
  - intros k e He. destruct (O k e He) as [? ?]. split; [by apply Hk|done].
Qed.

Lemma stakes_failed ids keys f r procs failed failed' :
  (forall id, id ∈ failed -> id ∈ failed') -> stakes_ok ids keys f r procs failed -> stakes_ok ids keys f r procs failed'.
Proof.
  intros Hf [I K D N Hids Hkeys E O P X]. constructor; try done.
  intros k e He. destruct (O k e He) as [? [?|?]]; (split; [done|]); [by left|right; by apply Hf].
Qed.

(** ** The steps *)

Abbreviation sm_stakes ids keys s := (stakes_ok ids keys (stake_at s) (pidRegistry s) (processes s) (refused s)).

Lemma same_stakes ids keys s s' :
  pidRegistry s' = pidRegistry s -> processes s' = processes s -> refused s' = refused s ->
  (forall x, stake_at s' x = stake_at s x) -> sm_stakes ids keys s -> sm_stakes ids keys s'.
Proof. intros -> -> -> Hx Hs. by apply (stakes_same _ _ _ _ _ _ Hs). Qed.

(** A thread that goes on with the stake it has. *)
Lemma thread_stakes ids keys t th th' s :
  threads s !! t = th -> th ≫= thread_stake = th' ≫= thread_stake ->
  sm_stakes ids keys s -> sm_stakes ids keys (set_thread t th' s).
Proof.
  intros Ht Hth. apply same_stakes; try (by destruct th'). intros x. rewrite stake_thread. unfold upd. case_decide as E; [|done].
  subst x. cbn [stake_at]. by rewrite Ht.
Qed.

Lemma fail_stakes ids keys t p s :
  stake_at s (InThread t) = Some (pool_stake p) -> sm_stakes ids keys s -> sm_stakes ids keys (fail_create t p s).
Proof.
  intros Ht Hs. refine (stakes_same _ _ _ _ _ _ (stakes_end _ _ _ _ _ _ Hs (InThread t) (pool_stake p) (refused s ++ [pool_id p]) Ht _ _) _ _).
  - right. apply elem_of_app. right. by left.
  - intros id Hin. apply elem_of_app. by left.
  - intros x. unfold fail_create. etransitivity; [by apply stake_same|]. rewrite stake_thread. unfold upd.
    case_decide; [done|]. by apply stake_same.
Qed.

Lemma spawn_stakes ids keys t mcp p server todo pid startNs s :
  threads s !! t = Some (Starting mcp p (server :: todo)) -> (pid, startNs) ∉ keys ->
  sm_stakes ids keys s ->
  sm_stakes ids (keys ++ [(pid, startNs)]) (spawn_server t mcp p server todo (Some (pid, startNs)) s).
Proof.
  intros Ht Hk Hs.
  assert (stake_at s (InThread t) = Some (pool_stake p)) as Hst by (cbn; by rewrite Ht).
  refine (stakes_same _ _ _ _ _ _ (stakes_spawn _ _ _ _ _ _ Hs (InThread t) (pool_stake p) pid startNs server Hst Hk) _ _).
  intros x. unfold spawn_server. rewrite stake_thread. unfold upd. case_decide.
  - cbn. unfold pool_stake. cbn. by rewrite map_app.
  - by apply stake_same.
Qed.

(** Listing a session moves it from its thread to the list, unlisting it back to a thread. *)
Lemma list_stakes ids keys t mcp p s :
  threads s !! t = Some (Starting mcp p []) -> sm_stakes ids keys s -> (forall id p, smRuntimes s !! id = Some p -> pool_id p = id) ->
  sm_stakes ids keys (list_session withEngine t mcp p s).
Proof.
  intros Ht Hs Hl.
  assert (stake_at s (InThread t) = Some (pool_stake p)) as Hst by (cbn; by rewrite Ht).
  assert (smRuntimes s !! pool_id p = None) as Hfree.
  { destruct (smRuntimes s !! pool_id p) as [q|] eqn:Eq; [|done]. exfalso.
    assert (InList (pool_id p) = InThread t) as E; [|done].
    eapply (so_id _ _ _ _ _ _ Hs); [|exact Hst|]; [cbn; by rewrite Eq|]. cbn. by apply Hl. }
  assert (forall x, stake_at (list_session withEngine t mcp p s) x =
    upd (InThread t) None (upd (InList (pool_id p)) (Some (pool_stake p)) (stake_at s)) x) as Hx.
  { intros x. unfold list_session. rewrite stake_thread. cbn [mbind option_bind]. cbn [thread_stake]. unfold upd. case_decide; [done|].
    destruct x as [t'|id]; cbn.
    - by destruct withEngine.
    - case_decide as E; [injection E as ->; by rewrite lookup_insert_eq|]. rewrite lookup_insert_ne by congruence. by destruct withEngine. }
  assert (pidRegistry (list_session withEngine t mcp p s) = pidRegistry s /\
          processes (list_session withEngine t mcp p s) = processes s /\ refused (list_session withEngine t mcp p s) = refused s) as (E1 & E2 & E3)
    by (unfold list_session; by destruct withEngine).
  rewrite E1, E2, E3.
  apply (stakes_move _ _ _ _ _ _ Hs _ (λ x, if decide (x = InList (pool_id p)) then InThread t else x)).
  - intros y b. rewrite Hx. unfold upd. repeat case_decide; subst; try done. by intros [= <-].
  - intros y y' b b'. rewrite !Hx. unfold upd. repeat case_decide; subst; try done.
  - intros x a Ha. destruct (decide (x = InThread t)) as [->|Hne].
    + exists (InList (pool_id p)). rewrite Hx. unfold upd. rewrite decide_False, decide_True by done. by rewrite <- Hst.
    + exists x. rewrite Hx. unfold upd. rewrite decide_False by done. case_decide; [|done]. subst x. cbn in Ha. by rewrite Hfree in Ha.
Qed.

Lemma unlist_stakes ids keys t id rest s :
  threads s !! t = Some (Sweep (id :: rest)) -> sm_stakes ids keys s -> (forall id p, smRuntimes s !! id = Some p -> pool_id p = id) ->
  sm_stakes ids keys (unlist_session t id rest s).
Proof.
  intros Ht Hs Hl. unfold unlist_session. destruct (smRuntimes s !! id) as [p|] eqn:Eid.
  2: { eapply (same_stakes _ _ s); try done. intros x. rewrite stake_thread. unfold upd. case_decide as E; [subst x; cbn; by rewrite Ht|].
       by apply stake_same. }
  match goal with |- context [stake_at ?s'] => set (s1 := s') end.
  assert (forall x, stake_at s1 x = upd (InThread t) (Some (pool_stake p)) (upd (InList id) None (stake_at s)) x) as Hx.
  { intros x. unfold s1. rewrite stake_thread. unfold upd. case_decide; [done|]. destruct x as [t'|id']; cbn; [done|].
    case_decide as E; [injection E as ->; by rewrite lookup_delete_eq|]. by rewrite lookup_delete_ne by congruence. }
  assert (stake_at s (InThread t) = None) as Hst by (cbn; by rewrite Ht).
  apply (stakes_move _ _ _ _ _ _ Hs _ (λ x, if decide (x = InThread t) then InList id else x)).
  - intros y b. rewrite Hx. unfold upd. repeat case_decide; subst; try done. intros [= <-]. cbn. by rewrite Eid.
  - intros y y' b b'. rewrite !Hx. unfold upd. repeat case_decide; subst; try done.
  - intros x a Ha. destruct (decide (x = InList id)) as [->|Hne].
    + exists (InThread t). rewrite Hx. unfold upd. rewrite decide_True by done. cbn in Ha. by rewrite Eid in Ha.
    + exists x. rewrite Hx. unfold upd. rewrite (decide_False (P := x = InList id)) by done. case_decide; [|done]. subst x. congruence.
Qed.

Lemma stop_stakes ids keys t p rest s :
  threads s !! t = Some (Stopping p rest) -> sm_stakes ids keys s -> sm_stakes ids keys (stop_session t p rest s).
Proof.
  intros Ht Hs.
  set (a := {| stID := pool_id p; stDue := []; stRun := map fst (plRegistered p) |}).
  assert (stake_at s (InThread t) = Some a) as Hst by (cbn; by rewrite Ht).
  refine (stakes_same _ _ _ _ _ _ (stakes_end _ _ _ _ _ _ Hs (InThread t) a (refused s) Hst (or_introl eq_refl) (λ _ H, H)) _ _).
  intros x. unfold stop_session. rewrite stake_thread. unfold upd. case_decide; [done|]. by apply stake_same.
Qed.

Lemma unregister_stakes ids keys t p todo rest s :
  threads s !! t = Some (Unregistering p todo rest) -> sm_stakes ids keys s ->
  sm_stakes ids keys (unregister_next hooks t p todo rest s).
Proof.
  intros Ht Hs. destruct todo as [|[[pid startNs] srv] todo]; unfold unregister_next.
  - assert (forall x, stake_at (call_hook hooks Unwatched p s) x = stake_at s x) as Hx.
    { intros x. unfold call_hook. destruct (_ || _); [done|]. by apply stake_same. }
    eapply (same_stakes _ _ s); try done; try (unfold call_hook; by destruct (_ || _)).
    intros x. rewrite stake_thread. unfold upd. case_decide as E; [subst x; cbn; by rewrite Ht|]. apply Hx.
  - set (a := {| stID := pool_id p; stDue := ((pid, startNs), srv) :: todo; stRun := map fst (plRegistered p) |}).
    assert (stake_at s (InThread t) = Some a) as Hst by (cbn; by rewrite Ht).
    refine (stakes_same _ _ _ _ _ _ (stakes_unregister _ _ _ _ _ _ Hs (InThread t) a pid startNs srv todo Hst eq_refl) _ _).
    intros x. rewrite stake_thread. unfold upd. case_decide; [done|]. by apply stake_same.
Qed.

(** An action keeps the stakes. *)
Lemma manage_stakes acts a s s' :
  manager_ok acts s -> act a s = Some s' -> NoDup (created_ids (acts ++ [a])) -> NoDup (spawned (acts ++ [a])) ->
  sm_stakes (created_ids (acts ++ [a])) (spawned (acts ++ [a])) s'.
Proof.
  intros [Hs Hl _ _] Hm Hids Hkeys. rewrite created_app in Hids |- *. rewrite spawned_app in Hkeys |- *.
  assert (forall s'', sm_stakes (created_ids acts) (spawned acts) s'' ->
    sm_stakes (created_ids acts ++ created_ids [a]) (spawned acts ++ spawned [a]) s'') as more
    by (intros s''; apply stakes_more; intros; apply elem_of_app; by left).
  destruct a as [t id mcp now|t started|t frame|t|id now|t id|t n now]; cbn in Hm.
  - case_decide as Ht; [|done]. injection Hm as <-. unfold begin_create. destruct (_ && _).
    { apply more. revert Hs. unfold add_refused. cbn [refused pidRegistry processes]. intros Hs.
      refine (stakes_same _ _ _ _ _ _ (stakes_failed _ _ _ _ _ _ (refused s ++ [id]) _ Hs) _ _); [intros; apply elem_of_app; by left|].
      intros x. by apply stake_same. }
    cbn in *. rewrite app_nil_r. apply NoDup_app in Hids as (_ & Hid & _).
    refine (stakes_same _ _ _ _ _ _ (stakes_new _ _ _ _ _ _ Hs (InThread t) id _ _) _ _).
    + cbn. by rewrite Ht.
    + intros Hin. apply (Hid id Hin). by left.
    + intros x. by rewrite stake_thread.
  - destruct (threads s !! t) as [[mcp p [|server todo]| | | | | | ]|] eqn:Ht; try done. injection Hm as <-.
    destruct started as [[pid startNs]|].
    + cbn in *. rewrite app_nil_r. apply (spawn_stakes _ _ _ _ _ _ _ _ _ _ Ht); [|done].
      apply NoDup_app in Hkeys as (_ & Hk & _). intros Hin. apply (Hk _ Hin). by left.
    + apply more, fail_stakes; [|done]. cbn. by rewrite Ht.
  - destruct (threads s !! t) as [[|mcp p sc todo| | | | | ]|] eqn:Ht; try done. injection Hm as <-. apply more.
    unfold finish_init. destruct (frame ≫= decode_tools) as [raws|]; [|apply fail_stakes; [cbn; by rewrite Ht|done]].
    eapply thread_stakes; [exact Ht| |done]. cbn. unfold pool_stake, pool_id. cbn. by rewrite rtID_register_tools.
  - apply more. destruct (threads s !! t) as [th|] eqn:Ht; [|done].
    destruct th as [mcp p [|server todo]|mcp p sc todo|mcp p|m id|[|id rest]|p todo rest|p rest]; try done; injection Hm as <-.
    + by apply list_stakes.
    + assert (sm_stakes (created_ids acts) (spawned acts) (call_hook hooks Watched p s)) as Hc
        by (unfold call_hook; destruct (_ || _); [done|]; by eapply (same_stakes _ _ s); [..|intros x; by apply stake_same|]).
      eapply thread_stakes; [reflexivity| |exact Hc]. unfold call_hook. destruct (_ || _); cbn; rewrite Ht; by destruct mcp.
    + eapply (thread_stakes _ _ t); [cbn; exact Ht|done|]. by eapply (same_stakes _ _ s); [..|intros x; by apply stake_same|].
    + by eapply thread_stakes; [exact Ht|..].
    + by apply unlist_stakes.
    + by apply unregister_stakes.
    + by apply stop_stakes.
  - apply more. injection Hm as <-. unfold Touch. destruct (smRuntimes s !! id) as [p|] eqn:Eid; [|done].
    eapply (same_stakes _ _ s); [done..| |done]. intros [t|id']; [done|]. cbn.
    destruct (decide (id' = id)) as [->|Hne]; [by rewrite lookup_insert_eq, Eid|by rewrite lookup_insert_ne].
  - apply more. case_decide as Ht; [|done]. injection Hm as <-. by eapply thread_stakes; [exact Ht|..].
  - apply more. destruct (bool_decide _) eqn:Ht; [|done]. apply bool_decide_eq_true in Ht. destruct (0 <? _); [|done].
    injection Hm as <-. by eapply thread_stakes; [exact Ht|..].
Qed.

(** An action keeps track of what is listed, and of what is bound to which MCP session. *)
Lemma manage_lists acts a s s' id p : manager_ok acts s -> act a s = Some s' -> smRuntimes s' !! id = Some p -> pool_id p = id.
Proof.
  intros [_ Hl _ _] Hm. revert Hm.
  assert (forall s1, smRuntimes s1 = smRuntimes s -> smRuntimes s1 !! id = Some p -> pool_id p = id) as same
    by (intros s1 ->; apply Hl).
  destruct a as [t i mcp now|t started|t frame|t|i now|t i|t n now]; cbn.
  - case_decide; [|done]. intros [= <-]. apply same. unfold begin_create. by destruct (_ && _).
  - destruct (threads s !! t) as [[mcp q [|server todo]| | | | | | ]|]; try done. intros [= <-]. apply same.
    unfold spawn_server. by destruct started as [[pid startNs]|].
  - destruct (threads s !! t) as [[|mcp q sc todo| | | | | ]|]; try done. intros [= <-]. apply same.
    unfold finish_init. by destruct (frame ≫= decode_tools).
  - destruct (threads s !! t) as [th|]; [|done].
    destruct th as [mcp q [|server todo]|mcp q sc todo|mcp q|m i|[|i rest]|q todo rest|q rest]; try done; intros [= <-].
    + cbn. destruct (decide (id = pool_id q)) as [->|Hne]; [by rewrite lookup_insert_eq; intros [= <-]|].
      rewrite lookup_insert_ne by done. destruct withEngine; by apply Hl.
    + apply same. unfold watch_session, call_hook. by destruct mcp, (_ || _).
    + by apply same.
    + by apply same.
    + unfold unlist_session. destruct (smRuntimes s !! i); [|by apply same]. cbn. intros [_ ?]%lookup_delete_Some. by apply Hl.
    + apply same. unfold unregister_next, call_hook. destruct todo as [|[[? ?] ?] ?]; [by destruct (_ || _)|done].
    + by apply same.
  - intros [= <-]. unfold Touch. destruct (smRuntimes s !! i) as [q|] eqn:Ei; [|by apply same]. cbn.
    destruct (decide (id = i)) as [->|Hne]; [|rewrite lookup_insert_ne by done; by apply Hl].
    rewrite lookup_insert_eq. intros [= <-]. by apply (Hl _ q).
  - case_decide; [|done]. intros [= <-]. by apply same.
  - destruct (_ && _); [|done]. intros [= <-]. by apply same.
Qed.

(** [bindings cs s]: what the threads are to bind and what is bound was asked for. *)
Definition bindings (cs : list (bytes * option bytes)) (s : SessionManager) : Prop :=
  (forall t th b, threads s !! t = Some th -> thread_mcp th = Some b -> b ∈ cs) /\
  (forall m id, mcpSessions s !! m = Some id -> (id, Some m) ∈ cs).

Lemma bindings_thread cs t th s :
  (forall th' b, th = Some th' -> thread_mcp th' = Some b -> b ∈ cs) -> bindings cs s -> bindings cs (set_thread t th s).
Proof.
  intros Hth [Ht Hb]. split; [|done]. intros t' th' b. cbn. destruct (decide (t' = t)) as [->|Hne]; destruct th as [th|].
  - rewrite lookup_insert_eq. intros [= <-]. by apply Hth.
  - by rewrite lookup_delete_eq.
  - rewrite lookup_insert_ne by done. apply Ht.
  - rewrite lookup_delete_ne by done. apply Ht.
Qed.

Lemma bindings_same cs s s' : threads s' = threads s -> mcpSessions s' = mcpSessions s -> bindings cs s -> bindings cs s'.
Proof. intros E1 E2. unfold bindings. by rewrite E1, E2. Qed.

Lemma bindings_filter cs id rts s :
  bindings cs s -> bindings cs (set_listed rts (filter (λ kv : bytes * bytes, kv.2 ≠ id) (mcpSessions s)) s).
Proof. intros [Ht Hb]. split; [done|]. intros m i. cbn. intros [? _]%map_lookup_filter_Some. by apply Hb. Qed.

Lemma manage_bindings acts a s s' : manager_ok acts s -> act a s = Some s' -> bindings (creations (acts ++ [a])) s'.
Proof.
  intros [_ _ Ht0 Hb0] Hm. rewrite creations_app. set (cs := creations acts ++ creations [a]).
  assert (forall b, b ∈ creations acts -> b ∈ cs) as Hcs by (intros; apply elem_of_app; by left).
  assert (bindings cs s) as Hs by (split; [intros t th b H1 H2; by eapply Hcs, Ht0|intros m id H1; by apply Hcs, Hb0]).
  assert (forall t th b, threads s !! t = Some th -> thread_mcp th = Some b -> b ∈ cs) as Hth by apply Hs.
  assert (forall t p s1, bindings cs s1 -> bindings cs (fail_create t p s1)) as Hfail.
  { intros t p s1 H1. eapply bindings_same; [..|apply (bindings_thread cs t None (stop_servers p s1))]; [done..|].
    by eapply bindings_same; [..|exact H1]. }
  destruct a as [t id mcp now|t started|t frame|t|id now|t id|t n now]; cbn in Hm.
  - case_decide; [|done]. injection Hm as <-. unfold begin_create. destruct (_ && _); [by eapply bindings_same; [..|exact Hs]|].
    apply bindings_thread; [|done]. intros th' b [= <-] [= <-]. apply elem_of_app. right. by left.
  - destruct (threads s !! t) as [[mcp p [|server todo]| | | | | | ]|] eqn:Ht; try done. injection Hm as <-.
    destruct started as [[pid startNs]|]; [|by apply Hfail]. apply bindings_thread; [|by eapply bindings_same; [..|exact Hs]].
    intros th' b [= <-] [= <-]. by apply (Hth t _ (pool_id p, mcp) Ht).
  - destruct (threads s !! t) as [[|mcp p sc todo| | | | | ]|] eqn:Ht; try done. injection Hm as <-.
    unfold finish_init. destruct (frame ≫= decode_tools) as [raws|]; [|by apply Hfail]. apply bindings_thread; [|done].
    intros th' b [= <-] [= <-]. unfold pool_id. cbn. rewrite rtID_register_tools. by apply (Hth t _ (pool_id p, mcp) Ht).
  - destruct (threads s !! t) as [th|] eqn:Ht; [|done].
    destruct th as [mcp p [|server todo]|mcp p sc todo|mcp p|m id|[|id rest]|p todo rest|p rest]; try done; injection Hm as <-.
    + apply bindings_thread; [|destruct withEngine; by eapply bindings_same; [..|exact Hs]].
      intros th' b [= <-] [= <-]. by apply (Hth t _ (pool_id p, mcp) Ht).
    + apply bindings_thread; [|unfold call_hook; destruct (_ || _); by eapply bindings_same; [..|exact Hs]].
      intros th' b E Eb. destruct mcp as [m|]; [|done]. injection E as <-. injection Eb as <-.
      by apply (Hth t _ (pool_id p, Some m) Ht).
    + apply bindings_thread; [done|]. split; [apply Hs|]. intros m' i. cbn.
      destruct (decide (m' = m)) as [->|Hne]; [|rewrite lookup_insert_ne by done; apply Hs].
      rewrite lookup_insert_eq. intros [= <-]. by apply (Hth t _ (id, Some m) Ht).
    + by apply bindings_thread.
    + unfold unlist_session. destruct (smRuntimes s !! id); (apply bindings_thread; [by intros th' b [= <-]|by apply bindings_filter]).
    + unfold unregister_next. destruct todo as [|[[pid startNs] srv] todo]; (apply bindings_thread; [by intros th' b [= <-]|]).
      * unfold call_hook. destruct (_ || _); by eapply bindings_same; [..|exact Hs].
      * by eapply bindings_same; [..|exact Hs].
    + apply bindings_thread; [by intros th' b [= <-]|by eapply bindings_same; [..|exact Hs]].
  - injection Hm as <-. unfold Touch. destruct (smRuntimes s !! id); [|done]. by eapply bindings_same; [..|exact Hs].
  - case_decide; [|done]. injection Hm as <-. apply bindings_thread; [by intros th' b [= <-]|done].
  - destruct (_ && _); [|done]. injection Hm as <-. apply bindings_thread; [by intros th' b [= <-]|done].
Qed.

(** Fresh: session IDs are random, a process is known by its PID and start time. *)
Definition fresh (acts : list sm_action) : Prop := NoDup (created_ids acts) /\ NoDup (spawned acts).

Lemma managed_ok acts s : act_all acts NewSessionManager = Some s -> fresh acts -> manager_ok acts s.
Proof.
  revert s. induction acts as [|a acts IH] using rev_ind; intros s Hm [Hids Hkeys].
  - injection Hm as <-. apply new_manager_ok.
  - rewrite manage_all_app in Hm. destruct (act_all acts NewSessionManager) as [s1|]; [|done]. cbn in Hm.
    destruct (act a s1) as [s2|] eqn:Ea; [|done]. injection Hm as <-.
    assert (manager_ok acts s1) as Hs1.
    { apply IH; [done|]. rewrite created_app in Hids. rewrite spawned_app in Hkeys.
      apply NoDup_app in Hids as (? & _ & _), Hkeys as (? & _ & _). done. }
    destruct (manage_bindings acts a s1 s2 Hs1 Ea) as [Ht Hb].
    constructor; [by eapply manage_stakes|intros id p; by eapply manage_lists|exact Ht|exact Hb].
Qed.

(** A session resolves from the MCP session it was created for. *)
Lemma resolved_created (acts : list sm_action) (s : SessionManager) (m : bytes) (p : Pool) :
  act_all acts NewSessionManager = Some s -> fresh acts -> GetByMCP m s = Some p ->
  mcpSessions s !! m = Some (pool_id p) /\ smRuntimes s !! pool_id p = Some p /\ (pool_id p, Some m) ∈ creations acts.
Proof.
  intros Hm Hf Hg. destruct (managed_ok _ _ Hm Hf) as [_ Hl _ Hb]. unfold GetByMCP, sm_Get in Hg.
  destruct (mcpSessions s !! m) as [id|] eqn:E; [|done]. cbn in Hg. rewrite (Hl id p Hg). split_and!; [done..|by apply Hb].
Qed.

(** C19: the processes of a session are attributed to it. However creations, clean-ups and sweeps
    interleave, if session IDs and processes are not used twice: as long as a session is listed,
    each of its servers is registered for it, and a lookup by PID answers that server, if
    no other process of that PID is registered. *)
Theorem live_servers_attributed (acts : list sm_action) (s : SessionManager) (id : bytes) (p : Pool) (pid startNs : Z) (srv : bytes) :
  act_all acts NewSessionManager = Some s -> fresh acts ->
  smRuntimes s !! id = Some p -> ((pid, startNs), srv) ∈ plRegistered p ->
  let e := {| peSessionID := id; peServerID := srv |} in
  rEntries (pidRegistry s) !! (pid, startNs) = Some e /\
  ((forall startNs', is_Some (rEntries (pidRegistry s) !! (pid, startNs')) -> startNs' = startNs) ->
   forall alive, PIDLookup alive pid (pidRegistry s) = Some e).
Proof.
  intros Hm Hf Hp Hin e. destruct (managed_ok _ _ Hm Hf) as [Hs Hl _ _].
  assert (rEntries (pidRegistry s) !! (pid, startNs) = Some e) as He.
  { assert (stake_at s (InList id) = Some (pool_stake p)) as Hst by (cbn; by rewrite Hp).
    rewrite (so_entry _ _ _ _ _ _ Hs (InList id) (pool_stake p) (pid, startNs) srv Hst Hin). cbn. by rewrite (Hl id p Hp). }
  split; [done|]. intros Honly alive. unfold PIDLookup.
  pose proof (lookup_pid_spec alive pid _ _ (so_index _ _ _ _ _ _ Hs)) as Hspec.
  destruct (lookup_pid alive pid _ _) as [e'|].
  - destruct Hspec as ([pid' start'] & <- & He'). cbn [fst] in *. assert (start' = startNs) as -> by (apply Honly; by eexists). congruence.
  - by rewrite (Hspec (pid, startNs) eq_refl) in He.
Qed.

(** The session is listed, being created or being cleaned up. *)
Definition busy (s : SessionManager) (id : bytes) : Prop := exists x a, stake_at s x = Some a /\ stID a = id.

(** Nothing is left of a session that is gone. What the registry of processes has is registered for a
    session that is listed, being created or being cleaned up, or is left of a creation that
    returned an error; and a server that runs was started for a session that is listed, being
    created or being cleaned up. *)
Theorem gone_sessions_leave_nothing (acts : list sm_action) (s : SessionManager) :
  act_all acts NewSessionManager = Some s -> fresh acts ->
  (forall k e, rEntries (pidRegistry s) !! k = Some e -> busy s (peSessionID e) \/ peSessionID e ∈ refused s) /\
  (forall k, k ∈ processes s -> exists x a, stake_at s x = Some a /\ k ∈ stRun a).
Proof.
  intros Hm Hf. destruct (managed_ok _ _ Hm Hf) as [Hs _ _ _]. split.
  - intros k e He. destruct (so_owner _ _ _ _ _ _ Hs k e He) as [_ [(x & a & ? & ? & _)|?]]; [left; by exists x, a|by right].
  - apply (so_proc _ _ _ _ _ _ Hs).
Qed.

(** MCP sessions do not share. In every interleaving, two MCP session IDs that resolve to a session
    resolve to two sessions with different servers; and a session resolves from the MCP session
    it was created for. *)
Theorem mcp_sessions_private (acts : list sm_action) (s : SessionManager) (m1 m2 : bytes) (p1 p2 : Pool) :
  act_all acts NewSessionManager = Some s -> fresh acts ->
  GetByMCP m1 s = Some p1 -> GetByMCP m2 s = Some p2 ->
  (pool_id p1, Some m1) ∈ creations acts /\
  (m1 ≠ m2 -> pool_id p1 ≠ pool_id p2 /\ forall k, k ∈ map fst (plRegistered p1) -> k ∉ map fst (plRegistered p2)).
Proof.
  intros Hm Hf H1 H2. destruct (resolved_created _ _ _ _ Hm Hf H1) as (E1 & L1 & Hb1).
  destruct (resolved_created _ _ _ _ Hm Hf H2) as (E2 & L2 & Hb2). split; [done|]. intros Hne.
  assert (pool_id p1 ≠ pool_id p2) as Hid.
  { intros Heq. apply Hne. rewrite Heq in Hb1. destruct Hf as [Hn _]. unfold created_ids in Hn.
    pose proof (NoDup_map_inv_fst _ _ _ _ Hn Hb1 Hb2) as E. by injection E. }
  split; [done|]. intros k Hk1 Hk2. apply Hid. destruct (managed_ok _ _ Hm Hf) as [Hs _ _ _].
  assert (InList (pool_id p1) = InList (pool_id p2)) as [= ->]; [|done].
  eapply (so_key _ _ _ _ _ _ Hs _ _ (pool_stake p1) (pool_stake p2) k); cbn; rewrite ?L1, ?L2; done.
Qed.

End manager.

(** ** Witnesses *)

Definition two_sessions : SessionsConfig := {| MaxConcurrent := 2; IdleTimeout := gostr "10m" |}.
Definition one_session : SessionsConfig := {| MaxConcurrent := 1; IdleTimeout := [] |}.

Definition tools_frame : bytes := rpc "{'jsonrpc':'2.0','id':'x','result':{'tools':[{'name':'read'},{'name':'read'}]}}".

#[local] Instance listed_order : MapOrder := {| range := λ A _ l, l; range_perm := λ A n l, reflexivity l |}.

Abbreviation run cfg := (manage_all [gostr "files"] cfg true true).

(** A session with one server, created by thread [t] for [m]: listed, watched, bound. *)
Definition creating (t : nat) (id m : bytes) (k : ProcessKey) : list sm_action :=
  [Create t id (Some m) 0; Spawn t (Some k); Answer t (Some tools_frame); Proceed t; Proceed t; Proceed t].

Definition both : list sm_action := creating 1 (gostr "s1") (gostr "m1") (100, 5) ++ creating 2 (gostr "s2") (gostr "m2") (200, 6).

Definition managed (acts : list sm_action) : SessionManager := default NewSessionManager (run two_sessions acts NewSessionManager).

Definition pool_of (id : bytes) (s : SessionManager) : Pool := default (new_pool [] 0) (smRuntimes s !! id).

Lemma both_run : run two_sessions both NewSessionManager = Some (managed both).
Proof.
  assert (is_Some (run two_sessions both NewSessionManager)) as [s Hs] by (refine (bool_decide_unpack _ _); vm_compute; exact I).
  unfold managed. by rewrite Hs.
Qed.

Lemma both_fresh : fresh both.
Proof. split; apply (bool_decide_unpack _); vm_compute; exact I. Qed.

Lemma both_listed : smRuntimes (managed both) !! gostr "s1" = Some (pool_of (gostr "s1") (managed both)).
Proof. vm_compute. reflexivity. Qed.

Lemma both_registered : ((100, 5), gostr "files") ∈ plRegistered (pool_of (gostr "s1") (managed both)).
Proof. apply list_elem_of_In. vm_compute. by left. Qed.

Lemma both_keys startNs' : is_Some (rEntries (pidRegistry (managed both)) !! (100, startNs')) -> startNs' = 5.
Proof.
  intros [e He]. assert ((100, startNs') ∈ map fst (map_to_list (rEntries (pidRegistry (managed both))))) as Hin
    by (apply list_elem_of_fmap; exists ((100, startNs'), e); split; [done|by apply elem_of_map_to_list]).
  apply list_elem_of_In in Hin. clear He. vm_compute in Hin. destruct Hin as [E|[E|[]]]; by injection E.
Qed.

Example live_servers_attributed_witness :
  PIDLookup (λ _, true) 100 (pidRegistry (managed both)) = Some {| peSessionID := gostr "s1"; peServerID := gostr "files" |}.
Proof.
  destruct (live_servers_attributed [gostr "files"] two_sessions true true both (managed both) (gostr "s1") _ 100 5 (gostr "files")
    both_run both_fresh both_listed both_registered) as [_ H].
  exact (H both_keys (λ _, true)).
Defined.

Lemma both_bound m : m = gostr "m1" \/ m = gostr "m2" -> is_Some (GetByMCP m (managed both)).
Proof. intros [->| ->]; (refine (bool_decide_unpack _ _); vm_compute; exact I). Qed.

Example mcp_sessions_private_witness :
  exists p1 p2, GetByMCP (gostr "m1") (managed both) = Some p1 /\ GetByMCP (gostr "m2") (managed both) = Some p2 /\ pool_id p1 ≠ pool_id p2.
Proof.
  destruct (both_bound (gostr "m1") (or_introl eq_refl)) as [p1 H1]. destruct (both_bound (gostr "m2") (or_intror eq_refl)) as [p2 H2].
  destruct (mcp_sessions_private [gostr "files"] two_sessions true true both (managed both) _ _ p1 p2 both_run both_fresh H1 H2) as [_ H].
  exact (ex_intro _ p1 (ex_intro _ p2 (conj H1 (conj H2 (proj1 (H ltac:(discriminate))))))).
Defined.

(** The first of them cleaned up. *)
Definition cleaned : list sm_action := both ++ Cleanup 3 (gostr "s1") :: replicate 5 (Proceed 3).

Lemma cleaned_run : run two_sessions cleaned NewSessionManager = Some (managed cleaned).
Proof.
  assert (is_Some (run two_sessions cleaned NewSessionManager)) as [s Hs] by (refine (bool_decide_unpack _ _); vm_compute; exact I).
  unfold managed. by rewrite Hs.
Qed.

Lemma cleaned_fresh : fresh cleaned.
Proof. split; apply (bool_decide_unpack _); vm_compute; exact I. Qed.

(** What the registry holds at the end is the server of the session that stays. *)
Lemma cleaned_entry :
  rEntries (pidRegistry (managed cleaned)) !! (200, 6) = Some {| peSessionID := gostr "s2"; peServerID := gostr "files" |}.
Proof. vm_compute. reflexivity. Qed.

Example gone_sessions_leave_nothing_witness :
  busy (managed cleaned) (gostr "s2") \/ gostr "s2" ∈ refused (managed cleaned).
Proof.
  exact (proj1 (gone_sessions_leave_nothing [gostr "files"] two_sessions true true cleaned (managed cleaned) cleaned_run cleaned_fresh)
           (200, 6) {| peSessionID := gostr "s2"; peServerID := gostr "files" |} cleaned_entry).
Defined.

Example cleaned_up :
  let s := managed cleaned in
  (map_to_list (rEntries (pidRegistry s)), elements (processes s), hookCalls s, GetByMCP (gostr "m1") s) =
  ([((200, 6), {| peSessionID := gostr "s2"; peServerID := gostr "files" |})], [(200, 6)],
   [Watched [100]; Watched [200]; Unwatched [100]], None).
Proof. vm_compute. reflexivity. Qed.

(** A tool is routed to the first server that offers it; the second offer is an event for the engine. *)
Example shadowed_once : map (λ ev, shToolName ev) (shadowed (managed (creating 1 (gostr "s1") (gostr "m1") (100, 5)))) = [gostr "read"].
Proof. vm_compute. reflexivity. Qed.

(** ** Where sessions go wrong *)

(** The limit is looked at before the servers start: sessions created at the same time pass it together. *)
Example limit_passed :
  size (smRuntimes (default NewSessionManager (run one_session
    [Create 1 (gostr "s1") None 0; Create 2 (gostr "s2") None 0; Spawn 1 (Some (100, 5)); Spawn 2 (Some (200, 6));
     Answer 1 (Some tools_frame); Answer 2 (Some tools_frame); Proceed 1; Proceed 2] NewSessionManager))) = 2%nat.
Proof. vm_compute. reflexivity. Qed.

(** A creation that fails stops the servers it started and leaves them registered. When the PID
    comes back as a server of another session, events of that one are attributed to the session
    that never was. *)
Definition failed_then_reused : list sm_action :=
  [Create 1 (gostr "s1") None 0; Spawn 1 (Some (100, 5)); Answer 1 None] ++ creating 2 (gostr "s2") (gostr "m2") (100, 9).

Example stale_attribution :
  let s := managed failed_then_reused in
  (elements (processes s), plRegistered (pool_of (gostr "s2") s), peSessionID <$> PIDLookup (λ _, true) 100 (pidRegistry s)) =
  ([(100, 9)], [((100, 9), gostr "files")], Some (gostr "s1")).
Proof. vm_compute. reflexivity. Qed.

(** A session that is used between the look of the sweep and its clean-up is ended all the same. *)
Example used_session_expires :
  let acts := creating 1 (gostr "s1") (gostr "m1") (100, 5) ++ [Expire 2 0 (11 * Minute); Touched (gostr "s1") (11 * Minute); Proceed 2] in
  smRuntimes (managed acts) !! gostr "s1" = None.
Proof. vm_compute. reflexivity. Qed.

(** The session is listed before its processes are watched: a clean-up in between unwatches them first, and
    the processes of a session that is gone stay watched. *)
Example watched_after_cleanup :
  let acts := take 4 (creating 1 (gostr "s1") (gostr "m1") (100, 5)) ++ Cleanup 2 (gostr "s1") :: replicate 5 (Proceed 2) ++
              [Proceed 1; Proceed 1] in
  (hookCalls (managed acts), mcpSessions (managed acts) !! gostr "m1", smRuntimes (managed acts) !! gostr "s1") =
  ([Unwatched [100]; Watched [100]], Some (gostr "s1"), None).
Proof. vm_compute. reflexivity. Qed.

(** The second frame of a server is taken for its list of tools whatever it is: after a server that logs
    first, the answer to initialize, which has no tools. *)
Example answer_taken_for_tools :
  decode_tools (rpc "{'jsonrpc':'2.0','id':'interlock-init-s1-files','result':{'capabilities':{'tools':{}}}}") = Some [].
Proof. vm_compute. reflexivity. Qed.
