(* ===== verification/Validate.v ===== *)
(** * internal/config: the checks of a loaded configuration, and the executables it pins

    [validate] fills in defaults and checks a configuration as the YAML gave it; the checks
    of the servers resolve their commands to the executables that may be started. The file system
    is an argument, what the model knows of it is what [filepath.Abs] and [EvalSymlinks] ask. *)

From S2P Require Import Prelude Go GoTime GoStrings Encodings Json Config Match Proc Sessions.

(** ** The sections *)

Record TransportConfig := {
  tr_Mode : bytes; tr_Listen : bytes; tr_Endpoint : bytes; tr_ProtocolVersion : bytes;
  tr_PreferSSEResponses : bool; tr_BearerToken : bytes; tr_RateLimitRPS : float64 }.

Record EvidenceConfig := {
  ev_Backend : bytes; ev_Path : bytes; ev_MaxRecords : Z; ev_Backpressure : bytes; ev_QueueSize : Z }.

Record LoggingConfig := { lg_Backpressure : bytes; lg_QueueSize : Z }.

Record ObservabilityConfig := { ob_Listen : bytes; ob_MetricsPath : bytes; ob_HealthPath : bytes }.

Record WebhookConfig := {
  wh_URL : bytes; wh_Format : bytes; wh_MinVerdict : bytes; wh_Timeout : bytes; wh_PagerDutyRoutingKey : bytes }.

Record SIEMConfig := { si_Format : bytes; si_Path : bytes; si_URL : bytes; si_MinVerdict : bytes; si_Timeout : bytes }.

Record SandboxConfig := { sb_NetNS : bool; sb_SpawnAllowlist : list bytes }.

Record TaintBridgeConfig := {
  tb_Enabled : bool; tb_SocketPath : bytes; tb_AllowedUIDs : list Z; tb_AllowedGIDs : list Z; tb_SocketGID : Z }.

(** The top level; [engine_settings] are the sections of [Config.Config], the servers among them. *)
Record Settings := {
  Transport : TransportConfig; Sessions : SessionsConfig; Evidence : EvidenceConfig; Logging : LoggingConfig;
  Observability : ObservabilityConfig; Webhook : WebhookConfig; SIEM : SIEMConfig; LSMEnforce : bool;
  FailClosed : FailClosedConfig; Enforcement : bytes; Sandbox : SandboxConfig; TaintBridge : TaintBridgeConfig;
  engine_settings : Config; ResolvedSpawnCommands : gmap bytes bytes; ResolvedSpawnAllowlist : list bytes }.

Definition Servers (c : Settings) : list ServerConfig := c_Servers (engine_settings c).

Definition blank_setting (s : bytes) : bool := bool_decide (TrimSpace s = []).

Definition webhook_enabled (w : WebhookConfig) : bool := negb (blank_setting (wh_URL w)).
Definition siem_enabled (s : SIEMConfig) : bool := negb (blank_setting (si_Path s)) || negb (blank_setting (si_URL s)).

(** ** Errors *)

Inductive spawn_error :=
  | EmptyCommand | Traversal (command : bytes) | Unresolved (command : bytes).

Inductive config_error :=
  | BadEnforcement (got : bytes) | BadMode (got : bytes) | NegativeRate (got : float64)
  | BadBackend (got : bytes) | BadEvidenceBackpressure (got : bytes) | BadLoggingBackpressure (got : bytes)
  | RelativeMetricsPath (got : bytes) | RelativeHealthPath (got : bytes)
  | BadWebhookFormat (got : bytes) | BadWebhookVerdict (got : bytes) | NoRoutingKey | BadWebhookTimeout (got : bytes)
  | BadSIEMFormat (got : bytes) | BadSIEMVerdict (got : bytes) | BadSIEMTimeout (got : bytes)
  | LSMRequired | RatesCrossed (lo hi : float64) | BadMinTrip (got : bytes) | BadRecoveryWindow (got : bytes) | BadMaxTrip (got : bytes)
  | NoPeers | NegativeUID | NegativeGID | NegativeSocketGID
  | NoServers | NoServerID (i : nat) | NoServerCommand (i : nat) (id : bytes) | DuplicateServer (i : nat) (id : bytes)
  | BadCommand (id : bytes) (e : spawn_error) | BadAllowlistEntry (entry : bytes) (e : spawn_error).

Inductive checked (A : Type) := Valid (a : A) | Invalid (e : config_error).
Arguments Valid {A} a.
Arguments Invalid {A} e.

#[export] Instance checked_bind : MBind checked := λ A B f m, match m with Valid a => f a | Invalid e => Invalid e end.

(** [if !ok { return err }] *)
Definition require (ok : bool) (e : config_error) : checked unit := if ok then Valid tt else Invalid e.

(** ** spawn.go *)

Inductive symlinks := Real (path : bytes) | NotExist | SymlinkError.

(** The working directory and what EvalSymlinks makes of an absolute path. *)
Record filesystem := { getwd : option bytes; EvalSymlinks : bytes -> symlinks }.

Definition Abs (fs : filesystem) (path : bytes) : option bytes :=
  match path with
  | x2f :: _ => Some (Clean path)
  | _ => wd ← getwd fs; Some (PathJoin wd path)
  end.

Definition ResolveSpawnExecutable (fs : filesystem) (command : bytes) : spawn_error + bytes :=
  match TrimSpace command with
  | [] => inl EmptyCommand
  | command =>
      if Contains command dotdot then inl (Traversal command)
      else
        match Abs fs (Clean command) with
        | None => inl (Unresolved command)
        | Some abs =>
            match EvalSymlinks fs abs with
            | Real real => inr real
            | NotExist => inr abs
            | SymlinkError => inl (Unresolved command)
            end
        end
  end.

(** One server after the other; [out] is the map so far. *)
Fixpoint resolve_servers (fs : filesystem) (servers : list ServerConfig) (out : gmap bytes bytes) : checked (gmap bytes bytes) :=
  match servers with
  | [] => Valid out
  | s :: servers =>
      match ResolveSpawnExecutable fs (sc_Command s) with
      | inl e => Invalid (BadCommand (sc_ID s) e)
      | inr resolved => resolve_servers fs servers (<[sc_ID s := resolved]> out)
      end
  end.

Definition BuildResolvedSpawnCommands (fs : filesystem) (c : Settings) : checked (gmap bytes bytes) :=
  resolve_servers fs (Servers c) ∅.

Fixpoint resolve_extras (fs : filesystem) (entries : list bytes) : checked (list bytes) :=
  match entries with
  | [] => Valid []
  | cmd :: entries =>
      match ResolveSpawnExecutable fs cmd with
      | inl e => Invalid (BadAllowlistEntry cmd e)
      | inr resolved => out ← resolve_extras fs entries; Valid (resolved :: out)
      end
  end.

Definition BuildResolvedSpawnExtras (fs : filesystem) (c : Settings) : checked (list bytes) :=
  resolve_extras fs (sb_SpawnAllowlist (Sandbox c)).

(** ** The checks *)

Definition equals (s : bytes) (t : string) : bool := bool_decide (s = gostr t).
Arguments equals s t%_string.

(** The default for a string that is left out. *)
Definition or_else (s : bytes) (d : string) : bytes := match s with [] => gostr d | _ => s end.
Arguments or_else s d%_string.

Definition set_enforcement (e : bytes) (c : Settings) : Settings := {|
  Transport := Transport c; Sessions := Sessions c; Evidence := Evidence c; Logging := Logging c; Observability := Observability c;
  Webhook := Webhook c; SIEM := SIEM c; LSMEnforce := LSMEnforce c; FailClosed := FailClosed c; Enforcement := e;
  Sandbox := Sandbox c; TaintBridge := TaintBridge c; engine_settings := engine_settings c;
  ResolvedSpawnCommands := ResolvedSpawnCommands c; ResolvedSpawnAllowlist := ResolvedSpawnAllowlist c |}.

Definition set_transport (t : TransportConfig) (s : SessionsConfig) (c : Settings) : Settings := {|
  Transport := t; Sessions := s; Evidence := Evidence c; Logging := Logging c; Observability := Observability c;
  Webhook := Webhook c; SIEM := SIEM c; LSMEnforce := LSMEnforce c; FailClosed := FailClosed c; Enforcement := Enforcement c;
  Sandbox := Sandbox c; TaintBridge := TaintBridge c; engine_settings := engine_settings c;
  ResolvedSpawnCommands := ResolvedSpawnCommands c; ResolvedSpawnAllowlist := ResolvedSpawnAllowlist c |}.

(** The sections that only output reads. *)
Definition set_outputs (e : EvidenceConfig) (l : LoggingConfig) (o : ObservabilityConfig) (w : WebhookConfig) (s : SIEMConfig) (c : Settings) : Settings := {|
  Transport := Transport c; Sessions := Sessions c; Evidence := e; Logging := l; Observability := o;
  Webhook := w; SIEM := s; LSMEnforce := LSMEnforce c; FailClosed := FailClosed c; Enforcement := Enforcement c;
  Sandbox := Sandbox c; TaintBridge := TaintBridge c; engine_settings := engine_settings c;
  ResolvedSpawnCommands := ResolvedSpawnCommands c; ResolvedSpawnAllowlist := ResolvedSpawnAllowlist c |}.

Definition set_resolved (m : gmap bytes bytes) (l : list bytes) (c : Settings) : Settings := {|
  Transport := Transport c; Sessions := Sessions c; Evidence := Evidence c; Logging := Logging c; Observability := Observability c;
  Webhook := Webhook c; SIEM := SIEM c; LSMEnforce := LSMEnforce c; FailClosed := FailClosed c; Enforcement := Enforcement c;
  Sandbox := Sandbox c; TaintBridge := TaintBridge c; engine_settings := engine_settings c;
  ResolvedSpawnCommands := m; ResolvedSpawnAllowlist := l |}.

Definition validateEnforcement (c : Settings) : checked Settings :=
  if equals (Enforcement c) "block" || equals (Enforcement c) "monitor" then Valid c
  else if bool_decide (Enforcement c = []) then Valid (set_enforcement (gostr "block") c)
  else Invalid (BadEnforcement (Enforcement c)).

(** The switch over the mode. *)
Definition transport_mode (t : TransportConfig) : checked bytes :=
  if bool_decide (tr_Mode t = []) || equals (tr_Mode t) "stdio" then Valid (gostr "stdio")
  else if equals (tr_Mode t) "http" then Valid (tr_Mode t)
  else Invalid (BadMode (tr_Mode t)).

Definition validateTransport (c : Settings) : checked Settings :=
  let t := Transport c in
  mode ← transport_mode t;
  let http := equals mode "http" in
  let t := {|
    tr_Mode := mode; tr_Listen := if http then or_else (tr_Listen t) "127.0.0.1:8080" else tr_Listen t;
    tr_Endpoint := if http then or_else (tr_Endpoint t) "/mcp" else tr_Endpoint t;
    tr_ProtocolVersion := if http then or_else (tr_ProtocolVersion t) "2025-11-25" else tr_ProtocolVersion t;
    tr_PreferSSEResponses := tr_PreferSSEResponses t; tr_BearerToken := tr_BearerToken t; tr_RateLimitRPS := tr_RateLimitRPS t |} in
  _ ← require (negb (http && flt (tr_RateLimitRPS t) (f64 0))) (NegativeRate (tr_RateLimitRPS t));
  let s := Sessions c in
  Valid (set_transport t {| MaxConcurrent := if MaxConcurrent s =? 0 then 32 else MaxConcurrent s; IdleTimeout := IdleTimeout s |} c).

(** A "block" or "drop" setting. *)
Definition backpressure (s : bytes) (e : config_error) : checked bytes :=
  if bool_decide (s = []) || equals s "block" then Valid (gostr "block") else if equals s "drop" then Valid s else Invalid e.

Definition validateEvidenceSettings (c : Settings) : checked Settings :=
  let e := Evidence c in
  backend ← (if bool_decide (ev_Backend e = []) || equals (ev_Backend e) "jsonl" then Valid (gostr "jsonl")
             else if equals (ev_Backend e) "sqlite" then Valid (ev_Backend e) else Invalid (BadBackend (ev_Backend e)));
  b ← backpressure (ev_Backpressure e) (BadEvidenceBackpressure (ev_Backpressure e));
  Valid (set_outputs {|
      ev_Backend := backend; ev_Path := or_else (ev_Path e) (if equals backend "sqlite" then "evidence.db" else "evidence.jsonl");
      ev_MaxRecords := if ev_MaxRecords e =? 0 then 1000 else ev_MaxRecords e; ev_Backpressure := b;
      ev_QueueSize := if ev_QueueSize e =? 0 then 256 else ev_QueueSize e |}
    (Logging c) (Observability c) (Webhook c) (SIEM c) c).

Definition validateLoggingSettings (c : Settings) : checked Settings :=
  let l := Logging c in
  b ← backpressure (lg_Backpressure l) (BadLoggingBackpressure (lg_Backpressure l));
  Valid (set_outputs (Evidence c) {| lg_Backpressure := b; lg_QueueSize := if lg_QueueSize l =? 0 then 256 else lg_QueueSize l |}
           (Observability c) (Webhook c) (SIEM c) c).

Definition validateObservability (c : Settings) : checked Settings :=
  let o := Observability c in
  if bool_decide (ob_Listen o = []) then Valid c
  else
    let o := {| ob_Listen := ob_Listen o; ob_MetricsPath := or_else (ob_MetricsPath o) "/metrics";
                ob_HealthPath := or_else (ob_HealthPath o) "/healthz" |} in
    _ ← require (HasPrefix (ob_MetricsPath o) (gostr "/")) (RelativeMetricsPath (ob_MetricsPath o));
    _ ← require (HasPrefix (ob_HealthPath o) (gostr "/")) (RelativeHealthPath (ob_HealthPath o));
    Valid (set_outputs (Evidence c) (Logging c) o (Webhook c) (SIEM c) c).

(** A duration that is given parses. *)
Definition duration_ok (s : bytes) : bool :=
  bool_decide (s = []) || match ParseDuration s with Some _ => true | None => false end.

(** unicode.ToUpper beyond ASCII. *)
Class UnicodeUpper := unicode_upper : Z -> Z.

Section cases.

Context `{UnicodeLower} `{UnicodeUpper}.

Definition upper_rune (r : Z) : Z :=
  if r <? 0x80 then (if (97 <=? r) && (r <=? 122) then r - 32 else r) else unicode_upper r.

Definition ToUpper (s : bytes) : bytes := mjoin (map (λ r, EncodeRune (upper_rune r)) (runes (length s) s)).

Definition normalizeMinVerdict (v : bytes) (e : bytes -> config_error) : checked bytes :=
  let u := ToUpper (TrimSpace v) in
  if bool_decide (u = []) || equals u "SUSPICIOUS" then Valid (gostr "SUSPICIOUS")
  else if equals u "EXFIL" then Valid (gostr "EXFIL") else Invalid (e v).

Definition webhook_format (f : bytes) : checked bytes :=
  let l := ToLower f in
  if bool_decide (l = []) || equals l "generic" then Valid (gostr "generic")
  else if equals l "slack" || equals l "pagerduty" then Valid l else Invalid (BadWebhookFormat f).

Definition validateAlerting (c : Settings) : checked Settings :=
  let w := Webhook c in
  if negb (webhook_enabled w) then Valid c
  else
    format ← webhook_format (wh_Format w);
    mv ← normalizeMinVerdict (wh_MinVerdict w) BadWebhookVerdict;
    let w := {| wh_URL := wh_URL w; wh_Format := format; wh_MinVerdict := mv; wh_Timeout := wh_Timeout w;
                wh_PagerDutyRoutingKey := wh_PagerDutyRoutingKey w |} in
    _ ← require (negb (equals format "pagerduty" && blank_setting (wh_PagerDutyRoutingKey w))) NoRoutingKey;
    _ ← require (duration_ok (wh_Timeout w)) (BadWebhookTimeout (wh_Timeout w));
    Valid (set_outputs (Evidence c) (Logging c) (Observability c) w (SIEM c) c).

Definition siem_format (f : bytes) : checked bytes :=
  let l := ToLower f in
  if bool_decide (l = []) || equals l "ocsf" then Valid (gostr "ocsf") else if equals l "cef" then Valid (gostr "cef") else Invalid (BadSIEMFormat f).

Definition validateSIEM (c : Settings) : checked Settings :=
  let s := SIEM c in
  if negb (siem_enabled s) then Valid c
  else
    format ← siem_format (si_Format s);
    mv ← normalizeMinVerdict (si_MinVerdict s) BadSIEMVerdict;
    _ ← require (duration_ok (si_Timeout s)) (BadSIEMTimeout (si_Timeout s));
    Valid (set_outputs (Evidence c) (Logging c) (Observability c) (Webhook c)
             {| si_Format := format; si_Path := si_Path s; si_URL := si_URL s; si_MinVerdict := mv; si_Timeout := si_Timeout s |} c).

Definition validateFailClosed (sensorMode : bool) (c : Settings) : checked unit :=
  let f := FailClosed c in
  if negb (fc_Enabled f) then Valid tt
  else
    _ ← require (negb (sensorMode && negb (LSMEnforce c))) LSMRequired;
    let hi := RingbufDropRateThresholdOrDefault f in
    let lo := RingbufRecoveryRateThresholdOrDefault f in
    _ ← require (negb (fle hi lo)) (RatesCrossed lo hi);
    _ ← require (duration_ok (fc_MinTripDuration f)) (BadMinTrip (fc_MinTripDuration f));
    _ ← require (duration_ok (fc_RecoveryWindow f)) (BadRecoveryWindow (fc_RecoveryWindow f));
    require (duration_ok (fc_MaxTripDuration f)) (BadMaxTrip (fc_MaxTripDuration f)).

Definition validateTaintBridge (c : Settings) : checked unit :=
  let b := TaintBridge c in
  if negb (tb_Enabled b) then Valid tt
  else
    _ ← require (negb (bool_decide (tb_AllowedUIDs b = []) && bool_decide (tb_AllowedGIDs b = []))) NoPeers;
    _ ← require (forallb (λ u, 0 <=? u) (tb_AllowedUIDs b)) NegativeUID;
    _ ← require (forallb (λ g, 0 <=? g) (tb_AllowedGIDs b)) NegativeGID;
    require (0 <=? tb_SocketGID b) NegativeSocketGID.

Fixpoint check_servers (i : nat) (seen : list bytes) (servers : list ServerConfig) : checked unit :=
  match servers with
  | [] => Valid tt
  | s :: servers =>
      _ ← require (negb (bool_decide (sc_ID s = []))) (NoServerID i);
      _ ← require (negb (bool_decide (sc_Command s = []))) (NoServerCommand i (sc_ID s));
      _ ← require (negb (bool_decide (sc_ID s ∈ seen))) (DuplicateServer i (sc_ID s));
      check_servers (S i) (sc_ID s :: seen) servers
  end.

Definition validateServers (sensorMode : bool) (fs : filesystem) (c : Settings) : checked Settings :=
  match Servers c with
  | [] => if sensorMode then Valid c else Invalid NoServers
  | servers =>
      _ ← check_servers 0 [] servers;
      if sensorMode then Valid c
      else
        resolved ← BuildResolvedSpawnCommands fs c;
        extras ← BuildResolvedSpawnExtras fs c;
        Valid (set_resolved resolved extras c)
  end.

(** What [load] does to the configuration it decoded. *)
Definition validate (sensorMode : bool) (fs : filesystem) (c : Settings) : checked Settings :=
  c ← validateEnforcement c;
  c ← validateTransport c;
  c ← validateEvidenceSettings c;
  c ← validateLoggingSettings c;
  c ← validateObservability c;
  c ← validateAlerting c;
  c ← validateSIEM c;
  _ ← validateFailClosed sensorMode c;
  _ ← validateTaintBridge c;
  validateServers sensorMode fs c.

End cases.

(** * internal/proxy: which executable a server is started from, and as whom

    spawn.go, and what server.go and sandbox_linux.go hand to os/exec: the executable, its
    arguments, the namespace flag and the identity. The start itself is a system call. *)

Record SpawnPolicy := { Allowed : gmap bytes bytes; Extras : list bytes }.

Inductive refusal := CommandError (e : spawn_error) | NotPinned (resolved want : bytes) | NotListed.

(** The answer is the executable to run. *)
Definition ValidateSpawnCommand (fs : filesystem) (serverID command : bytes) (policy : SpawnPolicy) : refusal + bytes :=
  match ResolveSpawnExecutable fs command with
  | inl e => inl (CommandError e)
  | inr resolved =>
      if bool_decide (Allowed policy !! serverID = Some resolved) then inr resolved
      else if bool_decide (resolved ∈ Extras policy) then inr resolved
      else match Allowed policy !! serverID with Some want => inl (NotPinned resolved want) | None => inl NotListed end
  end.

Definition nobodyID : Z := 65534.

(** [strconv.ParseUint(s, 10, 32)] *)
Definition ParseUint32 (s : bytes) : option Z := z ← ParseUint s; if z <? 2 ^ 32 then Some z else None.

(** uid and gid of the child; [None]: those of the proxy. *)
Definition childCredential (euid : Z) (getenv : bytes -> bytes) : option (Z * Z) :=
  if negb (euid =? 0) then None
  else
    match ParseUint32 (getenv (gostr "SUDO_UID")), ParseUint32 (getenv (gostr "SUDO_GID")) with
    | Some uid, Some gid => if uid =? 0 then Some (nobodyID, nobodyID) else Some (u32 uid, u32 gid)
    | _, _ => Some (nobodyID, nobodyID)
    end.

(** What exec.Cmd is told. *)
Record Cmd := { cmdPath : bytes; cmdArgs : list bytes; cmdNewNet : bool; cmdCredential : option (Z * Z) }.

Definition StartServer (fs : filesystem) (euid : Z) (getenv : bytes -> bytes) (cfg : ServerConfig) (netNS : bool) (policy : SpawnPolicy) : refusal + Cmd :=
  match ValidateSpawnCommand fs (sc_ID cfg) (sc_Command cfg) policy with
  | inl e => inl e
  | inr resolved =>
      inr {| cmdPath := resolved; cmdArgs := sc_Args cfg; cmdNewNet := netNS; cmdCredential := childCredential euid getenv |}
  end.

(** The policy of session_manager.go. *)
Definition spawn_policy (c : Settings) : SpawnPolicy := {| Allowed := ResolvedSpawnCommands c; Extras := ResolvedSpawnAllowlist c |}.

(** NewSessionManager resolves the commands of a configuration that has none resolved; an error
    is passed over. *)
Definition resolve_late (fs : filesystem) (c : Settings) : Settings :=
  if bool_decide (ResolvedSpawnCommands c = ∅) && negb (bool_decide (Servers c = [])) then
    let m := match BuildResolvedSpawnCommands fs c with Valid m => m | Invalid _ => ResolvedSpawnCommands c end in
    let l := match BuildResolvedSpawnExtras fs c with Valid l => l | Invalid _ => ResolvedSpawnAllowlist c end in
    set_resolved m l c
  else c.

(** startAndInit starts a server of the configuration. *)
Definition start_server (fs : filesystem) (euid : Z) (getenv : bytes -> bytes) (c : Settings) (s : ServerConfig) : refusal + Cmd :=
  StartServer fs euid getenv s (sb_NetNS (Sandbox c)) (spawn_policy c).
