(* ===== verification/Url.v ===== *)
(** * net/url: the authority of a URL

    [Parse] as far as the host is concerned: the scheme, the authority, and every check of the
    rest that makes it fail. The names are those of the package; the host of an IP literal is
    checked with net/netip, whose parser of IPv6 addresses is that of [NetIP]. *)

From S2P Require Import Prelude Go GoTime GoStrings Encodings Json Match NetIP.

(** ** Cuts *)

(** [before, after, found := strings.Cut(s, sep)] for a separator of one byte. *)
Fixpoint Cut (s : bytes) (sep : byte) : bytes * bytes * bool :=
  match s with
  | [] => ([], [], false)
  | c :: s => if Byte.eqb c sep then ([], s, true) else let '(b, a, found) := Cut s sep in (c :: b, a, found)
  end.

Definition before (s : bytes) (sep : byte) : bytes := (Cut s sep).1.1.
Definition after (s : bytes) (sep : byte) : bytes := (Cut s sep).1.2.

(** ** Escapes *)

Inductive encoding := encodePath | encodeHost | encodeZone | encodeUserPassword | encodeFragment.

(** shouldEscape for a byte of a host or of a zone. *)
Definition shouldEscapeHost (c : byte) : bool :=
  negb (unreserved c || existsb (Byte.eqb c) (x22 :: gostr "!$&'()*+,;=:[]<>")).

(** Whether an escaped byte is refused. *)
Definition refused_escape (mode : encoding) (hi v : Z) : bool :=
  match mode with
  | encodeHost => (hi <? 8) && negb (v =? 0x25)
  | encodeZone => negb (v =? 0x25) && negb (v =? 0x20) && shouldEscapeHost (Z_byte v)
  | _ => false
  end.

Definition refused_byte (mode : encoding) (c : byte) : bool :=
  match mode with
  | encodeHost | encodeZone => (byte_Z c <? 0x80) && shouldEscapeHost c
  | _ => false
  end.

Fixpoint unescape (mode : encoding) (s : bytes) : option bytes :=
  match s with
  | [] => Some []
  | x25 :: a :: b :: s =>
      x ← from_hex a; y ← from_hex b;
      if refused_escape mode x (16 * x + y) then None else r ← unescape mode s; Some (Z_byte (16 * x + y) :: r)
  | x25 :: _ => None
  | c :: s => if refused_byte mode c then None else r ← unescape mode s; Some (c :: r)
  end.

(** ** The parts *)

Definition letter (c : byte) : bool :=
  let z := byte_Z c in ((65 <=? z) && (z <=? 90)) || ((97 <=? z) && (z <=? 122)).

(** The scheme and the rest, [None] is the error; [first] is whether no byte was read. *)
Fixpoint scheme_from (first : bool) (s : bytes) : option (option (bytes * bytes)) :=
  match s with
  | [] => Some None
  | c :: s =>
      if letter c || (negb first && (is_digit c || existsb (Byte.eqb c) (gostr "+-."))) then
        r ← scheme_from false s; Some ('(scheme, rest) ← r; Some (c :: scheme, rest))
      else if Byte.eqb c x3a then (if first then None else Some (Some ([], s)))
      else Some None
  end.

Definition getScheme (rawURL : bytes) : option (bytes * bytes) :=
  r ← scheme_from true rawURL; Some (default ([], rawURL) r).

Definition validOptionalPort (port : bytes) : bool :=
  match port with [] => true | c :: digits => Byte.eqb c x3a && forallb is_digit digits end.

(** [netip.ParseAddr(s)] gives an address that is not [Is4]: a colon comes before any dot or
    percent sign, and before the zone, which is not empty if there is one, stands an IPv6 address. *)
Fixpoint colon_first (s : bytes) : bool :=
  match s with
  | [] => false
  | c :: s => if Byte.eqb c x3a then true else if Byte.eqb c x2e || Byte.eqb c x25 then false else colon_first s
  end.

Definition ip_literal (s : bytes) : bool :=
  let '(addr, zone, found) := Cut s x25 in
  colon_first s && negb (found && bool_decide (zone = [])) && bool_decide (is_Some (parseIPv6 addr)).

(** A host with two colons is no host since Go 1.26, but for the lists of hosts of PostgreSQL. *)
Definition parseHost (scheme host : bytes) : option bytes :=
  match LastIndex host [x5b] with
  | Some (S _) => None
  | Some O =>
      i ← LastIndex host [x5d];
      let colonPort := drop (S i) host in
      if negb (validOptionalPort colonPort) then None
      else
        port ← unescape encodeHost colonPort;
        let hostname := slice 1 i host in
        name ← match Index hostname (gostr "%25") with
               | Some z => a ← unescape encodeHost (take z hostname); b ← unescape encodeZone (drop z hostname); Some (a ++ b)
               | None => unescape encodeHost hostname
               end;
        if ip_literal name then Some (x5b :: name ++ x5d :: port) else None
  | None =>
      let postgres := bool_decide (scheme = gostr "postgres") || bool_decide (scheme = gostr "postgresql") in
      let bad := match (if postgres then LastIndex host [x3a] else Index host [x3a]) with
                 | Some i => negb (validOptionalPort (drop i host))
                 | None => false
                 end in
      if bad then None else unescape encodeHost host
  end.

Definition validUserinfo (s : bytes) : bool :=
  forallb (λ c, letter c || is_digit c || existsb (Byte.eqb c) (gostr "-._:~!$&'()*+,;=%@")) s.

Definition parseAuthority (scheme authority : bytes) : option bytes :=
  match LastIndex authority [x40] with
  | None => parseHost scheme authority
  | Some i =>
      host ← parseHost scheme (drop (S i) authority);
      let userinfo := take i authority in
      if negb (validUserinfo userinfo) then None
      else
        let '(username, password, _) := Cut userinfo x3a in
        _ ← unescape encodeUserPassword username; _ ← unescape encodeUserPassword password;
        Some host
  end.

Definition ctl_byte (c : byte) : bool := (byte_Z c <? 32) || (byte_Z c =? 127).

Record URL := { u_Scheme : bytes; u_Host : bytes }.

(** [url.Parse(rawURL)]; [None] is the error. *)
Definition Parse `{UnicodeLower} (rawURL : bytes) : option URL :=
  let '(u, frag, _) := Cut rawURL x23 in
  if existsb ctl_byte u then None
  else
    _ ← unescape encodeFragment frag;
    if bool_decide (u = [x2a]) then Some {| u_Scheme := []; u_Host := [] |}
    else
      '(scheme, rest) ← getScheme u;
      let scheme := ToLower scheme in
      let rest := before rest x3f in
      let no_host := {| u_Scheme := scheme; u_Host := [] |} in
      let with_path host path := _ ← unescape encodePath path; Some {| u_Scheme := scheme; u_Host := host |} in
      let given := negb (bool_decide (scheme = [])) in
      if negb (HasPrefix rest [x2f]) then
        if given then Some no_host
        else if Contains (before rest x2f) [x3a] then None else with_path [] rest
      else if (given || negb (HasPrefix rest (gostr "///"))) && HasPrefix rest (gostr "//") then
        let authority := drop 2 rest in
        let k := default (length authority) (Index authority [x2f]) in
        host ← parseAuthority scheme (take k authority);
        with_path host (drop k authority)
      else with_path [] rest.

(** The host without its port and the brackets of an IP literal, and the port. *)
Definition splitHostPort (hostPort : bytes) : bytes * bytes :=
  let '(host, port) := match LastIndex hostPort [x3a] with
                       | Some i => if validOptionalPort (drop i hostPort) then (take i hostPort, drop (S i) hostPort)
                                   else (hostPort, [])
                       | None => (hostPort, [])
                       end in
  (if HasPrefix host [x5b] && HasSuffix host [x5d] then slice 1 (length host - 1) host else host, port).

Definition Hostname (u : URL) : bytes := (splitHostPort (u_Host u)).1.
Definition Port (u : URL) : bytes := (splitHostPort (u_Host u)).2.
