(* ===== verification/Http.v ===== *)
(** * internal/proxy/http: the front end over HTTP

    headers.go, ratelimit.go, response.go and transport.go: what the handler asks of a request
    before anything else happens, the rate limiter, the two encodings of an answer, and the
    handler as steps over the session manager and the proxy. A request is what net/http hands to the
    handler; routing by path and the listener are not modelled. *)

From S2P Require Import Prelude Go GoTime Config GoStrings Encodings Json Model Store Tagger.
From S2P Require Import Egress Regex Taint Overlap Container Match Engine EngineFacts Framer Rpc Proxy.
From S2P Require Import Attribution Proc Sessions Validate NetIP Url.

(** ** Package strconv: the verb %q *)

(** [unicode.IsPrint] beyond Latin-1. *)
Class UnicodePrint := unicode_print : Z -> bool.

(** What encoding/json and other packages say of an error. *)
Class HttpTexts := { body_error : bytes -> bytes; error_text : error -> bytes }.

Fixpoint hex_digits (n : nat) (z : Z) : bytes :=
  match n with O => [] | S n => hex_digits n (z / 16) ++ [hex_digit (z mod 16)] end.

Definition backslashed (c : string) : bytes := x5c :: gostr c.
Arguments backslashed c%_string.

Section texts.

Context `{UnicodePrint}.

Definition IsPrint (r : Z) : bool :=
  if r <=? 0xff then ((0x20 <=? r) && (r <? 0x7f)) || ((0xa1 <=? r) && negb (r =? 0xad)) else unicode_print r.

Definition quote_rune (r : Z) : bytes :=
  if (r =? 0x22) || (r =? 0x5c) then [x5c; Z_byte r]
  else if IsPrint r then EncodeRune r
  else if r =? 7 then backslashed "a" else if r =? 8 then backslashed "b" else if r =? 12 then backslashed "f"
  else if r =? 10 then backslashed "n" else if r =? 13 then backslashed "r" else if r =? 9 then backslashed "t"
  else if r =? 11 then backslashed "v"
  else if (r <? 0x20) || (r =? 0x7f) then backslashed "x" ++ hex_digits 2 r
  else if r <? 0x10000 then backslashed "u" ++ hex_digits 4 r
  else backslashed "U" ++ hex_digits 8 r.

(** A byte that starts no rune is written by number. *)
Fixpoint quote_body (n : nat) (s : bytes) : bytes :=
  match n, s with
  | S n, c :: _ =>
      let '(r, w) := DecodeRune s in
      (if (w =? 1)%nat && (r =? RuneError) then backslashed "x" ++ hex_digits 2 (byte_Z c) else quote_rune r)
        ++ quote_body n (drop w s)
  | _, _ => []
  end.

Definition QuoteGo (s : bytes) : bytes := x22 :: quote_body (length s) s ++ [x22].

End texts.

(** ** Requests *)

(** [Header] is by canonical key, [rqBody] what the body delivers and whether it ends in an error. *)
Record Request := {
  rqMethod : bytes; rqHeader : gmap bytes (list bytes); RemoteAddr : bytes; rqBody : bytes * bool }.

(** textproto.CanonicalMIMEHeaderKey for a key that is a token. *)
Fixpoint canonical (upper : bool) (key : bytes) : bytes :=
  match key with
  | [] => []
  | c :: key =>
      let z := byte_Z c in
      Z_byte (if upper then (if (97 <=? z) && (z <=? 122) then z - 32 else z) else ascii_lower z)
        :: canonical (Byte.eqb c x2d) key
  end.

Definition header (rq : Request) (key : bytes) : bytes :=
  match rqHeader rq !! canonical true key with Some (v :: _) => v | _ => [] end.

Definition HeaderProtocolVersion : bytes := gostr "MCP-Protocol-Version".
Definition HeaderSessionID : bytes := gostr "Mcp-Session-Id".
Definition HeaderMcpMethod : bytes := gostr "Mcp-Method".
Definition HeaderMcpName : bytes := gostr "Mcp-Name".

(** The two credentials are for logs only. *)
Record RequestMeta := {
  rmProtocolVersion : bytes; rmSessionID : bytes; rmMethod : bytes; rmName : bytes; rmAuthorization : bytes; rmCookie : bytes }.

(** The ellipsis is U+2026. *)
Definition RedactCredential (v : bytes) : bytes :=
  if bool_decide (v = []) then []
  else if len v <=? 8 then gostr "[REDACTED]"
  else take 4 v ++ [xe2; x80; xa6] ++ gostr "[REDACTED]".

Definition ParseRequestMeta (rq : Request) : RequestMeta := {|
  rmProtocolVersion := header rq HeaderProtocolVersion; rmSessionID := header rq HeaderSessionID;
  rmMethod := header rq HeaderMcpMethod; rmName := header rq HeaderMcpName;
  rmAuthorization := RedactCredential (header rq (gostr "Authorization"));
  rmCookie := RedactCredential (header rq (gostr "Cookie")) |}.

(** ** Checks of a request: [None] is no error, else its text *)

Definition ValidateAccept (rq : Request) : option bytes :=
  let accept := header rq (gostr "Accept") in
  if bool_decide (accept = []) then Some (gostr "missing Accept header")
  else if negb (Contains accept (gostr "application/json")) || negb (Contains accept (gostr "text/event-stream"))
  then Some (gostr "Accept must include application/json and text/event-stream")
  else None.

Section checks.

Context `{UnicodeLower} `{UnicodePrint} `{HttpTexts}.

(** One round of the loop over the allowed hosts. *)
Definition origin_is (host port allowed : bytes) : bool :=
  let allowed := ToLower (TrimSpace allowed) in
  negb (bool_decide (allowed = [])) &&
  (bool_decide (host = allowed) || (negb (bool_decide (port = [])) && bool_decide (host ++ x3a :: port = allowed))).

Definition ValidateOrigin (rq : Request) (allowedHosts : list bytes) : option bytes :=
  let origin := header rq (gostr "Origin") in
  let invalid := Some (gostr "invalid Origin: " ++ origin) in
  if bool_decide (origin = []) then None
  else
    match Parse origin with
    | None => invalid
    | Some u =>
        if bool_decide (u_Host u = []) then invalid
        else if existsb (origin_is (ToLower (Hostname u)) (Port u)) allowedHosts then None else invalid
    end.

Definition ValidateProtocolVersion (got want : bytes) : option bytes :=
  if bool_decide (got = []) then Some (gostr "missing " ++ HeaderProtocolVersion ++ gostr " header")
  else if negb (bool_decide (want = [])) && negb (bool_decide (got = want))
  then Some (HeaderProtocolVersion ++ gostr " mismatch: got " ++ QuoteGo got ++ gostr " want " ++ QuoteGo want)
  else None.

Definition ValidateHeaderBodyMatch (meta : RequestMeta) (body : bytes) : option bytes :=
  match decode_message body with
  | None => Some (gostr "invalid JSON body: " ++ body_error body)
  | Some msg =>
      if negb (bool_decide (rmMethod meta = [])) && negb (bool_decide (Method msg = [])) &&
         negb (bool_decide (rmMethod meta = Method msg))
      then Some (gostr "Mcp-Method header " ++ QuoteGo (rmMethod meta) ++ gostr " does not match body method " ++ QuoteGo (Method msg))
      else if bool_decide (rmName meta = []) || negb (bool_decide (Method msg = gostr "tools/call")) then None
      else
        match ParseToolCallParams (Params msg) with
        | None => None
        | Some tc =>
            if negb (bool_decide (Name tc = [])) && negb (bool_decide (rmName meta = Name tc))
            then Some (gostr "Mcp-Name header " ++ QuoteGo (rmName meta) ++ gostr " does not match body tool " ++ QuoteGo (Name tc))
            else None
        end
  end.

Definition RequireSession (meta : RequestMeta) (body : bytes) : option bytes :=
  match decode_message body with
  | None => Some (body_error body)
  | Some msg =>
      if bool_decide (Method msg = gostr "initialize") || IsNotification msg then None
      else if bool_decide (rmSessionID meta = []) then Some (gostr "missing " ++ HeaderSessionID ++ gostr " header")
      else None
  end.

End checks.

Definition validateBearer (rq : Request) (want : bytes) : bool :=
  if bool_decide (want = []) then true
  else
    let auth := header rq (gostr "Authorization") in
    let prefix := gostr "Bearer " in
    HasPrefix auth prefix && bool_decide (TrimSpace (drop (length prefix) auth) = want).

(** ** The rate limiter *)

Record rateClient := { tokens : float64; lastSeen : Z }.
Record ipRateLimiter := { limit : float64; clients : gmap bytes rateClient }.

(** [None] is nil. *)
Definition newIPRateLimiter (rps : float64) : option ipRateLimiter :=
  if fle rps (f64 0) then None else Some {| limit := rps; clients := ∅ |}.

Definition set_client (ip : bytes) (c : rateClient) (l : ipRateLimiter) : ipRateLimiter :=
  {| limit := limit l; clients := <[ip := c]> (clients l) |}.

(** At the time [now] of the monotonic clock. *)
Definition allow (ip : bytes) (now : Z) (l : ipRateLimiter) : bool * ipRateLimiter :=
  match clients l !! ip with
  | None => (true, set_client ip {| tokens := fsub (limit l) (f64 1); lastSeen := now |} l)
  | Some c =>
      let elapsed := seconds (time_sub now (lastSeen c)) in
      let t := fadd (tokens c) (fmul elapsed (limit l)) in
      let t := if flt (limit l) t then limit l else t in
      if flt t (f64 1) then (false, set_client ip {| tokens := t; lastSeen := now |} l)
      else (true, set_client ip {| tokens := fsub t (f64 1); lastSeen := now |} l)
  end.

Definition clientIP (rq : Request) : bytes :=
  let xff := header rq (gostr "X-Forwarded-For") in
  if negb (bool_decide (xff = [])) then
    match Index xff [x2c] with Some i => TrimSpace (take i xff) | None => TrimSpace xff end
  else
    match LastIndex (RemoteAddr rq) [x3a] with Some i => take i (RemoteAddr rq) | None => RemoteAddr rq end.

(** ** Answers *)

(** [rpSession] is the session header, [rpType] the content type. *)
Record Reply := { rpStatus : Z; rpSession : option bytes; rpType : bytes; rpBody : bytes }.

Definition event_stream : bytes := gostr "text/event-stream".
Definition data_prefix : bytes := gostr "data: ".

(** The stream [WriteSSE] writes. *)
Definition sse_text (jsonBody : bytes) : bytes :=
  mjoin (map (λ line, data_prefix ++ line ++ [x0a]) (Split jsonBody x0a)) ++ [x0a].

Definition WriteSSE (session : option bytes) (jsonBody : bytes) : Reply :=
  {| rpStatus := 200; rpSession := session; rpType := event_stream; rpBody := sse_text jsonBody |}.

Definition WriteJSON (session : option bytes) (status : Z) (jsonBody : bytes) : Reply :=
  {| rpStatus := status; rpSession := session; rpType := gostr "application/json"; rpBody := jsonBody |}.

Definition WriteResponse (session : option bytes) (jsonBody : bytes) (useSSE blocked : bool) : Reply :=
  if blocked || negb useSSE then WriteJSON session 200 jsonBody else WriteSSE session jsonBody.

(** The lines of the scanner; [None] is its error. Every round takes a byte at least. *)
Fixpoint sse_parts (n : nat) (s : bytes) : option (list bytes) :=
  match n with
  | O => None
  | S n =>
      match Scan s with
      | inl EndOfStream => Some []
      | inl ErrTooLong => None
      | inr (line, rest) =>
          parts ← sse_parts n rest;
          Some (if bool_decide (line = []) then parts
                else if HasPrefix line data_prefix then TrimPrefix line data_prefix :: parts
                else parts)
      end
  end.

Definition ParseSSEResponse (s : bytes) : option bytes :=
  parts ← sse_parts (S (length s)) s; Some (Join parts [x0a]).

Section handler.

Context `{UnicodeLower} `{UnicodePrint} `{HttpTexts}.

Definition WriteJSONRPCError (session : option bytes) (httpStatus code : Z) (message : bytes) : Reply :=
  WriteJSON session httpStatus
    (rpc "{'jsonrpc':'2.0','error':{'code':" ++ Itoa code ++ rpc ",'message':" ++ QuoteGo message ++ gostr "}}").

(** ** handleMCP up to the session *)

Context (t : TransportConfig).

Definition unauthorized : Reply := WriteJSONRPCError None 401 (-32600) (gostr "unauthorized").

(** The method, the bearer token and the rate limiter; [None] is no answer yet. *)
Definition authorise (now : Z) (rq : Request) (l : option ipRateLimiter) : option Reply * option ipRateLimiter :=
  if negb (bool_decide (rqMethod rq = gostr "POST")) then
    (Some {| rpStatus := 405; rpSession := None; rpType := gostr "text/plain; charset=utf-8"; rpBody := gostr "method not allowed" ++ [x0a] |}, l)
  else if negb (validateBearer rq (tr_BearerToken t)) then (Some unauthorized, l)
  else
    match l with
    | None => (None, None)
    | Some l =>
        let '(ok, l) := allow (clientIP rq) now l in
        (if ok : bool then None else Some (WriteJSONRPCError None 429 (-32600) (gostr "rate limit exceeded")), Some l)
    end.

(** [strings.Split(s.cfg.Transport.Listen, ":")[0]] first. *)
Definition allowed_hosts : list bytes :=
  [default [] (head (Split (tr_Listen t) x3a)); gostr "localhost"; gostr "127.0.0.1"].

Definition bodyLimit : Z := Z.shiftl 1 20.

(** [io.ReadAll(io.LimitReader(r.Body, 1<<20))] *)
Definition read_body (rq : Request) : option bytes :=
  let '(delivered, failed) := rqBody rq in
  if (failed : bool) && (len delivered <? bodyLimit) then None else Some (take (Z.to_nat bodyLimit) delivered).

Definition bad_request (code : Z) (message : bytes) : Reply := WriteJSONRPCError None 400 code message.

(** From the origin to the decoded message. *)
Definition check_request (rq : Request) : Reply + RequestMeta * bytes * JSONRPCMessage :=
  match ValidateOrigin rq allowed_hosts with
  | Some e => inl (WriteJSONRPCError None 403 (-32600) e)
  | None =>
      match ValidateAccept rq with
      | Some e => inl (bad_request (-32600) e)
      | None =>
          match read_body rq with
          | None => inl (bad_request (-32700) (gostr "read body failed"))
          | Some body =>
              let meta := ParseRequestMeta rq in
              match ValidateProtocolVersion (rmProtocolVersion meta) (tr_ProtocolVersion t) with
              | Some e => inl (bad_request (-32600) e)
              | None =>
                  match ValidateHeaderBodyMatch meta body with
                  | Some e => inl (bad_request (-32600) e)
                  | None =>
                      match RequireSession meta body with
                      | Some e => inl (bad_request (-32600) e)
                      | None =>
                          match decode_message body with
                          | None => inl (bad_request (-32700) (gostr "parse error"))
                          | Some msg => inr (meta, body, msg)
                          end
                      end
                  end
              end
          end
      end
  end.

(** Where a message goes: to a new session, [None], or to the session of its header. *)
Definition route (meta : RequestMeta) (msg : JSONRPCMessage) (s : SessionManager) : Reply + option Pool :=
  if bool_decide (Method msg = gostr "initialize") then inr None
  else if negb (bool_decide (rmSessionID meta = [])) then
    match GetByMCP (rmSessionID meta) s with
    | Some p => inr (Some p)
    | None => inl (bad_request (-32600) (gostr "unknown session"))
    end
  else inl (bad_request (-32600) (gostr "unknown session")).

(** The end of handleMCP; a panic ends the connection without an answer. *)
Definition reply_to (session : option bytes) (r : go DispatchResult) : option Reply :=
  match r with
  | Panic => None
  | Err e => Some (WriteJSONRPCError session 500 (-32603) (error_text e))
  | Ret r =>
      if drNotification r then Some {| rpStatus := 202; rpSession := session; rpType := []; rpBody := [] |}
      else Some (WriteResponse session (Response r) (UseSSE r) (Blocked r))
  end.

End handler.

(** ** The service: handlers of requests over the manager's threads and the proxy

    [svCreating] are the handlers that wait for CreateMCP, by its thread: the request, its body and
    the two IDs; [svWaiting] those that wait for a server, with the session header of their answer. *)

Record Creating := { crRequest : Request; crBody : bytes; crMCP : bytes; crID : bytes }.

Record Service := {
  svLimiter : option ipRateLimiter; svManager : SessionManager; svProxy : Proxy;
  svCreating : gmap nat Creating; svWaiting : gmap (bytes * nat) (Request * option bytes);
  svReplies : list (Request * option Reply) }.

Definition set_limiter (l : option ipRateLimiter) (s : Service) : Service := {|
  svLimiter := l; svManager := svManager s; svProxy := svProxy s; svCreating := svCreating s;
  svWaiting := svWaiting s; svReplies := svReplies s |}.

Definition set_manager (m : SessionManager) (s : Service) : Service := {|
  svLimiter := svLimiter s; svManager := m; svProxy := svProxy s; svCreating := svCreating s;
  svWaiting := svWaiting s; svReplies := svReplies s |}.

Definition set_proxy (p : Proxy) (s : Service) : Service := {|
  svLimiter := svLimiter s; svManager := svManager s; svProxy := p; svCreating := svCreating s;
  svWaiting := svWaiting s; svReplies := svReplies s |}.

Definition set_creating (t : nat) (c : option Creating) (s : Service) : Service := {|
  svLimiter := svLimiter s; svManager := svManager s; svProxy := svProxy s;
  svCreating := partial_alter (λ _, c) t (svCreating s); svWaiting := svWaiting s; svReplies := svReplies s |}.

Definition set_waiting (call : bytes * nat) (w : option (Request * option bytes)) (s : Service) : Service := {|
  svLimiter := svLimiter s; svManager := svManager s; svProxy := svProxy s; svCreating := svCreating s;
  svWaiting := partial_alter (λ _, w) call (svWaiting s); svReplies := svReplies s |}.

Definition add_reply (rq : Request) (r : option Reply) (s : Service) : Service := {|
  svLimiter := svLimiter s; svManager := svManager s; svProxy := svProxy s; svCreating := svCreating s;
  svWaiting := svWaiting s; svReplies := svReplies s ++ [(rq, r)] |}.

(** [NewMCPSessionID], from the 16 random bytes it draws *)
Definition NewMCPSessionID (b : bytes) : bytes := hex_encode b.

(** [Arrive] brings what a new session would get: the random bytes of its MCP session ID, its own ID and the number of its thread; [ok] tells whether a write
    to a server succeeds; [Created] is the return of CreateMCP, with the text of its error; [Manage] a step of the
    manager's threads; [Run] one of the proxy that is no request. *)
Inductive http_action :=
  | Arrive (rq : Request) (now : Z) (ok : bool) (t : nat) (random id : bytes)
  | Created (t : nat) (now : Z) (ok : bool) (text : bytes)
  | Finish (timeout : bool) (id : bytes) (call : nat)
  | Manage (a : sm_action)
  | Run (x : proxy_step).

Section service.

Context `{Compressors} `{MathLog2} `{Floats} `{Archives} `{Clock} `{MapOrder} `{UnicodeLower} `{JsonErrors}.
Context `{UnicodePrint} `{HttpTexts}.

Context (eng : option Engine) (sink audit : bool) (forwarding : bool * bool) (preferSSE stdio : bool).
Context (servers : list bytes) (cfg : SessionsConfig) (hooks withEngine : bool).
Context (t : TransportConfig).

Abbreviation step_proxy := (λ x s, set_proxy (perform_step eng sink audit forwarding preferSSE stdio x (svProxy s)).2 s).

(** HandleAgentRequest for the session [id], and the end of the handler unless a server is asked. *)
Definition dispatch (rq : Request) (session : option bytes) (now : Z) (ok : bool) (id body : bytes) (s : Service) : Service :=
  let s := set_manager (Touch id now (svManager s)) s in
  let '(r, p) := HandleAgentRequest eng sink ok id body (svProxy s) in
  let s := set_proxy p s in
  match r with
  | Ret (inr call) => set_waiting (id, call) (Some (rq, session)) s
  | Ret (inl r) => add_reply rq (reply_to session (Ret r)) s
  | Err e => add_reply rq (reply_to session (Err e)) s
  | Panic => add_reply rq (reply_to session Panic) s
  end.

(** A new session: the manager's thread starts, the proxy has its runtime. *)
Definition create (rq : Request) (body : bytes) (now : Z) (th : nat) (mcp id : bytes) (s : Service) : option Service :=
  m ← manage servers cfg hooks withEngine (Create th id (Some mcp) now) (svManager s);
  let s := set_creating th (Some {| crRequest := rq; crBody := body; crMCP := mcp; crID := id |}) (set_manager m s) in
  Some (if threads m !! th is Some _ then step_proxy (NewSession id) s else s).

(** handleMCP up to the first point where it waits. *)
Definition handleMCP (rq : Request) (now : Z) (ok : bool) (th : nat) (random id : bytes) (s : Service) : option Service :=
  let '(refusal, l) := authorise t now rq (svLimiter s) in
  let s := set_limiter l s in
  match refusal with
  | Some r => Some (add_reply rq (Some r) s)
  | None =>
      match check_request t rq with
      | inl r => Some (add_reply rq (Some r) s)
      | inr (meta, body, msg) =>
          match route meta msg (svManager s) with
          | inl r => Some (add_reply rq (Some r) s)
          | inr None => create rq body now th (NewMCPSessionID random) id s
          | inr (Some p) => Some (dispatch rq None now ok (pool_id p) body s)
          end
      end
  end.

(** The handler after CreateMCP. *)
Definition created (th : nat) (now : Z) (ok : bool) (text : bytes) (s : Service) : option Service :=
  match svCreating s !! th, threads (svManager s) !! th with
  | Some c, None =>
      let s := set_creating th None s in
      Some (if bool_decide (crID c ∈ refused (svManager s))
            then add_reply (crRequest c) (Some (WriteJSONRPCError None 503 (-32603) text)) s
            else dispatch (crRequest c) (Some (crMCP c)) now ok (crID c) (crBody c) s)
  | _, _ => None
  end.

(** A call in flight that is answered or given up. *)
Definition finish (timeout : bool) (id : bytes) (call : nat) (s : Service) : option Service :=
  '(rq, session) ← svWaiting s !! (id, call);
  let '(r, p) := finish_call preferSSE timeout id call (svProxy s) in
  r ← r;
  Some (add_reply rq (reply_to session r) (set_waiting (id, call) None (set_proxy p s))).

(** The tools a step of the manager's threads brings to a session. *)
Definition offers (a : sm_action) (s : SessionManager) : list proxy_step :=
  match a with
  | Answer th (Some frame) =>
      match threads s !! th with
      | Some (Handshaking mcp p sc todo) =>
          map (λ raw, OfferTool (pool_id p) (tool_name raw) sc raw) (default [] (decode_tools frame))
      | _ => []
      end
  | _ => []
  end.

Definition serve (a : http_action) (s : Service) : option Service :=
  match a with
  | Arrive rq now ok th random id => handleMCP rq now ok th random id s
  | Created th now ok text => created th now ok text s
  | Finish timeout id call => finish timeout id call s
  | Manage (Create _ _ _ _) => None
  | Manage a =>
      m ← manage servers cfg hooks withEngine a (svManager s);
      Some (set_manager m (foldl (λ s x, step_proxy x s) s (offers a (svManager s))))
  | Run (AgentFrame _ _ _) | Run (NewSession _) | Run (OfferTool _ _ _ _) | Run (FinishCall _ _ _) => None
  | Run x => Some (step_proxy x s)
  end.

Fixpoint serve_all (acts : list http_action) (s : Service) : option Service :=
  match acts with [] => Some s | a :: acts => s ← serve a s; serve_all acts s end.

Definition NewServer : Service := {|
  svLimiter := newIPRateLimiter (tr_RateLimitRPS t); svManager := NewSessionManager; svProxy := New;
  svCreating := ∅; svWaiting := ∅; svReplies := [] |}.

End service.
