(* ===== verification/HttpTheorems.v ===== *)
(** * Theorems about the HTTP front end

    What a request must show before anything else happens; that a tools/call reaches a server only
    in the session whose MCP session ID it presents, through the manager and the proxy; which
    origins are accepted; and that an answer survives its encoding as an event stream. *)

From S2P Require Import Prelude Go GoTime Config GoStrings Encodings EncodingFacts Json JsonFacts Model Store Tagger.
From S2P Require Import Egress Regex Taint Overlap Container Match Engine EngineFacts Demo Framer Rpc Proxy ProxyTheorems.
From S2P Require Import Attribution Proc ProcTheorems Sessions SessionsTheorems Validate NetIP Url Http.

(** ** What a request must show *)

Section admission.

Context `{UL : UnicodeLower} `{UP : UnicodePrint} `{HT : HttpTexts}.

(** The request passes every check of the handler but the rate limit, with this body and message. *)
Record admitted (t : TransportConfig) (rq : Request) (body : bytes) (msg : JSONRPCMessage) : Prop := {
  ad_post : rqMethod rq = gostr "POST";
  ad_bearer : tr_BearerToken t = [] \/
    exists rest, header rq (gostr "Authorization") = gostr "Bearer " ++ rest /\ TrimSpace rest = tr_BearerToken t;
  ad_origin : ValidateOrigin rq (allowed_hosts t) = None;
  ad_accept : infix (gostr "application/json") (header rq (gostr "Accept")) /\ infix (gostr "text/event-stream") (header rq (gostr "Accept"));
  ad_version : header rq HeaderProtocolVersion ≠ [] /\ (tr_ProtocolVersion t = [] \/ header rq HeaderProtocolVersion = tr_ProtocolVersion t);
  ad_body : read_body rq = Some body;
  ad_msg : decode_message body = Some msg;
  ad_method : header rq HeaderMcpMethod = [] \/ Method msg = [] \/ header rq HeaderMcpMethod = Method msg;
  ad_name tc : header rq HeaderMcpName ≠ [] -> Method msg = gostr "tools/call" -> ParseToolCallParams (Params msg) = Some tc ->
    Name tc = [] \/ header rq HeaderMcpName = Name tc;
  ad_session : Method msg = gostr "initialize" \/ IsNotification msg = true \/ header rq HeaderSessionID ≠ [] }.

Lemma bearer_shown rq want :
  validateBearer rq want = true <->
  want = [] \/ exists rest, header rq (gostr "Authorization") = gostr "Bearer " ++ rest /\ TrimSpace rest = want.
Proof.
  unfold validateBearer. destruct (decide (want = [])) as [->|Hw]; [rewrite bool_decide_true by done; intuition|].
  rewrite bool_decide_false by done. rewrite andb_true_iff, HasPrefix_spec, bool_decide_eq_true. split.
  - intros [[rest E] Ht]. right. exists rest. split; [done|]. rewrite E, drop_app_length in Ht. done.
  - intros [?|(rest & E & Ht)]; [done|]. rewrite E. split; [by exists rest|]. by rewrite drop_app_length.
Qed.

Lemma accept_shown rq :
  ValidateAccept rq = None <->
  infix (gostr "application/json") (header rq (gostr "Accept")) /\ infix (gostr "text/event-stream") (header rq (gostr "Accept")).
Proof.
  unfold ValidateAccept. rewrite <- !Contains_spec. destruct (decide (header rq (gostr "Accept") = [])) as [E|E].
  - rewrite E, bool_decide_true by done. split; [done|]. by intros [? _].
  - rewrite bool_decide_false by done. destruct (Contains _ (gostr "application/json")), (Contains _ (gostr "text/event-stream")); cbn; split; intuition discriminate.
Qed.

Lemma version_shown got want : ValidateProtocolVersion got want = None <-> got ≠ [] /\ (want = [] \/ got = want).
Proof. unfold ValidateProtocolVersion. repeat case_bool_decide; cbn; split; intuition (try done). Qed.

Lemma match_shown rq body msg :
  decode_message body = Some msg ->
  ValidateHeaderBodyMatch (ParseRequestMeta rq) body = None <->
  (header rq HeaderMcpMethod = [] \/ Method msg = [] \/ header rq HeaderMcpMethod = Method msg) /\
  (forall tc, header rq HeaderMcpName ≠ [] -> Method msg = gostr "tools/call" -> ParseToolCallParams (Params msg) = Some tc ->
     Name tc = [] \/ header rq HeaderMcpName = Name tc).
Proof.
  intros Hm. unfold ValidateHeaderBodyMatch. rewrite Hm. cbn [ParseRequestMeta rmMethod rmName].
  destruct (negb (bool_decide (header rq HeaderMcpMethod = [])) && _ && _) eqn:E1.
  { rewrite !andb_true_iff, !negb_true_iff, !bool_decide_eq_false in E1. split; [done|]. intuition. }
  assert (header rq HeaderMcpMethod = [] \/ Method msg = [] \/ header rq HeaderMcpMethod = Method msg) as H1.
  { rewrite !andb_false_iff, !negb_false_iff, !bool_decide_eq_true in E1. intuition. }
  destruct (bool_decide (header rq HeaderMcpName = []) || _) eqn:E2.
  { rewrite orb_true_iff, negb_true_iff, bool_decide_eq_true, bool_decide_eq_false in E2. intuition. }
  rewrite orb_false_iff, negb_false_iff, bool_decide_eq_true, bool_decide_eq_false in E2. destruct E2 as [Hn Hc].
  destruct (ParseToolCallParams (Params msg)) as [tc|] eqn:Ep.
  - destruct (negb (bool_decide (Name tc = [])) && _) eqn:E3.
    + rewrite andb_true_iff, !negb_true_iff, !bool_decide_eq_false in E3. split; [done|]. intros [_ Hx]. destruct (Hx tc) as [?|?]; intuition.
    + rewrite andb_false_iff, !negb_false_iff, !bool_decide_eq_true in E3. split; [|done]. intros _. split; [done|].
      by intros tc' _ _ [= <-].
  - split; [|done]. intros _. split; [done|]. by intros tc' _ _ [= <-].
Qed.

Lemma session_shown rq body msg :
  decode_message body = Some msg ->
  RequireSession (ParseRequestMeta rq) body = None <->
  Method msg = gostr "initialize" \/ IsNotification msg = true \/ header rq HeaderSessionID ≠ [].
Proof.
  intros Hm. unfold RequireSession. rewrite Hm. cbn [ParseRequestMeta rmSessionID].
  destruct (bool_decide (Method msg = gostr "initialize") || IsNotification msg) eqn:E.
  - rewrite orb_true_iff, bool_decide_eq_true in E. intuition.
  - rewrite orb_false_iff, bool_decide_eq_false in E. destruct E as [E1 E2]. rewrite E2. case_bool_decide; split; intuition (try done).
Qed.

(** An answer that refuses the request. *)
Definition refusal_reply (r : Reply) : Prop := 400 <= rpStatus r < 500 /\ rpSession r = None.

Lemma check_request_spec t rq :
  rqMethod rq = gostr "POST" -> validateBearer rq (tr_BearerToken t) = true ->
  match check_request t rq with
  | inl r => refusal_reply r /\ forall body msg, ~ admitted t rq body msg
  | inr (meta, body, msg) => meta = ParseRequestMeta rq /\ admitted t rq body msg
  end.
Proof.
  intros Hp Hb. apply bearer_shown in Hb. unfold check_request.
  destruct (ValidateOrigin rq (allowed_hosts t)) eqn:Eo; [by split; [|intros b m []; congruence]|].
  destruct (ValidateAccept rq) eqn:Ea.
  { split; [done|]. intros b m A. pose proof (proj2 (accept_shown rq) (ad_accept _ _ _ _ A)). congruence. }
  destruct (read_body rq) as [body|] eqn:Er; [|by split; [|intros b m []; congruence]].
  destruct (ValidateProtocolVersion _ _) eqn:Ev.
  { split; [done|]. intros b m A. pose proof (proj2 (version_shown _ _) (ad_version _ _ _ _ A)). cbn [ParseRequestMeta rmProtocolVersion] in Ev. congruence. }
  destruct (decode_message body) as [msg|] eqn:Ed.
  2: { assert (exists e, ValidateHeaderBodyMatch (ParseRequestMeta rq) body = Some e) as [e ->]
         by (unfold ValidateHeaderBodyMatch; rewrite Ed; eauto).
       split; [done|]. intros b m A. pose proof (ad_body _ _ _ _ A). pose proof (ad_msg _ _ _ _ A). congruence. }
  assert (forall b m, admitted t rq b m -> b = body /\ m = msg) as Hsame.
  { intros b m A. pose proof (ad_body _ _ _ _ A). pose proof (ad_msg _ _ _ _ A). split; congruence. }
  destruct (ValidateHeaderBodyMatch _ _) eqn:Em.
  { split; [done|]. intros b m A. destruct (Hsame _ _ A) as [-> ->].
    pose proof (proj2 (match_shown _ _ _ Ed) (conj (ad_method _ _ _ _ A) (ad_name _ _ _ _ A))). congruence. }
  destruct (RequireSession _ _) eqn:Es.
  { split; [done|]. intros b m A. destruct (Hsame _ _ A) as [-> ->].
    pose proof (proj2 (session_shown _ _ _ Ed) (ad_session _ _ _ _ A)). congruence. }
  split; [done|]. apply accept_shown in Ea. apply version_shown in Ev. apply (match_shown _ _ _ Ed) in Em. apply (session_shown _ _ _ Ed) in Es.
  destruct Em. by constructor.
Qed.

(** Refused by the method, the token or the limiter, or let through. *)
Lemma authorise_spec t now rq l :
  match (authorise t now rq l).1 with
  | Some r => refusal_reply r
  | None => rqMethod rq = gostr "POST" /\ validateBearer rq (tr_BearerToken t) = true
  end.
Proof.
  unfold authorise. destruct (decide (rqMethod rq = gostr "POST")) as [Hp|Hp]; [rewrite bool_decide_true by done|by rewrite bool_decide_false].
  destruct (validateBearer rq (tr_BearerToken t)); cbn [negb]; [|done].
  destruct l as [l|]; [|done]. destruct (allow (clientIP rq) now l) as [[] ?]; done.
Qed.

End admission.

(** ** The service keeps to the manager and the proxy *)

(** The IDs a new session would get, with the request they are meant for. *)
Definition arrivals (acts : list http_action) : list (Request * bytes * bytes) :=
  omap (λ a, match a with Arrive rq _ _ _ random id => Some (rq, NewMCPSessionID random, id) | _ => None end) acts.

(** The random bytes that are drawn for them. *)
Definition draws (acts : list http_action) : list bytes :=
  omap (λ a, match a with Arrive _ _ _ _ random _ => Some random | _ => None end) acts.

Definition server_starts (acts : list http_action) : list ProcessKey :=
  omap (λ a, match a with Manage (Spawn _ started) => started | _ => None end) acts.

(** Session IDs are not used twice and no random bytes are drawn twice; a process is known by its PID and start time. *)
Definition http_fresh (acts : list http_action) : Prop :=
  NoDup (map snd (arrivals acts)) /\ NoDup (server_starts acts) /\ NoDup (draws acts).

Section service.

Context `{Compressors} `{MathLog2} `{Floats} `{Archives} `{Clock} `{MapOrder} `{UL : UnicodeLower} `{JsonErrors}.
Context `{UP : UnicodePrint} `{HT : HttpTexts}.
Context (eng : option Engine) (sink audit : bool) (forwarding : bool * bool) (preferSSE stdio : bool).
Context (servers : list bytes) (cfg : SessionsConfig) (hooks withEngine : bool).
Context (t : TransportConfig).

Abbreviation serves := (serve eng sink audit forwarding preferSSE stdio servers cfg hooks withEngine t).
Abbreviation serves_all := (serve_all eng sink audit forwarding preferSSE stdio servers cfg hooks withEngine t).
Abbreviation manages := (manage servers cfg hooks withEngine).
Abbreviation manages_all := (manage_all servers cfg hooks withEngine).
Abbreviation steps := (proxy_after eng sink audit forwarding preferSSE stdio).

Lemma serves_all_app acts acts' s : serves_all (acts ++ acts') s = serves_all acts s ≫= serves_all acts'.
Proof. revert s. induction acts as [|a acts IH]; intros s; [done|]. cbn. destruct (serves a s); [apply IH|done]. Qed.

(** The IDs were handed out for a request that was let through and asks for a session. *)
Definition opened (acts : list http_action) (m id : bytes) : Prop :=
  exists rq body msg, (rq, m, id) ∈ arrivals acts /\ admitted t rq body msg /\ Method msg = gostr "initialize".

(** A frame may be handled in a session: it opens it, or it shows the ID handed out for it. *)
Definition entitled (acts : list http_action) (id body : bytes) : Prop :=
  exists rq m' id' msg, (rq, m', id') ∈ arrivals acts /\ admitted t rq body msg /\
    (Method msg = gostr "initialize" \/ opened acts (header rq HeaderSessionID) id).

(** A state of the service, with the actions of its manager and the steps of its proxy. *)
Record service_ok (acts : list http_action) (s : Service) (macts : list sm_action) (xs : list proxy_step) : Prop := {
  ok_manager : manages_all macts NewSessionManager = Some (svManager s);
  ok_proxy : svProxy s = steps xs;
  ok_ids : sublist (created_ids macts) (map snd (arrivals acts));
  ok_starts : spawned macts = server_starts acts;
  ok_created id m : (id, m) ∈ creations macts -> exists m', m = Some m' /\ opened acts m' id;
  ok_creating th c : svCreating s !! th = Some c -> exists msg,
    (crRequest c, crMCP c, crID c) ∈ arrivals acts /\ admitted t (crRequest c) (crBody c) msg /\ Method msg = gostr "initialize";
  ok_frames ok id body : AgentFrame ok id body ∈ xs -> entitled acts id body }.

(** What the invariant looks at. *)
Lemma service_same acts s s' macts xs :
  svManager s' = svManager s -> svProxy s' = svProxy s -> svCreating s' = svCreating s ->
  service_ok acts s macts xs -> service_ok acts s' macts xs.
Proof. intros E1 E2 E3 []. constructor; rewrite ?E1, ?E2, ?E3; done. Qed.

Lemma arrivals_app acts acts' : arrivals (acts ++ acts') = arrivals acts ++ arrivals acts'.
Proof. unfold arrivals. by rewrite omap_app. Qed.

Lemma draws_app acts acts' : draws (acts ++ acts') = draws acts ++ draws acts'.
Proof. unfold draws. by rewrite omap_app. Qed.

Lemma starts_app acts acts' : server_starts (acts ++ acts') = server_starts acts ++ server_starts acts'.
Proof. unfold server_starts. by rewrite omap_app. Qed.

Lemma opened_more acts a m id : opened acts m id -> opened (acts ++ [a]) m id.
Proof. intros (rq & body & msg & Hin & Ho). exists rq, body, msg. split; [|done]. rewrite arrivals_app. by apply elem_of_app; left. Qed.

Lemma entitled_more acts a id body : entitled acts id body -> entitled (acts ++ [a]) id body.
Proof.
  intros (rq & m' & id' & msg & Hin & Ha & Ho). exists rq, m', id', msg. split; [rewrite arrivals_app; by apply elem_of_app; left|].
  split; [done|]. destruct Ho; [by left|right; by apply opened_more].
Qed.

(** More actions, of which only starts of servers matter to the manager. *)
Lemma service_more acts a s macts xs :
  server_starts [a] = [] -> service_ok acts s macts xs -> service_ok (acts ++ [a]) s macts xs.
Proof.
  intros Ha []. constructor; [done|done|..].
  - rewrite arrivals_app, map_app. etransitivity; [done|]. by apply sublist_inserts_r.
  - by rewrite starts_app, Ha, app_nil_r.
  - intros id m Hin. destruct (ok_created0 id m Hin) as (m' & ? & ?). exists m'. split; [done|]. by apply opened_more.
  - intros th c Hc. destruct (ok_creating0 th c Hc) as (msg & ? & ?). exists msg. split; [|done].
    rewrite arrivals_app. by apply elem_of_app; left.
  - intros ok id body Hin. apply entitled_more. by eapply ok_frames0.
Qed.

Lemma service_fresh acts s macts xs : http_fresh acts -> service_ok acts s macts xs -> fresh macts.
Proof.
  intros (Hi & Hs & _) Hok. split; [by eapply sublist_NoDup; [|apply (ok_ids _ _ _ _ Hok)]|by rewrite (ok_starts _ _ _ _ Hok)].
Qed.

Lemma steps_snoc xs x : steps (xs ++ [x]) = (perform_step eng sink audit forwarding preferSSE stdio x (steps xs)).2.
Proof. unfold proxy_after. by rewrite foldl_app. Qed.

(** A step of the proxy that is no request. *)
Lemma service_step acts s macts xs x :
  (forall ok id body, x ≠ AgentFrame ok id body) -> service_ok acts s macts xs ->
  service_ok acts (set_proxy (perform_step eng sink audit forwarding preferSSE stdio x (svProxy s)).2 s) macts (xs ++ [x]).
Proof.
  intros Hx []. constructor; [done| |done..|].
  - cbn. by rewrite steps_snoc, ok_proxy0.
  - intros ok id body [Hin|Hin%list_elem_of_singleton]%elem_of_app; [by eapply ok_frames0|]. by destruct (Hx ok id body).
Qed.

(** A request in a session it is entitled to. *)
Lemma service_dispatch acts s macts xs rq session now ok id body :
  entitled acts id body -> service_ok acts s macts xs ->
  exists macts' xs', service_ok acts (dispatch eng sink rq session now ok id body s) macts' xs'.
Proof.
  intros He Hok. exists (macts ++ [Touched id now]), (xs ++ [AgentFrame ok id body]). unfold dispatch. cbn [set_manager svProxy].
  destruct (HandleAgentRequest eng sink ok id body (svProxy s)) as [r p] eqn:E.
  assert (service_ok acts (set_proxy p (set_manager (Touch id now (svManager s)) s))
    (macts ++ [Touched id now]) (xs ++ [AgentFrame ok id body])) as Hok'.
  { destruct Hok. constructor; cbn [set_proxy set_manager svManager svProxy svCreating].
    - by rewrite manage_all_app, ok_manager0.
    - rewrite steps_snoc, <- ok_proxy0. cbn [perform_step]. unfold mbind, PM_bind. by rewrite E.
    - unfold created_ids, creations. by rewrite omap_app, app_nil_r.
    - unfold spawned. by rewrite omap_app, app_nil_r.
    - unfold creations. rewrite omap_app, app_nil_r. done.
    - done.
    - intros ok' id' body' [Hin|Hin%list_elem_of_singleton]%elem_of_app; [by eapply ok_frames0|]. by injection Hin as -> -> ->. }
  by destruct r as [[r|call]|err|]; (eapply service_same; [..|exact Hok']).
Qed.

(** Tools that are offered to sessions. *)
Lemma service_offers acts s macts xs offers :
  Forall (λ x, exists id name sc raw, x = OfferTool id name sc raw) offers -> service_ok acts s macts xs ->
  exists xs', service_ok acts (foldl (λ s x, set_proxy (perform_step eng sink audit forwarding preferSSE stdio x (svProxy s)).2 s) s offers) macts xs' /\
    svManager (foldl (λ s x, set_proxy (perform_step eng sink audit forwarding preferSSE stdio x (svProxy s)).2 s) s offers) = svManager s.
Proof.
  intros Ho. revert s xs. induction Ho as [|x l (id & name & sc & raw & ->) _ IH]; intros s xs Hok; [by exists xs|].
  apply (service_step _ _ _ _ (OfferTool id name sc raw)) in Hok; [|done]. exact (IH _ _ Hok).
Qed.

(** A step of the manager's threads, which creates nothing. *)
Lemma service_manage acts s macts xs m a :
  manages a (svManager s) = Some m -> (forall th id mcp now, a ≠ Create th id mcp now) ->
  service_ok acts s macts xs -> service_ok (acts ++ [Manage a]) (set_manager m s) (macts ++ [a]) xs.
Proof.
  intros Ha Hc Hok. destruct Hok.
  assert (creations [a] = []) as Hn by (destruct a as [th id mcp now| | | | | |]; [by destruct (Hc th id mcp now)|done..]).
  constructor; cbn [set_manager svManager svProxy svCreating].
  - rewrite manage_all_app, ok_manager0. cbn. by rewrite Ha.
  - done.
  - unfold created_ids. rewrite creations_app, Hn, app_nil_r, arrivals_app, map_app, app_nil_r. done.
  - rewrite spawned_app, starts_app, ok_starts0. by destruct a.
  - intros id m'. rewrite creations_app, Hn, app_nil_r. intros (m0 & ? & ?)%ok_created0. exists m0. split; [done|]. by apply opened_more.
  - intros th c (msg & ? & ?)%ok_creating0. exists msg. split; [|done]. rewrite arrivals_app. by apply elem_of_app; left.
  - intros ok id body Hin. apply entitled_more. by eapply ok_frames0.
Qed.

(** A request that was let through opens a session. *)
Lemma service_create acts s s' macts xs rq body msg now ok th m id :
  admitted t rq body msg -> Method msg = gostr "initialize" -> service_ok acts s macts xs ->
  create eng sink audit forwarding preferSSE stdio servers cfg hooks withEngine rq body now th (NewMCPSessionID m) id s = Some s' ->
  exists macts' xs', service_ok (acts ++ [Arrive rq now ok th m id]) s' macts' xs'.
Proof.
  intros Ha Hi Hok Hc. unfold create in Hc. destruct (manages _ _) as [mgr|] eqn:Em; [|done]. injection Hc as <-.
  set (acts' := acts ++ _). set (s1 := set_creating _ _ _).
  assert ((rq, NewMCPSessionID m, id) ∈ arrivals acts') as Hin by (unfold acts'; rewrite arrivals_app; apply elem_of_app; right; by left).
  assert (service_ok acts' s1 (macts ++ [Create th id (Some (NewMCPSessionID m)) now]) xs) as Hok1.
  { destruct (service_more acts (Arrive rq now ok th m id) s macts xs eq_refl Hok) as [_ ? _ Hs Hcr Hcg Hf]. destruct Hok.
    constructor; cbn [s1 set_creating set_manager svManager svProxy svCreating].
    - rewrite manage_all_app, ok_manager0. cbn [manage_all mbind option_bind]. by rewrite Em.
    - done.
    - unfold created_ids, acts'. rewrite creations_app, map_app, arrivals_app, map_app. by apply sublist_app.
    - rewrite spawned_app, app_nil_r. done.
    - intros id' m' Hin'. rewrite creations_app in Hin'. apply elem_of_app in Hin' as [Hin'|Hin'%list_elem_of_singleton]; [by apply Hcr|].
      injection Hin' as -> ->. exists (NewMCPSessionID m). split; [done|]. by exists rq, body, msg.
    - intros th' c. destruct (decide (th' = th)) as [->|Hne].
      + rewrite lookup_partial_alter_eq. intros [= <-]. by exists msg.
      + rewrite lookup_partial_alter_ne by done. apply Hcg.
    - done. }
  destruct (threads mgr !! th); [|by eauto]. exists (macts ++ [Create th id (Some (NewMCPSessionID m)) now]), (xs ++ [NewSession id]).
  exact (service_step _ s1 _ _ (NewSession id) ltac:(done) Hok1).
Qed.

Lemma entitled_creating acts c msg :
  (crRequest c, crMCP c, crID c) ∈ arrivals acts -> admitted t (crRequest c) (crBody c) msg -> Method msg = gostr "initialize" ->
  entitled acts (crID c) (crBody c).
Proof. intros ? ? ?. exists (crRequest c), (crMCP c), (crID c), msg. split; [done|]. split; [done|by left]. Qed.

Lemma service_arrive acts s s' macts xs rq now ok th m id :
  fresh macts -> service_ok acts s macts xs ->
  handleMCP eng sink audit forwarding preferSSE stdio servers cfg hooks withEngine t rq now ok th m id s = Some s' ->
  exists macts' xs', service_ok (acts ++ [Arrive rq now ok th m id]) s' macts' xs'.
Proof.
  intros Hf Hok. unfold handleMCP. pose proof (authorise_spec t now rq (svLimiter s)) as Ha.
  destruct (authorise t now rq (svLimiter s)) as [refusal l]. cbn [fst] in Ha.
  assert (service_ok acts (set_limiter l s) macts xs) as Hok1 by by eapply service_same; [..|exact Hok].
  set (a := Arrive rq now ok th m id). pose proof (service_more acts a _ _ _ eq_refl Hok1) as Hok2.
  assert (forall r, exists macts' xs', service_ok (acts ++ [a]) (add_reply rq r (set_limiter l s)) macts' xs') as Hrefused.
  { intros r. exists macts, xs. by eapply service_same; [..|exact Hok2]. }
  destruct refusal as [r|]; [intros [= <-]; apply Hrefused|].
  destruct Ha as [Hp Hb]. pose proof (check_request_spec t rq Hp Hb) as Hch.
  destruct (check_request t rq) as [r|[[meta body] msg]]; [intros [= <-]; apply Hrefused|]. destruct Hch as [-> Had].
  unfold route. cbn [ParseRequestMeta rmSessionID]. case_bool_decide as Hi.
  { intros Hc. by apply (service_create _ _ _ _ _ _ _ _ _ _ _ _ _ Had Hi Hok1 Hc). }
  case_bool_decide as Hs; [intros [= <-]; apply Hrefused|]. cbn [negb].
  destruct (GetByMCP (header rq HeaderSessionID) (svManager (set_limiter l s))) as [p|] eqn:Hg; [|intros [= <-]; apply Hrefused].
  intros [= <-]. apply (service_dispatch _ _ macts xs); [|exact Hok2].
  destruct (resolved_created _ _ _ _ _ _ _ _ (ok_manager _ _ _ _ Hok1) Hf Hg) as (_ & _ & Hc).
  destruct (ok_created _ _ _ _ Hok1 _ _ Hc) as (m' & [= <-] & Ho).
  exists rq, (NewMCPSessionID m), id, msg. split; [rewrite arrivals_app; apply elem_of_app; right; by left|]. split; [done|].
  right. by apply opened_more.
Qed.

Lemma service_serve acts a s s' macts xs :
  fresh macts -> service_ok acts s macts xs -> serves a s = Some s' -> exists macts' xs', service_ok (acts ++ [a]) s' macts' xs'.
Proof.
  intros Hf Hok. destruct a as [rq now ok th m id|th now ok text|timeout id call|a|x]; cbn [serve].
  - by apply service_arrive with macts xs.
  - unfold created. destruct (svCreating s !! th) as [c|] eqn:Ec; [|done]. destruct (threads _ !! th); [done|]. intros [= <-].
    destruct (ok_creating _ _ _ _ Hok _ _ Ec) as (msg & Hin & Had & Hi). pose proof (entitled_creating _ _ _ Hin Had Hi) as He.
    assert (service_ok (acts ++ [Created th now ok text]) (set_creating th None s) macts xs) as Hok1.
    { destruct (service_more _ (Created th now ok text) _ _ _ eq_refl Hok). constructor; [done..| |done]. intros th' c'. cbn.
      destruct (decide (th' = th)) as [->|Hne]; [by rewrite lookup_partial_alter_eq|]. rewrite lookup_partial_alter_ne by done. apply ok_creating0. }
    case_bool_decide; [exists macts, xs; by eapply service_same; [..|exact Hok1]|].
    apply (service_dispatch _ _ macts xs); [by apply entitled_more|done].
  - unfold finish. destruct (svWaiting s !! (id, call)) as [[rq session]|]; [|done]. cbn.
    destruct (finish_call preferSSE timeout id call (svProxy s)) as [r p] eqn:Ef. destruct r as [r|]; [|done]. cbn. intros [= <-].
    pose proof (service_step _ _ _ _ (FinishCall timeout id call) ltac:(done) Hok) as Hok1.
    cbn [perform_step] in Hok1. unfold mbind, PM_bind in Hok1. rewrite Ef in Hok1. cbn [fst snd] in Hok1.
    eexists macts, _. eapply service_same; [..|exact (service_more _ (Finish timeout id call) _ _ _ eq_refl Hok1)]; done.
  - assert (Forall (λ x, exists id name sc raw, x = OfferTool id name sc raw) (offers a (svManager s))) as Ho.
    { unfold offers. destruct a as [| |th [frame|]| | | |]; try constructor. destruct (threads _ !! th) as [[]|]; try constructor.
      apply Forall_forall. intros y (raw & -> & _)%list_elem_of_fmap. eauto. }
    destruct (service_offers acts s macts xs _ Ho Hok) as (xs' & Hok' & Em).
    assert (forall m, (forall th id mcp now, a ≠ Create th id mcp now) -> manages a (svManager s) = Some m ->
      exists macts' xs'', service_ok (acts ++ [Manage a]) (set_manager m (foldl (λ s x, set_proxy (perform_step eng sink audit forwarding preferSSE stdio x (svProxy s)).2 s) s (offers a (svManager s)))) macts' xs'') as Hgo.
    { intros m Hc Hm. exists (macts ++ [a]), xs'. apply service_manage; [by rewrite Em|done|done]. }
    destruct a; [done|..]; (destruct (manages _ (svManager s)) as [m|]; [|done]); cbn [mbind option_bind]; intros [= <-]; by apply Hgo.
  - pose proof (service_step acts s macts xs x) as Hx. destruct x; try done; intros [= <-]; (eexists macts, _; eapply service_more; [done|]; by apply Hx).
Qed.

Lemma http_fresh_app acts a : http_fresh (acts ++ [a]) -> http_fresh acts.
Proof.
  unfold http_fresh. rewrite arrivals_app, map_app, starts_app, draws_app. intros (Hi & Hs & Hd).
  by apply NoDup_app in Hi as (? & _ & _), Hs as (? & _ & _), Hd as (? & _ & _).
Qed.

Lemma served_ok acts s :
  serves_all acts (NewServer t) = Some s -> http_fresh acts -> exists macts xs, service_ok acts s macts xs.
Proof.
  revert s. induction acts as [|a acts IH] using rev_ind; intros s Hs Hf.
  - injection Hs as <-. exists [], []. constructor; [done|done|done|done|..].
    + by intros id m ?%not_elem_of_nil.
    + intros th c Hc. cbn [NewServer svCreating] in Hc. by rewrite lookup_empty in Hc.
    + by intros ok id body ?%not_elem_of_nil.
  - rewrite serves_all_app in Hs. destruct (serves_all acts (NewServer t)) as [s0|]; [|done]. cbn in Hs.
    destruct (serves a s0) as [s1|] eqn:Ea; [|done]. injection Hs as <-.
    destruct (IH s0 eq_refl) as (macts & xs & Hok); [by eapply http_fresh_app|].
    eapply service_serve; [|exact Hok|exact Ea]. eapply service_fresh; [|exact Hok]. by eapply http_fresh_app.
Qed.

End service.

(** ** Origins *)

(** Searching for one byte. *)
Lemma HasPrefix_byte c s d : HasPrefix (c :: s) [d] = Byte.eqb d c.
Proof. cbn. by rewrite andb_true_r. Qed.

Lemma eqb_ne (c d : byte) : c ≠ d -> Byte.eqb c d = false.
Proof. intros Hne. destruct (Byte.eqb c d) eqn:E; [by apply byte_eqb_spec in E|done]. Qed.

Lemma Index_absent s c : c ∉ s -> Index s [c] = None.
Proof.
  induction s as [|d s IH]; intros Hn; [done|]. apply not_elem_of_cons in Hn as [Hd Hn]. cbn. by rewrite andb_true_r, eqb_ne, IH by done.
Qed.

Lemma Index_first s c r : c ∉ s -> Index (s ++ c :: r) [c] = Some (length s).
Proof.
  induction s as [|d s IH]; intros Hn; cbn; rewrite andb_true_r; [by rewrite (proj2 (byte_eqb_spec c c))|].
  apply not_elem_of_cons in Hn as [Hd Hn]. by rewrite eqb_ne, IH by done.
Qed.

Lemma LastIndex_absent s c : c ∉ s -> LastIndex s [c] = None.
Proof.
  induction s as [|d s IH]; intros Hn; [done|]. apply not_elem_of_cons in Hn as [Hd Hn]. cbn [LastIndex].
  by rewrite IH, HasPrefix_byte, eqb_ne by done.
Qed.

Lemma LastIndex_last s c r : c ∉ r -> LastIndex (s ++ c :: r) [c] = Some (length s).
Proof.
  intros Hn. induction s as [|d s IH]; cbn [LastIndex app length]; [|by rewrite IH].
  rewrite LastIndex_absent by done. by rewrite HasPrefix_byte, (proj2 (byte_eqb_spec c c)).
Qed.

Lemma Cut_absent s c : c ∉ s -> Cut s c = (s, [], false).
Proof.
  induction s as [|d s IH]; intros Hn; [done|]. apply not_elem_of_cons in Hn as [Hd Hn]. cbn. by rewrite eqb_ne, IH by done.
Qed.

(** A byte of a name, of a port or of their separator. *)
Definition name_byte (c : byte) : bool := letter c || is_digit c || existsb (Byte.eqb c) (gostr "-.").

Definition scheme_byte (c : byte) : bool := letter c || is_digit c || existsb (Byte.eqb c) (gostr "+-.").

Lemma forallb_not_in p (c : byte) s : forallb p s = true -> p c = false -> c ∉ s.
Proof. intros Hs Hc Hin. rewrite forallb_forall in Hs. apply list_elem_of_In, Hs in Hin. congruence. Qed.

Lemma unescape_plain mode s : forallb (λ c, negb (refused_byte mode c) && negb (Byte.eqb c x25)) s = true -> unescape mode s = Some s.
Proof.
  induction s as [|c s IH]; [done|]. cbn [forallb]. rewrite !andb_true_iff, !negb_true_iff. intros [[Hr Hc] Hs]. specialize (IH Hs).
  assert (c ≠ x25) as Hne by (intros ->; done).
  assert (unescape mode (c :: s) = if refused_byte mode c then None else r ← unescape mode s; Some (c :: r)) as ->
    by (destruct c; try reflexivity; by destruct Hne).
  by rewrite Hr, IH.
Qed.

Lemma host_byte_plain c : name_byte c || Byte.eqb c x3a = true -> refused_byte encodeHost c = false /\ Byte.eqb c x25 = false.
Proof. by destruct c. Qed.

Lemma scheme_from_plain s r : forallb scheme_byte s = true -> scheme_from false (s ++ x3a :: r) = Some (Some (s, r)).
Proof.
  induction s as [|c s IH]; [done|]. cbn [forallb]. rewrite andb_true_iff. intros [Hc Hs]. cbn [app scheme_from negb andb].
  unfold scheme_byte in Hc. rewrite <- orb_assoc in Hc. by rewrite Hc, IH by done.
Qed.

Lemma getScheme_plain c s r : letter c = true -> forallb scheme_byte s = true -> getScheme (c :: s ++ x3a :: r) = Some (c :: s, r).
Proof. intros Hc Hs. unfold getScheme. cbn [scheme_from]. by rewrite Hc, scheme_from_plain. Qed.

Lemma join_cons {A} (l : list A) ls : mjoin (l :: ls) = l ++ mjoin ls.
Proof. done. Qed.

(** In ASCII, ToLower is byte by byte. *)
Lemma ToLower_ascii `{UnicodeLower} s : forallb (λ c, byte_Z c <? 0x80) s = true -> ToLower s = map (λ c, Z_byte (ascii_lower (byte_Z c))) s.
Proof.
  unfold ToLower. induction s as [|c s IH]; [done|]. cbn [forallb length runes]. rewrite andb_true_iff. intros [Hc Hs].
  rewrite DecodeRune_ascii by lia. cbn [map]. rewrite join_cons, skipn_cons, drop_0, IH by done. unfold lower_rune. rewrite Hc.
  assert (0 <= ascii_lower (byte_Z c) < 0x80) as Hl by (pose proof (byte_Z_bound c); unfold ascii_lower; destruct (_ && _) eqn:?; lia).
  unfold EncodeRune. replace ((ascii_lower (byte_Z c) <? 0) || (1114111 <? ascii_lower (byte_Z c)) ||
    ((55296 <=? ascii_lower (byte_Z c)) && (ascii_lower (byte_Z c) <=? 57343))) with false by lia.
  by replace (ascii_lower (byte_Z c) <? 128) with true by lia.
Qed.

Definition port_text (port : option bytes) : bytes := match port with Some digits => x3a :: digits | None => [] end.

(** What a browser sends as the origin of a page: a scheme, a name and a port that may be left out. *)
Record browser_origin (origin name : bytes) (port : option bytes) : Prop := {
  bo_text : exists c s, letter c = true /\ forallb scheme_byte s = true /\ origin = c :: s ++ x3a :: gostr "//" ++ name ++ port_text port;
  bo_name : name ≠ [];
  bo_bytes : forallb name_byte name = true;
  bo_port : forallb is_digit (default [] port) = true }.

Lemma name_not_in (c : byte) name : forallb name_byte name = true -> name_byte c = false -> c ∉ name.
Proof. apply forallb_not_in. Qed.

Lemma digits_not_in (c : byte) ds : forallb is_digit ds = true -> is_digit c = false -> c ∉ ds.
Proof. apply forallb_not_in. Qed.

(** A byte that is none of these is not in the host. *)
Lemma host_not_in (c : byte) origin name port :
  browser_origin origin name port -> name_byte c = false -> c ≠ x3a -> c ∉ name ++ port_text port.
Proof.
  intros B Hc Hne [Hin|Hin]%elem_of_app; [by apply (name_not_in c name (bo_bytes _ _ _ B))|].
  destruct port as [ds|]; [|by apply not_elem_of_nil in Hin]. apply elem_of_cons in Hin as [->|Hin]; [done|].
  apply (digits_not_in c ds (bo_port _ _ _ B)); [|done]. unfold name_byte in Hc. by rewrite !orb_false_iff in Hc; destruct Hc as [[_ ?] _].
Qed.

Lemma port_ok origin name port : browser_origin origin name port -> validOptionalPort (port_text port) = true.
Proof. intros B. destruct port as [ds|]; [|done]. cbn. exact (bo_port _ _ _ B). Qed.

Lemma parse_host scheme origin name port :
  browser_origin origin name port -> parseHost scheme (name ++ port_text port) = Some (name ++ port_text port).
Proof.
  intros B. unfold parseHost. rewrite LastIndex_absent by (by eapply host_not_in).
  assert (forall b : bool, match (if b then LastIndex (name ++ port_text port) [x3a] else Index (name ++ port_text port) [x3a]) with
    | Some i => negb (validOptionalPort (drop i (name ++ port_text port))) | None => false end = false) as Hp.
  { pose proof (name_not_in x3a name (bo_bytes _ _ _ B) eq_refl) as Hn. destruct port as [ds|]; cbn [port_text].
    - rewrite Index_first, LastIndex_last by (first [done|by eapply digits_not_in; [apply (bo_port _ _ _ B)|]]).
      intros []; by rewrite drop_app_length, (port_ok _ _ _ B : validOptionalPort (x3a :: ds) = true).
    - rewrite app_nil_r, Index_absent, LastIndex_absent by done. intros []; done. }
  rewrite Hp. apply unescape_plain. rewrite forallb_app. apply andb_true_iff. split.
  - pose proof (bo_bytes _ _ _ B) as Hb. rewrite forallb_forall in Hb |- *. intros c Hc. specialize (Hb c Hc).
    destruct (host_byte_plain c) as [-> ->]; [by rewrite Hb|done].
  - destruct port as [ds|]; [|done]. cbn [port_text forallb]. pose proof (bo_port _ _ _ B) as Hb. cbn [default] in Hb.
    rewrite forallb_forall in Hb. apply andb_true_iff. split; [done|]. rewrite forallb_forall. intros c Hc. specialize (Hb c Hc).
    destruct (host_byte_plain c) as [-> ->]; [|done]. unfold name_byte. by rewrite Hb, orb_true_r.
Qed.

Definition origin_byte (c : byte) : bool := scheme_byte c || existsb (Byte.eqb c) (gostr ":/").

Lemma origin_bytes origin name port : browser_origin origin name port -> forallb origin_byte origin = true.
Proof.
  intros B. destruct (bo_text _ _ _ B) as (c & s & Hc & Hs & ->).
  assert (forall p l, (forall c, p c = true -> origin_byte c = true) -> forallb p l = true -> forallb origin_byte l = true) as Hmore.
  { intros p l Hp. rewrite !forallb_forall. auto. }
  assert (forall ds, forallb is_digit ds = true -> forallb origin_byte ds = true) as Hd.
  { intros ds. apply Hmore. intros d Hd. unfold origin_byte, scheme_byte. by rewrite Hd, orb_true_r. }
  cbn [forallb]. rewrite forallb_app. cbn [forallb]. rewrite !forallb_app. rewrite !andb_true_iff. split_and!.
  - unfold origin_byte, scheme_byte. by rewrite Hc.
  - eapply Hmore, Hs. intros d Hd'. unfold origin_byte. by rewrite Hd'.
  - done.
  - done.
  - eapply Hmore, (bo_bytes _ _ _ B). intros d. by destruct d.
  - destruct port as [ds|]; [|done]. cbn [port_text forallb]. apply andb_true_iff. split; [done|]. apply Hd, (bo_port _ _ _ B).
Qed.

Lemma origin_no_ctl s : forallb origin_byte s = true -> existsb ctl_byte s = false.
Proof.
  induction s as [|c s IH]; [done|]. cbn [forallb existsb]. rewrite andb_true_iff. intros [Hc Hs]. rewrite IH by done. by destruct c.
Qed.

Lemma scheme_kept `{UnicodeLower} c s : letter c = true -> forallb scheme_byte s = true -> ToLower (c :: s) ≠ [].
Proof.
  intros Hc Hs. rewrite ToLower_ascii; [done|]. cbn [forallb]. apply andb_true_iff. split; [by destruct c|].
  rewrite forallb_forall in Hs |- *. intros d Hd. specialize (Hs d Hd). by destruct d.
Qed.

Lemma parse_browser `{UnicodeLower} origin name port :
  browser_origin origin name port -> u_Host <$> Parse origin = Some (name ++ port_text port).
Proof.
  intros B. pose proof (origin_bytes _ _ _ B) as Hb. destruct (bo_text _ _ _ B) as (c & s & Hc & Hs & E).
  unfold Parse. rewrite Cut_absent by (by eapply forallb_not_in). rewrite origin_no_ctl by done.
  cbn [unescape mbind option_bind]. rewrite bool_decide_false by (intros E'; rewrite E' in E; by injection E as <- _).
  rewrite E. rewrite getScheme_plain by done. cbn [mbind option_bind]. unfold before.
  rewrite Cut_absent by (rewrite E in Hb; cbn [forallb] in Hb; apply andb_true_iff in Hb as [_ Hb]; rewrite forallb_app in Hb;
    apply andb_true_iff in Hb as [_ Hb]; cbn [forallb] in Hb; apply andb_true_iff in Hb as [_ Hb]; by eapply forallb_not_in).
  rewrite bool_decide_false by (by apply scheme_kept). cbn [fst snd negb orb].
  assert (HasPrefix (gostr "//" ++ name ++ port_text port) [x2f] = true) as -> by done.
  rewrite HasPrefix_app. cbn [negb andb]. assert (drop 2 (gostr "//" ++ name ++ port_text port) = name ++ port_text port) as -> by done.
  rewrite Index_absent by (by eapply host_not_in). cbn [default]. rewrite take_ge, drop_ge by done.
  unfold parseAuthority. rewrite LastIndex_absent by (by eapply host_not_in). rewrite (parse_host _ _ _ _ B). done.
Qed.

Lemma split_host origin name port :
  browser_origin origin name port -> splitHostPort (name ++ port_text port) = (name, default [] port).
Proof.
  intros B. unfold splitHostPort. pose proof (name_not_in x3a name (bo_bytes _ _ _ B) eq_refl) as Hn.
  assert (HasPrefix name [x5b] && HasSuffix name [x5d] = false) as Hbr.
  { destruct name as [|c name]; [done|]. rewrite HasPrefix_byte. rewrite eqb_ne; [done|].
    intros <-. by apply (name_not_in x5b _ (bo_bytes _ _ _ B)); [|left]. }
  destruct port as [ds|]; cbn [port_text default].
  - rewrite LastIndex_last by (eapply digits_not_in; [apply (bo_port _ _ _ B)|done]).
    rewrite drop_app_length, (port_ok _ _ _ B : validOptionalPort (x3a :: ds) = true), take_app_length. rewrite Hbr.
    rewrite (cons_middle x3a name ds), app_assoc, drop_app_length'; [done|]. by rewrite length_app, Nat.add_comm.
  - rewrite app_nil_r, LastIndex_absent by done. by rewrite Hbr.
Qed.

Section origins.

Context `{UnicodeLower}.

(** C28: a page may call only from the listener's own host. An Origin header as browsers send it is accepted exactly
    when its host is, up to case, one of the allowed hosts, with its port where that is listed with one; no
    other host, be it longer, shorter or dotted like one of them, is. *)
Theorem origin_exact (rq : Request) (hosts : list bytes) (name : bytes) (port : option bytes) :
  browser_origin (header rq (gostr "Origin")) name port ->
  let lower := map (λ c, Z_byte (ascii_lower (byte_Z c))) name in
  ValidateOrigin rq hosts = None <->
  exists allowed, allowed ∈ hosts /\
    (ToLower (TrimSpace allowed) = lower \/
     exists digits, port = Some digits /\ digits ≠ [] /\ ToLower (TrimSpace allowed) = lower ++ x3a :: digits).
Proof.
  intros B lower. unfold ValidateOrigin. rewrite bool_decide_false by (destruct (bo_text _ _ _ B) as (c & s & _ & _ & ->); done).
  pose proof (parse_browser _ _ _ B) as Hp. destruct (Parse _) as [u|]; [|done]. injection Hp as Hu. rewrite Hu.
  unfold Hostname, Port. rewrite Hu, (split_host _ _ _ B). cbn [fst snd].
  rewrite bool_decide_false by (intros [? _]%app_nil; by apply (bo_name _ _ _ B)).
  assert (ToLower name = lower) as ->.
  { apply ToLower_ascii. pose proof (bo_bytes _ _ _ B) as Hb. rewrite forallb_forall in Hb |- *. intros d Hd. specialize (Hb d Hd). by destruct d. }
  assert (lower ≠ []) as Hl by (intros E%map_eq_nil; by apply (bo_name _ _ _ B)).
  assert (forall allowed, origin_is lower (default [] port) allowed = true <->
    ToLower (TrimSpace allowed) = lower \/ exists digits, port = Some digits /\ digits ≠ [] /\ ToLower (TrimSpace allowed) = lower ++ x3a :: digits) as Hone.
  { intros allowed. unfold origin_is. rewrite andb_true_iff, orb_true_iff, andb_true_iff, !negb_true_iff, !bool_decide_eq_false, !bool_decide_eq_true. split.
    - intros [_ [<-|[Hd Ha]]]; [by left|right]. destruct port as [ds|]; [|done]. by exists ds.
    - intros [->|(ds & -> & Hd & ->)]; [by split; [|left]|]. split; [by destruct lower|right; done]. }
  destruct (existsb _ hosts) eqn:Ee.
  - split; [|done]. intros _. apply existsb_exists in Ee as (a & Ha & Ho). exists a. split; [by apply list_elem_of_In|]. by apply Hone.
  - split; [done|]. intros (a & Ha & Ho). apply Hone in Ho.
    rewrite (proj2 (existsb_exists _ _)) in Ee; [done|]. exists a. by split; [apply list_elem_of_In|].
Qed.

End origins.

(** ** Event streams *)

Lemma Join_Split s c : Join (Split s c) [c] = s.
Proof.
  induction s as [|d s IH]; [done|]. cbn [Split]. destruct (Byte.eqb d c) eqn:E.
  - apply byte_eqb_spec in E as ->. destruct (Split s c) as [|e l] eqn:Es; [by destruct s; cbn in Es; repeat case_match|].
    rewrite Join_cons, IH. done.
  - destruct (Split s c) as [|e l] eqn:Es; [by destruct s; cbn in Es; repeat case_match|]. rewrite <- IH. by destruct l.
Qed.

(** A line of an event stream that is read back: with the prefix and the newline it fits, and it does not end with a carriage return. *)
Record sse_line (line : bytes) : Prop := {
  sl_line : x0a ∉ line;
  sl_end : TrimSuffix line [x0d] = line;
  sl_small : len (data_prefix ++ line) < maxFrameSize }.

Lemma TrimSuffix_prefixed line : TrimSuffix line [x0d] = line -> TrimSuffix (data_prefix ++ line) [x0d] = data_prefix ++ line.
Proof.
  unfold TrimSuffix, HasSuffix. rewrite reverse_app, reverse_singleton. destruct (reverse line) as [|c r] eqn:E.
  - intros _. assert (line = []) as -> by (by rewrite <- (reverse_involutive line), E). by vm_compute.
  - cbn [app HasPrefix]. destruct (Byte.eqb x0d c); cbn [andb]; [|done]. intros Ht. exfalso. apply (f_equal length) in Ht.
    rewrite length_take in Ht. assert (length line ≠ 0)%nat; [|cbn in Ht; lia]. by rewrite <- length_reverse, E.
Qed.

Lemma Scan_data line rest :
  x0a ∉ line ->
  Scan (data_prefix ++ line ++ x0a :: rest) =
    (if maxFrameSize <=? len (data_prefix ++ line) then inl ErrTooLong else inr (TrimSuffix (data_prefix ++ line) [x0d], rest)).
Proof.
  intros Hn. rewrite app_assoc. unfold Scan. rewrite next_line_app; [by destruct (data_prefix ++ line) eqn:E; [|done]|].
  intros [Hin|Hin]%elem_of_app; [|done]. by vm_compute in Hin; repeat (apply elem_of_cons in Hin as [Hin|Hin]; [done|]); apply not_elem_of_nil in Hin.
Qed.

Lemma sse_parts_written lines n :
  Forall sse_line lines -> (length lines + 2 <= n)%nat ->
  sse_parts n (mjoin (map (λ line, data_prefix ++ line ++ [x0a]) lines) ++ [x0a]) = Some lines.
Proof.
  revert n. induction lines as [|line lines IH]; intros n Hl Hn.
  - destruct n as [|[|n]]; [cbn in Hn; lia..|]. done.
  - apply Forall_cons in Hl as [[Hnl He Hs] Hl]. destruct n as [|n]; [cbn in Hn; lia|]. cbn [map]. rewrite join_cons, <- !app_assoc.
    cbn [sse_parts]. cbn [app]. rewrite Scan_data by done. replace (maxFrameSize <=? len (data_prefix ++ line)) with false by lia.
    rewrite IH by (first [done|cbn in Hn; lia]). cbn [mbind option_bind]. rewrite TrimSuffix_prefixed by done.
    rewrite bool_decide_false by done. unfold TrimPrefix. by rewrite HasPrefix_app, drop_app_length.
Qed.

Lemma length_sse_text lines : (length lines <= length (mjoin (map (λ line : bytes, data_prefix ++ line ++ [x0a]) lines)))%nat.
Proof. induction lines as [|line lines IH]; [done|]. cbn [map]. rewrite join_cons, !length_app. cbn [length]. lia. Qed.

(** The general form: an answer of several lines. *)
Lemma sse_body_reads session body :
  Forall sse_line (Split body x0a) -> ParseSSEResponse (rpBody (WriteSSE session body)) = Some body.
Proof.
  intros Hl. unfold ParseSSEResponse. cbn [WriteSSE rpBody]. unfold sse_text. rewrite sse_parts_written; [|done|].
  - cbn [mbind option_bind]. by rewrite Join_Split.
  - pose proof (length_sse_text (Split body x0a)). rewrite length_app. cbn [length]. lia.
Qed.

Lemma Split_whole s c : c ∉ s -> Split s c = [s].
Proof.
  induction s as [|d s IH]; intros Hn; [done|]. apply not_elem_of_cons in Hn as [Hd Hn]. cbn. by rewrite eqb_ne, IH by done.
Qed.

(** An answer survives its event stream, whatever it says: a frame a server answered with is read back by a client as
    it was, exactly if it fits into the client's buffer together with the prefix of the stream; the few
    longer frames the proxy still reads and passes on are an error to the client. *)
Theorem sse_roundtrip (session : option bytes) (frame : bytes) :
  whole frame ->
  ParseSSEResponse (rpBody (WriteResponse session frame true false)) =
    if len frame + len data_prefix <? maxFrameSize then Some frame else None.
Proof.
  intros [Hn Ht Hb Hs]. cbn [WriteResponse orb negb]. assert (len (data_prefix ++ frame) = len frame + len data_prefix) as Hlen
    by (unfold len; rewrite length_app; lia).
  destruct (Z.ltb_spec (len frame + len data_prefix) maxFrameSize) as [Hf|Hf].
  - apply sse_body_reads. rewrite Split_whole by done. constructor; [|constructor].
    constructor; [done|by apply TrimSuffix_untrimmed|by rewrite Hlen].
  - unfold ParseSSEResponse. cbn [WriteSSE rpBody]. unfold sse_text. rewrite Split_whole by done. cbn [map].
    rewrite join_cons, <- !app_assoc. cbn [sse_parts app]. rewrite Scan_data by done.
    by replace (maxFrameSize <=? len (data_prefix ++ frame)) with true by lia.
Qed.

(** ** Where the frames that servers receive come from *)

Lemma written_frames `{Compressors} `{MathLog2} `{Floats} `{Archives} `{Clock} `{MapOrder} `{UnicodeLower} `{JsonErrors}
    (e : Engine) (sink audit : bool) (forwarding : bool * bool) (preferSSE stdio : bool)
    (xs : list proxy_step) (id : bytes) (sc : Server) (fwd : bytes) :
  (id, sc, fwd) ∈ toServers (proxy_after (Some e) sink audit forwarding preferSSE stdio xs) ->
  exists ok body msg, AgentFrame ok id body ∈ xs /\ decode_message body = Some msg /\ Method msg = tools_call /\
    (fwd = body \/ exists args, replaceToolCallArguments body args = Ret fwd).
Proof.
  induction xs as [|x xs IH] using rev_ind; [by intros ?%not_elem_of_nil|]. rewrite steps_snoc.
  set (p := proxy_after _ _ _ _ _ _ xs) in *. intros Hin.
  assert ((id, sc, fwd) ∈ toServers p -> exists ok body msg, AgentFrame ok id body ∈ xs ++ [x] /\ decode_message body = Some msg /\
    Method msg = tools_call /\ (fwd = body \/ exists args, replaceToolCallArguments body args = Ret fwd)) as Hold.
  { intros (ok & body & msg & ? & ?)%IH. exists ok, body, msg. split; [by apply elem_of_app; left|done]. }
  destruct (step_writes e sink audit forwarding preferSSE stdio x p) as [E|(ok & id' & body & fwd' & sc' & -> & E & Hp)];
    rewrite E in Hin; [by apply Hold|]. apply elem_of_app in Hin as [Hin|Hin%list_elem_of_singleton]; [by apply Hold|].
  injection Hin as -> -> ->. destruct Hp as (msg & tc & ev & w & Hm & Hc & _ & _ & _ & _ & _ & _ & _ & _ & _ & Hfwd).
  exists ok, body, msg. split; [apply elem_of_app; right; by left|]. split; [done|]. split; [done|].
  destruct Hfwd as [[-> _]|(args & _ & Hr)]; [by left|right; by exists args].
Qed.

(** With distinct session IDs, an ID tells the request it was meant for. *)
Lemma arrival_unique (acts : list http_action) rq1 m1 rq2 m2 id :
  NoDup (map snd (arrivals acts)) -> (rq1, m1, id) ∈ arrivals acts -> (rq2, m2, id) ∈ arrivals acts -> m1 = m2 /\ rq1 = rq2.
Proof.
  intros Hn H1 H2. assert (forall x, x ∈ arrivals acts -> (x.2, x.1) ∈ map (λ x, (x.2, x.1)) (arrivals acts)) as Hsw
    by (intros x Hx; apply list_elem_of_fmap; by exists x).
  rewrite (map_ext snd (λ x, (x.2, x.1).1)) in Hn by done. rewrite <- (map_map (λ x, (x.2, x.1)) fst) in Hn.
  pose proof (NoDup_map_inv_fst _ _ _ _ Hn (Hsw _ H1) (Hsw _ H2)) as E. by injection E.
Qed.

(** The MCP session IDs are the draws in hexadecimal, so they are distinct when these are. *)
Lemma arrivals_mcp (acts : list http_action) : map (λ x, x.1.2) (arrivals acts) = map NewMCPSessionID (draws acts).
Proof. induction acts as [|a acts IH]; [done|]. destruct a; cbn; [f_equal|..]; exact IH. Qed.

Lemma mcp_unique (acts : list http_action) rq1 id1 rq2 id2 m :
  NoDup (draws acts) -> (rq1, m, id1) ∈ arrivals acts -> (rq2, m, id2) ∈ arrivals acts -> rq1 = rq2 /\ id1 = id2.
Proof.
  intros Hn H1 H2. assert (NoDup (map (λ x, x.1.2) (arrivals acts))) as Hm.
  { rewrite arrivals_mcp. apply NoDup_fmap_2; [|done]. intros b b' E. unfold NewMCPSessionID in E.
    apply (f_equal hex_decode) in E. rewrite !hex_decode_encode in E. by injection E. }
  assert (forall x, x ∈ arrivals acts -> (x.1.2, (x.1.1, x.2)) ∈ map (λ x, (x.1.2, (x.1.1, x.2))) (arrivals acts)) as Hsw
    by (intros x Hx; apply list_elem_of_fmap; by exists x).
  rewrite (map_ext (λ x, x.1.2) (λ x, (x.1.2, (x.1.1, x.2)).1)) in Hm by done.
  rewrite <- (map_map (λ x, (x.1.2, (x.1.1, x.2))) fst) in Hm.
  pose proof (NoDup_map_inv_fst _ _ _ _ Hm (Hsw _ H1) (Hsw _ H2)) as E. by injection E.
Qed.

Section properties.

Context `{Compressors} `{MathLog2} `{Floats} `{Archives} `{Clock} `{MapOrder} `{UL : UnicodeLower} `{JsonErrors}.
Context `{UP : UnicodePrint} `{HT : HttpTexts}.

(** C20: over HTTP, a call reaches a server only in the session whose ID its request shows. However requests,
    creations, clean-ups, answers and the sensor interleave, if session IDs and processes are not
    used twice and no 16 random bytes are drawn twice: a frame that was written to a server is the body of a request, at most with its arguments replaced,
    that was a POST with the configured bearer token, from an allowed origin, accepting both encodings, in the
    configured protocol version, with headers that agree with its body; and the session it was written in was opened by an
    initialize request that showed the same, and was given the very MCP session ID the call shows; no
    other request was given this MCP session ID, nor this session. *)
Theorem http_calls_authorised (e : Engine) (sink audit : bool) (forwarding : bool * bool) (preferSSE stdio : bool)
    (servers : list bytes) (cfg : SessionsConfig) (hooks withEngine : bool) (t : TransportConfig)
    (acts : list http_action) (s : Service) (id : bytes) (sc : Server) (fwd : bytes) :
  serve_all (Some e) sink audit forwarding preferSSE stdio servers cfg hooks withEngine t acts (NewServer t) = Some s ->
  http_fresh acts -> (id, sc, fwd) ∈ toServers (svProxy s) ->
  exists rq body msg m,
    rq ∈ map (fst ∘ fst) (arrivals acts) /\ admitted t rq body msg /\ Method msg = tools_call /\ header rq HeaderSessionID = m /\
    (fwd = body \/ exists args, replaceToolCallArguments body args = Ret fwd) /\
    exists rq0 body0 msg0, (rq0, m, id) ∈ arrivals acts /\ admitted t rq0 body0 msg0 /\ Method msg0 = gostr "initialize" /\
      forall rq1 m1 id1, (rq1, m1, id1) ∈ arrivals acts -> m1 = m \/ id1 = id -> rq1 = rq0 /\ m1 = m /\ id1 = id.
Proof.
  intros Hs Hf Hin.
  destruct (served_ok _ _ _ _ _ _ _ _ _ _ _ _ _ Hs Hf) as (macts & xs & Hok).
  rewrite (ok_proxy _ _ _ _ _ _ _ _ _ _ _ _ _ _ _ Hok) in Hin.
  destruct (written_frames _ _ _ _ _ _ _ _ _ _ Hin) as (ok & body & msg & Hx & Hm & Hc & Hfwd).
  destruct (ok_frames _ _ _ _ _ _ _ _ _ _ _ _ _ _ _ Hok _ _ _ Hx) as (rq & m' & id' & msg' & Harr & Had & Ho).
  pose proof (ad_msg _ _ _ _ Had) as Hm'. rewrite Hm in Hm'. injection Hm' as <-.
  destruct Ho as [Hi|(rq0 & body0 & msg0 & Harr0 & Had0 & Hi0)]; [by rewrite Hc in Hi|].
  exists rq, body, msg, (header rq HeaderSessionID). split; [apply list_elem_of_fmap; by exists (rq, m', id')|].
  split; [done|]. split; [done|]. split; [done|]. split; [done|]. exists rq0, body0, msg0. split; [done|]. split; [done|]. split; [done|].
  destruct Hf as (Hi & _ & Hd). intros rq1 m1 id1 Hr [-> | ->].
  - by destruct (mcp_unique acts _ _ _ _ _ Hd Hr Harr0) as [-> ->].
  - by destruct (arrival_unique acts _ _ _ _ id Hi Hr Harr0) as [-> ->].
Qed.

(** C29: a request that does not show what it must does nothing. Whatever the state of the service, a request that fails
    a check is answered at once, with a client error and without a session ID, and neither the sessions nor the
    proxy, its engine and its servers have noticed it. *)
Theorem http_refusal_harmless (eng : option Engine) (sink audit : bool) (forwarding : bool * bool) (preferSSE stdio : bool)
    (servers : list bytes) (cfg : SessionsConfig) (hooks withEngine : bool) (t : TransportConfig)
    (rq : Request) (now : Z) (ok : bool) (th : nat) (m id : bytes) (s : Service) :
  (forall body msg, ~ admitted t rq body msg) ->
  exists s' r, handleMCP eng sink audit forwarding preferSSE stdio servers cfg hooks withEngine t rq now ok th m id s = Some s' /\
    svReplies s' = svReplies s ++ [(rq, Some r)] /\ 400 <= rpStatus r < 500 /\ rpSession r = None /\
    svManager s' = svManager s /\ svProxy s' = svProxy s /\ svCreating s' = svCreating s /\ svWaiting s' = svWaiting s.
Proof.
  intros Hn. unfold handleMCP. pose proof (authorise_spec t now rq (svLimiter s)) as Ha.
  destruct (authorise t now rq (svLimiter s)) as [[r|] l]; cbn [fst] in Ha.
  - destruct Ha. eexists _, r. split; [done|]. cbn. split_and!; (done || lia).
  - destruct Ha as [Hp Hb]. pose proof (check_request_spec t rq Hp Hb) as Hch.
    destruct (check_request t rq) as [r|[[meta body] msg]]; [|by destruct (Hn body msg), Hch].
    destruct Hch as [[? ?] _]. eexists _, r. split; [done|]. cbn. split_and!; (done || lia).
Qed.

End properties.

(** ** A deployment for the witnesses *)

#[export] Instance demo_print : UnicodePrint := λ _, true.
#[export] Instance demo_texts : HttpTexts := {| body_error := λ _, gostr "invalid JSON"; error_text := λ _, gostr "error" |}.

Definition demo_transport : TransportConfig := {|
  tr_Mode := gostr "http"; tr_Listen := gostr "127.0.0.1:8080"; tr_Endpoint := gostr "/mcp"; tr_ProtocolVersion := gostr "2025-11-25";
  tr_PreferSSEResponses := true; tr_BearerToken := gostr "token"; tr_RateLimitRPS := f64 10 |}.

(** A POST with the usual headers, these and this body. *)
Definition post (more : list (bytes * bytes)) (body : bytes) : Request := {|
  rqMethod := gostr "POST";
  rqHeader := list_to_map (map (λ kv, (kv.1, [kv.2])) (more ++
    [(gostr "Accept", gostr "application/json, text/event-stream"); (gostr "Mcp-Protocol-Version", gostr "2025-11-25");
     (gostr "Authorization", gostr "Bearer token")]));
  RemoteAddr := gostr "127.0.0.1:40000"; rqBody := (body, false) |}.

Definition open_request : Request := post [] (rpc "{'jsonrpc':'2.0','id':1,'method':'initialize'}").
Definition read_request (m : string) : Request :=
  post [(gostr "Mcp-Session-Id", gostr m)] (rpc "{'jsonrpc':'2.0','id':2,'method':'tools/call','params':{'name':'read'}}").
Arguments read_request m%_string.

(** A session is opened, one call shows its ID, another does not. *)
Definition demo_service : list http_action :=
  [Arrive open_request 0 true 1 (gostr "m1") (gostr "s1"); Manage (Spawn 1 (Some (100, 5))); Manage (Answer 1 (Some tools_frame));
   Manage (Proceed 1); Manage (Proceed 1); Manage (Proceed 1); Created 1 0 true [];
   Arrive (read_request "6d31") 1 true 2 (gostr "m2") (gostr "s2"); Arrive (read_request "m3") 2 true 3 (gostr "m3") (gostr "s3")].

Abbreviation demo_serve := (serve_all (Some demo_proxy) true true (false, false) true false [gostr "files"] two_sessions true true demo_transport).

Definition served : Service := default (NewServer demo_transport) (demo_serve demo_service (NewServer demo_transport)).

Lemma served_run : demo_serve demo_service (NewServer demo_transport) = Some served.
Proof.
  assert (is_Some (demo_serve demo_service (NewServer demo_transport))) as [s Hs] by (refine (bool_decide_unpack _ _); vm_compute; exact I).
  unfold served. by rewrite Hs.
Qed.

Lemma served_fresh : http_fresh demo_service.
Proof. split_and!; apply (bool_decide_unpack _); vm_compute; exact I. Qed.

Lemma served_written :
  (gostr "s1", {| svID := gostr "files"; svPID := 100 |}, rpc "{'jsonrpc':'2.0','id':2,'method':'tools/call','params':{'name':'read'}}")
    ∈ toServers (svProxy served).
Proof. replace (toServers (svProxy served)) with [(gostr "s1", {| svID := gostr "files"; svPID := 100 |}, rpc "{'jsonrpc':'2.0','id':2,'method':'tools/call','params':{'name':'read'}}")] by (vm_compute; reflexivity). by left. Qed.

Example served_replies : map (λ r, rpStatus <$> r.2) (svReplies served) = [Some 200; Some 400].
Proof. vm_compute. reflexivity. Qed.

Example http_calls_authorised_witness :
  exists rq rq0, rq ∈ map (fst ∘ fst) (arrivals demo_service) /\ (rq0, header rq HeaderSessionID, gostr "s1") ∈ arrivals demo_service.
Proof.
  destruct (http_calls_authorised demo_proxy true true (false, false) true false [gostr "files"] two_sessions true true demo_transport
    demo_service served _ _ _ served_run served_fresh served_written)
    as (rq & body & msg & m & Hin & _ & _ & Hm & _ & rq0 & body0 & msg0 & H0 & _).
  rewrite <- Hm in H0. exact (ex_intro _ rq (ex_intro _ rq0 (conj Hin H0))).
Defined.

(** A GET. *)
Definition get_request : Request := {| rqMethod := gostr "GET"; rqHeader := ∅; RemoteAddr := []; rqBody := ([], false) |}.

Lemma get_not_admitted body msg : ~ admitted demo_transport get_request body msg.
Proof. intros A. apply ad_post in A. by vm_compute in A. Qed.

Example http_refusal_harmless_witness :
  exists s' r, svReplies s' = svReplies served ++ [(get_request, Some r)] /\ 400 <= rpStatus r < 500 /\ svManager s' = svManager served.
Proof.
  destruct (http_refusal_harmless (Some demo_proxy) true true (false, false) true false [gostr "files"] two_sessions true true demo_transport
    get_request 3 true 4 (gostr "m4") (gostr "s4") served get_not_admitted) as (s' & r & _ & Hr & Hst & _ & Hm & _).
  exact (ex_intro _ s' (ex_intro _ r (conj Hr (conj Hst Hm)))).
Defined.

Definition from_page (origin : string) : Request := post [(gostr "Origin", gostr origin)] [].
Arguments from_page origin%_string.

Lemma page_origin : browser_origin (header (from_page "http://LocalHost:3000") (gostr "Origin")) (gostr "LocalHost") (Some (gostr "3000")).
Proof. constructor; [by exists x68, (gostr "ttp")|done|done|done]. Qed.

Example origin_exact_witness : ValidateOrigin (from_page "http://LocalHost:3000") (allowed_hosts demo_transport) = None.
Proof.
  apply (proj2 (origin_exact (from_page "http://LocalHost:3000") (allowed_hosts demo_transport) _ _ page_origin)).
  exists (gostr "localhost"). split; [apply list_elem_of_In; right; left; reflexivity|left; vm_compute; reflexivity].
Defined.

Example other_origins :
  map (λ o, bool_decide (ValidateOrigin (from_page o) (allowed_hosts demo_transport) = None))
    ["http://localhost.evil.example.com"; "http://evil.example.com#@localhost"; "http://localhost@evil.example.com"; "null"; "http://[localhost]"]%string =
  [false; false; false; false; false].
Proof. vm_compute. reflexivity. Qed.

(** The host of an IPv6 listener is cut at its first colon: its own origin is refused. *)
Example ipv6_listener_refused :
  let t := {| tr_Mode := gostr "http"; tr_Listen := gostr "[::1]:8080"; tr_Endpoint := gostr "/mcp"; tr_ProtocolVersion := [];
              tr_PreferSSEResponses := false; tr_BearerToken := []; tr_RateLimitRPS := f64 0 |} in
  ValidateOrigin (from_page "http://[::1]:8080") (allowed_hosts t) = Some (gostr "invalid Origin: http://[::1]:8080").
Proof. vm_compute. reflexivity. Qed.

(** An answer that repeats a text with an invalid byte or a control character is no JSON. *)
Example error_reply_no_json :
  parse (rpBody (bad_request (-32600) (gostr "invalid Origin: " ++ [xff]))) = None /\
  parse (rpBody (bad_request (-32600) (gostr "max concurrent sessions (2) reached"))) ≠ None.
Proof. vm_compute. done. Qed.

(** Below one request per second a client has one request for good: its tokens never come to one. *)
Example slow_limit_locks_out :
  let l := {| limit := fdiv (f64 1) (f64 2); clients := ∅ |} in
  let '(first, l) := allow (gostr "10.0.0.1") 0 l in
  let '(second, l) := allow (gostr "10.0.0.1") (3600 * Second) l in
  let '(third, _) := allow (gostr "10.0.0.1") (86400 * Second) l in
  (first, second, third) = (true, false, false).
Proof. vm_compute. reflexivity. Qed.

(** The client is who it says it is: with another header it starts with full tokens. *)
Example limit_evaded :
  let rq i := {| rqMethod := gostr "POST"; rqHeader := <[gostr "X-Forwarded-For" := [Itoa i]]> ∅;
                 RemoteAddr := gostr "10.0.0.1:1"; rqBody := ([], false) |} in
  (foldl (λ acc i, let '(n, l) := acc : nat * ipRateLimiter in
             let '(ok, l) := allow (clientIP (rq i)) 0 l in ((if ok : bool then S n else n), l))
    (0%nat, {| limit := f64 1; clients := ∅ |}) (map Z.of_nat (seq 0 100))).1 = 100%nat.
Proof. vm_compute. reflexivity. Qed.

Example sse_roundtrip_witness :
  ParseSSEResponse (rpBody (WriteResponse None (rpc "{'jsonrpc':'2.0','id':1,'result':'data: x'}") true false)) =
    Some (rpc "{'jsonrpc':'2.0','id':1,'result':'data: x'}").
Proof.
  exact (sse_roundtrip None (rpc "{'jsonrpc':'2.0','id':1,'result':'data: x'}")
    ltac:(constructor; [apply (bool_decide_unpack _); vm_compute; exact I|vm_compute; reflexivity..])).
Defined.
