(* ===== verification/SettingsTheorems.v ===== *)
(** * Theorems about the checks of a configuration and the start of servers

    What [validate] accepts is a fixed point of it, and the fixed points are the configurations in
    which every section is as its checks promise. A server of a configuration that was
    validated is started from the executable its command resolved to at that time, whatever the
    file system looks like later. *)

From S2P Require Import Prelude Go GoTime GoStrings Encodings Config Match Proc Breaker Sessions Validate.

(** ** What the sections promise *)

Definition enforcement_ok (e : bytes) : Prop := e = gostr "block" \/ e = gostr "monitor".

Definition transport_ok (t : TransportConfig) (s : SessionsConfig) : Prop :=
  (tr_Mode t = gostr "stdio" \/
   tr_Mode t = gostr "http" /\ tr_Listen t ≠ [] /\ tr_Endpoint t ≠ [] /\ tr_ProtocolVersion t ≠ [] /\ flt (tr_RateLimitRPS t) (f64 0) = false) /\
  MaxConcurrent s ≠ 0.

Definition backpressure_ok (b : bytes) : Prop := b = gostr "block" \/ b = gostr "drop".

Definition evidence_ok (e : EvidenceConfig) : Prop :=
  (ev_Backend e = gostr "jsonl" \/ ev_Backend e = gostr "sqlite") /\ ev_Path e ≠ [] /\ ev_MaxRecords e ≠ 0 /\
  backpressure_ok (ev_Backpressure e) /\ ev_QueueSize e ≠ 0.

Definition logging_ok (l : LoggingConfig) : Prop := backpressure_ok (lg_Backpressure l) /\ lg_QueueSize l ≠ 0.

Definition observability_ok (o : ObservabilityConfig) : Prop :=
  ob_Listen o = [] \/ HasPrefix (ob_MetricsPath o) (gostr "/") = true /\ HasPrefix (ob_HealthPath o) (gostr "/") = true.

Definition verdict_ok (v : bytes) : Prop := v = gostr "SUSPICIOUS" \/ v = gostr "EXFIL".

Definition webhook_ok (w : WebhookConfig) : Prop :=
  webhook_enabled w = true ->
  (wh_Format w = gostr "generic" \/ wh_Format w = gostr "slack" \/
   wh_Format w = gostr "pagerduty" /\ blank_setting (wh_PagerDutyRoutingKey w) = false) /\
  verdict_ok (wh_MinVerdict w) /\ duration_ok (wh_Timeout w) = true.

Definition siem_ok (s : SIEMConfig) : Prop :=
  siem_enabled s = true ->
  (si_Format s = gostr "ocsf" \/ si_Format s = gostr "cef") /\ verdict_ok (si_MinVerdict s) /\ duration_ok (si_Timeout s) = true.

Definition fail_closed_ok (sensorMode lsm : bool) (f : FailClosedConfig) : Prop :=
  fc_Enabled f = true ->
  (sensorMode = true -> lsm = true) /\ fle (RingbufDropRateThresholdOrDefault f) (RingbufRecoveryRateThresholdOrDefault f) = false /\
  Forall (λ s, duration_ok s = true) [fc_MinTripDuration f; fc_RecoveryWindow f; fc_MaxTripDuration f].

Definition bridge_ok (b : TaintBridgeConfig) : Prop :=
  tb_Enabled b = true ->
  (tb_AllowedUIDs b ≠ [] \/ tb_AllowedGIDs b ≠ []) /\ Forall (λ u, 0 <= u) (tb_AllowedUIDs b) /\ Forall (λ g, 0 <= g) (tb_AllowedGIDs b) /\
  0 <= tb_SocketGID b.

(** [m] has what the command of every server resolves to, and nothing else. *)
Definition pins (fs : filesystem) (servers : list ServerConfig) (m : gmap bytes bytes) : Prop :=
  (forall s, s ∈ servers -> exists p, ResolveSpawnExecutable fs (sc_Command s) = inr p) /\
  (forall id p, m !! id = Some p <-> exists s, s ∈ servers /\ sc_ID s = id /\ ResolveSpawnExecutable fs (sc_Command s) = inr p).

Definition servers_ok (sensorMode : bool) (fs : filesystem) (c : Settings) : Prop :=
  (Servers c = [] -> sensorMode = true) /\ Forall (λ s, sc_ID s ≠ [] /\ sc_Command s ≠ []) (Servers c) /\
  NoDup (map sc_ID (Servers c)) /\
  (sensorMode = false ->
   pins fs (Servers c) (ResolvedSpawnCommands c) /\
   Forall2 (λ cmd p, ResolveSpawnExecutable fs cmd = inr p) (sb_SpawnAllowlist (Sandbox c)) (ResolvedSpawnAllowlist c)).

Record settled (sensorMode : bool) (fs : filesystem) (c : Settings) : Prop := {
  st_enforcement : enforcement_ok (Enforcement c);
  st_transport : transport_ok (Transport c) (Sessions c);
  st_evidence : evidence_ok (Evidence c);
  st_logging : logging_ok (Logging c);
  st_observability : observability_ok (Observability c);
  st_webhook : webhook_ok (Webhook c);
  st_siem : siem_ok (SIEM c);
  st_fail_closed : fail_closed_ok sensorMode (LSMEnforce c) (FailClosed c);
  st_bridge : bridge_ok (TaintBridge c);
  st_servers : servers_ok sensorMode fs c }.

(** ** What is filled in *)

Definition given_or (v : bytes) (d : string) : bytes := if bool_decide (v = []) then gostr d else v.
Arguments given_or v d%_string.

Definition number_or (z d : Z) : Z := if z =? 0 then d else z.

Definition filled_transport (t : TransportConfig) (s : SessionsConfig) (t' : TransportConfig) (s' : SessionsConfig) : Prop :=
  tr_Mode t' = given_or (tr_Mode t) "stdio" /\
  (tr_Mode t' = gostr "http" ->
     tr_Listen t' = given_or (tr_Listen t) "127.0.0.1:8080" /\ tr_Endpoint t' = given_or (tr_Endpoint t) "/mcp" /\
     tr_ProtocolVersion t' = given_or (tr_ProtocolVersion t) "2025-11-25") /\
  MaxConcurrent s' = number_or (MaxConcurrent s) 32 /\
  tr_BearerToken t' = tr_BearerToken t /\ tr_RateLimitRPS t' = tr_RateLimitRPS t /\ IdleTimeout s' = IdleTimeout s.

(** No limit is not one of the values: max_records 0 becomes 1000. *)
Definition filled_evidence (e e' : EvidenceConfig) : Prop :=
  ev_Backend e' = given_or (ev_Backend e) "jsonl" /\
  ev_Path e' = given_or (ev_Path e) (if bool_decide (ev_Backend e' = gostr "sqlite") then "evidence.db" else "evidence.jsonl") /\
  ev_MaxRecords e' = number_or (ev_MaxRecords e) 1000 /\
  ev_Backpressure e' = given_or (ev_Backpressure e) "block" /\ ev_QueueSize e' = number_or (ev_QueueSize e) 256.

Definition filled_logging (l l' : LoggingConfig) : Prop :=
  lg_Backpressure l' = given_or (lg_Backpressure l) "block" /\ lg_QueueSize l' = number_or (lg_QueueSize l) 256.

Definition filled_observability (o o' : ObservabilityConfig) : Prop :=
  ob_Listen o' = ob_Listen o /\
  (ob_Listen o ≠ [] -> ob_MetricsPath o' = given_or (ob_MetricsPath o) "/metrics" /\ ob_HealthPath o' = given_or (ob_HealthPath o) "/healthz").

Section fills.

Context `{UnicodeLower} `{UnicodeUpper}.

Definition filled_verdict (v v' : bytes) : Prop := v' = given_or (ToUpper (TrimSpace v)) "SUSPICIOUS".

Definition filled_webhook (w w' : WebhookConfig) : Prop :=
  wh_URL w' = wh_URL w /\
  (webhook_enabled w = true ->
     wh_Format w' = given_or (ToLower (wh_Format w)) "generic" /\ filled_verdict (wh_MinVerdict w) (wh_MinVerdict w') /\
     wh_Timeout w' = wh_Timeout w /\ wh_PagerDutyRoutingKey w' = wh_PagerDutyRoutingKey w).

Definition filled_siem (s s' : SIEMConfig) : Prop :=
  si_Path s' = si_Path s /\ si_URL s' = si_URL s /\
  (siem_enabled s = true ->
     si_Format s' = given_or (ToLower (si_Format s)) "ocsf" /\ filled_verdict (si_MinVerdict s) (si_MinVerdict s') /\
     si_Timeout s' = si_Timeout s).

(** The settings of [c] are those of [c'], with the defaults for those that are empty. *)
Record filled (c c' : Settings) : Prop := {
  fl_enforcement : Enforcement c' = given_or (Enforcement c) "block";
  fl_transport : filled_transport (Transport c) (Sessions c) (Transport c') (Sessions c');
  fl_evidence : filled_evidence (Evidence c) (Evidence c');
  fl_logging : filled_logging (Logging c) (Logging c');
  fl_observability : filled_observability (Observability c) (Observability c');
  fl_webhook : filled_webhook (Webhook c) (Webhook c');
  fl_siem : filled_siem (SIEM c) (SIEM c') }.

End fills.

(** ** Small lemmas *)

Lemma or_else_given s d : or_else s d = given_or s d.
Proof. by destruct s. Qed.

Lemma equals_spec s t : equals s t = true <-> s = gostr t.
Proof. apply bool_decide_eq_true. Qed.

Lemma bind_valid {A B} (m : checked A) (f : A -> checked B) b : (m ≫= f) = Valid b <-> exists a, m = Valid a /\ f a = Valid b.
Proof. destruct m as [a|e]; cbn; [|split; [done|by intros (? & ? & _)]]. split; [by exists a|]. by intros (? & [= ->] & ?). Qed.

Lemma require_valid (b : bool) e : require b e = Valid tt <-> b = true.
Proof. by destruct b. Qed.

Lemma valid_inj {A} (a b : A) : Valid a = Valid b -> a = b.
Proof. by intros [= ->]. Qed.

Lemma or_else_ne s d : gostr d ≠ [] -> or_else s d ≠ [].
Proof. by destruct s. Qed.


(** A switch whose empty case is its first one. *)
Lemma switch_given s d : bool_decide (s = []) || equals s d = true -> gostr d = given_or s d.
Proof. unfold given_or. case_bool_decide; [done|]. cbn [orb]. by intros ->%equals_spec. Qed.

Lemma switch_other s t d : bool_decide (s = []) || equals s d = false -> equals s t = true -> s = gostr t /\ s = given_or s d.
Proof. unfold given_or. case_bool_decide; [done|]. by intros _ ->%equals_spec. Qed.

Lemma backpressure_valid s e b : backpressure s e = Valid b -> backpressure_ok b /\ b = given_or s "block".
Proof.
  unfold backpressure, backpressure_ok. destruct (bool_decide (s = []) || equals s "block") eqn:E1.
  { intros [= <-]. split; [by left|by apply switch_given]. }
  destruct (equals s "drop") eqn:E; [|done]. intros [= <-]. destruct (switch_other _ _ _ E1 E). split; [by right|done].
Qed.


Lemma NoDup_key {A B} (f : A -> B) (l : list A) x y : NoDup (map f l) -> x ∈ l -> y ∈ l -> f x = f y -> x = y.
Proof.
  induction l as [|z l IH]; [set_solver|]. intros [Hz Hn]%NoDup_cons [->|Hx]%elem_of_cons [->|Hy]%elem_of_cons E; [done|..|by apply IH].
  - destruct Hz. rewrite E. by apply list_elem_of_fmap_2.
  - destruct Hz. rewrite <- E. by apply list_elem_of_fmap_2.
Qed.

Lemma digits_nonneg acc s z : 0 <= acc -> digits acc s = Some z -> 0 <= z.
Proof.
  revert acc. induction s as [|c s IH]; intros acc Ha; cbn [digits]; [by intros [= <-]|]. cbv zeta.
  destruct (Z.leb_spec 0 (byte_Z c - 48)); [|done]. destruct (_ <=? 9); [|done]. apply IH. lia.
Qed.

Lemma ParseUint_nonneg s z : ParseUint s = Some z -> 0 <= z.
Proof.
  unfold ParseUint. destruct s as [|c s]; [done|]. destruct (digits 0 (c :: s)) as [y|] eqn:E; [|done]. cbn [mbind option_bind].
  destruct (y <? 2 ^ 64); [|done]. intros [= <-]. by eapply digits_nonneg.
Qed.

(** ** Each check makes its section settled and leaves the others *)

Lemma enforcement_stage c c' :
  validateEnforcement c = Valid c' -> exists e, c' = set_enforcement e c /\ enforcement_ok e /\ e = given_or (Enforcement c) "block".
Proof.
  unfold validateEnforcement, enforcement_ok, given_or. destruct (equals (Enforcement c) "block") eqn:E1; cbn [orb].
  { intros [= <-]. apply equals_spec in E1. exists (Enforcement c). split_and!; [by destruct c|by left|by rewrite E1]. }
  destruct (equals (Enforcement c) "monitor") eqn:E2.
  { intros [= <-]. apply equals_spec in E2. exists (Enforcement c). split_and!; [by destruct c|by right|by rewrite E2]. }
  case_bool_decide; [|done]. intros [= <-]. exists (gostr "block"). split_and!; [done|by left|done].
Qed.


Lemma mode_valid t m : transport_mode t = Valid m -> (m = gostr "stdio" \/ m = gostr "http") /\ m = given_or (tr_Mode t) "stdio".
Proof.
  unfold transport_mode. destruct (bool_decide _ || _) eqn:E1; [intros [= <-]; split; [by left|by apply switch_given]|].
  destruct (equals (tr_Mode t) "http") eqn:E; [|done]. intros [= <-]. destruct (switch_other _ _ _ E1 E). split; [by right|done].
Qed.

Lemma concurrency_ne (z : Z) : (if z =? 0 then 32 else z) ≠ 0.
Proof. by destruct (Z.eqb_spec z 0). Qed.

Lemma transport_stage c c' :
  validateTransport c = Valid c' ->
  exists t s, c' = set_transport t s c /\ transport_ok t s /\ filled_transport (Transport c) (Sessions c) t s.
Proof.
  unfold validateTransport, transport_ok, filled_transport. intros (m & Hm & (u & Hr & [= <-])%bind_valid)%bind_valid.
  do 2 eexists. split; [reflexivity|]. cbn. apply mode_valid in Hm as [Hm Hg]. destruct u. apply require_valid in Hr. split.
  - split; [|apply concurrency_ne]. destruct Hm as [->| ->]; [by left|right]. split_and!; [done|by apply or_else_ne..|].
    cbn in Hr. by apply negb_true_iff in Hr.
  - split_and!; [done| |done..]. intros ->. rewrite !or_else_given. by split_and!.
Qed.


Lemma evidence_stage c c' :
  validateEvidenceSettings c = Valid c' ->
  exists e, c' = set_outputs e (Logging c) (Observability c) (Webhook c) (SIEM c) c /\ evidence_ok e /\ filled_evidence (Evidence c) e.
Proof.
  unfold validateEvidenceSettings, evidence_ok, filled_evidence. intros (k & Hk & (b & Hb & [= <-])%bind_valid)%bind_valid.
  eexists. split; [reflexivity|]. cbn. apply backpressure_valid in Hb as [Hb Hbg].
  assert ((k = gostr "jsonl" \/ k = gostr "sqlite") /\ k = given_or (ev_Backend (Evidence c)) "jsonl") as [Hk' Hkg].
  { destruct (bool_decide _ || _) eqn:E1; [injection Hk as <-; split; [by left|by apply switch_given]|].
    destruct (equals _ "sqlite") eqn:E; [|done]. injection Hk as <-. destruct (switch_other _ _ _ E1 E). split; [by right|done]. }
  rewrite or_else_given. split; [|by split_and!].
  split_and!; [done| |by destruct (Z.eqb_spec (ev_MaxRecords (Evidence c)) 0)|done|by destruct (Z.eqb_spec (ev_QueueSize (Evidence c)) 0)].
  rewrite <- or_else_given. apply or_else_ne. by destruct (equals k "sqlite").
Qed.


Lemma logging_stage c c' :
  validateLoggingSettings c = Valid c' ->
  exists l, c' = set_outputs (Evidence c) l (Observability c) (Webhook c) (SIEM c) c /\ logging_ok l /\ filled_logging (Logging c) l.
Proof.
  unfold validateLoggingSettings, logging_ok, filled_logging. intros (b & Hb & [= <-])%bind_valid. eexists. split; [reflexivity|]. cbn.
  apply backpressure_valid in Hb as [Hb Hg]. split; [|done]. split; [done|by destruct (Z.eqb_spec (lg_QueueSize (Logging c)) 0)].
Qed.


Lemma observability_stage c c' :
  validateObservability c = Valid c' ->
  exists o, c' = set_outputs (Evidence c) (Logging c) o (Webhook c) (SIEM c) c /\ observability_ok o /\
    filled_observability (Observability c) o.
Proof.
  unfold validateObservability, observability_ok, filled_observability. case_bool_decide as El.
  - intros [= <-]. exists (Observability c). split_and!; [by destruct c|by left|done|done].
  - intros ([] & H1%require_valid & ([] & H2%require_valid & [= <-])%bind_valid)%bind_valid. eexists. split; [reflexivity|].
    split; [by right|]. cbn. by rewrite !or_else_given.
Qed.



Section cases.

Context `{UnicodeLower} `{UnicodeUpper}.

Lemma verdict_valid v e u : normalizeMinVerdict v e = Valid u -> verdict_ok u /\ filled_verdict v u.
Proof.
  unfold normalizeMinVerdict, verdict_ok, filled_verdict.
  destruct (bool_decide _ || _) eqn:E1; [intros [= <-]; split; [by left|by apply switch_given]|].
  destruct (equals _ "EXFIL") eqn:E; [|done]. intros [= <-]. destruct (switch_other _ _ _ E1 E) as [E2 E3]. split; [by right|by rewrite <- E3].
Qed.


Lemma webhook_format_valid f g :
  webhook_format f = Valid g ->
  (g = gostr "generic" \/ g = gostr "slack" \/ g = gostr "pagerduty") /\ g = given_or (ToLower f) "generic".
Proof.
  unfold webhook_format. destruct (bool_decide _ || _) eqn:E; [intros [= <-]; split; [by left|by apply switch_given]|].
  destruct (equals (ToLower f) "slack") eqn:E1.
  { intros [= <-]. destruct (switch_other _ _ _ E E1). split; [by right; left|done]. }
  destruct (equals (ToLower f) "pagerduty") eqn:E2; [|done]. intros [= <-]. destruct (switch_other _ _ _ E E2). split; [by right; right|done].
Qed.

Lemma webhook_stage c c' :
  validateAlerting c = Valid c' ->
  exists w, c' = set_outputs (Evidence c) (Logging c) (Observability c) w (SIEM c) c /\ webhook_ok w /\ filled_webhook (Webhook c) w.
Proof.
  unfold validateAlerting, webhook_ok, filled_webhook. destruct (webhook_enabled (Webhook c)) eqn:Ew; cbn [negb].
  2: { intros [= <-]. exists (Webhook c). split_and!; [by destruct c|by rewrite Ew|done|done]. }
  intros (f & Hf & (v & Hv & ([] & Hk%require_valid & ([] & Ht%require_valid & [= <-])%bind_valid)%bind_valid)%bind_valid)%bind_valid.
  eexists. split; [reflexivity|]. cbn. apply verdict_valid in Hv as [Hv Hvg]. apply webhook_format_valid in Hf as [Hf Hfg].
  split; [|by split_and!]. intros _. split_and!; [|done..].
  destruct Hf as [->|[->| ->]]; [by left|by right; left|]. right. right. split; [done|].
  cbn in Hk. by apply negb_true_iff in Hk.
Qed.


Lemma siem_stage c c' :
  validateSIEM c = Valid c' ->
  exists s, c' = set_outputs (Evidence c) (Logging c) (Observability c) (Webhook c) s c /\ siem_ok s /\ filled_siem (SIEM c) s.
Proof.
  unfold validateSIEM, siem_ok, filled_siem. destruct (siem_enabled (SIEM c)) eqn:Es; cbn [negb].
  2: { intros [= <-]. exists (SIEM c). split_and!; [by destruct c|by rewrite Es|done..]. }
  intros (f & Hf & (v & Hv & ([] & Ht%require_valid & [= <-])%bind_valid)%bind_valid)%bind_valid.
  eexists. split; [reflexivity|]. cbn. apply verdict_valid in Hv as [Hv Hvg].
  assert ((f = gostr "ocsf" \/ f = gostr "cef") /\ f = given_or (ToLower (si_Format (SIEM c))) "ocsf") as [Hf' Hfg].
  { unfold siem_format in Hf. destruct (bool_decide _ || _) eqn:E; [injection Hf as <-; split; [by left|by apply switch_given]|].
    destruct (equals _ "cef") eqn:E1; [|done]. injection Hf as <-. destruct (switch_other _ _ _ E E1) as [E2 E3]. split; [by right|by rewrite <- E3]. }
  split; [by intros _|by split_and!].
Qed.


End cases.

Lemma require_then (b : bool) e {A} (m : checked A) a : (require b e ≫= λ _, m) = Valid a <-> b = true /\ m = Valid a.
Proof. destruct b; cbn; [tauto|]. split; [done|by intros [? _]]. Qed.

Lemma fail_closed_check (sensorMode : bool) c :
  validateFailClosed sensorMode c = Valid tt <-> fail_closed_ok sensorMode (LSMEnforce c) (FailClosed c).
Proof.
  unfold validateFailClosed, fail_closed_ok. destruct (fc_Enabled (FailClosed c)); cbn [negb]; [|done].
  rewrite !require_then, !Forall_cons, require_valid, negb_true_iff, andb_false_iff, negb_false_iff, negb_true_iff. split.
  - intros (Hl & Hf & H1 & H2 & H3) _. split_and!; try done. intros ->. by destruct Hl.
  - intros Hok. destruct (Hok eq_refl) as (Hl & Hf & H1 & H2 & H3 & _). split_and!; [|done..]. destruct sensorMode; [right; by apply Hl|by left].
Qed.

Lemma bridge_check c : validateTaintBridge c = Valid tt <-> bridge_ok (TaintBridge c).
Proof.
  unfold validateTaintBridge, bridge_ok. destruct (tb_Enabled (TaintBridge c)); cbn [negb]; [|done].
  rewrite !require_then, require_valid, negb_true_iff, andb_false_iff, !bool_decide_eq_false, !forallb_forall, Z.leb_le, !Forall_forall.
  setoid_rewrite Z.leb_le. setoid_rewrite <- list_elem_of_In. tauto.
Qed.

(** ** The servers *)

Lemma check_servers_spec i seen servers :
  check_servers i seen servers = Valid tt <->
  Forall (λ s, sc_ID s ≠ [] /\ sc_Command s ≠ []) servers /\ NoDup (map sc_ID servers) /\
  (forall s, s ∈ servers -> sc_ID s ∉ seen).
Proof.
  revert i seen. induction servers as [|s servers IH]; intros i seen; cbn [check_servers map].
  { split; [|done]. intros _. split_and!; [done|constructor|set_solver]. }
  rewrite !require_then, IH, !negb_true_iff, !bool_decide_eq_false, Forall_cons, NoDup_cons. split.
  - intros (Hid & Hc & Hs & Hf & Hnd & Hx). split_and!; try done.
    + intros Hin. apply list_elem_of_fmap in Hin as (s' & E & Hin). apply (Hx s' Hin). rewrite E. set_solver.
    + intros s' [->|Hin]%elem_of_cons; [done|]. specialize (Hx s' Hin). set_solver.
  - intros ([[Hid Hc] Hf] & [Hn Hnd] & Hx). split_and!; try done; [apply Hx; set_solver|].
    intros s' Hin [E|Hs]%elem_of_cons; [|apply (Hx s'); set_solver]. apply Hn. rewrite <- E. by apply list_elem_of_fmap_2.
Qed.

Lemma resolve_spec fs servers out m :
  NoDup (map sc_ID servers) -> resolve_servers fs servers out = Valid m ->
  (forall s, s ∈ servers -> exists p, ResolveSpawnExecutable fs (sc_Command s) = inr p) /\
  (forall id p, m !! id = Some p <->
     (exists s, s ∈ servers /\ sc_ID s = id /\ ResolveSpawnExecutable fs (sc_Command s) = inr p) \/
     (out !! id = Some p /\ id ∉ map sc_ID servers)).
Proof.
  revert out. induction servers as [|s servers IH]; intros out Hnd; cbn [resolve_servers map] in *.
  { intros [= <-]. split; [set_solver|]. intros id p. set_solver. }
  apply NoDup_cons in Hnd as [Hn Hnd]. destruct (ResolveSpawnExecutable fs (sc_Command s)) as [e|r] eqn:Er; [done|].
  intros Hm. destruct (IH _ Hnd Hm) as [Hall Hspec]. split.
  { intros s' [->|Hin]%elem_of_cons; [by exists r|by apply Hall]. }
  intros id p. rewrite Hspec, lookup_insert_Some. split.
  - intros [(s' & Hin & Hid & Hp)|[[[Hid <-]|[Hid Ho]] Hx]].
    + left. exists s'. split_and!; [by right|done..].
    + left. exists s. split_and!; [by left|done..].
    + right. split; [done|]. rewrite not_elem_of_cons. by split.
  - intros [(s' & [->|Hin]%elem_of_cons & Hid & Hp)|[Ho Hx]].
    + right. split; [left; split; [done|congruence]|by rewrite <- Hid].
    + left. by exists s'.
    + apply not_elem_of_cons in Hx as [Hne Hx]. right. split; [right; split; [done|done]|done].
Qed.

Lemma resolve_total fs servers out :
  (forall s, s ∈ servers -> exists p, ResolveSpawnExecutable fs (sc_Command s) = inr p) ->
  exists m, resolve_servers fs servers out = Valid m.
Proof.
  revert out. induction servers as [|s servers IH]; intros out Hall; [by exists out|]. cbn [resolve_servers].
  destruct (Hall s) as [p ->]; [by left|]. apply IH. intros s' Hin. apply Hall. by right.
Qed.

Lemma pins_build fs servers m :
  NoDup (map sc_ID servers) -> resolve_servers fs servers ∅ = Valid m <-> pins fs servers m.
Proof.
  intros Hnd. split.
  - intros Hm. destruct (resolve_spec _ _ _ _ Hnd Hm) as [Hall Hspec]. split; [done|]. intros id p. rewrite Hspec, lookup_empty. naive_solver.
  - intros [Hall Hspec]. destruct (resolve_total fs servers ∅ Hall) as [m' Hm']. rewrite Hm'. f_equal.
    destruct (resolve_spec _ _ _ _ Hnd Hm') as [_ Hspec']. apply map_eq. intros id. apply option_eq. intros p.
    rewrite Hspec, Hspec', lookup_empty. naive_solver.
Qed.

Lemma extras_spec fs entries l :
  resolve_extras fs entries = Valid l <-> Forall2 (λ cmd p, ResolveSpawnExecutable fs cmd = inr p) entries l.
Proof.
  revert l. induction entries as [|cmd entries IH]; intros l; cbn [resolve_extras].
  { split; [intros [= <-]; constructor|by intros ->%Forall2_nil_inv_l]. }
  destruct (ResolveSpawnExecutable fs cmd) as [e|p] eqn:E.
  { split; [done|]. intros (q & l' & Hq & _)%Forall2_cons_inv_l. congruence. }
  rewrite bind_valid. split.
  - intros (l' & Hl & [= <-]). constructor; [done|by apply IH].
  - intros (q & l' & Hq & Hl & ->)%Forall2_cons_inv_l. exists l'. split; [by apply IH|]. congruence.
Qed.

Lemma servers_stage (sensorMode : bool) fs c c' :
  validateServers sensorMode fs c = Valid c' ->
  (exists m l, c' = set_resolved m l c) /\ servers_ok sensorMode fs c'.
Proof.
  unfold validateServers, servers_ok. intros Hv.
  assert (Servers c = [] /\ sensorMode = true /\ c' = c \/
          Servers c ≠ [] /\ check_servers 0 [] (Servers c) = Valid tt /\
          (if sensorMode then Valid c
           else resolved ← BuildResolvedSpawnCommands fs c; extras ← BuildResolvedSpawnExtras fs c; Valid (set_resolved resolved extras c)) = Valid c') as Hc.
  { destruct (Servers c) as [|s ss]; [destruct sensorMode; [injection Hv as <-; by left|done]|]. right. split; [done|].
    by apply bind_valid in Hv as ([] & ? & ?). }
  clear Hv. destruct Hc as [(Es & -> & ->)|(Hne & Hcheck & Hv)].
  { split; [exists (ResolvedSpawnCommands c), (ResolvedSpawnAllowlist c); by destruct c|]. rewrite Es. split_and!; [done|done|constructor|done]. }
  apply check_servers_spec in Hcheck as (Hf & Hnd & _). destruct sensorMode.
  - injection Hv as <-. split; [exists (ResolvedSpawnCommands c), (ResolvedSpawnAllowlist c); by destruct c|]. by split_and!.
  - apply bind_valid in Hv as (m & Hm & (l & Hl & [= <-])%bind_valid). split; [by exists m, l|]. split_and!; [done..|].
    intros _. split; [by apply pins_build|by apply extras_spec].
Qed.


(** What [validate] does not touch. *)
Definition untouched (c c' : Settings) : Prop :=
  LSMEnforce c' = LSMEnforce c /\ FailClosed c' = FailClosed c /\ Sandbox c' = Sandbox c /\ TaintBridge c' = TaintBridge c /\
  engine_settings c' = engine_settings c.

Section properties.

Context `{UnicodeLower} `{UnicodeUpper}.

Lemma validate_ok (sensorMode : bool) fs c c' :
  validate sensorMode fs c = Valid c' -> settled sensorMode fs c' /\ filled c c' /\ untouched c c'.
Proof.
  unfold validate. intros (c1 & H1 & (c2 & H2 & (c3 & H3 & (c4 & H4 & (c5 & H5 & (c6 & H6 & (c7 & H7 &
    ([] & H8 & ([] & H9 & H10)%bind_valid)%bind_valid)%bind_valid)%bind_valid)%bind_valid)%bind_valid)%bind_valid)%bind_valid)%bind_valid.
  apply enforcement_stage in H1 as (e & -> & ? & ?). apply transport_stage in H2 as (t & s & -> & ? & ?).
  apply evidence_stage in H3 as (ev & -> & ? & ?). apply logging_stage in H4 as (l & -> & ? & ?).
  apply observability_stage in H5 as (o & -> & ? & ?). apply webhook_stage in H6 as (w & -> & ? & ?).
  apply siem_stage in H7 as (si & -> & ? & ?). apply fail_closed_check in H8. apply bridge_check in H9.
  apply servers_stage in H10 as [(m & x & ->) Hs]. split; [by constructor|split; [by constructor|done]].
Qed.



(** ** The start of a server *)

Lemma validate_spawn fs id command policy p :
  ValidateSpawnCommand fs id command policy = inr p <->
  ResolveSpawnExecutable fs command = inr p /\ (Allowed policy !! id = Some p \/ p ∈ Extras policy).
Proof.
  unfold ValidateSpawnCommand. destruct (ResolveSpawnExecutable fs command) as [e|r]; [split; [done|by intros [? _]]|].
  split.
  - do 2 (case_bool_decide; [intros [= <-]; by auto|]). by destruct (Allowed policy !! id).
  - intros [[= ->] [Hp|Hp]]; [by rewrite bool_decide_eq_true_2|]. case_bool_decide; [done|]. by rewrite bool_decide_eq_true_2.
Qed.

Lemma child_not_root getenv cred : childCredential 0 getenv = cred -> exists uid gid, cred = Some (uid, gid) /\ 0 < uid < 2 ^ 32.
Proof.
  unfold childCredential. cbn [Z.eqb negb]. unfold ParseUint32.
  destruct (ParseUint (getenv (gostr "SUDO_UID"))) as [uid|] eqn:Eu; cbn [mbind option_bind]; [|intros <-; by do 2 eexists].
  assert (0 <= uid) as Hu by (by eapply ParseUint_nonneg).
  destruct (Z.ltb_spec uid (2 ^ 32)) as [Hlt|]; [|intros <-; by do 2 eexists].
  destruct (z ← ParseUint (getenv (gostr "SUDO_GID")); if z <? 2 ^ 32 then Some z else None) as [gid|]; [|intros <-; by do 2 eexists].
  destruct (Z.eqb_spec uid 0); intros <-; do 2 eexists; (split; [done|]); [done|]. unfold u32. rewrite Z.mod_small; lia.
Qed.

(** C21: a server of a validated configuration is confined. Whatever became of the file system since [fs] of
    the validation, a start of it runs the executable its command resolved to in [fs], or one an entry
    of the allowlist resolved to; a proxy that is root starts it as somebody else; the
    network namespace is the configured one; and as long as its command resolves as it did, it is not refused. *)
Theorem spawn_pinned (fs fs' : filesystem) (c c' : Settings) (s : ServerConfig) (euid : Z) (getenv : bytes -> bytes) :
  validate false fs c = Valid c' -> s ∈ Servers c' ->
  (forall cmd, start_server fs' euid getenv c' s = inr cmd ->
     (ResolveSpawnExecutable fs (sc_Command s) = inr (cmdPath cmd) \/
      exists entry, entry ∈ sb_SpawnAllowlist (Sandbox c) /\ ResolveSpawnExecutable fs entry = inr (cmdPath cmd)) /\
     ResolveSpawnExecutable fs' (sc_Command s) = inr (cmdPath cmd) /\ cmdArgs cmd = sc_Args s /\
     cmdNewNet cmd = sb_NetNS (Sandbox c) /\
     (euid = 0 -> exists uid gid, cmdCredential cmd = Some (uid, gid) /\ 0 < uid < 2 ^ 32)) /\
  (ResolveSpawnExecutable fs' (sc_Command s) = ResolveSpawnExecutable fs (sc_Command s) ->
   exists cmd, start_server fs' euid getenv c' s = inr cmd).
Proof.
  intros Hv Hs. apply validate_ok in Hv as (Hset & _ & _ & _ & Hsb & _ & _). destruct (st_servers _ _ _ Hset) as (_ & _ & Hnd & Hr).
  destruct (Hr eq_refl) as [[Hall Hpin] Hex]. unfold start_server, StartServer. split.
  - intros cmd. destruct (ValidateSpawnCommand _ _ _ _) as [e|p] eqn:Ev; intros [= <-]. cbn.
    apply validate_spawn in Ev as [Hres Hp]. split_and!; [|done|done|by rewrite Hsb|].
    + destruct Hp as [(s' & Hin & Hid & Hp)%Hpin|Hp].
      * left. assert (s' = s) as <- by (by eapply (NoDup_key sc_ID)). done.
      * right. rewrite <- Hsb. apply list_elem_of_lookup in Hp as [i Hi].
        destruct (Forall2_lookup_r _ _ _ _ _ Hex Hi) as (entry & He & Hres'). exists entry. split; [by eapply list_elem_of_lookup_2|done].
    + intros ->. by eapply child_not_root.
  - intros Heq. destruct (Hall s Hs) as [p Hp]. rewrite (proj2 (validate_spawn fs' _ _ _ p)); [by eexists|].
    split; [by rewrite Heq|]. left. apply Hpin. by exists s.
Qed.

End properties.

(** ** Demonstration *)

#[local] Instance plain_lower : UnicodeLower := λ r, r.
#[local] Instance plain_upper : UnicodeUpper := λ r, r.

Definition files_server : ServerConfig := {|
  sc_ID := gostr "files"; sc_Command := gostr " ./servers/files"; sc_Args := [gostr "-v"]; sc_ProvidesTags := [] |}.

(** A configuration that gives little more than its server, with [f] for fail_closed. *)
Definition given (f : FailClosedConfig) : Settings := {|
  Transport := {| tr_Mode := gostr "http"; tr_Listen := []; tr_Endpoint := []; tr_ProtocolVersion := []; tr_PreferSSEResponses := false;
                  tr_BearerToken := []; tr_RateLimitRPS := f64 0 |};
  Sessions := {| MaxConcurrent := 0; IdleTimeout := [] |};
  Evidence := {| ev_Backend := gostr "sqlite"; ev_Path := []; ev_MaxRecords := 0; ev_Backpressure := []; ev_QueueSize := 0 |};
  Logging := {| lg_Backpressure := gostr "drop"; lg_QueueSize := 0 |};
  Observability := {| ob_Listen := gostr ":9090"; ob_MetricsPath := []; ob_HealthPath := [] |};
  Webhook := {| wh_URL := gostr "https://hooks"; wh_Format := gostr "Slack"; wh_MinVerdict := gostr " exfil"; wh_Timeout := gostr "5s"; wh_PagerDutyRoutingKey := [] |};
  SIEM := {| si_Format := []; si_Path := []; si_URL := []; si_MinVerdict := []; si_Timeout := [] |};
  LSMEnforce := false; FailClosed := f; Enforcement := []; Sandbox := {| sb_NetNS := true; sb_SpawnAllowlist := [] |};
  TaintBridge := {| tb_Enabled := true; tb_SocketPath := []; tb_AllowedUIDs := [0]; tb_AllowedGIDs := []; tb_SocketGID := 0 |};
  engine_settings := {| c_Trifecta := default_trifecta; c_Vault := {| vc_Enabled := false; vc_Authorize := [] |};
                        c_ServerDefaults := {| sd_InheritSinkSuspicion := false; sd_SinkSuspicionAllowlist := [] |};
                        c_SensitivePaths := []; c_Servers := [files_server]; c_ToolTags := ∅; c_ToolResults := true |};
  ResolvedSpawnCommands := ∅; ResolvedSpawnAllowlist := [] |}.

(** The command is a symbolic link to [target]. *)
Definition linked (target : string) : filesystem := {|
  getwd := Some (gostr "/opt");
  EvalSymlinks p := if bool_decide (p = gostr "/opt/servers/files") then Real (gostr target) else NotExist |}.
Arguments linked target%_string.

Definition given_settings : Settings := given default_fail_closed.

Definition checked_settings (c : Settings) : Settings :=
  match validate false (linked "/opt/bin/files") c with Valid c' => c' | Invalid _ => c end.

Lemma given_valid : validate false (linked "/opt/bin/files") given_settings = Valid (checked_settings given_settings).
Proof. vm_compute. reflexivity. Qed.

Lemma given_server : files_server ∈ Servers (checked_settings given_settings).
Proof. vm_compute. left. Qed.

Definition under_sudo (name : bytes) : bytes := if bool_decide (name = gostr "SUDO_UID") then gostr "1000" else gostr "0".


Example spawn_pinned_witness :
  exists cmd, start_server (linked "/opt/bin/files") 0 under_sudo (checked_settings given_settings) files_server = inr cmd.
Proof.
  exact (proj2 (spawn_pinned (linked "/opt/bin/files") (linked "/opt/bin/files") given_settings (checked_settings given_settings) files_server 0 under_sudo
                  given_valid given_server) eq_refl).
Defined.

(** The link points elsewhere when the server is started. *)
Example swapped_link_refused :
  start_server (linked "/tmp/evil") 0 under_sudo (checked_settings given_settings) files_server =
  inl (NotPinned (gostr "/tmp/evil") (gostr "/opt/bin/files")).
Proof. vm_compute. reflexivity. Qed.

(** What the start is told; the group of root is kept when sudo was called by one of its members. *)
Example root_group_kept :
  start_server (linked "/opt/bin/files") 0 under_sudo (checked_settings given_settings) files_server =
  inr {| cmdPath := gostr "/opt/bin/files"; cmdArgs := [gostr "-v"]; cmdNewNet := true; cmdCredential := Some (1000, 0) |}.
Proof. vm_compute. reflexivity. Qed.

(** A command that is not there is pinned all the same: whatever is put there later is started. *)
Example absent_command_pinned : ResolveSpawnExecutable (linked "/opt/bin/files") (gostr "npx") = inr (gostr "/opt/npx").
Proof. vm_compute. reflexivity. Qed.

(** max_records: 0 is documented to keep every record; 1000 are kept. *)
Example unlimited_is_1000 : ev_MaxRecords (Evidence (checked_settings given_settings)) = 1000.
Proof. vm_compute. reflexivity. Qed.

(** A threshold that is not a number is above no rate and below none: it passes the checks, and the
    breaker never finds a drop rate bad. *)
Definition nan_rates : FailClosedConfig := {|
  fc_Enabled := true; fc_RingbufDropRateThreshold := SpecFloat.S754_nan; fc_RingbufRecoveryRateThreshold := f64 10;
  fc_SinkFailureThreshold := 0; fc_PanicThreshold := 0; fc_MinTripDuration := []; fc_RecoveryWindow := [];
  fc_BackoffMultiplier := f64 0; fc_MaxTripDuration := [] |}.

Example nan_passes :
  match validate false (linked "/opt/bin/files") (given nan_rates) with
  | Valid c => next_bad (FailClosed c) (f64 1000000) false = false
  | Invalid _ => False
  end.
Proof. vm_compute. reflexivity. Qed.
